(* ===== verification/_CoqProject ===== *)
-Q . S2P
Prelude.v
P256Multprecision.v
P256Ecc.v
Aes.v
AesRound.v
AesSpec.v
AesOtf.v
CryptoToolbox.v
CmacSpec.v
AdvertiseData.v
ConnectionManager.v
AclScheduler.v
LeScanningReassembler.v
PacketView.v
BitInserter.v
AclAssembler.v
MultiPriorityQueue.v
RoundRobin.v
AddressWithType.v
LeAddressManager.v
LeAddressManagerSpec.v
LeAddressManagerProgress.v
HciLayer.v
HciLayerSpec.v
AddressManagerOverHci.v
RfcommFrames.v
RfcommFramesSpec.v
RfcommMessages.v
RfcommPortState.v
RfcommPort.v
RfcommFsm.v
RfcommPortTrace.v
RfcommFsmSafety.v
RfcommPortSpec.v
RfcommPortExample.v
RfcommPortStream.v
RfcommPortWorld.v
RfcommPortNegotiation.v
RfcommPortRuns.v
RfcommFsmConnection.v
RfcommFsmRuns.v
RfcommFsmRelease.v
