(* ===== verification/Prelude.v ===== *)
(** * Verification of the Fluoride Bluetooth stack

    A development beside the C++ code of the Android Bluetooth stack ([src/system]).
    The parts that are modelled are the ones with logic of their own between the
    radio and the profiles: the cryptography of pairing, the handling of addresses
    and of advertisements, the lists of devices to connect to, the scheduling of
    connections and of data, the packets, the layer that sends commands to the
    controller, and RFCOMM, the serial ports over L2CAP.

    ** How the parts work together

    - The security manager calls the crypto toolbox ([crypto_toolbox]) for keys and
      confirmation values, and the P-256 code for public keys; the toolbox and the
      resolution of private addresses encrypt with the AES code.
    - [LeAddressManager] generates and rotates the local address.  It pauses its
      clients (advertising, scanning, initiating), sends its commands through
      [le_impl::enqueue_command] and [HciLayer::EnqueueCommand], and continues when
      [HciLayer] runs [OnCommandComplete].
    - [HciLayer] sends one command at a time, runs the callbacks, and gives the events to
      the modules that took the interfaces: the advertisements go to
      [LeScanningReassembler], whose output the parser of [advertise_data_parser.h]
      reads.
    - The connection manager decides which devices are in the accept list of the
      controller; [AclScheduler] orders the classic connections.
    - [RoundRobinScheduler] takes packets from the queues of the connections, splits
      them with [AclFragmenter] and sends the fragments while the controller has
      credits; [acl_manager::assembler] puts the fragments of the peer together.
    - Packets are read with [PacketView] and [Iterator] and written with
      [BitInserter] and the builders.
    - An RFCOMM port takes octets from an application, cuts them into frames, sends a
      frame for each credit the peer has given, through the multiplexer it shares with other
      ports and its L2CAP channel, and gives credits back for what the application reads.
      The multiplexer is set up by its state machine when the first port asks for a
      connection, or by the peer; each port then negotiates its channel and has a state
      machine of its own, which asks the security manager before the channel is open.

    ** Files

    - [Prelude.v]: machine integers (an [uintN_t] is a [Z] with [wrap N] where the
      arithmetic wraps), arrays, blocks of bytes, lemmas and tactics.
    - [P256Multprecision.v], [P256Ecc.v]: [stack/smp/p_256_multprecision.cc],
      [p_256_ecc_pp.cc], [p_256_curvepara.cc].  Numbers are lists of 32-bit words,
      least significant first; points are records of three of them.
    - [Aes.v], [AesRound.v], [AesSpec.v], [AesOtf.v]: [gd/crypto_toolbox/aes.cc] as
      compiled (tables, unrolled rounds, CBC, the key schedule computed on the fly),
      and FIPS 197 as the specification.
    - [CryptoToolbox.v], [CmacSpec.v]: [aes_cmac.cc] and [crypto_toolbox.cc], and RFC
      4493 and the functions of the Core Specification.
    - [AdvertiseData.v]: [stack/include/advertise_data_parser.h].
    - [ConnectionManager.v]: [stack/connection_manager/connection_manager.cc]; the
      state is the map of background connections, the calls to the controller are
      outputs, with the address and its type that [btm_dev.cc] finds in its records.
    - [AclScheduler.v]: [gd/hci/acl_manager/acl_scheduler.cc].
    - [LeScanningReassembler.v]: [gd/hci/le_scanning_reassembler.cc].
    - [PacketView.v], [BitInserter.v]: [gd/packet] (views, iterators, inserters,
      builders).
    - [AclAssembler.v]: [acl_fragmenter.cc] and [assembler.h] of
      [gd/hci/acl_manager].
    - [MultiPriorityQueue.v], [RoundRobin.v]: [gd/common/multi_priority_queue.h] and
      [round_robin_scheduler.cc].
    - [AddressWithType.v], [LeAddressManager.v], [LeAddressManagerSpec.v],
      [LeAddressManagerProgress.v]: [gd/hci/address_with_type.h] and
      [le_address_manager.cc]; a world of clients and a controller for the
      properties of its commands.
    - [HciLayer.v], [HciLayerSpec.v]: [gd/hci/hci_layer.cc] with the event lists of the
      interfaces.
    - [AddressManagerOverHci.v]: the two together.
    - [RfcommFrames.v], [RfcommFramesSpec.v], [RfcommMessages.v]: the frames and the
      messages of the multiplexer, [stack/rfcomm/rfc_ts_frames.cc] and [rfc_utils.cc], with
      the buffers they are written into and read from.
    - [RfcommPortState.v], [RfcommPort.v]: the data path of ports, [port_api.cc],
      [port_rfc.cc], [port_utils.cc], [rfc_port_if.cc] and parts of [rfc_port_fsm.cc],
      [rfc_utils.cc] and [rfc_l2cap_if.cc]; the control block [rfc_cb] is the state, frames and
      callbacks are outputs.
    - [RfcommFsm.v]: the state machines of ports and multiplexers, [rfc_port_fsm.cc],
      [rfc_mx_fsm.cc], [rfc_l2cap_if.cc], and the rest of [port_rfc.cc], [port_utils.cc],
      [rfc_port_if.cc], [rfc_utils.cc] and [port_api.cc].  What the application, L2CAP, the
      security manager and the timers do are inputs; a run takes a list of them.
    - [RfcommFsmSafety.v] (a security check before a port is open), [RfcommFsmRelease.v]
      (a connection is lost), [RfcommFsmConnection.v] (two devices connect, in every
      interleaving, octet by octet), [RfcommFsmRuns.v] (concrete runs).
    - [RfcommPortTrace.v] (outputs only grow, and the data path leaves connections alone), [RfcommPortSpec.v] (what operations leave of a
      port and channel they are not about), [RfcommPortStream.v] (the invariant of
      a port and its channel), [RfcommPortWorld.v] (two devices and the channel between them),
      [RfcommPortNegotiation.v] (the PN messages), [RfcommPortExample.v] and
      [RfcommPortRuns.v] (concrete states and runs).

    Where the code has a class, the model has a record with the names of its fields
    and a function per method; where it posts work to a handler, the posted tasks
    are part of the state and a step runs the oldest; where it calls another
    component, the call is an output.  A failed assertion is [None].

    ** What the theorems show

    - Arithmetic: the reduction modulo the prime of P-256 is exact when its carries do
      not go below zero twice, and an input where they do; inversion terminates on every input,
      with the inverse where there is one; doubling and addition stay on the curve;
      the signed form of a scalar has its value and no two adjacent digits; validation is the
      equation of the curve modulo the prime, which holds of coordinates that are not
      reduced as well.
    - Cryptography: AES, its inverse and its variant on the fly are FIPS 197; CMAC is
      RFC 4493, for every length and truncation; the functions of the toolbox are those of the
      Core Specification; a generated resolvable address resolves with its key.
    - Containers and packets: fields written bit by bit are read back; views refine
      lists of bytes; fragments of a packet are put together to the packet; parsers
      read back what was written and stay in bounds.
    - Queues: the scheduler of data sends every packet of a connection in order and once,
      and its credits add up; commands of the HCI layer and of the address manager
      are sent in order, once, one at a time or while clients are paused, and their
      callbacks run in the same order; classic connections start in order.
    - State: the accept list of the controller is the one of the map, as long as the type of
      an address does not change, and runs where it does; the caches of
      the reassembler are bounded and keep advertisers apart; no step loses the
      wake-up of a waiting connection; with a policy that rotates addresses, and while a client
      stays registered, no request to the address manager is forgotten, also over the
      HCI layer.
    - RFCOMM: checksum and frames are read as they were written, the messages as far as
      their fields hold the values, with the ones that are refused or ignored; no input makes
      the parsers leave the buffer; between two devices the octets that are written on a
      channel are the ones that are read, in order, none lost, within the credits,
      under congestion by data and by commands and whatever the other ports do (the conditions
      are below), and data does not stay behind when
      the reader keeps up; the negotiation of a channel makes both sides agree.  Two
      devices that start from nothing reach such a channel, for every channel number, in every
      interleaving and with every answer of the security manager, or report the failure
      when a check fails; no run
      opens a port without a security check that was passed; and a lost connection leaves
      nothing behind of its multiplexer.
    - Errors: exactly when the HCI layer aborts; what it does with answers after a
      timeout, until the debug information comes and after it; and the sequences that lead the code to a stall, an abort, a stale entry
      or an overflow.

    ** Bounds and fuel

    The loops of the source are structural or have a fuel that is proved to be
    enough: 256 bits to strip and 513 steps for the inversion modulo the prime, 257
    digits of the signed form, the length of the data plus one for the loops over
    advertising data, the number of applications plus two for
    [remove_all_clients], the length plus two for the insertion of iterators, the size
    of the queue plus one for the loop that drops packets.  The loop that looks for
    an address different from the public one has no bound in the code: its
    fuel is a hypothesis on the random bytes.  A port sends or writes at least one buffer
    or octet in each round, so that the length of the queue, or of the data, plus one is
    enough; the loops over commands and over received buffers are structural.  The concrete runs of the HCI layer
    drain 100 tasks, more than all interfaces post; two RFCOMM devices
    make fewer than 20 moves until they are connected or have failed, which the theorem shows
    for every order of them.

    ** Hypotheses on the environment

    Random bytes are a stream of bytes that is not constantly the public address; a
    client of the address manager acknowledges in the order it is asked; the
    controller completes commands in order and, for the scheduler of data, completes
    only packets it has been given; serialized commands have an operation code
    that [GetOpCode] reads; L2CAP delivers the frames of an RFCOMM channel in order and
    reports the end of congestion only when it can take the commands that wait, no peer uses
    FCON or FCOFF, and the port of the
    channel is not closed and is used with [PORT_WriteData] and [PORT_ReadData]
    ([RfcommPortRuns.v] shows what happens otherwise); the type of the address of a device does not change
    while it is in the accept list.  Each theorem that uses one has an instance
    where it holds.

    ** Not modelled

    The generated packets (pdl), threads and locks (every component runs on one
    handler), logging and metrics, the Java services and the bindings, codecs, and
    the input and output of the HAL.  Of RFCOMM: the fields and functions for metrics and
    the snoop log, and applications that call back into the layer before their callback
    returns.  Of the stack itself: GATT, L2CAP, SDP, the pairing state machine, the
    profiles in [bta] and [btif], which are large and would each be a development of
    their own.  The ones that would come next: L2CAP retransmission, the pairing state
    machine, the text of addresses and UUIDs, the configuration cache.

    ** This file: prelude *)

From stdpp Require Import base list gmap.
From Stdlib Require Import ZArith Lia Znumtheory Btauto.

Open Scope Z_scope.

(** ** Machine integers

    A C++ [uintN_t] is a [Z] kept in range by [wrap N] wherever the source
    arithmetic wraps. *)

Definition wrap (w x : Z) : Z := x mod 2 ^ w.

Declare Scope word_scope.
Delimit Scope word_scope with word.
Notation "'u8' x" := (wrap 8 x) (at level 9, x at level 9) : word_scope.
Notation "'u16' x" := (wrap 16 x) (at level 9, x at level 9) : word_scope.
Notation "'u32' x" := (wrap 32 x) (at level 9, x at level 9) : word_scope.
Open Scope word_scope.

(** The integer value of a C++ [bool]. *)
Definition b2z (b : bool) : Z := if b then 1 else 0.

(** [in_range w x]: [x] is a value of an unsigned [w]-bit integer. *)
Definition in_range (w x : Z) : Prop := 0 <= x < 2 ^ w.

#[export] Instance in_range_dec w x : Decision (in_range w x).
Proof. unfold in_range. apply _. Defined.

(** Read of an array cell; every read of the model is in bounds. *)
Definition rd (a : list Z) (i : nat) : Z := nth i a 0.

(** ** Generic lemmas *)

Create HintDb word discriminated.
#[export] Hint Constants Opaque : word.

Lemma wrap_range w x : 0 <= w -> in_range w (wrap w x).
Proof. intros Hw. unfold in_range, wrap. apply Z.mod_pos_bound. lia. Qed.

Lemma wrap_small w x : in_range w x -> wrap w x = x.
Proof. unfold in_range, wrap. intros H. by apply Z.mod_small. Qed.

Lemma wrap_idemp w x : 0 <= w -> wrap w (wrap w x) = wrap w x.
Proof. intros Hw. by apply wrap_small, wrap_range. Qed.

(** Wrapping is a sum with some multiple of [2 ^ w]. *)
Lemma wrap_spec w x : 0 <= w -> exists k, wrap w x = x + k * 2 ^ w /\ in_range w (wrap w x).
Proof.
  intros Hw. exists (- (x / 2 ^ w)). split; [|by apply wrap_range].
  unfold wrap. rewrite Z.mod_eq by lia. lia.
Qed.

Lemma wrap_add_idemp_l w x y : wrap w (wrap w x + y) = wrap w (x + y).
Proof. unfold wrap. by rewrite Zplus_mod_idemp_l. Qed.

Lemma wrap_sub_idemp_l w x y : wrap w (wrap w x - y) = wrap w (x - y).
Proof. unfold wrap. by rewrite Zminus_mod_idemp_l. Qed.

#[export] Hint Resolve wrap_range wrap_small : word.

Lemma lor_b2z a b : Z.lor (b2z a) (b2z b) = b2z (a || b).
Proof. by destruct a, b. Qed.

(** Disjoint bits: an [or] is a sum. *)
Lemma lor_add a b : Z.land a b = 0 -> Z.lor a b = a + b.
Proof. intros H. by rewrite Z.add_nocarry_lxor, Z.lxor_lor. Qed.

Lemma b2z_range b : 0 <= b2z b <= 1.
Proof. destruct b; cbn; lia. Qed.

(** Decide every boolean comparison on [Z] in the goal. *)
Ltac zcmp :=
  repeat match goal with
  | |- context [?a <? ?b] => destruct (Z.ltb_spec a b)
  | |- context [?a >? ?b] => rewrite (Z.gtb_ltb a b)
  | |- context [?a <=? ?b] => destruct (Z.leb_spec a b)
  | |- context [?a >=? ?b] => rewrite (Z.geb_leb a b)
  | |- context [?a =? ?b] => destruct (Z.eqb_spec a b)
  end.

(** The same on a hypothesis. *)
Ltac zcmp_in H :=
  repeat match type of H with
  | context [?a <? ?b] => destruct (Z.ltb_spec a b)
  | context [?a >? ?b] => rewrite (Z.gtb_ltb a b) in H
  | context [?a <=? ?b] => destruct (Z.leb_spec a b)
  | context [?a >=? ?b] => rewrite (Z.geb_leb a b) in H
  | context [?a =? ?b] => destruct (Z.eqb_spec a b)
  end.

(** A closed decidable proposition, by evaluation of its decision procedure. *)
Ltac by_decide := apply (bool_decide_unpack _); vm_compute; exact I.

(** Linear arithmetic with division and remainder by constants. *)
Ltac dmlia := Z.div_mod_to_equations; lia.

(** Congruences modulo [n] are proved by giving the quotient. *)
Lemma mod_eq_by (n a b k : Z) : a = b + k * n -> a mod n = b mod n.
Proof. intros ->. apply Z_mod_plus_full. Qed.

(** ** Bytes and byte arrays *)

Notation "a .[ i ]" := (rd a i) (at level 1, i at level 200, format "a .[ i ]") : word_scope.
Notation "a .[ i <- v ]" := (<[i%nat := v]> a) (at level 1, i at level 200, v at level 200)
  : word_scope.

Abbreviation byte := (in_range 8).

(** Bytewise exclusive or. *)
Definition xorl (a b : list Z) : list Z := zip_with Z.lxor a b.

(** A block: [n] bytes. *)
Definition block (n : nat) (l : list Z) : Prop := length l = n /\ Forall byte l.

#[export] Instance block_dec n l : Decision (block n l).
Proof. unfold block. apply _. Defined.

Lemma lxor_range w a b : 0 <= w -> in_range w a -> in_range w b -> in_range w (Z.lxor a b).
Proof.
  intros Hw Ha Hb. rewrite <- (wrap_small w a), <- (wrap_small w b) by done.
  unfold wrap. rewrite <- !Z.land_ones by done.
  assert (Z.lxor (Z.land a (Z.ones w)) (Z.land b (Z.ones w)) = Z.land (Z.lxor a b) (Z.ones w)) as ->.
  { apply Z.bits_inj'. intros n _. rewrite !Z.lxor_spec, !Z.land_spec, Z.lxor_spec.
    by destruct (Z.testbit a n), (Z.testbit b n), (Z.testbit (Z.ones w) n). }
  rewrite Z.land_ones by done. by apply wrap_range.
Qed.

Lemma byte_lxor a b : byte a -> byte b -> byte (Z.lxor a b).
Proof. by apply lxor_range. Qed.

#[export] Hint Resolve byte_lxor : word.

Lemma length_xorl a b : length a = length b -> length (xorl a b) = length a.
Proof. intros H. unfold xorl. rewrite length_zip_with. lia. Qed.

Lemma xorl_bytes a b : Forall byte a -> Forall byte b -> Forall byte (xorl a b).
Proof.
  intros Ha Hb. unfold xorl. revert b Hb.
  induction Ha; intros b [|y l' Hy Hl']; cbn; constructor; auto with word.
Qed.

Lemma xorl_comm a b : xorl a b = xorl b a.
Proof.
  unfold xorl. revert b. induction a as [|x a IH]; intros [|y b]; cbn; try done.
  by rewrite Z.lxor_comm, IH.
Qed.

(** Adding the same block twice cancels. *)
Lemma xorl_cancel a b : (length a <= length b)%nat -> xorl (xorl a b) b = a.
Proof.
  unfold xorl. revert b. induction a as [|x a IH]; intros [|y b] H; cbn in *; try done; try lia.
  f_equal; [|apply IH; lia]. by rewrite Z.lxor_assoc, Z.lxor_nilpotent, Z.lxor_0_r.
Qed.

Lemma block_xorl n a b : block n a -> block n b -> block n (xorl a b).
Proof.
  intros [? ?] [? ?]. split; [rewrite length_xorl; congruence | by apply xorl_bytes].
Qed.

#[export] Hint Resolve block_xorl : word.

(** A property of every byte, by evaluation over the 256 values. *)
Lemma forall_byte (P : Z -> bool) : forallb P (seqZ 0 256) = true -> forall x, byte x -> P x = true.
Proof.
  intros H x Hx. rewrite forallb_forall in H. apply H, list_elem_of_In, elem_of_seqZ.
  unfold in_range in Hx. lia.
Qed.

Lemma forall_byte_eq (f g : Z -> Z) :
  forallb (fun x => f x =? g x) (seqZ 0 256) = true -> forall x, byte x -> f x = g x.
Proof. intros H x Hx. by apply Z.eqb_eq, (forall_byte (fun x => f x =? g x)). Qed.

(** Expose the cells of a list of known length. *)
Ltac expose l :=
  repeat (match goal with
  | H : length l = S _ |- _ => let x := fresh "b" in destruct l as [|x l]; [discriminate H|]; cbn in H; apply Nat.succ_inj in H
  | H : length l = 0%nat |- _ => apply nil_length_inv in H; subst l
  end).

(** An exclusive-or identity, bit by bit. *)
Ltac xor_bits :=
  apply Z.bits_inj'; let n := fresh "n" in intros n _; rewrite ?Z.lxor_spec, ?Z.bits_0;
  repeat match goal with |- context [Z.testbit ?a n] => generalize (Z.testbit a n); intro end;
  btauto.

(** Two folds that agree on the states an invariant allows. *)
Lemma fold_left_inv {A B} (P : A -> Prop) (f g : A -> B -> A) (l : list B) (a : A) :
  P a -> (forall s r, r ∈ l -> P s -> f s r = g s r /\ P (g s r)) ->
  fold_left f l a = fold_left g l a /\ P (fold_left g l a).
Proof.
  revert a. induction l as [|r l IH]; intros a Ha H; [done|]. cbn.
  destruct (H a r ltac:(left) Ha) as [-> Hg]. apply IH; [done|].
  intros s r' Hr. apply H. by right.
Qed.

(** Undoing the steps of a fold in reverse order. *)
Lemma fold_left_undo {A B} (P : A -> Prop) (f g : A -> B -> A) (l : list B) (a : A) :
  P a -> (forall s r, r ∈ l -> P s -> P (f s r) /\ g (f s r) r = s) ->
  fold_left g (rev l) (fold_left f l a) = a.
Proof.
  revert a. induction l as [|r l IH]; intros a Ha H; [done|]. cbn.
  rewrite fold_left_app. cbn. destruct (H a r ltac:(left) Ha) as [Hf Hg].
  rewrite IH; [done|done|]. intros s r' Hr. apply H. by right.
Qed.
