(* ===== verification/P256Multprecision.v ===== *)
(** * The P-256 multiprecision arithmetic of the Security Manager

    Models [system/stack/smp/p_256_multprecision.cc] and the modulus of
    [p_256_curvepara.cc].  A 256-bit number is a little-endian list of eight
    32-bit words. *)

From S2P Require Import Prelude.
From stdpp Require Import base list.
From Stdlib Require Import ZArith Lia Znumtheory.

Open Scope Z_scope.

Definition KEY_LENGTH_DWORDS_P256 : nat := 8.
Definition DWORD_BITS : Z := 32.
Definition DWORD_BITS_SHIFT : Z := 5.

(** [curve_p256.p], as [p_256_init_curve] sets it. *)
Definition modp : list Z :=
  [0xFFFFFFFF; 0xFFFFFFFF; 0xFFFFFFFF; 0; 0; 0; 0x00000001; 0xFFFFFFFF].

(** [multiprecision_init(c)]: zero the first eight words of the buffer. *)
Definition multiprecision_init (c : list Z) : list Z :=
  replicate KEY_LENGTH_DWORDS_P256 0 ++ drop KEY_LENGTH_DWORDS_P256 c.

(** [multiprecision_copy(c, a)]. *)
Definition multiprecision_copy (c a : list Z) : list Z :=
  take KEY_LENGTH_DWORDS_P256 a ++ drop KEY_LENGTH_DWORDS_P256 c.

(** The loop of [multiprecision_compare], from word [i - 1] down to word 0. *)
Fixpoint compare_loop (i : nat) (a b : list Z) : Z :=
  match i with
  | O => 0
  | S j =>
      if rd a j >? rd b j then 1
      else if rd a j <? rd b j then -1
      else compare_loop j a b
  end.

Definition multiprecision_compare (a b : list Z) : Z :=
  compare_loop KEY_LENGTH_DWORDS_P256 a b.

(** The loop of [multiprecision_iszero] over the words that are left. *)
Fixpoint iszero_loop (a : list Z) : Z :=
  match a with
  | [] => 1
  | x :: a' => if x =? 0 then iszero_loop a' else 0
  end.

Definition multiprecision_iszero (a : list Z) : Z :=
  iszero_loop (take KEY_LENGTH_DWORDS_P256 a).

(** [for (i = 0; i < DWORD_BITS; i++, a >>= 1) if (a == 0) break;] with [n]
    iterations left. *)
Fixpoint dword_bits_loop (n : nat) (i a : Z) : Z :=
  match n with
  | O => i
  | S n' => if a =? 0 then i else dword_bits_loop n' (i + 1) (Z.shiftr a 1)
  end.

Definition multiprecision_dword_bits (a : Z) : Z :=
  dword_bits_loop (Z.to_nat DWORD_BITS) 0 a.

(** The loop of [multiprecision_most_signdwords]: [i] is the C index plus one. *)
Fixpoint most_signdwords_loop (i : nat) (a : list Z) : Z :=
  match i with
  | O => 0
  | S j => if rd a j =? 0 then most_signdwords_loop j a else Z.of_nat (S j)
  end.

Definition multiprecision_most_signdwords (a : list Z) : Z :=
  most_signdwords_loop KEY_LENGTH_DWORDS_P256 a.

Definition multiprecision_most_signbits (a : list Z) : Z :=
  let aMostSignDWORDs := multiprecision_most_signdwords a in
  if aMostSignDWORDs =? 0 then 0
  else Z.shiftl (aMostSignDWORDs - 1) DWORD_BITS_SHIFT +
       multiprecision_dword_bits (rd a (Z.to_nat (aMostSignDWORDs - 1))).

(** The loop of [multiprecision_add], with the carry so far. *)
Fixpoint add_loop (a b : list Z) (carrier : Z) : list Z * Z :=
  match a, b with
  | ai :: a', bi :: b' =>
      let temp := u32 (ai + carrier) in
      let carrier := b2z (temp <? carrier) in
      let temp := u32 (temp + bi) in
      let carrier := Z.lor carrier (b2z (temp <? bi)) in
      let '(c, out) := add_loop a' b' carrier in
      (temp :: c, out)
  | _, _ => ([], carrier)
  end.

(** [multiprecision_add(c, a, b)]: the words of [c] and the returned carry. *)
Definition multiprecision_add (a b : list Z) : list Z * Z := add_loop a b 0.

(** The loop of [multiprecision_sub], with the borrow so far. *)
Fixpoint sub_loop (a b : list Z) (borrow : Z) : list Z * Z :=
  match a, b with
  | ai :: a', bi :: b' =>
      let temp := u32 (ai - borrow) in
      let borrow := b2z (temp >? ai) in
      let ci := u32 (temp - bi) in
      let borrow := Z.lor borrow (b2z (ci >? temp)) in
      let '(c, out) := sub_loop a' b' borrow in
      (ci :: c, out)
  | _, _ => ([], borrow)
  end.

(** [multiprecision_sub(c, a, b)]: the words of [c] and the returned borrow. *)
Definition multiprecision_sub (a b : list Z) : list Z * Z := sub_loop a b 0.

(** The loop of [multiprecision_lshift]: [(temp << 1) | carrier], the carry
    being the top bit [temp >> 31]. *)
Fixpoint lshift_loop (a : list Z) (carrier : Z) : list Z * Z :=
  match a with
  | [] => ([], carrier)
  | temp :: a' =>
      let ci := Z.lor (u32 (Z.shiftl temp 1)) carrier in
      let '(c, out) := lshift_loop a' (Z.shiftr temp (DWORD_BITS - 1)) in
      (ci :: c, out)
  end.

Definition multiprecision_lshift (a : list Z) : list Z * Z := lshift_loop a 0.

(** The loop of [multiprecision_rshift] runs from the top word down; the
    second component is the carry handed to the word below. *)
Fixpoint rshift_loop (a : list Z) : list Z * Z :=
  match a with
  | [] => ([], 0)
  | temp :: a' =>
      let '(c, carrier) := rshift_loop a' in
      (Z.lor (Z.shiftr temp 1) carrier :: c, u32 (Z.shiftl temp (DWORD_BITS - 1)))
  end.

Definition multiprecision_rshift (a : list Z) : list Z := fst (rshift_loop a).

Definition multiprecision_lshift_mod (a : list Z) : list Z :=
  let '(c, carrier) := multiprecision_lshift a in
  if negb (carrier =? 0) then fst (multiprecision_sub c modp)
  else if multiprecision_compare c modp >=? 0 then fst (multiprecision_sub c modp)
  else c.

(** [c = (a + b) mod p], for [a < p] and [b < p]. *)
Definition multiprecision_add_mod (a b : list Z) : list Z :=
  let '(c, carrier) := multiprecision_add a b in
  if negb (carrier =? 0) then fst (multiprecision_sub c modp)
  else if multiprecision_compare c modp >=? 0 then fst (multiprecision_sub c modp)
  else c.

(** [c = (a - b) mod p], for [a < p] and [b < p]. *)
Definition multiprecision_sub_mod (a b : list Z) : list Z :=
  let '(c, borrow) := multiprecision_sub a b in
  if negb (borrow =? 0) then fst (multiprecision_add c modp) else c.

(** The inner loop of [multiprecision_mult]: row [i] adds [ai * b] to the words
    [c[i] .. c[i + 7]], given as [c]; the second component is the final [U]. *)
Fixpoint mult_row (ai : Z) (b c : list Z) (U : Z) : list Z * Z :=
  match b, c with
  | bj :: b', cij :: c' =>
      let result := ai * bj in
      let W := u32 (Z.shiftr result 32) in
      let V := u32 (ai * bj) in
      let V := u32 (V + U) in
      let U := b2z (V <? U) in
      let U := u32 (U + W) in
      let V := u32 (V + cij) in
      let U := u32 (U + b2z (V <? cij)) in
      let '(row, out) := mult_row ai b' c' U in
      (V :: row, out)
  | _, _ => ([], U)
  end.

(** The outer loop: [c] is the buffer from word [i] on. *)
Fixpoint mult_rows (a b c : list Z) : list Z :=
  match a with
  | [] => c
  | ai :: a' =>
      let '(row, U) := mult_row ai b (take KEY_LENGTH_DWORDS_P256 c) 0 in
      match row ++ U :: drop (S KEY_LENGTH_DWORDS_P256) c with
      | ci :: c' => ci :: mult_rows a' b c'
      | [] => []
      end
  end.

(** [multiprecision_mult(c, a, b)]: [c] is the caller's sixteen-word buffer, of
    which only the low half is initialised. *)
Definition multiprecision_mult (c a b : list Z) : list Z :=
  mult_rows a b (multiprecision_init c).

(** ** [multiprecision_fast_mod_P256]

    The function keeps a signed carry [U] in a [uint32_t].  Its statements are
    repetitions of three shapes, each a helper here. *)

(** [c += x; U += (c < x); U += u;] *)
Definition carry_add (x u : Z) (cU : Z * Z) : Z * Z :=
  let '(c, U) := cU in
  let c := u32 (c + x) in
  let U := u32 (U + b2z (c <? x)) in
  let U := u32 (U + u) in
  (c, U).

(** [U -= (c < x); U -= u; c -= x;] *)
Definition carry_sub (x u : Z) (cU : Z * Z) : Z * Z :=
  let '(c, U) := cU in
  let U := u32 (U - b2z (c <? x)) in
  let U := u32 (U - u) in
  (u32 (c - x), U).

(** The block that adds the carry [U] of the word below to the next word [ai]:
    [if (U & 0x80000000) { UU = 0 - U; U = (ai < UU); c = ai - UU; }
    else { c = ai + U; U = (c < ai); }]. *)
Definition carry_in (ai U : Z) : Z * Z :=
  if negb (Z.land U 0x80000000 =? 0) then
    let UU := u32 (0 - U) in
    let U := b2z (ai <? UU) in
    (u32 (ai - UU), U)
  else
    let c := u32 (ai + U) in
    (c, b2z (c <? ai)).

(** [X = x; X += y; UX = (X < y);] on a [uint32_t] and a [uint8_t]. *)
Definition sum2 (x y : Z) : Z * Z :=
  let X := u32 (x + y) in (X, b2z (X <? y)).

(** [X += y; UX += (X < y);] *)
Definition sum_add (y : Z) (XU : Z * Z) : Z * Z :=
  let '(X, UX) := XU in
  let X := u32 (X + y) in (X, u8 (UX + b2z (X <? y))).

(** [UX -= (X < y); X -= y;] *)
Definition sum_sub (y : Z) (XU : Z * Z) : Z * Z :=
  let '(X, UX) := XU in
  (u32 (X - y), u8 (UX - b2z (X <? y))).

(** The partial sums of the high words, each with its carry count. *)
Definition fast_mod_C (a : list Z) : Z * Z := sum_add (rd a 15) (sum2 (rd a 13) (rd a 14)).
Definition fast_mod_E (a : list Z) : Z * Z := sum2 (rd a 8) (rd a 9).
Definition fast_mod_F (a : list Z) : Z * Z := sum2 (rd a 9) (rd a 10).
Definition fast_mod_G (a : list Z) : Z * Z := sum2 (rd a 10) (rd a 11).
Definition fast_mod_B (a : list Z) : Z * Z := sum_add (rd a 12) (fast_mod_C a).
Definition fast_mod_A (a : list Z) : Z * Z :=
  sum_sub (rd a 15) (sum_add (rd a 11) (fast_mod_B a)).
Definition fast_mod_D (a : list Z) : Z * Z :=
  sum_sub (rd a 14) (sum_add (rd a 10) (fast_mod_A a)).

(** The words [c[0]] to [c[3]] and the carry out of [c[3]]. *)
Definition fast_mod_low (a : list Z) : list Z * Z :=
  let '(A, UA) := fast_mod_A a in
  let '(B, UB) := fast_mod_B a in
  let '(C, UC) := fast_mod_C a in
  let '(E, UE) := fast_mod_E a in
  let '(F, UF) := fast_mod_F a in
  let '(G, UG) := fast_mod_G a in
  let c0 := u32 (rd a 0 + E) in
  let U := u32 (b2z (c0 <? E) + UE) in
  let '(c0, U) := carry_sub A UA (c0, U) in
  let '(c1, U) := carry_sub B UB (carry_add F UF (carry_in (rd a 1) U)) in
  let '(c2, U) := carry_sub C UC (carry_add G UG (carry_in (rd a 2) U)) in
  let '(c3, U) :=
    carry_sub E UE
      (carry_sub (rd a 15) 0
         (carry_sub (rd a 14) 0
            (carry_add (rd a 12) 0
               (carry_add (rd a 11) 0
                  (carry_add A UA (carry_in (rd a 3) U)))))) in
  ([c0; c1; c2; c3], U).

(** The words [c[4]] to [c[7]] and the carry out of [c[7]]. *)
Definition fast_mod_high (a : list Z) (U : Z) : list Z * Z :=
  let '(B, UB) := fast_mod_B a in
  let '(C, UC) := fast_mod_C a in
  let '(D, UD) := fast_mod_D a in
  let '(E, UE) := fast_mod_E a in
  let '(F, UF) := fast_mod_F a in
  let '(G, UG) := fast_mod_G a in
  let '(c4, U) :=
    carry_sub F UF
      (carry_add (rd a 13) 0
         (carry_add (rd a 12) 0
            (carry_sub (rd a 15) 0
               (carry_add B UB (carry_in (rd a 4) U))))) in
  let '(c5, U) :=
    carry_sub G UG
      (carry_add (rd a 14) 0
         (carry_add (rd a 13) 0
            (carry_add C UC (carry_in (rd a 5) U)))) in
  let '(c6, U) :=
    carry_sub E UE
      (carry_add (rd a 15) 0
         (carry_add (rd a 14) 0
            (carry_add (rd a 14) 0
               (carry_add C UC (carry_in (rd a 6) U))))) in
  let '(c7, U) :=
    carry_sub D UD
      (carry_add (rd a 8) 0
         (carry_add (rd a 15) 0
            (carry_add (rd a 15) 0
               (carry_add (rd a 15) 0 (carry_in (rd a 7) U))))) in
  ([c4; c5; c6; c7], U).

(** The whole carry chain: the eight words and the final [U]. *)
Definition fast_mod_chain (a : list Z) : list Z * Z :=
  let '(lo, U) := fast_mod_low a in
  let '(hi, U) := fast_mod_high a U in
  (lo ++ hi, U).

(** The loops on [U] and the last conditional subtraction.  [while (U) { add;
    U++; }] runs [2^32 - U] times, [while (U) { sub; U--; }] runs [U] times. *)
Definition fast_mod_final (c : list Z) (U : Z) : list Z :=
  let c :=
    if negb (Z.land U 0x80000000 =? 0) then
      Nat.iter (Z.to_nat (2 ^ 32 - U)) (fun c => fst (multiprecision_add c modp)) c
    else
      Nat.iter (Z.to_nat U) (fun c => fst (multiprecision_sub c modp)) c in
  if multiprecision_compare c modp >=? 0 then fst (multiprecision_sub c modp) else c.

Definition multiprecision_fast_mod_P256 (a : list Z) : list Z :=
  let '(c, U) := fast_mod_chain a in fast_mod_final c U.

(** [multiprecision_mersenns_mult_mod(c, a, b)], with the contents [cc] of the
    uninitialised local buffer. *)
Definition mersenns_mult_mod_in (cc a b : list Z) : list Z :=
  multiprecision_fast_mod_P256 (multiprecision_mult cc a b).

Definition multiprecision_mersenns_mult_mod (a b : list Z) : list Z :=
  mersenns_mult_mod_in (replicate 16 0) a b.

Definition multiprecision_mersenns_squa_mod (a : list Z) : list Z :=
  multiprecision_mersenns_mult_mod a a.

(** ** [multiprecision_inv_mod]

    The binary extended Euclid loop.  The ninth word of the source's [A] and
    [C] only holds the carry of the addition just done, here [A8]. *)

(** [A = A / 2 mod p]. *)
Definition halve_mod (A : list Z) : list Z :=
  if Z.land (rd A 0) 1 =? 0 then multiprecision_rshift A
  else
    let '(A, A8) := multiprecision_add A modp in
    let A := multiprecision_rshift A in
    <[7%nat := Z.lor (rd A 7) (u32 (Z.shiftl A8 31))]> A.

(** [while (!(u[0] & 0x01)) { ... }]; [None] when [fuel] rounds do not end it. *)
Fixpoint strip_loop (fuel : nat) (u A : list Z) : option (list Z * list Z) :=
  if Z.land (rd u 0) 1 =? 0 then
    match fuel with
    | O => None
    | S fuel' => strip_loop fuel' (multiprecision_rshift u) (halve_mod A)
    end
  else Some (u, A).

(** One round of the outer loop on [u], [v], [A], [C]. *)
Definition inv_mod_step (u v A C : list Z) : option (list Z * list Z * list Z * list Z) :=
  '(u, A) ← strip_loop 256 u A;
  '(v, C) ← strip_loop 256 v C;
  if multiprecision_compare u v >=? 0 then
    Some (fst (multiprecision_sub u v), v, multiprecision_sub_mod A C, C)
  else
    Some (u, fst (multiprecision_sub v u), A, multiprecision_sub_mod C A).

Fixpoint inv_mod_loop (fuel : nat) (u v A C : list Z) : option (list Z) :=
  if negb (multiprecision_iszero u =? 0) then Some C
  else
    match fuel with
    | O => None
    | S fuel' =>
        '(u, v, A, C) ← inv_mod_step u v A C;
        inv_mod_loop fuel' u v A C
    end.

Definition one : list Z := [1; 0; 0; 0; 0; 0; 0; 0].
Definition zero : list Z := replicate 8 0.

(** [multiprecision_inv_mod(aminus, u)]: the words of [aminus]; the source also
    leaves [u] at zero. *)
Definition multiprecision_inv_mod (u : list Z) : option (list Z) :=
  C ← inv_mod_loop 513 u modp one zero;
  Some (if multiprecision_compare C modp >=? 0 then fst (multiprecision_sub C modp)
        else multiprecision_copy [] C).

(** ** The number a word list stands for *)

Fixpoint val (a : list Z) : Z :=
  match a with
  | [] => 0
  | x :: a' => x + 2 ^ 32 * val a'
  end.

(** [words n a]: [a] is an array of [n] values of type [uint32_t]. *)
Definition words (n : nat) (a : list Z) : Prop :=
  length a = n /\ Forall (in_range 32) a.

#[export] Instance words_dec n a : Decision (words n a).
Proof. unfold words. apply _. Defined.

(** The P-256 prime. *)
Definition p256 : Z := 2 ^ 256 - 2 ^ 224 + 2 ^ 192 + 2 ^ 96 - 1.

(** ** Lemmas on word arrays *)

Lemma words_cons n x a : words (S n) (x :: a) <-> in_range 32 x /\ words n a.
Proof. unfold words. rewrite Forall_cons. simpl. intuition lia. Qed.

Lemma words_nil : words 0 [].
Proof. by split. Qed.

Lemma words_0_inv a : words 0 a -> a = [].
Proof. intros [H _]. by apply nil_length_inv. Qed.

Lemma words_S_inv n a : words (S n) a -> exists x a', a = x :: a' /\ in_range 32 x /\ words n a'.
Proof. destruct a as [|x a]; [by intros [? _]|]. intros [??]%words_cons. eauto. Qed.

Lemma words_app n m a b : words n a -> words m b -> words (n + m) (a ++ b).
Proof. intros [<- ?] [<- ?]. split; [apply length_app | by apply Forall_app]. Qed.

Lemma val_app a b : val (a ++ b) = val a + 2 ^ (32 * Z.of_nat (length a)) * val b.
Proof.
  induction a as [|x a IH]; cbn [val app length]; [lia|].
  rewrite IH, Nat2Z.inj_succ, Z.mul_succ_r, Z.pow_add_r by lia. lia.
Qed.

Lemma pow32_S n : 2 ^ (32 * Z.of_nat (S n)) = 2 ^ 32 * 2 ^ (32 * Z.of_nat n).
Proof. rewrite Nat2Z.inj_succ, Z.mul_succ_r, Z.pow_add_r by lia. lia. Qed.

Lemma val_bound n a : words n a -> 0 <= val a < 2 ^ (32 * Z.of_nat n).
Proof.
  revert n. induction a as [|x a IH]; intros n [<- H].
  - simpl. lia.
  - apply Forall_cons in H as [Hx Ha]. specialize (IH _ (conj eq_refl Ha)).
    cbn [length val]. rewrite pow32_S. unfold in_range in Hx. nia.
Qed.

Lemma val_bound8 a : words 8 a -> 0 <= val a < 2 ^ 256.
Proof. apply val_bound. Qed.

Lemma val_inj n a b : words n a -> words n b -> val a = val b -> a = b.
Proof.
  revert n b. induction a as [|x a IH]; intros n b Ha Hb E.
  - destruct Ha as [<- _]. symmetry. by apply words_0_inv.
  - destruct n as [|n]; [by destruct Ha|].
    apply words_cons in Ha as [Hx Ha]. apply words_S_inv in Hb as (y & b' & -> & Hy & Hb).
    cbn [val] in E. unfold in_range in *.
    assert (x = y /\ val a = val b') as [-> Ev] by lia.
    f_equal. eauto.
Qed.

(** Unfold one wrapped 32-bit expression into an equation for [lia]. *)
Ltac wrap32 :=
  repeat match goal with
  | |- context [wrap 32 ?x] =>
      let k := fresh "k" in let w := fresh "w" in
      let E := fresh "E" in let R := fresh "R" in
      destruct (wrap_spec 32 x ltac:(lia)) as (k & E & R);
      set (w := wrap 32 x) in *; clearbody w
  | H : context [wrap 32 ?x] |- _ =>
      let k := fresh "k" in let w := fresh "w" in
      let E := fresh "E" in let R := fresh "R" in
      destruct (wrap_spec 32 x ltac:(lia)) as (k & E & R);
      set (w := wrap 32 x) in *; clearbody w
  end; unfold in_range in *; change (2 ^ 32) with 4294967296 in *.

(** One word of an addition: the two carries never both happen. *)
Lemma add_word ai bi ca :
  in_range 32 ai -> in_range 32 bi -> 0 <= ca <= 1 ->
  let t1 := u32 (ai + ca) in
  let t2 := u32 (t1 + bi) in
  let c' := Z.lor (b2z (t1 <? ca)) (b2z (t2 <? bi)) in
  in_range 32 t2 /\ 0 <= c' <= 1 /\ t2 + c' * 2 ^ 32 = ai + bi + ca.
Proof.
  intros Ha Hb Hc. cbv zeta. rewrite lor_b2z. wrap32. zcmp; cbn [orb b2z]; lia.
Qed.

Lemma sub_word ai bi bo :
  in_range 32 ai -> in_range 32 bi -> 0 <= bo <= 1 ->
  let t1 := u32 (ai - bo) in
  let t2 := u32 (t1 - bi) in
  let b' := Z.lor (b2z (t1 >? ai)) (b2z (t2 >? t1)) in
  in_range 32 t2 /\ 0 <= b' <= 1 /\ t2 - b' * 2 ^ 32 = ai - bi - bo.
Proof.
  intros Ha Hb Hc. cbv zeta. rewrite lor_b2z. wrap32. zcmp; cbn [orb b2z]; lia.
Qed.

Lemma add_loop_spec n a b ca c out :
  words n a -> words n b -> 0 <= ca <= 1 -> add_loop a b ca = (c, out) ->
  words n c /\ 0 <= out <= 1 /\ val c + out * 2 ^ (32 * Z.of_nat n) = val a + val b + ca.
Proof.
  revert a b ca c out. induction n as [|n IH]; intros a b ca c out Ha Hb Hca E.
  - apply words_0_inv in Ha as ->. apply words_0_inv in Hb as ->.
    simpl in E. simplify_eq. split; [apply words_nil|]. simpl. lia.
  - apply words_S_inv in Ha as (x & a' & -> & Hx & Ha). apply words_S_inv in Hb as (y & b' & -> & Hy & Hb).
    cbn [add_loop] in E. pose proof (add_word x y ca Hx Hy Hca) as W. cbv zeta in W.
    destruct (add_loop a' b' _) as [c1 out1] eqn:E1. simplify_eq.
    destruct W as (W1 & W2 & W3). apply IH in E1 as (I1 & I2 & I3); [|done..].
    rewrite words_cons, pow32_S. cbn [val]. split; [done|]. nia.
Qed.

Lemma sub_loop_spec n a b bo c out :
  words n a -> words n b -> 0 <= bo <= 1 -> sub_loop a b bo = (c, out) ->
  words n c /\ 0 <= out <= 1 /\ val c - out * 2 ^ (32 * Z.of_nat n) = val a - val b - bo.
Proof.
  revert a b bo c out. induction n as [|n IH]; intros a b bo c out Ha Hb Hbo E.
  - apply words_0_inv in Ha as ->. apply words_0_inv in Hb as ->.
    simpl in E. simplify_eq. split; [apply words_nil|]. simpl. lia.
  - apply words_S_inv in Ha as (x & a' & -> & Hx & Ha). apply words_S_inv in Hb as (y & b' & -> & Hy & Hb).
    cbn [sub_loop] in E. pose proof (sub_word x y bo Hx Hy Hbo) as W. cbv zeta in W.
    destruct (sub_loop a' b' _) as [c1 out1] eqn:E1. simplify_eq.
    destruct W as (W1 & W2 & W3). apply IH in E1 as (I1 & I2 & I3); [|done..].
    rewrite words_cons, pow32_S. cbn [val]. split; [done|]. nia.
Qed.

Lemma multiprecision_add_spec a b c out :
  words 8 a -> words 8 b -> multiprecision_add a b = (c, out) ->
  words 8 c /\ 0 <= out <= 1 /\ val c + out * 2 ^ 256 = val a + val b.
Proof.
  intros Ha Hb E. eapply add_loop_spec in E as (?&?&E); [|done|done|lia].
  rewrite Z.add_0_r in E. done.
Qed.

Lemma multiprecision_sub_spec a b c out :
  words 8 a -> words 8 b -> multiprecision_sub a b = (c, out) ->
  words 8 c /\ 0 <= out <= 1 /\ val c - out * 2 ^ 256 = val a - val b.
Proof.
  intros Ha Hb E. eapply sub_loop_spec in E as (?&?&E); [|done|done|lia].
  rewrite Z.sub_0_r in E. done.
Qed.

Lemma lor_disjoint_low x c : 0 <= c <= 1 -> Z.lor (2 * x) c = 2 * x + c.
Proof.
  intros Hc. assert (c = 0 \/ c = 1) as [-> | ->] by lia; [by rewrite Z.lor_0_r, Z.add_0_r|].
  apply lor_add. change 1 with (Z.ones 1). rewrite Z.land_ones by lia.
  rewrite Z.mul_comm. by apply Z.mod_mul.
Qed.

Lemma lshift_word t ca :
  in_range 32 t -> 0 <= ca <= 1 ->
  let ci := Z.lor (u32 (Z.shiftl t 1)) ca in
  let c' := Z.shiftr t (DWORD_BITS - 1) in
  in_range 32 ci /\ 0 <= c' <= 1 /\ ci + c' * 2 ^ 32 = 2 * t + ca.
Proof.
  intros Ht Hca. unfold DWORD_BITS, wrap, in_range in *. cbv zeta.
  rewrite Z.shiftl_mul_pow2, Z.shiftr_div_pow2 by lia.
  change (2 ^ 1) with 2. change (2 ^ (32 - 1)) with 2147483648. change (2 ^ 32) with 4294967296 in *.
  replace (t * 2 mod 4294967296) with (2 * (t mod 2147483648)).
  - rewrite lor_disjoint_low by lia. dmlia.
  - rewrite (Z.mul_comm t 2). change 4294967296 with (2 * 2147483648).
    by rewrite Z.mul_mod_distr_l by lia.
Qed.

Lemma lshift_loop_spec n a ca c out :
  words n a -> 0 <= ca <= 1 -> lshift_loop a ca = (c, out) ->
  words n c /\ 0 <= out <= 1 /\ val c + out * 2 ^ (32 * Z.of_nat n) = 2 * val a + ca.
Proof.
  revert a ca c out. induction n as [|n IH]; intros a ca c out Ha Hca E.
  - apply words_0_inv in Ha as ->. simpl in E. simplify_eq. split; [apply words_nil|]. simpl. lia.
  - apply words_S_inv in Ha as (x & a' & -> & Hx & Ha). cbn [lshift_loop] in E.
    pose proof (lshift_word x ca Hx Hca) as W. cbv zeta in W.
    destruct (lshift_loop a' _) as [c1 out1] eqn:E1. simplify_eq.
    destruct W as (W1 & W2 & W3). apply IH in E1 as (I1 & I2 & I3); [|done..].
    rewrite words_cons, pow32_S. cbn [val]. split; [done|]. nia.
Qed.

Lemma lor_disjoint_high x c : in_range 31 x -> c = 0 \/ c = 2 ^ 31 -> Z.lor x c = x + c.
Proof.
  intros Hx [-> | ->]; [by rewrite Z.lor_0_r, Z.add_0_r|].
  apply lor_add, Z.bits_inj'. intros i Hi. rewrite Z.land_spec, Z.bits_0, Z.pow2_bits_eqb by lia.
  destruct (Z.eqb_spec 31 i) as [<-|]; [|by rewrite andb_false_r].
  rewrite andb_true_r, <- (Z.mod_small x (2 ^ 31)) by done. by apply Z.mod_pow2_bits_high.
Qed.

(** [val (rshift a) = val a / 2]; the carry out is the low bit, at bit 31. *)
Lemma rshift_loop_spec n a c ca :
  words n a -> rshift_loop a = (c, ca) ->
  words n c /\ (ca = 0 \/ ca = 2 ^ 31) /\ 2 * val c + ca / 2 ^ 31 = val a.
Proof.
  revert a c ca. induction n as [|n IH]; intros a c ca Ha E.
  - apply words_0_inv in Ha as ->. simpl in E. simplify_eq. split; [apply words_nil|]. split; [by left | done].
  - apply words_S_inv in Ha as (x & a' & -> & Hx & Ha). cbn [rshift_loop] in E.
    destruct (rshift_loop a') as [c1 ca1] eqn:E1. simplify_eq.
    apply IH in E1 as (I1 & I2 & I3); [|done]. unfold DWORD_BITS.
    rewrite Z.shiftr_div_pow2, Z.shiftl_mul_pow2, words_cons by lia.
    cbn [val]. unfold in_range, wrap in *. change (2 ^ 1) with 2.
    change (2 ^ (32 - 1)) with 2147483648. change (2 ^ 32) with 4294967296 in *.
    rewrite lor_disjoint_high by (unfold in_range; first [done | change (2 ^ 31) with 2147483648; dmlia]).
    change (2 ^ 31) with 2147483648 in *.
    assert (x * 2147483648 mod 4294967296 = 2147483648 * (x mod 2)) as ->.
    { rewrite Z.mul_comm. change 4294967296 with (2147483648 * 2). by rewrite Z.mul_mod_distr_l by lia. }
    split; [|dmlia]. split; [|done]. dmlia.
Qed.

Lemma multiprecision_rshift_spec a :
  words 8 a -> words 8 (multiprecision_rshift a) /\ val (multiprecision_rshift a) = val a / 2.
Proof.
  intros Ha. unfold multiprecision_rshift. destruct (rshift_loop a) as [c ca] eqn:E.
  apply rshift_loop_spec with (n := 8%nat) in E as (?&Hca&?); [|done]. simpl. split; [done|].
  change (2 ^ 31) with 2147483648 in *. dmlia.
Qed.

Lemma val_snoc_compare n a b x y :
  words n a -> words n b ->
  (x < y -> val a + 2 ^ (32 * Z.of_nat n) * x < val b + 2 ^ (32 * Z.of_nat n) * y).
Proof. intros Ha%val_bound Hb%val_bound Hxy. nia. Qed.

Lemma take_S_rd i (a : list Z) : (i < length a)%nat -> take (S i) a = take i a ++ [rd a i].
Proof.
  intros Hi. unfold rd. destruct (lookup_lt_is_Some_2 a i Hi) as [x Hx].
  erewrite take_S_r by done. by rewrite (nth_lookup_Some _ _ _ _ Hx).
Qed.

Lemma words_take i n a : words n a -> (i <= n)%nat -> words i (take i a).
Proof. intros [<- H] Hi. split; [rewrite length_take; lia | by apply Forall_take]. Qed.

Lemma words_drop i n a : words n a -> words (n - i) (drop i a).
Proof. intros [<- H]. split; [by rewrite length_drop | by apply Forall_drop]. Qed.

Lemma words_rd n a i : words n a -> (i < n)%nat -> in_range 32 (rd a i).
Proof.
  intros [<- H] Hi. unfold rd. destruct (lookup_lt_is_Some_2 a i Hi) as [x Hx].
  rewrite (nth_lookup_Some _ _ _ _ Hx). by eapply Forall_lookup_1.
Qed.

Lemma compare_loop_spec n i a b :
  words n a -> words n b -> (i <= n)%nat ->
  compare_loop i a b = Z.sgn (val (take i a) - val (take i b)).
Proof.
  intros Ha Hb. induction i as [|i IH]; intros Hi; [done|].
  cbn [compare_loop]. rewrite !take_S_rd, !val_app by (destruct Ha, Hb; lia).
  assert (words i (take i a)) as Hta by (apply words_take with n; auto with lia).
  assert (words i (take i b)) as Htb by (apply words_take with n; auto with lia).
  rewrite (proj1 Hta), (proj1 Htb). cbn [val]. rewrite IH by lia.
  apply val_bound in Hta, Htb. set (P := 2 ^ (32 * Z.of_nat i)) in *.
  rewrite Z.mul_0_r, !Z.add_0_r.
  zcmp; try lia; symmetry; first [apply Z.sgn_pos; nia | apply Z.sgn_neg; nia | f_equal; nia].
Qed.

Lemma multiprecision_compare_spec a b :
  words 8 a -> words 8 b -> multiprecision_compare a b = Z.sgn (val a - val b).
Proof.
  intros Ha Hb. unfold multiprecision_compare. rewrite (compare_loop_spec 8) by (done || lia).
  rewrite !take_ge by (unfold KEY_LENGTH_DWORDS_P256; destruct Ha, Hb; lia). done.
Qed.

(** The test [multiprecision_compare(a, b) >= 0]. *)
Lemma compare_geb a b :
  words 8 a -> words 8 b -> (multiprecision_compare a b >=? 0) = (val b <=? val a).
Proof.
  intros Ha Hb. rewrite multiprecision_compare_spec by done.
  rewrite Z.geb_leb. destruct (Z.sgn_spec (val a - val b)) as [[? ->]|[[? ->]|[? ->]]]; zcmp; lia.
Qed.

Lemma iszero_loop_spec n a : words n a -> iszero_loop a = b2z (val a =? 0).
Proof.
  revert n. induction a as [|x a IH]; intros n Ha; [done|].
  destruct n; [by destruct Ha|]. apply words_cons in Ha as [Hx Ha]. cbn [iszero_loop val].
  rewrite (IH _ Ha). apply val_bound in Ha. unfold in_range in Hx. zcmp; cbn [b2z]; try lia.
Qed.

Lemma multiprecision_iszero_spec a : words 8 a -> multiprecision_iszero a = b2z (val a =? 0).
Proof.
  intros Ha. unfold multiprecision_iszero. rewrite take_ge by (unfold KEY_LENGTH_DWORDS_P256; destruct Ha; lia).
  by apply iszero_loop_spec with 8%nat.
Qed.

(** ** Multiplication *)

(** One step of the inner loop: the high half of the product absorbs both
    carries without overflow. *)
Lemma mult_word ai bj cij U :
  in_range 32 ai -> in_range 32 bj -> in_range 32 cij -> in_range 32 U ->
  let V1 := u32 (u32 (ai * bj) + U) in
  let U1 := u32 (b2z (V1 <? U) + u32 (Z.shiftr (ai * bj) 32)) in
  let V2 := u32 (V1 + cij) in
  let U2 := u32 (U1 + b2z (V2 <? cij)) in
  in_range 32 V2 /\ in_range 32 U2 /\ V2 + U2 * 2 ^ 32 = ai * bj + cij + U.
Proof.
  intros Ha Hb Hc HU. cbv zeta.
  assert (0 <= ai * bj <= (2 ^ 32 - 1) * (2 ^ 32 - 1)) as HP by (unfold in_range in *; nia).
  rewrite Z.shiftr_div_pow2 by lia.
  set (P := ai * bj) in *. clearbody P. clear Ha Hb ai bj.
  pose proof (Z.div_mod P (2 ^ 32) ltac:(lia)) as DM.
  pose proof (Z.mod_pos_bound P (2 ^ 32) ltac:(lia)) as MB.
  assert (0 <= P / 2 ^ 32 < 2 ^ 32 - 1) as DB by (change (2 ^ 32) with 4294967296 in *; dmlia).
  rewrite (wrap_small 32 (P / 2 ^ 32)) by (unfold in_range; lia).
  change (wrap 32 P) with (P mod 2 ^ 32).
  set (h := P / 2 ^ 32) in *. set (l := P mod 2 ^ 32) in *. clearbody h l.
  wrap32. unfold b2z in *. revert E E0 E1 E2. zcmp; intros; lia.
Qed.

Lemma mult_row_spec n ai b c U row out :
  in_range 32 ai -> words n b -> words n c -> in_range 32 U -> mult_row ai b c U = (row, out) ->
  words n row /\ in_range 32 out /\
  val row + out * 2 ^ (32 * Z.of_nat n) = val c + ai * val b + U.
Proof.
  intros Hai. revert b c U row out. induction n as [|n IH]; intros b c U row out Hb Hc HU E.
  - apply words_0_inv in Hb as ->. apply words_0_inv in Hc as ->. simpl in E. simplify_eq.
    split; [apply words_nil|]. split; [done|]. simpl. lia.
  - apply words_S_inv in Hb as (x & b' & -> & Hx & Hb). apply words_S_inv in Hc as (y & c' & -> & Hy & Hc).
    cbn [mult_row] in E. pose proof (mult_word ai x y U Hai Hx Hy HU) as W. cbv zeta in W.
    destruct (mult_row ai b' c' _) as [row1 out1] eqn:E1. simplify_eq.
    destruct W as (W1 & W2 & W3). apply IH in E1 as (I1 & I2 & I3); [|done..].
    rewrite words_cons, pow32_S. cbn [val]. split; [done|]. split; [done|]. nia.
Qed.

(** The buffer above the eight low words of row [i] may hold anything: the row
    writes its own top word before the next row reads it. *)
Lemma mult_rows_spec a b c n :
  words n a -> words 8 b -> length c = (8 + n)%nat -> words 8 (take 8 c) ->
  words (8 + n) (mult_rows a b c) /\
  val (mult_rows a b c) = val (take 8 c) + val a * val b.
Proof.
  revert a c. induction n as [|n IH]; intros a c Ha Hb Hl Hc.
  - apply words_0_inv in Ha as ->. cbn [mult_rows val]. rewrite take_ge in Hc by lia.
    rewrite take_ge by lia. split; [done | lia].
  - apply words_S_inv in Ha as (x & a' & -> & Hx & Ha). cbn [mult_rows].
    change KEY_LENGTH_DWORDS_P256 with 8%nat.
    destruct (mult_row x b (take 8 c) 0) as [row U] eqn:E.
    apply mult_row_spec with (n := 8%nat) in E as (R1 & R2 & R3); [|done..].
    apply words_S_inv in R1 as (r0 & row' & -> & Hr0 & Hrow'). cbn [app].
    assert (take 8 (row' ++ U :: drop 9 c) = row' ++ [U]) as Etake.
    { change (U :: drop 9 c) with ([U] ++ drop 9 c). rewrite app_assoc.
      apply take_app_length'. by rewrite length_app, (proj1 Hrow'). }
    destruct (IH a' (row' ++ U :: drop 9 c)) as [I1 I2]; [done|done|..].
    { rewrite length_app, (proj1 Hrow'). cbn [length]. rewrite length_drop. lia. }
    { rewrite Etake. apply (words_app 7 1); [done|]. apply words_cons. by split; [|apply words_nil]. }
    rewrite Etake, val_app, (proj1 Hrow') in I2. cbn [val] in *. split.
    + replace (8 + S n)%nat with (S (8 + n)) by lia. apply words_cons. done.
    + rewrite I2. change (32 * Z.of_nat 7) with 224. change (32 * Z.of_nat 8) with 256 in R3. nia.
Qed.

Lemma multiprecision_mult_spec c a b :
  length c = 16%nat -> words 8 a -> words 8 b ->
  words 16 (multiprecision_mult c a b) /\ val (multiprecision_mult c a b) = val a * val b.
Proof.
  intros Hl Ha Hb. unfold multiprecision_mult, multiprecision_init. change KEY_LENGTH_DWORDS_P256 with 8%nat.
  assert (take 8 (replicate 8 0 ++ drop 8 c) = replicate 8 0) as Et by done.
  destruct (mult_rows_spec a b (replicate 8 0 ++ drop 8 c) 8) as [M1 M2]; [done|done| | |].
  - rewrite length_app, length_replicate, length_drop. lia.
  - rewrite Et. by_decide.
  - rewrite Et in M2. split; [done|]. rewrite M2. done.
Qed.

(** ** Modular addition, subtraction and doubling *)

Lemma modp_words : words 8 modp.
Proof. by_decide. Qed.

Lemma val_modp : val modp = p256.
Proof. reflexivity. Qed.

Lemma p256_bounds : 2 ^ 255 < p256 < 2 ^ 256.
Proof. by_decide. Qed.

(** Reduction of [c + carrier * 2^256] below [2p] by one subtraction. *)
Lemma reduce_once c carrier x :
  words 8 c -> 0 <= carrier <= 1 -> val c + carrier * 2 ^ 256 = x -> 0 <= x < 2 * p256 ->
  let r := if negb (carrier =? 0) then fst (multiprecision_sub c modp)
           else if multiprecision_compare c modp >=? 0 then fst (multiprecision_sub c modp) else c in
  words 8 r /\ val r = x mod p256.
Proof.
  intros Hc Hca E Hx. cbv zeta. pose proof p256_bounds as PB. pose proof (val_bound8 _ Hc) as VB.
  destruct (multiprecision_sub c modp) as [d bo] eqn:Es.
  apply multiprecision_sub_spec in Es as (D1 & D2 & D3); [|done|apply modp_words].
  rewrite val_modp in D3. pose proof (val_bound8 _ D1) as DB.
  rewrite compare_geb by (done || apply modp_words). rewrite val_modp. simpl fst.
  assert (carrier = 0 \/ carrier = 1) as [-> | ->] by lia; cbn [negb Z.eqb]; zcmp.
  - split; [done|]. apply Z.mod_unique_pos with 1; lia.
  - split; [done|]. symmetry. rewrite Z.mod_small; lia.
  - split; [done|]. apply Z.mod_unique_pos with 1; lia.
Qed.

(** [field a]: eight words below the prime. *)
Definition field (a : list Z) : Prop := words 8 a /\ val a < p256.

#[export] Instance field_dec a : Decision (field a).
Proof. unfold field. apply _. Defined.

Lemma field_of_mod r x : words 8 r -> val r = x mod p256 -> field r.
Proof. intros ? E. split; [done|]. rewrite E. pose proof p256_bounds. apply Z.mod_pos_bound. lia. Qed.

Lemma multiprecision_add_mod_spec a b :
  field a -> field b ->
  field (multiprecision_add_mod a b) /\
  val (multiprecision_add_mod a b) = (val a + val b) mod p256.
Proof.
  intros [Ha La] [Hb Lb]. unfold multiprecision_add_mod.
  destruct (multiprecision_add a b) as [c ca] eqn:E.
  apply multiprecision_add_spec in E as (C1 & C2 & C3); [|done..].
  pose proof (val_bound8 _ Ha). pose proof (val_bound8 _ Hb).
  destruct (reduce_once c ca (val a + val b)) as [R1 R2]; [done|done|done|lia|].
  split; [by eapply field_of_mod | done].
Qed.

Lemma multiprecision_lshift_mod_spec a :
  field a ->
  field (multiprecision_lshift_mod a) /\
  val (multiprecision_lshift_mod a) = (2 * val a) mod p256.
Proof.
  intros [Ha La]. unfold multiprecision_lshift_mod, multiprecision_lshift.
  destruct (lshift_loop a 0) as [c ca] eqn:E.
  apply lshift_loop_spec with (n := 8%nat) in E as (C1 & C2 & C3); [|done|lia].
  pose proof (val_bound8 _ Ha). rewrite Z.add_0_r in C3.
  destruct (reduce_once c ca (2 * val a)) as [R1 R2]; [done|done|done|lia|].
  split; [by eapply field_of_mod | done].
Qed.

Lemma multiprecision_sub_mod_spec a b :
  field a -> field b ->
  field (multiprecision_sub_mod a b) /\
  val (multiprecision_sub_mod a b) = (val a - val b) mod p256.
Proof.
  intros [Ha La] [Hb Lb]. unfold multiprecision_sub_mod.
  destruct (multiprecision_sub a b) as [c bo] eqn:E.
  apply multiprecision_sub_spec in E as (C1 & C2 & C3); [|done..].
  pose proof (val_bound8 _ Ha). pose proof (val_bound8 _ Hb). pose proof (val_bound8 _ C1).
  pose proof p256_bounds as PB.
  destruct (multiprecision_add c modp) as [d ca] eqn:Ea.
  apply multiprecision_add_spec in Ea as (D1 & D2 & D3); [|done|apply modp_words].
  rewrite val_modp in D3. pose proof (val_bound8 _ D1).
  assert (bo = 0 \/ bo = 1) as [-> | ->] by lia; cbn [negb Z.eqb fst].
  - assert (val c = (val a - val b) mod p256) as Ev by (rewrite Z.mod_small; lia).
    split; [by eapply field_of_mod | done].
  - assert (val d = (val a - val b) mod p256) as Ev by (apply Z.mod_unique_pos with (-1); lia).
    split; [by eapply field_of_mod | done].
Qed.

(** ** The Solinas reduction *)

(** [cval cU x]: the pair of a word and its wrapped signed carry stands for the
    integer [x]. *)
Definition cval (cU : Z * Z) (x : Z) : Prop :=
  in_range 32 (fst cU) /\ exists s, snd cU = u32 s /\ fst cU + 2 ^ 32 * s = x.

Lemma carry_add_spec x u cU v :
  in_range 32 x -> cval cU v -> cval (carry_add x u cU) (v + x + 2 ^ 32 * u).
Proof.
  intros Hx. destruct cU as [c U]. intros [Hc (s & HU & <-)]. simpl in *. subst U.
  split; [apply wrap_range; lia|]. exists (s + b2z (u32 (c + x) <? x) + u). simpl. split.
  - by rewrite wrap_add_idemp_l, <- !Z.add_assoc, wrap_add_idemp_l.
  - wrap32. unfold b2z. zcmp; lia.
Qed.

Lemma carry_sub_spec x u cU v :
  in_range 32 x -> cval cU v -> cval (carry_sub x u cU) (v - x - 2 ^ 32 * u).
Proof.
  intros Hx. destruct cU as [c U]. intros [Hc (s & HU & <-)]. simpl in *. subst U.
  split; [apply wrap_range; lia|]. exists (s - b2z (c <? x) - u). simpl. split.
  - by rewrite wrap_sub_idemp_l, <- !Z.sub_add_distr, wrap_sub_idemp_l.
  - wrap32. unfold b2z. zcmp; lia.
Qed.

(** The sign test [U & 0x80000000] on a small signed carry. *)
Lemma sign_bit s :
  - 2 ^ 31 <= s < 2 ^ 31 -> (Z.land (u32 s) 0x80000000 =? 0) = (0 <=? s).
Proof.
  intros Hs. change 0x80000000 with (2 ^ 31). rewrite Z.land_comm.
  assert (Z.testbit (u32 s) 31 = (s <? 0)) as Ht.
  { unfold wrap. rewrite Z.mod_pow2_bits_low by lia.
    destruct (Z.ltb_spec s 0).
    - apply Z.testbit_true; [lia|].
      change (2 ^ 31) with 2147483648 in *. assert (s / 2147483648 = -1) as -> by dmlia. done.
    - apply Z.testbit_false; [lia|]. rewrite Z.div_small by lia. done. }
  destruct (Z.eqb_spec (Z.land (2 ^ 31) (u32 s)) 0) as [E|E].
  - apply (f_equal (fun z => Z.testbit z 31)) in E.
    rewrite Z.land_spec, Z.pow2_bits_true, Z.bits_0, Ht in E by lia. simpl in E. zcmp; lia.
  - destruct (Z.leb_spec 0 s); [|done]. exfalso. apply E, Z.bits_inj'. intros i Hi.
    rewrite Z.land_spec, Z.bits_0, Z.pow2_bits_eqb by lia.
    destruct (Z.eqb_spec 31 i) as [<-|]; [|done]. rewrite Ht. zcmp; [lia|done].
Qed.

(** The carry block is right unless it has to borrow: the [uint32_t] carry it
    leaves is then [1] where [-1] is meant. *)
Lemma carry_in_spec ai s :
  in_range 32 ai -> - 2 ^ 31 <= s < 2 ^ 31 -> 0 <= ai + s ->
  cval (carry_in ai (u32 s)) (ai + s).
Proof.
  intros Ha Hs Hp. unfold carry_in. rewrite sign_bit by done.
  destruct (Z.leb_spec 0 s); cbn [negb].
  - split; [apply wrap_range; lia|]. cbn [fst snd].
    rewrite (wrap_small 32 s) by (unfold in_range; lia).
    exists (b2z (u32 (ai + s) <? ai)). split.
    + symmetry. apply wrap_small. pose proof (b2z_range (u32 (ai + s) <? ai)). unfold in_range. lia.
    + wrap32. unfold b2z. zcmp; lia.
  - assert (u32 (0 - u32 s) = - s) as ->.
    { unfold wrap. rewrite Zminus_mod_idemp_r. apply Z.mod_small. lia. }
    split; [apply wrap_range; lia|]. cbn [fst snd].
    exists 0. assert ((ai <? - s) = false) as -> by (zcmp; lia). split; [done|].
    rewrite wrap_small by (unfold in_range in *; lia). lia.
Qed.

(** [sval XU x]: a word with an unsigned carry count. *)
Definition sval (XU : Z * Z) (x : Z) : Prop :=
  in_range 32 (fst XU) /\ 0 <= snd XU /\ fst XU + 2 ^ 32 * snd XU = x.

Lemma sum2_spec x y : in_range 32 x -> in_range 32 y -> sval (sum2 x y) (x + y).
Proof.
  intros Hx Hy. unfold sval, sum2. cbn [fst snd]. pose proof (b2z_range (u32 (x + y) <? y)).
  split; [apply wrap_range; lia|]. split; [lia|]. wrap32. unfold b2z. zcmp; lia.
Qed.

Lemma sum_add_spec y XU v :
  in_range 32 y -> v + y < 2 ^ 39 -> sval XU v -> sval (sum_add y XU) (v + y).
Proof.
  destruct XU as [X UX]. unfold sval. cbn [fst snd sum_add]. intros Hy Hv (HX & HU & <-).
  rewrite (wrap_small 8).
  - pose proof (b2z_range (u32 (X + y) <? y)).
    split; [apply wrap_range; lia|]. split; [lia|]. wrap32. unfold b2z. zcmp; lia.
  - wrap32. change (2 ^ 39) with 549755813888 in *. change (2 ^ 8) with 256. unfold b2z. zcmp; lia.
Qed.

Lemma sum_sub_spec y XU v :
  in_range 32 y -> 0 <= v - y -> v < 2 ^ 39 -> sval XU v -> sval (sum_sub y XU) (v - y).
Proof.
  destruct XU as [X UX]. unfold sval. cbn [fst snd sum_sub]. intros Hy Hv Hv' (HX & HU & <-).
  assert (0 <= UX - b2z (X <? y) < 256) as Hb.
  { unfold in_range in *. change (2 ^ 39) with 549755813888 in *. change (2 ^ 32) with 4294967296 in *.
    unfold b2z. zcmp; lia. }
  rewrite (wrap_small 8) by exact Hb.
  split; [apply wrap_range; lia|]. split; [lia|]. wrap32. unfold b2z in *. zcmp; lia.
Qed.

(** The integer the carry chain computes: the sum of FIPS 186-4, D.2.3. *)
Definition solinas (a : list Z) : Z :=
  let r := rd a in
  val [r 0; r 1; r 2; r 3; r 4; r 5; r 6; r 7]%nat
  + 2 * val [0; 0; 0; r 11%nat; r 12%nat; r 13%nat; r 14%nat; r 15%nat]
  + 2 * val [0; 0; 0; r 12%nat; r 13%nat; r 14%nat; r 15%nat; 0]
  + val [r 8%nat; r 9%nat; r 10%nat; 0; 0; 0; r 14%nat; r 15%nat]
  + val [r 9; r 10; r 11; r 13; r 14; r 15; r 13; r 8]%nat
  - val [r 11%nat; r 12%nat; r 13%nat; 0; 0; 0; r 8%nat; r 10%nat]
  - val [r 12%nat; r 13%nat; r 14%nat; r 15%nat; 0; 0; r 9%nat; r 11%nat]
  - val [r 13%nat; r 14%nat; r 15%nat; r 8%nat; r 9%nat; r 10%nat; 0; r 12%nat]
  - val [r 14%nat; r 15%nat; 0; r 9%nat; r 10%nat; r 11%nat; 0; r 13%nat].

(** The eight column sums of [solinas], without the carries between them. *)
Definition col (a : list Z) (i : nat) : Z :=
  let r := rd a in
  match i with
  | 0%nat => r 0%nat + (r 8%nat + r 9%nat) - (r 11%nat + r 12%nat + r 13%nat + r 14%nat)
  | 1%nat => r 1%nat + (r 9%nat + r 10%nat) - (r 12%nat + r 13%nat + r 14%nat + r 15%nat)
  | 2%nat => r 2%nat + (r 10%nat + r 11%nat) - (r 13%nat + r 14%nat + r 15%nat)
  | 3%nat => r 3%nat + 2 * r 11%nat + 2 * r 12%nat + r 13%nat - r 15%nat - (r 8%nat + r 9%nat)
  | 4%nat => r 4%nat + 2 * r 12%nat + 2 * r 13%nat + r 14%nat - (r 9%nat + r 10%nat)
  | 5%nat => r 5%nat + 2 * r 13%nat + 2 * r 14%nat + r 15%nat - (r 10%nat + r 11%nat)
  | 6%nat => r 6%nat + r 13%nat + 3 * r 14%nat + 2 * r 15%nat - (r 8%nat + r 9%nat)
  | _ => r 7%nat + 3 * r 15%nat + r 8%nat - (r 10%nat + r 11%nat + r 12%nat + r 13%nat)
  end.

(** The signed carry out of column [i]. *)
Fixpoint col_carry (a : list Z) (i : nat) : Z :=
  match i with
  | O => col a 0 / 2 ^ 32
  | S j => (col a (S j) + col_carry a j) / 2 ^ 32
  end.

(** No word has to borrow when it receives the carry of the word below. *)
Definition no_borrow (a : list Z) : bool :=
  forallb (fun i => 0 <=? rd a (S i) + col_carry a i) [0; 1; 2; 3; 4; 5; 6]%nat.

Section Chain.
Context (a : list Z) (Ha : words 16 a) (Hn : no_borrow a = true).

Lemma rd_range i : (i < 16)%nat -> in_range 32 (rd a i).
Proof. by apply words_rd. Qed.

Lemma rd_bound i : (i < 16)%nat -> 0 <= rd a i < 4294967296.
Proof. apply rd_range. Qed.

Lemma no_borrow_rd i : (i <= 6)%nat -> 0 <= rd a (S i) + col_carry a i.
Proof.
  intros Hi. unfold no_borrow in Hn. rewrite forallb_forall in Hn.
  apply Z.leb_le, Hn. do 7 (destruct i as [|i]; [simpl; tauto|]). lia.
Qed.

Lemma col_carry_0 c s : in_range 32 c -> c + 2 ^ 32 * s = col a 0 -> col_carry a 0 = s.
Proof. intros Hc E. symmetry. apply Z.div_unique_pos with c; [done | lia]. Qed.

Lemma col_carry_S i c s t :
  in_range 32 c -> col_carry a i = t -> c + 2 ^ 32 * s = col a (S i) + t -> col_carry a (S i) = s.
Proof.
  intros Hc <- E. change (col_carry a (S i)) with ((col a (S i) + col_carry a i) / 2 ^ 32).
  symmetry. apply Z.div_unique_pos with c; [done | lia].
Qed.

Ltac rdb := repeat match goal with
  | |- context [rd a ?i] =>
      lazymatch goal with H : 0 <= rd a i < _ |- _ => fail | _ => pose proof (rd_bound i ltac:(lia)) end
  end; change (2 ^ 39) with 549755813888 in *.

Lemma sum_C : sval (fast_mod_C a) (rd a 13 + rd a 14 + rd a 15).
Proof. apply sum_add_spec; [apply rd_range; lia | rdb; lia |]. apply sum2_spec; apply rd_range; lia. Qed.

Lemma sum_E : sval (fast_mod_E a) (rd a 8 + rd a 9).
Proof. apply sum2_spec; apply rd_range; lia. Qed.

Lemma sum_F : sval (fast_mod_F a) (rd a 9 + rd a 10).
Proof. apply sum2_spec; apply rd_range; lia. Qed.

Lemma sum_G : sval (fast_mod_G a) (rd a 10 + rd a 11).
Proof. apply sum2_spec; apply rd_range; lia. Qed.

Lemma sum_B : sval (fast_mod_B a) (rd a 13 + rd a 14 + rd a 15 + rd a 12).
Proof. apply sum_add_spec; [apply rd_range; lia | rdb; lia | apply sum_C]. Qed.

Lemma sum_A : sval (fast_mod_A a) (rd a 13 + rd a 14 + rd a 15 + rd a 12 + rd a 11 - rd a 15).
Proof.
  apply sum_sub_spec; [apply rd_range; lia | rdb; lia | rdb; lia |].
  apply sum_add_spec; [apply rd_range; lia | rdb; lia | apply sum_B].
Qed.

Lemma sum_D :
  sval (fast_mod_D a)
    (rd a 13 + rd a 14 + rd a 15 + rd a 12 + rd a 11 - rd a 15 + rd a 10 - rd a 14).
Proof.
  apply sum_sub_spec; [apply rd_range; lia | rdb; lia | rdb; lia |].
  apply sum_add_spec; [apply rd_range; lia | rdb; lia | apply sum_A].
Qed.

Ltac low_facts :=
  pose proof (no_borrow_rd 0 ltac:(lia)); pose proof (no_borrow_rd 1 ltac:(lia));
  pose proof (no_borrow_rd 2 ltac:(lia)); pose proof (no_borrow_rd 3 ltac:(lia));
  pose proof (no_borrow_rd 4 ltac:(lia)); pose proof (no_borrow_rd 5 ltac:(lia));
  pose proof (no_borrow_rd 6 ltac:(lia));
  rdb.

(** Split a sum into its word and count, with its equation. *)
Ltac sum_case f X UX spec :=
  let S := fresh "S" in
  pose proof spec as S; destruct f as [X UX]; destruct S as (? & ? & ?); cbn [fst snd] in *.

(** Take the next word [(c, U)] of the chain, with the integer it stands for. *)
Ltac word_case ci Ui s Hs Hc :=
  match goal with
  | |- context [let '(_, _) := ?f in _] =>
      let S := fresh "S" in
      eassert (S : cval f _) by
        (repeat first [ eassumption | apply carry_sub_spec | apply carry_add_spec | apply carry_in_spec
                      | apply rd_range; lia
                      | unfold in_range in *; change (2 ^ 32) with 4294967296 in *;
                        change (2 ^ 31) with 2147483648; lia ]);
      destruct f as [ci Ui]; let HU := fresh in
      destruct S as (Hc & s & HU & Hs); cbn [fst snd] in Hc, HU, Hs; subst Ui
  end.

Lemma fast_mod_low_spec c U :
  fast_mod_low a = (c, U) ->
  exists s, U = u32 s /\ col_carry a 3 = s /\ -7 <= s <= 7 /\ words 4 c /\
    val c + 2 ^ 128 * s =
      val [rd a 0; rd a 1; rd a 2; rd a 3]%nat
      + 2 * val [0; 0; 0; rd a 11%nat] + 2 * val [0; 0; 0; rd a 12%nat]
      + val [rd a 8%nat; rd a 9%nat; rd a 10%nat; 0] + val [rd a 9; rd a 10; rd a 11; rd a 13]%nat
      - val [rd a 11%nat; rd a 12%nat; rd a 13%nat; 0] - val [rd a 12; rd a 13; rd a 14; rd a 15]%nat
      - val [rd a 13; rd a 14; rd a 15; rd a 8]%nat - val [rd a 14%nat; rd a 15%nat; 0; rd a 9%nat].
Proof.
  unfold fast_mod_low.
  low_facts.
  sum_case (fast_mod_A a) A UA sum_A. sum_case (fast_mod_B a) B UB sum_B.
  sum_case (fast_mod_C a) C UC sum_C. sum_case (fast_mod_E a) E UE sum_E.
  sum_case (fast_mod_F a) F UF sum_F. sum_case (fast_mod_G a) G UG sum_G.
  assert (cval (u32 (rd a 0 + E), u32 (b2z (u32 (rd a 0 + E) <? E) + UE))
            (rd a 0 + E + 2 ^ 32 * UE)) as S0.
  { split; [apply wrap_range; lia|]. exists (b2z (u32 (rd a 0 + E) <? E) + UE). split; [done|].
    cbn [fst snd]. pose proof (rd_range 0 ltac:(lia)). wrap32. unfold b2z. zcmp; lia. }
  word_case c0 U0 s0 Hs0 Hc0.
  pose proof (col_carry_0 c0 s0 Hc0 ltac:(unfold col; lia)) as K0. word_case c1 U1 s1 Hs1 Hc1.
  pose proof (col_carry_S 0 c1 s1 s0 Hc1 K0 ltac:(unfold col; lia)) as K1. word_case c2 U2 s2 Hs2 Hc2.
  pose proof (col_carry_S 1 c2 s2 s1 Hc2 K1 ltac:(unfold col; lia)) as K2. word_case c3 U3 s3 Hs3 Hc3.
  pose proof (col_carry_S 2 c3 s3 s2 Hc3 K2 ltac:(unfold col; lia)) as K3.
  intros [= <- <-]. exists s3. split; [done|]. split; [done|]. unfold in_range in *.
  change (2 ^ 32) with 4294967296 in *. split; [lia|]. split.
  - repeat (apply words_cons; split; [done|]). apply words_nil.
  - cbn [val]. change (2 ^ 32) with 4294967296.
    change (2 ^ 128) with 340282366920938463463374607431768211456. lia.
Qed.

Lemma fast_mod_high_spec s c U :
  col_carry a 3 = s -> -7 <= s <= 7 -> fast_mod_high a (u32 s) = (c, U) ->
  exists s', U = u32 s' /\ -8 <= s' <= 8 /\ words 4 c /\
    val c + 2 ^ 128 * s' =
      s + val [rd a 4; rd a 5; rd a 6; rd a 7]%nat
      + 2 * val [rd a 12; rd a 13; rd a 14; rd a 15]%nat
      + 2 * val [rd a 13%nat; rd a 14%nat; rd a 15%nat; 0]
      + val [0; 0; rd a 14%nat; rd a 15%nat] + val [rd a 14; rd a 15; rd a 13; rd a 8]%nat
      - val [0; 0; rd a 8%nat; rd a 10%nat] - val [0; 0; rd a 9%nat; rd a 11%nat]
      - val [rd a 9%nat; rd a 10%nat; 0; rd a 12%nat] - val [rd a 10%nat; rd a 11%nat; 0; rd a 13%nat].
Proof.
  intros K3 Hs. unfold fast_mod_high. low_facts.
  sum_case (fast_mod_B a) B UB sum_B. sum_case (fast_mod_C a) C UC sum_C.
  sum_case (fast_mod_D a) D UD sum_D. sum_case (fast_mod_E a) E UE sum_E.
  sum_case (fast_mod_F a) F UF sum_F. sum_case (fast_mod_G a) G UG sum_G.
  word_case c4 U4 s4 Hs4 Hc4.
  pose proof (col_carry_S 3 c4 s4 s Hc4 K3 ltac:(unfold col; lia)) as K4. word_case c5 U5 s5 Hs5 Hc5.
  pose proof (col_carry_S 4 c5 s5 s4 Hc5 K4 ltac:(unfold col; lia)) as K5. word_case c6 U6 s6 Hs6 Hc6.
  pose proof (col_carry_S 5 c6 s6 s5 Hc6 K5 ltac:(unfold col; lia)) as K6. word_case c7 U7 s7 Hs7 Hc7.
  intros [= <- <-]. exists s7. split; [done|]. unfold in_range in *.
  change (2 ^ 32) with 4294967296 in *. split; [lia|]. split.
  - repeat (apply words_cons; split; [done|]). apply words_nil.
  - cbn [val]. change (2 ^ 32) with 4294967296.
    change (2 ^ 128) with 340282366920938463463374607431768211456. lia.
Qed.

Lemma fast_mod_chain_spec c U :
  fast_mod_chain a = (c, U) ->
  exists s, U = u32 s /\ -8 <= s <= 8 /\ words 8 c /\ val c + 2 ^ 256 * s = solinas a.
Proof.
  unfold fast_mod_chain. destruct (fast_mod_low a) as [lo U1] eqn:El.
  apply fast_mod_low_spec in El as (s & -> & K3 & Hs & Wl & Vl).
  destruct (fast_mod_high a (u32 s)) as [hi U2] eqn:Eh.
  apply fast_mod_high_spec in Eh as (s' & -> & Hs' & Wh & Vh); [|done..].
  intros [= <- <-]. exists s'. split; [done|]. split; [done|].
  split; [by apply (words_app 4 4)|]. rewrite val_app, (proj1 Wl).
  change (32 * Z.of_nat 4) with 128. change (2 ^ 256) with (2 ^ 128 * 2 ^ 128).
  unfold solinas. cbn [val] in *. lia.
Qed.

End Chain.

Lemma val_rd16 a : words 16 a ->
  val a = val [rd a 0; rd a 1; rd a 2; rd a 3; rd a 4; rd a 5; rd a 6; rd a 7;
               rd a 8; rd a 9; rd a 10; rd a 11; rd a 12; rd a 13; rd a 14; rd a 15]%nat.
Proof.
  intros [Hl _]. do 16 (destruct a as [|? a]; [done|]). destruct a; [|done]. reflexivity.
Qed.

(** The Solinas sum is congruent to the sixteen-word number. *)
Lemma solinas_mod a : words 16 a -> solinas a mod p256 = val a mod p256.
Proof.
  intros Ha. rewrite (val_rd16 a Ha). symmetry.
  apply mod_eq_by with
    (k := rd a 8 + 4294967297 * rd a 9 + 18446744078004518912 * rd a 10
          + 79228162532711081667253501951 * rd a 11
          + 340282367000166625977638945021017194495 * rd a 12
          + 1461501637671185285124623296161210883009696235519 * rd a 13
          + 6277101736848182401166692341332123086285927382448418586623 * rd a 14
          + 26959946673427741530053695850515137729844644212646842236464328081408 * rd a 15).
  unfold solinas. cbn [val].
  change p256 with 115792089210356248762697446949407573530086143415290314195533631308867097853951.
  change (2 ^ 32) with 4294967296. lia.
Qed.

(** ** The final loops *)

Lemma iter_sub_spec n c :
  words 8 c ->
  words 8 (Nat.iter n (fun c => fst (multiprecision_sub c modp)) c) /\
  val (Nat.iter n (fun c => fst (multiprecision_sub c modp)) c) =
    (val c - Z.of_nat n * p256) mod 2 ^ 256.
Proof.
  intros Hc. induction n as [|n [IH1 IH2]].
  - simpl. split; [done|]. rewrite Z.sub_0_r, Z.mod_small; [done|]. by apply val_bound8.
  - cbn [Nat.iter nat_rect]. change (nat_rect _ _ _ n) with (Nat.iter n (fun c => fst (multiprecision_sub c modp)) c).
    destruct (multiprecision_sub _ modp) as [d bo] eqn:E.
    apply multiprecision_sub_spec in E as (D1 & D2 & D3); [|done|apply modp_words].
    split; [done|]. simpl. rewrite val_modp in D3. pose proof (val_bound8 _ D1).
    rewrite IH2 in D3. rewrite <- (Z.mod_small (val d) (2 ^ 256)) by done.
    replace (val d) with ((val c - Z.of_nat n * p256) mod 2 ^ 256 - p256 + bo * 2 ^ 256) by lia.
    rewrite Z_mod_plus_full, Zminus_mod_idemp_l. f_equal. lia.
Qed.

Lemma iter_add_spec n c :
  words 8 c ->
  words 8 (Nat.iter n (fun c => fst (multiprecision_add c modp)) c) /\
  val (Nat.iter n (fun c => fst (multiprecision_add c modp)) c) =
    (val c + Z.of_nat n * p256) mod 2 ^ 256.
Proof.
  intros Hc. induction n as [|n [IH1 IH2]].
  - simpl. split; [done|]. rewrite Z.add_0_r, Z.mod_small; [done|]. by apply val_bound8.
  - cbn [Nat.iter nat_rect]. change (nat_rect _ _ _ n) with (Nat.iter n (fun c => fst (multiprecision_add c modp)) c).
    destruct (multiprecision_add _ modp) as [d ca] eqn:E.
    apply multiprecision_add_spec in E as (D1 & D2 & D3); [|done|apply modp_words].
    split; [done|]. simpl. rewrite val_modp in D3. pose proof (val_bound8 _ D1).
    rewrite IH2 in D3. rewrite <- (Z.mod_small (val d) (2 ^ 256)) by done.
    replace (val d) with ((val c + Z.of_nat n * p256) mod 2 ^ 256 + p256 + (- ca) * 2 ^ 256) by lia.
    rewrite Z_mod_plus_full, Zplus_mod_idemp_l. f_equal. lia.
Qed.

Lemma val_top c : words 8 c -> rd c 7 * 2 ^ 224 <= val c < (rd c 7 + 1) * 2 ^ 224.
Proof.
  intros Hc. pose proof (words_take 7 8 c Hc ltac:(lia)) as Ht.
  assert (c = take 7 c ++ [rd c 7]) as Ec.
  { rewrite <- take_S_rd by (destruct Hc; lia). rewrite take_ge; [done | destruct Hc; lia]. }
  rewrite Ec at 2 3. rewrite val_app, (proj1 Ht). apply val_bound in Ht.
  change (32 * Z.of_nat 7) with 224 in *. cbn [val]. lia.
Qed.

(** The signed value of a [uint32_t]. *)
Definition sgn32 (U : Z) : Z := if U <? 2 ^ 31 then U else U - 2 ^ 32.

Lemma sgn32_wrap s : -8 <= s <= 8 -> sgn32 (u32 s) = s.
Proof.
  intros Hs. unfold sgn32. destruct (Z.leb_spec 0 s).
  - rewrite wrap_small by (unfold in_range; lia). zcmp; [done|lia].
  - assert (u32 s = s + 2 ^ 32) as -> by (symmetry; apply Z.mod_unique_pos with (-1); lia). zcmp; lia.
Qed.

(** Adding or subtracting [p] as often as the carry says does not wrap. *)
Definition top_ok (c : list Z) (s : Z) : bool :=
  (0 <=? val c + s * (2 ^ 256 - p256)) && (val c + s * (2 ^ 256 - p256) <? 2 ^ 256).

Lemma fast_mod_final_spec c s :
  words 8 c -> -8 <= s <= 8 -> top_ok c s = true ->
  words 8 (fast_mod_final c (u32 s)) /\
  val (fast_mod_final c (u32 s)) = (val c + 2 ^ 256 * s) mod p256.
Proof.
  intros Hc Hs Ht. apply andb_true_iff in Ht as [T1%Z.leb_le T2%Z.ltb_lt].
  pose proof p256_bounds as PB.
  assert (0 <= val c + s * (2 ^ 256 - p256) < 2 ^ 256) as HR by done.
  unfold fast_mod_final. rewrite sign_bit by lia.
  set (d := if negb (0 <=? s) then _ else _).
  assert (words 8 d /\ val d = val c + s * (2 ^ 256 - p256)) as [D1 D2].
  { subst d. destruct (Z.leb_spec 0 s); cbn [negb].
    - rewrite (wrap_small 32 s) by (unfold in_range; lia).
      destruct (iter_sub_spec (Z.to_nat s) c Hc) as [I1 I2]. split; [done|]. rewrite I2.
      symmetry. apply Z.mod_unique_pos with (- s); lia.
    - assert (u32 s = s + 2 ^ 32) as -> by (symmetry; apply Z.mod_unique_pos with (-1); lia).
      destruct (iter_add_spec (Z.to_nat (2 ^ 32 - (s + 2 ^ 32))) c Hc) as [I1 I2]. split; [done|].
      rewrite I2. symmetry. apply Z.mod_unique_pos with (- s); lia. }
  clearbody d.
  destruct (reduce_once d 0 (val d)) as [R1 R2]; [done|lia|lia|lia|].
  cbn [negb Z.eqb] in *. split; [done|]. rewrite R2, D2.
  apply mod_eq_by with (- s). lia.
Qed.

(** The inputs on which the carry chain and the final loops are exact. *)
Definition fast_mod_safe (a : list Z) : bool :=
  no_borrow a && (let '(c, U) := fast_mod_chain a in top_ok c (sgn32 U)).

Lemma fast_mod_correct a :
  words 16 a -> fast_mod_safe a = true ->
  field (multiprecision_fast_mod_P256 a) /\ val (multiprecision_fast_mod_P256 a) = val a mod p256.
Proof.
  intros Ha [Hn Ht]%andb_true_iff. unfold multiprecision_fast_mod_P256.
  destruct (fast_mod_chain a) as [c U] eqn:E.
  apply fast_mod_chain_spec in E as (s & -> & Hs & Hc & Hv); [|done..].
  rewrite sgn32_wrap in Ht by done. destruct (fast_mod_final_spec c s) as [F1 F2]; [done..|].
  rewrite Hv, solinas_mod in F2 by done. split; [by eapply field_of_mod | done].
Qed.

(** ** The modular inverse *)

Lemma val_mod2 n a : words (S n) a -> Z.land (rd a 0) 1 = val a mod 2.
Proof.
  intros (x & a' & -> & _ & _)%words_S_inv. change 1 with (Z.ones 1). rewrite Z.land_ones by lia.
  cbn [rd nth val]. change (2 ^ 1) with 2. change (2 ^ 32) with (2147483648 * 2).
  rewrite <- Z.mul_assoc, (Z.mul_comm 2147483648), <- Z.mul_assoc, Z.mul_comm.
  by rewrite <- (Z_mod_plus_full x (val a' * 2147483648) 2).
Qed.

Lemma val_insert7 c x :
  words 8 c -> in_range 32 x ->
  words 8 (<[7%nat := x]> c) /\ val (<[7%nat := x]> c) = val c + 2 ^ 224 * (x - rd c 7).
Proof.
  intros [Hl Hf] Hx. split.
  - split; [by rewrite length_insert | by apply Forall_insert].
  - do 8 (destruct c as [|? c]; [done|]). destruct c; [|done].
    cbn [insert list_insert val rd nth]. change (2 ^ 224) with (2 ^ 32 * (2 ^ 32 * (2 ^ 32 * (2 ^ 32 * (2 ^ 32 * (2 ^ 32 * 2 ^ 32)))))). lia.
Qed.

Lemma halve_mod_spec A :
  field A ->
  field (halve_mod A) /\
  (2 * val (halve_mod A) = val A \/ 2 * val (halve_mod A) = val A + p256).
Proof.
  intros [HA LA]. unfold halve_mod. rewrite (val_mod2 7) by done. pose proof p256_bounds as PB.
  pose proof (val_bound8 _ HA) as VB.
  destruct (Z.eqb_spec (val A mod 2) 0) as [E|E].
  - destruct (multiprecision_rshift_spec A HA) as [R1 R2].
    assert (2 * val (multiprecision_rshift A) = val A) by (rewrite R2; dmlia).
    split; [|by left]. split; [done | lia].
  - destruct (multiprecision_add A modp) as [B A8] eqn:Ea.
    apply multiprecision_add_spec in Ea as (B1 & B2 & B3); [|done|apply modp_words]. rewrite val_modp in B3.
    destruct (multiprecision_rshift_spec B B1) as [R1 R2].
    pose proof (val_top _ R1) as VT. pose proof (val_bound8 _ B1) as BB.
    pose proof (words_rd 8 _ 7 R1 ltac:(lia)) as H7.
    assert (in_range 31 (rd (multiprecision_rshift B) 7)) as H31.
    { unfold in_range in *. split; [lia|]. assert (val (multiprecision_rshift B) < 2 ^ 255) by (rewrite R2; change (2 ^ 256) with (2 * 2 ^ 255) in *; dmlia).
      change (2 ^ 255) with (2 ^ 31 * 2 ^ 224) in *. nia. }
    assert (A8 = 0 \/ A8 = 1) as HA8 by lia.
    assert (u32 (Z.shiftl A8 31) = A8 * 2 ^ 31) as -> by (destruct HA8 as [-> | ->]; done).
    rewrite lor_disjoint_high; [|done|destruct HA8 as [-> | ->]; [by left | by right]].
    destruct (val_insert7 (multiprecision_rshift B) (rd (multiprecision_rshift B) 7 + A8 * 2 ^ 31)) as [I1 I2].
    { done. } { unfold in_range in *. change (2 ^ 32) with (2 * 2 ^ 31). lia. }
    assert (2 * val (<[7%nat:=rd (multiprecision_rshift B) 7 + A8 * 2 ^ 31]> (multiprecision_rshift B)) = val A + p256) as Ev.
    { rewrite I2, R2. replace (2 ^ 224 * _) with (A8 * 2 ^ 255) by (change (2 ^ 255) with (2 ^ 31 * 2 ^ 224); lia).
      change (2 ^ 256) with (2 * 2 ^ 255) in *. set (Q := 2 ^ 255) in *.
      assert (p256 mod 2 = 1) by done. dmlia. }
    split; [|by right]. split; [done | lia].
Qed.

(** Halving a congruence: two is invertible modulo the odd prime. *)
Lemma divide_half x : (p256 | 2 * x) -> (p256 | x).
Proof.
  intros [k Hk]. exists ((p256 + 1) / 2 * k - x).
  assert (2 * ((p256 + 1) / 2) = p256 + 1) as E by reflexivity. nia.
Qed.

Section Inverse.
Context (u0 : Z).

(** The invariant of the two cofactors: [A * u0 = u] modulo [p]. *)
Definition cofactor (u A : list Z) : Prop :=
  words 8 u /\ field A /\ (p256 | val A * u0 - val u).

Lemma strip_step u A :
  cofactor u A -> val u mod 2 = 0 ->
  cofactor (multiprecision_rshift u) (halve_mod A) /\ 2 * val (multiprecision_rshift u) = val u.
Proof.
  intros (Hu & HA & HD) He. destruct (multiprecision_rshift_spec u Hu) as [R1 R2].
  destruct (halve_mod_spec A HA) as [F1 F2].
  assert (2 * val (multiprecision_rshift u) = val u) as Ev by (rewrite R2; dmlia).
  split; [|done]. split; [done|]. split; [done|]. apply divide_half.
  replace (2 * (val (halve_mod A) * u0 - val (multiprecision_rshift u)))
    with (2 * val (halve_mod A) * u0 - val u) by lia.
  destruct F2 as [-> | ->]; [done|].
  replace ((val A + p256) * u0 - val u) with (val A * u0 - val u + u0 * p256) by lia.
  apply Z.divide_add_r; [done | apply Z.divide_factor_r].
Qed.

(** Stripping ends with an odd number, having divided by a power of two. *)
Lemma strip_loop_spec fuel u A :
  cofactor u A -> 0 < val u < 2 ^ Z.of_nat fuel ->
  exists u' A' k, strip_loop fuel u A = Some (u', A') /\ cofactor u' A' /\
    0 <= k /\ val u = 2 ^ k * val u' /\ val u' mod 2 = 1 /\ (val u mod 2 = 0 -> 0 < k).
Proof.
  revert u A. induction fuel as [|fuel IH]; intros u A HI Hu; [simpl in Hu; lia|].
  cbn [strip_loop]. rewrite (val_mod2 7) by apply HI.
  destruct (Z.eqb_spec (val u mod 2) 0) as [E|E].
  - destruct (strip_step u A HI E) as [HI' Ev].
    rewrite Nat2Z.inj_succ, Z.pow_succ_r in Hu by lia.
    destruct (IH _ _ HI' ltac:(lia)) as (u' & A' & k & E1 & E2 & E3 & E4 & E5 & _).
    exists u', A', (k + 1). repeat split; try done; try apply E2; try lia.
    rewrite Z.pow_add_r by lia. lia.
  - exists u, A, 0. repeat split; try done; try apply HI; try lia. dmlia.
Qed.

(** The state of the outer loop. *)
Definition euclid (u v A C : list Z) : Prop :=
  cofactor u A /\ cofactor v C /\ 0 < val v /\
  (val u mod 2 = 1 \/ val v mod 2 = 1) /\ Z.gcd (val u) (val v) = Z.gcd u0 p256.

Lemma gcd_strip2 x y : y mod 2 = 1 -> Z.gcd (2 * x) y = Z.gcd x y.
Proof.
  intros Hy. apply Z.gcd_unique; [apply Z.gcd_nonneg|..].
  - apply Z.divide_mul_r, Z.gcd_divide_l.
  - apply Z.gcd_divide_r.
  - intros q [n Hn] [m Hm]. apply Z.gcd_greatest; [|by exists m].
    assert (q mod 2 = 1) as Hq.
    { rewrite Zmod_odd in Hy |- *. rewrite Hm, Z.odd_mul in Hy.
      destruct (Z.odd q); [done|]. by rewrite andb_false_r in Hy. }
    exists (x - (q / 2) * n). assert (q = 2 * (q / 2) + 1) by dmlia. nia.
Qed.

Lemma gcd_strip k x y : 0 <= k -> y mod 2 = 1 -> Z.gcd (2 ^ k * x) y = Z.gcd x y.
Proof.
  intros Hk Hy. revert k Hk. apply natlike_ind; [by rewrite Z.mul_1_l|].
  intros k Hk IH. rewrite Z.pow_succ_r, <- Z.mul_assoc, gcd_strip2 by done. done.
Qed.

Lemma gcd_odd_parts k l x y :
  0 <= k -> 0 <= l -> x mod 2 = 1 -> y mod 2 = 1 ->
  (2 ^ k * x) mod 2 = 1 \/ (2 ^ l * y) mod 2 = 1 ->
  Z.gcd (2 ^ k * x) (2 ^ l * y) = Z.gcd x y.
Proof.
  intros Hk Hl Hx Hy [H|H].
  - rewrite Z.gcd_comm, gcd_strip, Z.gcd_comm, gcd_strip by done. done.
  - rewrite gcd_strip, Z.gcd_comm, gcd_strip, Z.gcd_comm by done. done.
Qed.

(** Subtracting one pair from the other keeps the cofactor relation. *)
Lemma cofactor_sub u v A C :
  cofactor u A -> cofactor v C -> val v <= val u ->
  cofactor (fst (multiprecision_sub u v)) (multiprecision_sub_mod A C) /\
  val (fst (multiprecision_sub u v)) = val u - val v.
Proof.
  intros (Hu & HA & [a Da]) (Hv & HC & [c Dc]) Hle.
  destruct (multiprecision_sub u v) as [d bo] eqn:E. simpl.
  apply multiprecision_sub_spec in E as (D1 & D2 & D3); [|done..].
  pose proof (val_bound8 _ Hu). pose proof (val_bound8 _ Hv). pose proof (val_bound8 _ D1).
  assert (bo = 0) as -> by lia.
  destruct (multiprecision_sub_mod_spec A C HA HC) as [F1 F2].
  assert (val d = val u - val v) as Ed by lia.
  split; [|done]. split; [done|]. split; [done|].
  rewrite F2, Z.mod_eq, Ed by done.
  exists (a - c - (val A - val C) / p256 * u0). lia.
Qed.

Lemma odd_sub_even x y : x mod 2 = 1 -> y mod 2 = 1 -> (x - y) mod 2 = 0.
Proof. intros Hx Hy. by rewrite Zminus_mod, Hx, Hy. Qed.

Lemma odd_pos x : 0 <= x -> x mod 2 = 1 -> 0 < x.
Proof. intros Hx Ho. destruct (Z.eq_dec x 0) as [->|]; [done | lia]. Qed.

(** Dividing by powers of two does not increase a product, and halves it when
    one of the powers is even. *)
Lemma strip_product k l x y :
  0 <= k -> 0 <= l -> 0 < x -> 0 < y ->
  x * y <= (2 ^ k * x) * (2 ^ l * y) /\
  (0 < k \/ 0 < l -> 2 * (x * y) <= (2 ^ k * x) * (2 ^ l * y)).
Proof.
  intros Hk Hl Hx Hy. replace (2 ^ k * x * (2 ^ l * y)) with (2 ^ (k + l) * (x * y)) by (rewrite Z.pow_add_r by lia; lia).
  assert (0 < x * y) by nia. split.
  - assert (2 ^ 0 <= 2 ^ (k + l)) by (apply Z.pow_le_mono_r; lia). change (2 ^ 0) with 1 in *. nia.
  - intros Hkl. assert (2 ^ 1 <= 2 ^ (k + l)) by (apply Z.pow_le_mono_r; lia). change (2 ^ 1) with 2 in *. nia.
Qed.

(** One round keeps the invariant, leaves one of the two even, and halves their
    product once one of them is even. *)
Lemma inv_mod_step_spec u v A C :
  euclid u v A C -> 0 < val u ->
  exists u' v' A' C', inv_mod_step u v A C = Some (u', v', A', C') /\ euclid u' v' A' C' /\
    (val u' mod 2 = 0 \/ val v' mod 2 = 0) /\ val u' * val v' <= val u * val v /\
    (val u mod 2 = 0 \/ val v mod 2 = 0 -> 2 * (val u' * val v') <= val u * val v).
Proof.
  intros (Hu & Hv & Pv & Ho & Hg) Pu. unfold inv_mod_step.
  pose proof (val_bound8 _ (proj1 Hu)). pose proof (val_bound8 _ (proj1 Hv)).
  destruct (strip_loop_spec 256 u A Hu) as (u1 & A1 & k & -> & Hu1 & Hk & Eu & Ou & Kp);
    [change (2 ^ Z.of_nat 256) with (2 ^ 256); lia|].
  destruct (strip_loop_spec 256 v C Hv) as (v1 & C1 & l & -> & Hv1 & Hl & Ev & Ov & Lp);
    [change (2 ^ Z.of_nat 256) with (2 ^ 256); lia|].
  cbn [mbind option_bind]. rewrite compare_geb by (apply Hu1 || apply Hv1).
  assert (Z.gcd (val u1) (val v1) = Z.gcd u0 p256) as Hg1.
  { rewrite <- Hg, Eu, Ev. symmetry. apply gcd_odd_parts; try done. by rewrite <- Eu, <- Ev. }
  pose proof (val_bound8 _ (proj1 Hu1)). pose proof (val_bound8 _ (proj1 Hv1)).
  assert (0 < val u1) as Pu1 by (apply odd_pos; [lia | done]).
  assert (0 < val v1) as Pv1 by (apply odd_pos; [lia | done]).
  destruct (strip_product k l (val u1) (val v1)) as [M1 M2]; [done..|].
  rewrite <- Eu, <- Ev in M1, M2.
  assert (val u mod 2 = 0 \/ val v mod 2 = 0 -> 2 * (val u1 * val v1) <= val u * val v) as M3 by tauto.
  clear Kp Lp M2 Eu Ev Hg Ho Pu Pv. set (T := val u * val v) in *. clearbody T.
  destruct (Z.leb_spec (val v1) (val u1)).
  - destruct (cofactor_sub u1 v1 A1 C1 Hu1 Hv1 ltac:(lia)) as [S1 S2].
    eexists _, _, _, _. split; [done|]. rewrite S2. split.
    { repeat (split; [done|]). rewrite S2. split; [by right|].
      by rewrite Z.gcd_comm, Z.gcd_sub_diag_r, Z.gcd_comm. }
    split; [left; by apply odd_sub_even|]. split; [nia|]. intros Hev. specialize (M3 Hev). nia.
  - destruct (cofactor_sub v1 u1 C1 A1 Hv1 Hu1 ltac:(lia)) as [S1 S2].
    eexists _, _, _, _. split; [done|]. rewrite S2. split.
    { repeat (split; [done|]). rewrite S2. split; [lia|]. split; [by left|].
      by rewrite Z.gcd_sub_diag_r. }
    split; [right; by apply odd_sub_even|]. split; [nia|]. intros Hev. specialize (M3 Hev). nia.
Qed.

(** With one of the two even, [n] rounds are enough for a product below [2^n]. *)
Lemma inv_mod_loop_spec n u v A C :
  euclid u v A C -> val u mod 2 = 0 \/ val v mod 2 = 0 -> val u * val v < 2 ^ Z.of_nat n ->
  exists C', inv_mod_loop n u v A C = Some C' /\ field C' /\
    (p256 | val C' * u0 - Z.gcd u0 p256).
Proof.
  revert u v A C. induction n as [|n IH]; intros u v A C HE Hev Hb;
    cbn [inv_mod_loop]; rewrite multiprecision_iszero_spec by apply HE;
    pose proof (val_bound8 u ltac:(apply HE)) as Ub; pose proof HE as (Hu & Hv & Pv & Ho & Hg).
  all: destruct (Z.eqb_spec (val u) 0) as [E0|E0]; cbn [b2z negb Z.eqb].
  1, 3: exists C; split; [done|]; split; [apply Hv|]; rewrite <- Hg, E0, Z.gcd_0_l, Z.abs_eq by lia; apply Hv.
  - exfalso. simpl in Hb. nia.
  - destruct (inv_mod_step_spec u v A C HE ltac:(lia)) as (u' & v' & A' & C' & -> & HE' & Hev' & _ & M2).
    cbn [mbind option_bind]. specialize (M2 Hev).
    rewrite Nat2Z.inj_succ, Z.pow_succ_r in Hb by lia. apply IH; [done|done|lia].
Qed.

End Inverse.

Lemma inv_mod_loop_S n u v A C :
  inv_mod_loop (S n) u v A C =
    if negb (multiprecision_iszero u =? 0) then Some C
    else '(u, v, A, C) ← inv_mod_step u v A C; inv_mod_loop n u v A C.
Proof. reflexivity. Qed.

Lemma inv_mod_correct u :
  words 8 u ->
  exists r, multiprecision_inv_mod u = Some r /\ field r /\
    (p256 | val r * val u - Z.gcd (val u) p256).
Proof.
  intros Hu. pose proof (val_bound8 _ Hu) as Ub. pose proof p256_bounds as PB.
  assert (euclid (val u) u modp one zero) as HE.
  { split; [|split; [|split; [|split]]].
    - split; [done|]. split; [by_decide|]. exists 0. change (val one) with 1. lia.
    - split; [apply modp_words|]. split; [by_decide|]. exists (-1). rewrite val_modp. change (val zero) with 0. lia.
    - done.
    - by right.
    - by rewrite val_modp. }
  unfold multiprecision_inv_mod.
  assert (exists C, inv_mod_loop 513 u modp one zero = Some C /\ field C /\
            (p256 | val C * val u - Z.gcd (val u) p256)) as (C & -> & FC & DC).
  { change 513%nat with (S 512). rewrite inv_mod_loop_S, multiprecision_iszero_spec by done.
    destruct (Z.eqb_spec (val u) 0) as [E0|E0]; cbn [b2z negb Z.eqb].
    - exists zero. split; [done|]. split; [by_decide|]. rewrite E0, Z.gcd_0_l, Z.abs_eq by lia. exists (-1). change (val zero) with 0. lia.
    - destruct (inv_mod_step_spec _ _ _ _ _ HE ltac:(lia)) as (u' & v' & A' & C' & -> & HE' & Hev & M & _).
      cbn [mbind option_bind]. apply inv_mod_loop_spec; [done|done|].
      rewrite val_modp in M. change (2 ^ Z.of_nat 512) with (2 ^ 256 * 2 ^ 256). nia. }
  cbn [mbind option_bind]. rewrite compare_geb by (apply FC || apply modp_words). rewrite val_modp.
  destruct (Z.leb_spec p256 (val C)); [destruct FC; lia|].
  exists C. split; [|done]. unfold multiprecision_copy, KEY_LENGTH_DWORDS_P256.
  rewrite drop_nil, app_nil_r, take_ge; [done|]. destruct FC as [[? _] _]. lia.
Qed.

(** ** Bit length *)

(** The number of significant bits of a nonnegative integer. *)
Definition bitlen (x : Z) : Z := if x =? 0 then 0 else Z.log2 x + 1.

Lemma dword_bits_loop_spec n i x :
  0 <= x < 2 ^ Z.of_nat n -> dword_bits_loop n i x = i + bitlen x.
Proof.
  revert i x. induction n as [|n IH]; intros i x Hx; cbn [dword_bits_loop]; unfold bitlen in *.
  - simpl in Hx. assert (x = 0) as -> by lia. simpl. lia.
  - rewrite Nat2Z.inj_succ, Z.pow_succ_r in Hx by lia.
    destruct (Z.eqb_spec x 0); [lia|]. rewrite Z.shiftr_div_pow2 by lia. change (2 ^ 1) with 2.
    rewrite IH by dmlia. destruct (Z.eqb_spec (x / 2) 0) as [E|E].
    + assert (x = 1) as -> by dmlia. change (Z.log2 1) with 0. lia.
    + pose proof (Z.log2_shiftr x 1 ltac:(lia)) as HL. rewrite Z.shiftr_div_pow2 in HL by lia.
      change (2 ^ 1) with 2 in HL. pose proof (Z.log2_le_mono 2 x ltac:(dmlia)) as HM.
      change (Z.log2 2) with 1 in HM. lia.
Qed.

Lemma most_signdwords_loop_spec n i a :
  words n a -> (i <= n)%nat ->
  exists j, most_signdwords_loop i a = Z.of_nat j /\ (j <= i)%nat /\ val (take i a) = val (take j a) /\
    (forall k, j = S k -> rd a k <> 0).
Proof.
  intros Ha. induction i as [|i IH]; intros Hi; cbn [most_signdwords_loop].
  - by exists 0%nat.
  - destruct (Z.eqb_spec (rd a i) 0) as [E|E].
    + destruct (IH ltac:(lia)) as (j & -> & Hj & Ev & Hk). exists j. split; [done|]. split; [lia|].
      split; [|done]. rewrite take_S_rd, val_app, E by (destruct Ha; lia). cbn [val]. lia.
    + exists (S i). split; [done|]. split; [done|]. split; [done|]. by intros k [= <-].
Qed.

Lemma bitlen_top n lo x :
  0 <= n -> 0 <= lo < 2 ^ n -> 0 < x -> bitlen (lo + 2 ^ n * x) = n + bitlen x.
Proof.
  intros Hn Hlo Hx. unfold bitlen. assert (0 < 2 ^ n) by (apply Z.pow_pos_nonneg; lia).
  destruct (Z.eqb_spec (lo + 2 ^ n * x) 0); [nia|]. destruct (Z.eqb_spec x 0); [lia|].
  assert (Z.log2 (lo + 2 ^ n * x) = n + Z.log2 x) as ->; [|lia].
  pose proof (Z.log2_spec x Hx) as HL. pose proof (Z.log2_nonneg x).
  apply Z.log2_unique; [lia|].
  replace (Z.succ (n + Z.log2 x)) with (n + Z.succ (Z.log2 x)) by lia.
  rewrite !Z.pow_add_r by lia. nia.
Qed.

Lemma most_signbits_correct a : words 8 a -> multiprecision_most_signbits a = bitlen (val a).
Proof.
  intros Ha. unfold multiprecision_most_signbits, multiprecision_most_signdwords.
  destruct (most_signdwords_loop_spec 8 KEY_LENGTH_DWORDS_P256 a Ha) as (j & -> & Hj & Ev & Hk); [done|].
  unfold KEY_LENGTH_DWORDS_P256 in *. rewrite (take_ge a 8) in Ev by (destruct Ha; lia). rewrite Ev.
  destruct j as [|j]; [done|]. destruct (Z.eqb_spec (Z.of_nat (S j)) 0); [lia|].
  pose proof (words_rd 8 a j Ha ltac:(lia)) as Hr. specialize (Hk j eq_refl).
  pose proof (words_take j 8 a Ha ltac:(lia)) as Wt. pose proof (val_bound _ _ Wt) as Bt.
  rewrite take_S_rd, val_app, (proj1 Wt) by (destruct Ha; lia). cbn [val].
  rewrite Z.mul_0_r, Z.add_0_r. rewrite bitlen_top by (unfold in_range in Hr; lia).
  replace (Z.of_nat (S j) - 1) with (Z.of_nat j) by lia. rewrite Nat2Z.id.
  unfold multiprecision_dword_bits, DWORD_BITS_SHIFT. rewrite dword_bits_loop_spec by exact Hr.
  rewrite Z.shiftl_mul_pow2 by lia. change (2 ^ 5) with 32. lia.
Qed.
