(* ===== verification/P256Ecc.v ===== *)
(** * P-256 points: doubling, mixed addition, NAF and scalar multiplication

    Models [system/stack/smp/p_256_ecc_pp.cc] and the curve parameters of
    [p_256_curvepara.cc].  Points are in Jacobian coordinates; each point
    operation also returns, as a ghost component, the list of the operand pairs
    it multiplies, so that a theorem can say on which inputs every reduction is
    exact. *)

From S2P Require Import Prelude P256Multprecision.
From stdpp Require Import base list.
From Stdlib Require Import ZArith Lia.

Open Scope Z_scope.

(** [Point]. *)
Record Point := mkPoint { px : list Z; py : list Z; pz : list Z }.

(** The fields of [elliptic_curve_t] that the code reads. *)
Record elliptic_curve_t := mkCurve { ec_p : list Z; ec_b : list Z; ec_G : Point }.

(** [p_256_init_curve()]. *)
Definition curve_p256 : elliptic_curve_t :=
  mkCurve modp
    [0x27d2604b; 0x3bce3c3e; 0xcc53b0f6; 0x651d06b0; 0x769886bc; 0xb3ebbd55; 0xaa3a93e7; 0x5ac635d8]
    (mkPoint
       [0xd898c296; 0xf4a13945; 0x2deb33a0; 0x77037d81; 0x63a440f2; 0xf8bce6e5; 0xe12c4247; 0x6b17d1f2]
       [0x37bf51f5; 0xcbb64068; 0x6b315ece; 0x2bce3357; 0x7c0f9e16; 0x8ee7eb4a; 0xfe1a7f9b; 0x4fe342e2]
       zero).

Definition p_256_init_point : Point := mkPoint zero zero zero.

(** The products a point operation computes. *)
Abbreviation products := (list (list Z * list Z)).

(** [ECC_Double(q, p)]: [q] before the call is needed because the early return
    writes only [q->z]. *)
Definition ECC_Double_run (q p : Point) : Point * products :=
  if negb (multiprecision_iszero (pz p) =? 0) then
    (mkPoint (px q) (py q) (multiprecision_init (pz q)), [])
  else
    let x1 := px p in let y1 := py p in let z1 := pz p in
    let t1 := multiprecision_mersenns_squa_mod z1 in       (* t1=z1^2 *)
    let t2 := multiprecision_sub_mod x1 t1 in              (* t2=x1-t1 *)
    let t1' := multiprecision_add_mod x1 t1 in             (* t1=x1+t1 *)
    let t2' := multiprecision_mersenns_mult_mod t1' t2 in  (* t2=t2*t1 *)
    let t3 := multiprecision_lshift_mod t2' in
    let t2'' := multiprecision_add_mod t3 t2' in           (* t2=3t2 *)
    let z3 := multiprecision_mersenns_mult_mod y1 z1 in    (* z3=y1*z1 *)
    let z3' := multiprecision_lshift_mod z3 in
    let y3 := multiprecision_mersenns_squa_mod y1 in       (* y3=y1^2 *)
    let y3' := multiprecision_lshift_mod y3 in
    let t3' := multiprecision_mersenns_mult_mod y3' x1 in  (* t3=y3*x1 *)
    let t3'' := multiprecision_lshift_mod t3' in
    let y3'' := multiprecision_mersenns_squa_mod y3' in    (* y3=y3^2 *)
    let y3''' := multiprecision_lshift_mod y3'' in
    let x3 := multiprecision_mersenns_squa_mod t2'' in     (* x3=t2^2 *)
    let t1'' := multiprecision_lshift_mod t3'' in          (* t1=2t3 *)
    let x3' := multiprecision_sub_mod x3 t1'' in           (* x3=x3-t1 *)
    let t1''' := multiprecision_sub_mod t3'' x3' in        (* t1=t3-x3 *)
    let t1'''' := multiprecision_mersenns_mult_mod t1''' t2'' in
    let y3'''' := multiprecision_sub_mod t1'''' y3''' in   (* y3=t1-y3 *)
    (mkPoint x3' y3'''' z3',
     [(z1, z1); (t1', t2); (y1, z1); (y1, y1); (y3', x1); (y3', y3'); (t2'', t2''); (t1''', t2'')]).

Definition ECC_Double (q p : Point) : Point := fst (ECC_Double_run q p).

(** [ECC_Add(r, p, q)]: the new [r], and [p], whose [z] the source uses as a
    temporary. *)
Definition ECC_Add_run (r p q : Point) : Point * Point * products :=
  let x1 := px p in let y1 := py p in let z1 := pz p in
  let x2 := px q in let y2 := py q in let z2 := pz q in
  if negb (multiprecision_iszero z2 =? 0) then (p, p, [])
  else if negb (multiprecision_iszero z1 =? 0) then (q, p, [])
  else
    let t1 := multiprecision_mersenns_squa_mod z1 in       (* t1=z1^2 *)
    let t2 := multiprecision_mersenns_mult_mod z1 t1 in    (* t2=t1*z1 *)
    let t1' := multiprecision_mersenns_mult_mod x2 t1 in   (* t1=t1*x2 *)
    let t2' := multiprecision_mersenns_mult_mod y2 t2 in   (* t2=t2*y2 *)
    let t1'' := multiprecision_sub_mod t1' x1 in           (* t1=t1-x1 *)
    let t2'' := multiprecision_sub_mod t2' y1 in           (* t2=t2-y1 *)
    let head := [(z1, z1); (z1, t1); (x2, t1); (y2, t2)] in
    if negb (multiprecision_iszero t1'' =? 0) then
      if negb (multiprecision_iszero t2'' =? 0) then
        let '(r, log) := ECC_Double_run r q in (r, p, head ++ log)
      else (mkPoint (px r) (py r) (multiprecision_init (pz r)), p, head)
    else
      let z3 := multiprecision_mersenns_mult_mod z1 t1'' in  (* z3=z1*t1 *)
      let y3 := multiprecision_mersenns_squa_mod t1'' in     (* t3=t1^2 *)
      let z1' := multiprecision_mersenns_mult_mod y3 t1'' in (* t4=t3*t1 *)
      let y3' := multiprecision_mersenns_mult_mod y3 x1 in   (* t3=t3*x1 *)
      let t1''' := multiprecision_lshift_mod y3' in          (* t1=2*t3 *)
      let x3 := multiprecision_mersenns_squa_mod t2'' in     (* x3=t2^2 *)
      let x3' := multiprecision_sub_mod x3 t1''' in          (* x3=x3-t1 *)
      let x3'' := multiprecision_sub_mod x3' z1' in          (* x3=x3-t4 *)
      let y3'' := multiprecision_sub_mod y3' x3'' in         (* t3=t3-x3 *)
      let y3''' := multiprecision_mersenns_mult_mod y3'' t2'' in
      let z1'' := multiprecision_mersenns_mult_mod z1' y1 in
      let y3'''' := multiprecision_sub_mod y3''' z1'' in
      (mkPoint x3'' y3'''' z3, mkPoint x1 y1 z1'',
       head ++ [(z1, t1''); (t1'', t1''); (y3, t1''); (y3, x1); (t2'', t2''); (y3'', t2''); (z1', y1)]).

Definition ECC_Add (r p q : Point) : Point := fst (fst (ECC_Add_run r p q)).

(** [k[0] = k[0] + 1] and the overflow loop of [ECC_NAF]; [None] when the loop
    runs past the eight words. *)
Fixpoint inc_words (k : list Z) : option (list Z) :=
  match k with
  | [] => None
  | x :: k' =>
      let x' := u32 (x + 1) in
      if x' =? 0 then (cons x') <$> inc_words k' else Some (x' :: k')
  end.

(** One iteration of [ECC_NAF]: the digit and the shifted [k]. *)
Definition naf_step (k : list Z) : option (Z * list Z) :=
  if negb (Z.land (rd k 0) 1 =? 0) then
    let sign := Z.land (rd k 0) 3 in
    if sign =? 1 then
      Some (sign, multiprecision_rshift (<[0%nat := Z.land (rd k 0) 0xFFFFFFFE]> k))
    else
      k' ← inc_words k;
      Some (sign, multiprecision_rshift k')
  else Some (0, multiprecision_rshift k).

(** [naf[i / 4] |= sign << ((i % 4) * 2)]; [None] out of the array. *)
Definition naf_set (naf : list Z) (i : nat) (sign : Z) : option (list Z) :=
  b ← naf !! (i / 4)%nat;
  Some (<[(i / 4)%nat := Z.lor b (u8 (Z.shiftl sign (2 * Z.of_nat (i mod 4))))]> naf).

(** [(naf[i / 4] >> ((i % 4) * 2)) & 0x03]. *)
Definition naf_get (naf : list Z) (i : nat) : Z :=
  Z.land (Z.shiftr (rd naf (i / 4)%nat) (2 * Z.of_nat (i mod 4))) 3.

Fixpoint naf_loop (fuel : nat) (naf : list Z) (i : nat) (k : list Z) : option (list Z * nat) :=
  if multiprecision_most_signbits k >=? 1 then
    match fuel with
    | O => None
    | S fuel' =>
        '(sign, k') ← naf_step k;
        naf' ← naf_set naf i sign;
        naf_loop fuel' naf' (S i) k'
    end
  else Some (naf, i).

(** [ECC_NAF(naf, NumNAF, k)] on an array [naf] of [256 / 4 + 1] bytes. *)
Definition ECC_NAF (naf : list Z) (k : list Z) : option (list Z * nat) :=
  naf_loop 257 naf 0 k.

(** The body of the loop of [ECC_PointMult_Bin_NAF], at digit [i]. *)
Definition point_mult_step (p minus_p q : Point) (sign : Z) : Point :=
  let q := ECC_Double q q in
  if sign =? 1 then ECC_Add q q p
  else if sign =? 3 then ECC_Add q q minus_p
  else q.

(** [for (int i = NumNaf - 1; i >= 0; i--)], with [i] digits left. *)
Fixpoint point_mult_loop (i : nat) (naf : list Z) (p minus_p q : Point) : Point :=
  match i with
  | O => q
  | S j => point_mult_loop j naf p minus_p (point_mult_step p minus_p q (naf_get naf j))
  end.

(** [ECC_PointMult_Bin_NAF(q, p, n)]. *)
Definition ECC_PointMult_Bin_NAF (p : Point) (n : list Z) : option Point :=
  let p := mkPoint (px p) (py p) one in
  let minus_p := mkPoint (px p) (fst (multiprecision_sub modp (py p))) one in
  '(naf, NumNaf) ← ECC_NAF (replicate 65 0) n;
  let q := point_mult_loop NumNaf naf p minus_p p_256_init_point in
  zinv ← multiprecision_inv_mod (pz q);
  let z := multiprecision_mersenns_squa_mod zinv in
  let x := multiprecision_mersenns_mult_mod (px q) z in
  let z := multiprecision_mersenns_mult_mod z zinv in
  let y := multiprecision_mersenns_mult_mod (py q) z in
  Some (mkPoint x y z).

(** [ECC_ValidatePoint(pt)]: is [y^2 = x^3 - 3x + b]? *)
Definition ECC_ValidatePoint_run (pt : Point) : bool * products :=
  let y2_mod := multiprecision_mersenns_squa_mod (py pt) in
  let rhs := multiprecision_mersenns_squa_mod (px pt) in
  let three := [3; 0; 0; 0; 0; 0; 0; 0] in
  let rhs' := multiprecision_sub_mod rhs three in
  let rhs'' := multiprecision_mersenns_mult_mod rhs' (px pt) in
  let rhs''' := multiprecision_add_mod rhs'' (ec_b curve_p256) in
  (multiprecision_compare rhs''' y2_mod =? 0,
   [(py pt, py pt); (px pt, px pt); (rhs', px pt)]).

Definition ECC_ValidatePoint (pt : Point) : bool := fst (ECC_ValidatePoint_run pt).

(** ** Congruence modulo the prime *)

Definition cong (x y : Z) : Prop := (p256 | x - y).
Infix "≡p" := cong (at level 70) : word_scope.

#[export] Instance cong_equiv : Equivalence cong.
Proof.
  split.
  - intros x. exists 0. lia.
  - intros x y [k H]. exists (- k). lia.
  - intros x y z [k H] [l H']. exists (k + l). lia.
Qed.

#[export] Instance cong_add : Proper (cong ==> cong ==> cong) Z.add.
Proof. intros x x' [k H] y y' [l H']. exists (k + l). lia. Qed.

#[export] Instance cong_sub : Proper (cong ==> cong ==> cong) Z.sub.
Proof. intros x x' [k H] y y' [l H']. exists (k - l). lia. Qed.

#[export] Instance cong_mul : Proper (cong ==> cong ==> cong) Z.mul.
Proof. intros x x' [k H] y y' [l H']. exists (k * y + x' * l). nia. Qed.

Lemma cong_mod x : x mod p256 ≡p x.
Proof. exists (- (x / p256)). rewrite Z.mod_eq by done. lia. Qed.

Lemma cong_iff_mod x y : x ≡p y <-> x mod p256 = y mod p256.
Proof.
  split.
  - intros [k H]. apply mod_eq_by with k. lia.
  - intros H. rewrite <- (cong_mod x), <- (cong_mod y), H. reflexivity.
Qed.

Lemma cong_0_iff x : x ≡p 0 <-> x mod p256 = 0.
Proof. by rewrite cong_iff_mod. Qed.

(** ** Representation of field elements *)

(** The reduction of the product of [a] and [b] is exact. *)
Definition safe_product (ab : list Z * list Z) : bool :=
  fast_mod_safe (multiprecision_mult (replicate 16 0) (fst ab) (snd ab)).

(** [repr a x]: the words [a] are a reduced representative of [x]. *)
Definition repr (a : list Z) (x : Z) : Prop := field a /\ val a ≡p x.

Lemma mult_mod_safe a b :
  words 8 a -> words 8 b -> safe_product (a, b) = true ->
  field (multiprecision_mersenns_mult_mod a b) /\
  val (multiprecision_mersenns_mult_mod a b) = (val a * val b) mod p256.
Proof.
  intros Ha Hb Hs. unfold multiprecision_mersenns_mult_mod, mersenns_mult_mod_in.
  destruct (multiprecision_mult_spec (replicate 16 0) a b) as [M1 M2]; [done..|].
  rewrite <- M2. by apply fast_mod_correct.
Qed.

(** The factors need not be reduced. *)
Lemma repr_mul_words a b x y :
  safe_product (a, b) = true -> words 8 a -> val a ≡p x -> words 8 b -> val b ≡p y ->
  repr (multiprecision_mersenns_mult_mod a b) (x * y).
Proof.
  intros Hs Wa Ea Wb Eb. destruct (mult_mod_safe a b Wa Wb Hs) as [F E].
  split; [done|]. by rewrite E, cong_mod, Ea, Eb.
Qed.

Lemma repr_mul a b x y :
  safe_product (a, b) = true -> repr a x -> repr b y -> repr (multiprecision_mersenns_mult_mod a b) (x * y).
Proof. intros Hs [[Wa _] Ea] [[Wb _] Eb]. by apply repr_mul_words. Qed.

Lemma repr_squa a x :
  safe_product (a, a) = true -> repr a x -> repr (multiprecision_mersenns_squa_mod a) (x * x).
Proof. intros Hs H. exact (repr_mul a a x x Hs H H). Qed.

Lemma repr_add a b x y : repr a x -> repr b y -> repr (multiprecision_add_mod a b) (x + y).
Proof.
  intros [Fa Ea] [Fb Eb]. destruct (multiprecision_add_mod_spec a b Fa Fb) as [F E].
  split; [done|]. by rewrite E, cong_mod, Ea, Eb.
Qed.

Lemma repr_sub a b x y : repr a x -> repr b y -> repr (multiprecision_sub_mod a b) (x - y).
Proof.
  intros [Fa Ea] [Fb Eb]. destruct (multiprecision_sub_mod_spec a b Fa Fb) as [F E].
  split; [done|]. by rewrite E, cong_mod, Ea, Eb.
Qed.

Lemma repr_lshift a x : repr a x -> repr (multiprecision_lshift_mod a) (2 * x).
Proof.
  intros [Fa Ea]. destruct (multiprecision_lshift_mod_spec a Fa) as [F E].
  split; [done|]. by rewrite E, cong_mod, Ea.
Qed.

Lemma repr_cong a x y : repr a x -> x ≡p y -> repr a y.
Proof. intros [F E] H. split; [done|]. by rewrite E. Qed.

Lemma repr_val a : field a -> repr a (val a).
Proof. intros F. split; [done | reflexivity]. Qed.

(** A point whose coordinates are reduced. *)
Definition point_ok (p : Point) : Prop := field (px p) /\ field (py p) /\ field (pz p).

#[export] Instance point_ok_dec p : Decision (point_ok p).
Proof. unfold point_ok. apply _. Defined.

(** The curve equation in Jacobian coordinates, [y^2 = x^3 - 3 x z^4 + b z^6]. *)
Definition curve_eq (b x y z : Z) : Z := y ^ 2 - x ^ 3 + 3 * x * z ^ 4 - b * z ^ 6.

Definition on_curve (p : Point) : Prop :=
  curve_eq (val (ec_b curve_p256)) (val (px p)) (val (py p)) (val (pz p)) ≡p 0.

#[export] Instance curve_eq_proper b : Proper (cong ==> cong ==> cong ==> cong) (curve_eq b).
Proof.
  intros x x' Ex y y' Ey z z' Ez.
  assert (forall x y z, curve_eq b x y z =
    y * y - x * x * x + 3 * x * (z * z * (z * z)) - b * (z * z * (z * z) * (z * z))) as E
    by (intros; unfold curve_eq; ring).
  rewrite !E. by rewrite Ex, Ey, Ez.
Qed.

(** Doubling, as polynomials in the coordinates. *)
Definition dblM (x z : Z) : Z := 3 * ((x - z ^ 2) * (x + z ^ 2)).
Definition dblX (x y z : Z) : Z := dblM x z ^ 2 - 2 * (4 * x * y ^ 2).
Definition dblY (x y z : Z) : Z := dblM x z * (4 * x * y ^ 2 - dblX x y z) - 8 * y ^ 4.
Definition dblZ (y z : Z) : Z := 2 * (y * z).

Lemma dbl_curve b x y z :
  curve_eq b (dblX x y z) (dblY x y z) (dblZ y z) = 64 * y ^ 6 * curve_eq b x y z.
Proof. unfold curve_eq, dblY, dblX, dblZ, dblM. ring. Qed.

(** Mixed addition of [(X1 : Y1 : Z1)] and the affine [(X2, Y2)]. *)
Definition addH (X1 Z1 X2 : Z) : Z := X2 * Z1 ^ 2 - X1.
Definition addR (Y1 Z1 Y2 : Z) : Z := Y2 * Z1 ^ 3 - Y1.
Definition addX (X1 Y1 Z1 X2 Y2 : Z) : Z :=
  addR Y1 Z1 Y2 ^ 2 - 2 * (addH X1 Z1 X2 ^ 2 * X1) - addH X1 Z1 X2 ^ 3.
Definition addY (X1 Y1 Z1 X2 Y2 : Z) : Z :=
  (addH X1 Z1 X2 ^ 2 * X1 - addX X1 Y1 Z1 X2 Y2) * addR Y1 Z1 Y2 - addH X1 Z1 X2 ^ 3 * Y1.
Definition addZ (X1 Z1 X2 : Z) : Z := Z1 * addH X1 Z1 X2.

Lemma add_curve b X1 Y1 Z1 X2 Y2 :
  curve_eq b (addX X1 Y1 Z1 X2 Y2) (addY X1 Y1 Z1 X2 Y2) (addZ X1 Z1 X2) =
    ((6)*X1^2*X2*Y1*Y2*Z1^5 + (-2)*X1^3*Y1*Y2*Z1^3 + (2)*X2^3*Y1*Y2*Z1^9 + (-6)*X1*X2^2*Y1*Y2*Z1^7 +
     (-1)*X1^6 + (1)*X1^3*Y1^2 + (-9)*X1^3*X2^3*Z1^6 + (-1)*X2^3*Y1^2*Z1^6 + (3)*X1*X2^2*Y1^2*Z1^4 +
     (1)*X2^6*Z1^12 + (-6)*X1*X2^5*Z1^10 + (12)*X1^2*X2^4*Z1^8 + (-3)*X1^2*X2*Y1^2*Z1^2 +
     (3)*X1^5*X2*Z1^2 + (3)*X2^4*Z1^12 + (-9)*X1*X2^3*Z1^10 + (9)*X1^2*X2^2*Z1^8 + (-3)*X1^3*X2*Z1^6
     + (1)*X1^3*Z1^6*b + (-1)*X2^3*Z1^12*b + (3)*X1*X2^2*Z1^10*b + (-3)*X1^2*X2*Z1^8*b)
    * curve_eq b X1 Y1 Z1 +
    ((12)*X1^4*X2^2*Z1^10 + (-6)*X1^5*X2*Z1^8 + (3)*X1^2*X2*Y2^2*Z1^14 + (-6)*X1^2*X2*Y1*Y2*Z1^11 +
     (1)*X1^6*Z1^6 + (-1)*X1^3*Y2^2*Z1^12 + (2)*X1^3*Y1*Y2*Z1^9 + (-9)*X1^3*X2^3*Z1^12 +
     (1)*X2^3*Y2^2*Z1^18 + (-2)*X2^3*Y1*Y2*Z1^15 + (6)*X1*X2^2*Y1*Y2*Z1^13 + (-1)*X2^6*Z1^18 +
     (-3)*X1*X2^2*Y2^2*Z1^16 + (3)*X1*X2^5*Z1^16 + (-3)*X1*X2^3*Z1^16 + (9)*X1^2*X2^2*Z1^14 +
     (-9)*X1^3*X2*Z1^12 + (3)*X1^4*Z1^10 + (3)*X1^2*X2*Z1^14*b + (-1)*X1^3*Z1^12*b +
     (1)*X2^3*Z1^18*b + (-3)*X1*X2^2*Z1^16*b)
    * curve_eq b X2 Y2 1.
Proof. unfold curve_eq, addY, addX, addZ, addH, addR. ring. Qed.

(** ** The point operations *)

Lemma forallb_cons_true {A} (f : A -> bool) x l :
  forallb f (x :: l) = true <-> f x = true /\ forallb f l = true.
Proof. simpl. apply andb_true_iff. Qed.

(** Split the hypothesis that every product of a run is safe. *)
Ltac split_safe H :=
  repeat match type of H with
  | forallb _ (_ :: _) = true =>
      let S := fresh "S" in apply forallb_cons_true in H as [S H]
  end; clear H.

Lemma cong_eq x y : x = y -> x ≡p y.
Proof. intros ->. reflexivity. Qed.

#[local] Opaque multiprecision_mersenns_mult_mod multiprecision_mersenns_squa_mod
  multiprecision_add_mod multiprecision_sub_mod multiprecision_lshift_mod.

Ltac safe_hyp :=
  match goal with H : safe_product ?ab = true |- safe_product ?ab = true => exact H end.

(** Each coordinate represents the polynomial its code evaluates. *)
Ltac split_repr :=
  lazymatch goal with
  | |- repr (multiprecision_mersenns_mult_mod _ _) _ => eapply repr_mul; [safe_hyp | split_repr..]
  | |- repr (multiprecision_mersenns_squa_mod _) _ => eapply repr_squa; [safe_hyp | split_repr]
  | |- repr (multiprecision_add_mod _ _) _ => eapply repr_add; split_repr
  | |- repr (multiprecision_sub_mod _ _) _ => eapply repr_sub; split_repr
  | |- repr (multiprecision_lshift_mod _) _ => eapply repr_lshift; split_repr
  | _ => eassumption
  end.

(** Doubling computes the polynomials of [dblX], [dblY] and [dblZ]. *)
Lemma ECC_Double_repr q p :
  point_ok p -> val (pz p) <> 0 -> forallb safe_product (snd (ECC_Double_run q p)) = true ->
  let r := ECC_Double q p in
  repr (px r) (dblX (val (px p)) (val (py p)) (val (pz p))) /\
  repr (py r) (dblY (val (px p)) (val (py p)) (val (pz p))) /\
  repr (pz r) (dblZ (val (py p)) (val (pz p))).
Proof.
  intros (Fx & Fy & Fz) Hz. unfold ECC_Double, ECC_Double_run.
  rewrite multiprecision_iszero_spec by apply Fz.
  destruct (Z.eqb_spec (val (pz p)) 0); [done|]. cbn [b2z Z.eqb negb]. cbv zeta. cbn [snd fst px py pz].
  set (x := val (px p)). set (y := val (py p)). set (z := val (pz p)).
  assert (repr (px p) x) as Rx by by apply repr_val.
  assert (repr (py p) y) as Ry by by apply repr_val.
  assert (repr (pz p) z) as Rz by by apply repr_val.
  intros HS. split_safe HS.
  split; [|split]; (eapply repr_cong; [split_repr|]); unfold dblY, dblX, dblZ, dblM; apply cong_eq; ring.
Qed.

Lemma repr_eq a x : repr a x -> val a ≡p x.
Proof. by intros [_ ?]. Qed.

Lemma ECC_Double_curve q p :
  point_ok p -> val (pz p) <> 0 -> forallb safe_product (snd (ECC_Double_run q p)) = true ->
  on_curve p -> point_ok (ECC_Double q p) /\ on_curve (ECC_Double q p).
Proof.
  intros Hp Hz HS HC. destruct (ECC_Double_repr q p Hp Hz HS) as (RX & RY & RZ).
  split; [split; [apply RX | split; [apply RY | apply RZ]]|].
  unfold on_curve in *. rewrite (repr_eq _ _ RX), (repr_eq _ _ RY), (repr_eq _ _ RZ).
  rewrite dbl_curve, HC. apply cong_eq. lia.
Qed.

(** Addition of distinct finite points computes [addX], [addY] and [addZ]. *)
Lemma ECC_Add_repr r p q :
  point_ok p -> point_ok q -> val (pz p) <> 0 -> val (pz q) = 1 ->
  ~ addH (val (px p)) (val (pz p)) (val (px q)) ≡p 0 ->
  forallb safe_product (snd (ECC_Add_run r p q)) = true ->
  let s := ECC_Add r p q in
  let X1 := val (px p) in let Y1 := val (py p) in let Z1 := val (pz p) in
  let X2 := val (px q) in let Y2 := val (py q) in
  repr (px s) (addX X1 Y1 Z1 X2 Y2) /\ repr (py s) (addY X1 Y1 Z1 X2 Y2) /\
  repr (pz s) (addZ X1 Z1 X2).
Proof.
  intros (Fx1 & Fy1 & Fz1) (Fx2 & Fy2 & Fz2) Hz1 Hz2 HH. unfold ECC_Add, ECC_Add_run. cbv zeta.
  rewrite !(multiprecision_iszero_spec (pz _)) by (apply Fz1 || apply Fz2).
  destruct (Z.eqb_spec (val (pz q)) 0); [lia|]. destruct (Z.eqb_spec (val (pz p)) 0); [done|].
  cbn [b2z Z.eqb negb].
  set (X1 := val (px p)) in *. set (Y1 := val (py p)) in *. set (Z1 := val (pz p)) in *.
  set (X2 := val (px q)) in *. set (Y2 := val (py q)) in *.
  assert (repr (px p) X1) by by apply repr_val. assert (repr (py p) Y1) by by apply repr_val.
  assert (repr (pz p) Z1) by by apply repr_val. assert (repr (px q) X2) by by apply repr_val.
  assert (repr (py q) Y2) by by apply repr_val.
  set (t1 := multiprecision_sub_mod (multiprecision_mersenns_mult_mod (px q) _) (px p)).
  assert (safe_product (pz p, pz p) = true ->
          safe_product (px q, multiprecision_mersenns_squa_mod (pz p)) = true ->
          repr t1 (addH X1 Z1 X2)) as Rt1.
  { intros S1 S2. unfold t1. eapply repr_cong; [split_repr|]. unfold addH. apply cong_eq. ring. }
  intros HS.
  assert (forallb safe_product
    [(pz p, pz p); (pz p, multiprecision_mersenns_squa_mod (pz p));
     (px q, multiprecision_mersenns_squa_mod (pz p));
     (py q, multiprecision_mersenns_mult_mod (pz p) (multiprecision_mersenns_squa_mod (pz p)))] = true) as HS4.
  { revert HS. repeat case_match; cbn [snd fst]; rewrite ?forallb_app; intros; try done;
      by repeat match goal with H : (_ && _) = true |- _ => apply andb_true_iff in H as [? ?] end. }
  split_safe HS4. specialize (Rt1 ltac:(safe_hyp) ltac:(safe_hyp)).
  assert (val t1 <> 0) as Ht1 by (intros E; apply HH; rewrite <- (repr_eq _ _ Rt1), E; reflexivity).
  revert HS. rewrite (multiprecision_iszero_spec t1) by apply Rt1.
  destruct (Z.eqb_spec (val t1) 0); [done|]. cbn [b2z Z.eqb negb fst snd px py pz].
  rewrite forallb_app. intros [_ HS]%andb_true_iff. split_safe HS.
  clearbody t1.
  split; [|split]; (eapply repr_cong; [split_repr|]); unfold addY, addX, addZ, addR; apply cong_eq; ring.
Qed.

Lemma ECC_Add_curve r p q :
  point_ok p -> point_ok q -> val (pz p) <> 0 -> val (pz q) = 1 ->
  ~ addH (val (px p)) (val (pz p)) (val (px q)) ≡p 0 ->
  forallb safe_product (snd (ECC_Add_run r p q)) = true ->
  on_curve p -> on_curve q -> point_ok (ECC_Add r p q) /\ on_curve (ECC_Add r p q).
Proof.
  intros Hp Hq Hz1 Hz2 HH HS C1 C2.
  destruct (ECC_Add_repr r p q Hp Hq Hz1 Hz2 HH HS) as (RX & RY & RZ).
  split; [split; [apply RX | split; [apply RY | apply RZ]]|].
  unfold on_curve in *. rewrite (repr_eq _ _ RX), (repr_eq _ _ RY), (repr_eq _ _ RZ).
  rewrite Hz2 in C2. rewrite add_curve, C1, C2. apply cong_eq. lia.
Qed.

(** Both sides of the comparison are reduced, also for coordinates that are
    not. *)
Lemma ECC_ValidatePoint_correct pt :
  words 8 (px pt) -> words 8 (py pt) -> forallb safe_product (snd (ECC_ValidatePoint_run pt)) = true ->
  ECC_ValidatePoint pt = true <-> on_curve (mkPoint (px pt) (py pt) one).
Proof.
  intros Wx Wy HS. unfold ECC_ValidatePoint, ECC_ValidatePoint_run in *. cbv zeta in *.
  cbn [fst snd] in *. split_safe HS.
  set (x := val (px pt)). set (y := val (py pt)).
  assert (repr [3; 0; 0; 0; 0; 0; 0; 0] 3) by (apply repr_val; by_decide).
  assert (repr (ec_b curve_p256) (val (ec_b curve_p256))) by (apply repr_val; by_decide).
  assert (repr (multiprecision_mersenns_squa_mod (py pt)) (y * y)) as Ry
    by (apply (repr_mul_words (py pt) (py pt)); done || reflexivity).
  assert (repr (multiprecision_mersenns_squa_mod (px pt)) (x * x)) as Rx
    by (apply (repr_mul_words (px pt) (px pt)); done || reflexivity).
  assert (repr (multiprecision_sub_mod (multiprecision_mersenns_squa_mod (px pt)) [3; 0; 0; 0; 0; 0; 0; 0]) (x * x - 3))
    as Rs by (by apply repr_sub).
  match goal with |- (multiprecision_compare ?a ?c =? 0) = true <-> _ =>
    assert (repr a ((x * x - 3) * x + val (ec_b curve_p256))) as [[Wa La] Ea]
      by (apply repr_add; [|done]; apply repr_mul_words; try apply Rs; done || reflexivity);
    destruct Ry as [[Wc Lc] Ec];
    rewrite (multiprecision_compare_spec a c Wa Wc), Z.eqb_eq, Z.sgn_null_iff;
    pose proof (val_bound8 _ Wa); pose proof (val_bound8 _ Wc);
    set (A := val a) in *; set (C := val c) in * end.
  clearbody A C. unfold on_curve. cbn [px py pz]. change (val one) with 1. fold x y.
  assert (curve_eq (val (ec_b curve_p256)) x y 1 ≡p C - A) as ->.
  { rewrite Ea, Ec. unfold curve_eq. apply cong_eq. ring. }
  rewrite cong_0_iff. split.
  - intros E. replace (C - A) with 0 by lia. done.
  - intros E%Z.mod_divide; [|done]. destruct E as [k Hk]. assert (k = 0) by nia. lia.
Qed.

(** ** The non-adjacent form *)

Lemma inc_words_spec n k :
  words n k ->
  (val k + 1 < 2 ^ (32 * Z.of_nat n) ->
     exists k', inc_words k = Some k' /\ words n k' /\ val k' = val k + 1) /\
  (val k + 1 = 2 ^ (32 * Z.of_nat n) -> inc_words k = None).
Proof.
  revert n. induction k as [|x k IH]; intros n Hk.
  - destruct Hk as [<- _]. simpl. split; [lia|done].
  - destruct n as [|n]; [by destruct Hk|]. apply words_cons in Hk as [Hx Hk].
    destruct (IH n Hk) as [IH1 IH2]. pose proof (val_bound n k Hk) as Vb.
    cbn [inc_words val]. rewrite pow32_S.
    destruct (Z.eq_dec x (2 ^ 32 - 1)) as [->|Hne].
    + change (u32 (2 ^ 32 - 1 + 1)) with 0. cbn [Z.eqb]. split.
      * intros Hlt. destruct IH1 as (k' & -> & W & V); [nia|]. cbn.
        exists (0 :: k'). split; [done|]. split; [apply words_cons; split; [by_decide|done]|]. cbn [val]. lia.
      * intros E. by rewrite IH2 by nia.
    + rewrite wrap_small by (unfold in_range in *; lia).
      destruct (Z.eqb_spec (x + 1) 0); [unfold in_range in *; lia|]. split; [|unfold in_range in *; nia].
      intros _. exists (x + 1 :: k). split; [done|]. rewrite words_cons. cbn [val].
      split; [|lia]. split; [unfold in_range in *; lia | done].
Qed.

(** The signed digit a code 0, 1 or 3 stands for. *)
Definition naf_digit (sign : Z) : Z := if sign =? 3 then -1 else sign.

Lemma land_clear_low x : x mod 2 = 1 -> in_range 32 x -> Z.land x 0xFFFFFFFE = x - 1.
Proof.
  intros Ho Hx. change 0xFFFFFFFE with (Z.shiftl (Z.ones 31) 1).
  assert (x = Z.shiftl (x / 2) 1 + 1) as Ex by (rewrite Z.shiftl_mul_pow2 by lia; change (2 ^ 1) with 2; dmlia).
  replace (x - 1) with (Z.shiftl (x / 2) 1) by lia. rewrite Ex at 1.
  rewrite <- (lor_add (Z.shiftl (x / 2) 1) 1).
  - rewrite Z.land_lor_distr_l. rewrite <- Z.shiftl_land, Z.land_ones by lia.
    change (Z.land 1 (Z.shiftl (Z.ones 31) 1)) with 0. rewrite Z.lor_0_r.
    f_equal. apply Z.mod_small. unfold in_range in Hx. change (2 ^ 31) with 2147483648. change (2 ^ 32) with 4294967296 in Hx. dmlia.
  - change 1 with (Z.ones 1) at 2. rewrite Z.land_ones, Z.shiftl_mul_pow2 by lia. by apply Z.mod_mul.
Qed.

Lemma val_mod4 n a : words (S n) a -> Z.land (rd a 0) 3 = val a mod 4.
Proof.
  intros (x & a' & -> & _ & _)%words_S_inv. change 3 with (Z.ones 2). rewrite Z.land_ones by lia.
  cbn [rd nth val]. change (2 ^ 2) with 4. change (2 ^ 32) with 4294967296. dmlia.
Qed.

(** One step removes a digit that makes the rest even. *)
Lemma naf_step_spec k :
  words 8 k -> val k < 2 ^ 256 - 1 ->
  exists sign k', naf_step k = Some (sign, k') /\ words 8 k' /\
    (sign = 0 \/ (sign = 1 \/ sign = 3) /\ val k' mod 2 = 0) /\
    val k = naf_digit sign + 2 * val k'.
Proof.
  intros Hk Hlt. unfold naf_step. rewrite (val_mod2 7), (val_mod4 7) by done.
  pose proof (val_bound8 _ Hk) as Vb.
  destruct (Z.eqb_spec (val k mod 2) 0) as [E|E]; cbn [negb].
  - destruct (multiprecision_rshift_spec k Hk) as [R1 R2].
    eexists 0, _. split; [done|]. split; [done|]. split; [by left|]. rewrite R2. cbn. dmlia.
  - destruct (Z.eqb_spec (val k mod 4) 1) as [E4|E4].
    + pose proof Hk as (x & a & -> & Hx & Ha)%words_S_inv. cbn [rd nth].
      assert (x mod 2 = 1) as Ho by (cbn [val] in E; change (2 ^ 32) with 4294967296 in E; dmlia).
      rewrite land_clear_low by done. cbn [insert list_insert].
      assert (words 8 (x - 1 :: a)) as W by (apply words_cons; split; [unfold in_range in *; dmlia | done]).
      destruct (multiprecision_rshift_spec _ W) as [R1 R2]. cbn [val] in *.
      eexists _, _. split; [done|]. split; [done|]. rewrite E4. unfold naf_digit. cbn [Z.eqb Pos.eqb].
      change (2 ^ 32) with 4294967296 in *. split; [right; split; [by left | rewrite R2; dmlia]|]. rewrite R2. dmlia.
    + destruct (proj1 (inc_words_spec 8 k Hk)) as (k' & -> & W & V); [change (32 * Z.of_nat 8) with 256; lia|].
      destruct (multiprecision_rshift_spec _ W) as [R1 R2]. cbn [mbind option_bind].
      assert (val k mod 4 = 3) as E3 by dmlia. rewrite E3.
      eexists _, _. split; [done|]. split; [done|]. unfold naf_digit. cbn [Z.eqb Pos.eqb].
      split; [right; split; [by right | rewrite R2; dmlia]|]. rewrite R2. dmlia.
Qed.

Lemma naf_slots_disjoint r r' sign :
  (r < 4)%nat -> (r' < 4)%nat -> r <> r' -> 0 <= sign <= 3 ->
  Z.land (Z.shiftr (Z.shiftl sign (2 * Z.of_nat r)) (2 * Z.of_nat r')) 3 = 0.
Proof.
  intros Hr Hr' Hne Hs. assert (sign = 0 \/ sign = 1 \/ sign = 2 \/ sign = 3) as Hc by lia.
  do 4 (destruct r as [|r]; [do 4 (destruct r' as [|r']; [first [done | by destruct Hc as [->|[->|[->| ->]]]]|]); lia|]).
  lia.
Qed.

(** Writing a free slot sets that slot and no other. *)
Lemma naf_set_get naf i sign :
  (i / 4 < length naf)%nat -> 0 <= sign <= 3 -> naf_get naf i = 0 ->
  exists naf', naf_set naf i sign = Some naf' /\ length naf' = length naf /\
    forall j, naf_get naf' j = if decide (j = i) then sign else naf_get naf j.
Proof.
  intros Hl Hs Hg. unfold naf_set. destruct (lookup_lt_is_Some_2 naf _ Hl) as [b Hb]. rewrite Hb. cbn [mbind option_bind].
  pose proof (Nat.mod_upper_bound i 4 ltac:(lia)) as Hr.
  assert (u8 (Z.shiftl sign (2 * Z.of_nat (i mod 4))) = Z.shiftl sign (2 * Z.of_nat (i mod 4))) as ->.
  { apply wrap_small. unfold in_range. rewrite Z.shiftl_mul_pow2 by lia.
    assert (1 <= 2 ^ (2 * Z.of_nat (i mod 4)) <= 2 ^ 6) by (split; [apply (Z.pow_le_mono_r 2 0); lia | apply Z.pow_le_mono_r; lia]).
    change (2 ^ 6) with 64 in *. change (2 ^ 8) with 256. nia. }
  eexists. split; [done|]. split; [apply length_insert|].
  assert (rd naf (i / 4) = b) as Erd by (by apply nth_lookup_Some).
  intros j. unfold naf_get in *. rewrite Erd in Hg.
  destruct (decide ((j / 4)%nat = (i / 4)%nat)) as [E|E].
  - rewrite E, Erd. assert (rd (<[(i / 4)%nat:=Z.lor b (Z.shiftl sign (2 * Z.of_nat (i mod 4)))]> naf) (i / 4) = Z.lor b (Z.shiftl sign (2 * Z.of_nat (i mod 4)))) as ->.
    { apply nth_lookup_Some. by apply list_lookup_insert_eq. }
    rewrite Z.shiftr_lor, Z.land_lor_distr_l.
    pose proof (Nat.mod_upper_bound j 4 ltac:(lia)) as Hr'. case_decide as Eji.
    + subst j. rewrite Hg, Z.lor_0_l, Z.shiftr_shiftl_l, Z.sub_diag, Z.shiftl_0_r by lia.
      change 3 with (Z.ones 2). rewrite Z.land_ones by lia. apply Z.mod_small. lia.
    + rewrite naf_slots_disjoint, Z.lor_0_r; [done|done|done| |done].
      intros Em. apply Eji. rewrite (Nat.div_mod_eq j 4), (Nat.div_mod_eq i 4). congruence.
  - assert (rd (<[(i / 4)%nat:=Z.lor b (Z.shiftl sign (2 * Z.of_nat (i mod 4)))]> naf) (j / 4) = rd naf (j / 4)) as ->.
    { unfold rd. rewrite !nth_lookup, list_lookup_insert_ne by congruence. done. }
    case_decide; [congruence | done].
Qed.

(** The integer the first [n] digits of a NAF array stand for. *)
Fixpoint naf_sum (naf : list Z) (n : nat) : Z :=
  match n with
  | O => 0
  | S m => naf_sum naf m + naf_digit (naf_get naf m) * 2 ^ Z.of_nat m
  end.

Lemma naf_sum_ext naf naf' n :
  (forall j, (j < n)%nat -> naf_get naf j = naf_get naf' j) -> naf_sum naf n = naf_sum naf' n.
Proof. induction n as [|n IH]; intros H; [done|]. cbn [naf_sum]. rewrite IH, H by auto with lia. done. Qed.

(** The digits are codes 0, 1 or 3 and no two neighbours are both nonzero. *)
Definition naf_wf (naf : list Z) (n : nat) : Prop :=
  forall j, (j < n)%nat ->
    (naf_get naf j = 0 \/ naf_get naf j = 1 \/ naf_get naf j = 3) /\
    (naf_get naf j <> 0 -> naf_get naf (S j) = 0).

Lemma bitlen_pos x : 0 <= x -> (bitlen x >=? 1) = negb (x =? 0).
Proof.
  intros Hx. unfold bitlen. destruct (Z.eqb_spec x 0); [done|]. pose proof (Z.log2_nonneg x).
  rewrite Z.geb_leb. zcmp; [done|lia].
Qed.

(** The loop invariant: slots from [i] on are free, and the digit before [i] is
    zero unless the rest is even. *)
Lemma naf_loop_spec fuel naf i k :
  words 8 k -> val k < 2 ^ 256 - 1 -> (i + fuel <= 260)%nat -> length naf = 65%nat ->
  (val k = 0 \/ val k <= 2 ^ (Z.of_nat fuel - 1)) ->
  (forall j, (i <= j)%nat -> naf_get naf j = 0) -> naf_wf naf i ->
  (forall j, i = S j -> naf_get naf j <> 0 -> val k mod 2 = 0) ->
  exists naf' n, naf_loop fuel naf i k = Some (naf', n) /\ (i <= n <= i + fuel)%nat /\
    naf_wf naf' n /\ (forall j, (n <= j)%nat -> naf_get naf' j = 0) /\
    naf_sum naf' n = naf_sum naf i + 2 ^ Z.of_nat i * val k.
Proof.
  revert naf i k. induction fuel as [|fuel IH]; intros naf i k Hk Hlt Hi Hl Hb Hfree Hwf Hlast;
    pose proof (val_bound8 _ Hk) as Vb; cbn [naf_loop]; rewrite most_signbits_correct, bitlen_pos by (done || lia).
  - assert (val k = 0) as E0 by (destruct Hb as [?|Hb]; [done | change (Z.of_nat 0 - 1) with (-1) in Hb; simpl in Hb; lia]).
    rewrite E0. cbn [Z.eqb negb]. exists naf, i. split; [done|]. split; [lia|]. split; [done|]. split; [done|]. lia.
  - destruct (Z.eqb_spec (val k) 0) as [E0|E0]; cbn [negb].
    { exists naf, i. rewrite E0. split; [done|]. split; [lia|]. split; [done|]. split; [done|]. lia. }
    destruct (naf_step_spec k Hk Hlt) as (sign & k' & -> & Hk' & Hsign & Ev). cbn [mbind option_bind].
    destruct (naf_set_get naf i sign) as (naf1 & -> & L1 & G1).
    { apply Nat.Div0.div_lt_upper_bound. lia. } { lia. } { by apply Hfree. }
    cbn [mbind option_bind].
    assert (-1 <= naf_digit sign <= 1) as Hd by (unfold naf_digit; destruct Hsign as [->|[[-> | ->] _]]; cbn; lia).
    pose proof (val_bound8 _ Hk') as Vb'.
    destruct Hb as [|Hb]; [done|].
    destruct (IH naf1 (S i) k') as (naf' & n & -> & Hn & Wf' & Fr' & Sum'); [done|lia|lia|lia|..].
    + destruct (Z.eq_dec (val k') 0) as [|Hz]; [by left|right].
      destruct fuel as [|f]; [change (2 ^ (Z.of_nat 1 - 1)) with 1 in Hb; destruct Hsign as [->|[_ He]]; [unfold naf_digit in Ev; cbn in Ev; lia | dmlia]|].
      replace (Z.of_nat (S (S f)) - 1) with (Z.succ (Z.of_nat (S f) - 1)) in Hb by lia.
      rewrite Z.pow_succ_r in Hb by lia.
      assert (2 * val k' <= 2 * 2 ^ (Z.of_nat (S f) - 1) + 1) by lia. lia.
    + intros j Hj. rewrite G1. case_decide; [lia|]. apply Hfree. lia.
    + intros j Hj. rewrite !G1. destruct (decide (j = i)) as [->|].
      * split; [tauto|]. intros _. case_decide; [lia|]. apply Hfree. lia.
      * destruct (Hwf j ltac:(lia)) as [W1 W2]. split; [done|]. intros Hn0. case_decide; [|by apply W2].
        specialize (Hlast j ltac:(lia) Hn0). destruct Hsign as [->|[[-> | ->] _]]; [done|..];
          rewrite Ev in Hlast; unfold naf_digit in Hlast; cbn [Z.eqb Pos.eqb] in Hlast; dmlia.
    + intros j [= <-]. rewrite G1, decide_True by done. intros Hs. by destruct Hsign as [->|[_ ?]].
    + exists naf', n. split; [done|]. split; [lia|]. split; [done|]. split; [done|].
      rewrite Sum'. cbn [naf_sum]. rewrite G1, decide_True by done.
      rewrite (naf_sum_ext naf1 naf) by (intros j Hj; rewrite G1, decide_False by lia; done).
      rewrite Nat2Z.inj_succ, Z.pow_succ_r by lia. rewrite Ev. lia.
Qed.

Lemma naf_get_zero i : naf_get (replicate 65 0) i = 0.
Proof.
  unfold naf_get, rd. rewrite nth_lookup. destruct (_ !! _) as [b|] eqn:E.
  - apply lookup_replicate in E as [-> _]. cbn [default]. by rewrite Z.shiftr_0_l.
  - cbn [default]. by rewrite Z.shiftr_0_l.
Qed.

(** The two 256-bit multiples of [p]. *)
Lemma inv_mod_zero : multiprecision_inv_mod zero = Some zero.
Proof. vm_compute. reflexivity. Qed.

Lemma inv_mod_modp : multiprecision_inv_mod modp = Some zero.
Proof. vm_compute. reflexivity. Qed.

Lemma multiple_words u : words 8 u -> val u mod p256 = 0 -> u = zero \/ u = modp.
Proof.
  intros Hu E. pose proof (val_bound8 _ Hu) as Vb. pose proof p256_bounds as Pb.
  apply Z.mod_divide in E as [k Hk]; [|lia].
  assert (k = 0 \/ k = 1) as [-> | ->] by nia; [left | right].
  - apply val_inj with 8%nat; [done | by_decide | exact Hk].
  - apply val_inj with 8%nat; [done | apply modp_words | rewrite val_modp; lia].
Qed.

Lemma inv_mod_multiple u :
  words 8 u -> val u mod p256 = 0 -> exists r, multiprecision_inv_mod u = Some r /\ val r = 0.
Proof.
  intros Hu E. exists zero.
  destruct (multiple_words u Hu E) as [-> | ->]; (split; [apply inv_mod_zero || apply inv_mod_modp | reflexivity]).
Qed.

(** ** Properties *)

(** C14: whatever the uninitialised product buffer holds, the product of two field
    elements modulo p is computed exactly on every input whose Solinas carry
    chain neither borrows nor wraps at the top. *)
Theorem mersenns_mult_mod_exact (cc a b : list Z) :
  length cc = 16%nat -> field a -> field b ->
  fast_mod_safe (multiprecision_mult cc a b) = true ->
  field (mersenns_mult_mod_in cc a b) /\
  val (mersenns_mult_mod_in cc a b) = (val a * val b) mod p256.
Proof.
  intros Hl [Ha _] [Hb _] Hs. destruct (multiprecision_mult_spec cc a b Hl Ha Hb) as [M1 M2].
  rewrite <- M2. by apply fast_mod_correct.
Qed.

Lemma mersenns_mult_mod_exact_witness :
  let G := ec_G curve_p256 in
  val (mersenns_mult_mod_in (replicate 16 7) (px G) (py G)) = (val (px G) * val (py G)) mod p256.
Proof. apply mersenns_mult_mod_exact; [reflexivity | by_decide | by_decide | vm_compute; reflexivity]. Defined.

(** The reduction is not exact on all field elements: the carry block
    [U = (a[i] < UU)] turns a borrow into a positive carry, so the modular
    product of these two reduced operands is wrong. *)
Theorem mersenns_mult_mod_borrow_bug :
  exists a b, field a /\ field b /\
    val (multiprecision_mersenns_mult_mod a b) <> (val a * val b) mod p256 /\
    no_borrow (multiprecision_mult (replicate 16 0) a b) = false.
Proof.
  exists [0xbbdb1bfb; 0x5b637ea5; 0x2a37f7bb; 0x19b7676a; 0xca051e7a; 0x4a526923; 0x24d05114; 0xe5071203],
         [0x4ffbbfd0; 0x8d7158a8; 0x38309d77; 0x73f9c793; 0x635fa843; 0x7e74de9d; 0x74311502; 0x7803250e].
  split; [by_decide|]. split; [by_decide|]. split; [by_decide | vm_compute; reflexivity].
Qed.

(** C29: on every 256-bit input, 0 and p included, the inverse loop ends and the
    result is reduced: times the input it is the greatest common divisor of the
    input and p, modulo p.  So it is the inverse of an input coprime to p, and
    it is 0 for an input that is 0 modulo p. *)
Theorem inv_mod_inverse (u : list Z) :
  words 8 u ->
  exists r, multiprecision_inv_mod u = Some r /\ field r /\
    (val r * val u) mod p256 = Z.gcd (val u) p256 mod p256 /\
    (Z.gcd (val u) p256 = 1 -> (val r * val u) mod p256 = 1) /\
    (val u mod p256 = 0 -> val r = 0).
Proof.
  intros Hu. destruct (inv_mod_correct u Hu) as (r & Hr & Fr & HD). exists r.
  assert ((val r * val u) mod p256 = Z.gcd (val u) p256 mod p256) as E by by apply cong_iff_mod.
  split; [done|]. split; [done|]. split; [done|]. split; [intros Hg; rewrite E, Hg; reflexivity|].
  intros E0. destruct (inv_mod_multiple u Hu E0) as (r' & Hr' & Ez). by simplify_eq.
Qed.

Lemma inv_mod_inverse_witness :
  exists r, multiprecision_inv_mod (px (ec_G curve_p256)) = Some r /\ field r /\
    (val r * val (px (ec_G curve_p256))) mod p256 = 1.
Proof.
  destruct (inv_mod_inverse (px (ec_G curve_p256)) ltac:(by_decide)) as (r & H1 & H2 & _ & H3 & _).
  exists r. split; [exact H1|]. split; [exact H2|]. apply H3. vm_compute. reflexivity.
Defined.

(** On reduced operands the modular addition, subtraction and doubling return
    the reduced sum, difference and double. *)
Theorem field_linear_ops (a b : list Z) :
  field a -> field b ->
  (field (multiprecision_add_mod a b) /\ val (multiprecision_add_mod a b) = (val a + val b) mod p256) /\
  (field (multiprecision_sub_mod a b) /\ val (multiprecision_sub_mod a b) = (val a - val b) mod p256) /\
  (field (multiprecision_lshift_mod a) /\ val (multiprecision_lshift_mod a) = (2 * val a) mod p256).
Proof.
  intros Ha Hb. split; [by apply multiprecision_add_mod_spec|].
  split; [by apply multiprecision_sub_mod_spec | by apply multiprecision_lshift_mod_spec].
Qed.

Lemma field_linear_ops_witness :
  val (multiprecision_sub_mod one (ec_b curve_p256)) = (1 - val (ec_b curve_p256)) mod p256.
Proof. apply (field_linear_ops one (ec_b curve_p256)); by_decide. Defined.

(** C30: doubling a finite point of the curve gives reduced coordinates that again
    satisfy the curve equation, when every product of the run is exact. *)
Theorem ECC_Double_on_curve (q p : Point) :
  point_ok p -> val (pz p) <> 0 -> forallb safe_product (snd (ECC_Double_run q p)) = true ->
  on_curve p -> point_ok (ECC_Double q p) /\ on_curve (ECC_Double q p).
Proof. apply ECC_Double_curve. Qed.

(** The base point with [z = 1], and its double. *)
Definition G1 : Point := mkPoint (px (ec_G curve_p256)) (py (ec_G curve_p256)) one.
Definition G2 : Point := Eval vm_compute in ECC_Double G1 G1.

Lemma ECC_Double_on_curve_witness : point_ok (ECC_Double G1 G1) /\ on_curve (ECC_Double G1 G1).
Proof.
  apply ECC_Double_on_curve; [by_decide | by_decide | vm_compute; reflexivity |].
  apply cong_0_iff. vm_compute. reflexivity.
Defined.

(** Mixed addition of two finite points of the curve with different
    x-coordinates gives a point of the curve, when every product is exact. *)
Theorem ECC_Add_on_curve (r p q : Point) :
  point_ok p -> point_ok q -> val (pz p) <> 0 -> val (pz q) = 1 ->
  ~ addH (val (px p)) (val (pz p)) (val (px q)) ≡p 0 ->
  forallb safe_product (snd (ECC_Add_run r p q)) = true ->
  on_curve p -> on_curve q -> point_ok (ECC_Add r p q) /\ on_curve (ECC_Add r p q).
Proof. apply ECC_Add_curve. Qed.

Lemma ECC_Add_on_curve_witness : point_ok (ECC_Add G2 G2 G1) /\ on_curve (ECC_Add G2 G2 G1).
Proof.
  apply ECC_Add_on_curve;
    [by_decide | by_decide | by_decide | reflexivity | rewrite cong_0_iff; by_decide
    | vm_compute; reflexivity | apply cong_0_iff; vm_compute; reflexivity
    | apply cong_0_iff; vm_compute; reflexivity].
Defined.

(** C31: for all 256-bit coordinates, reduced or not, the public-key check accepts
    exactly those that satisfy the curve equation modulo p, when its three
    products are exact. *)
Theorem ECC_ValidatePoint_iff (pt : Point) :
  words 8 (px pt) -> words 8 (py pt) -> forallb safe_product (snd (ECC_ValidatePoint_run pt)) = true ->
  ECC_ValidatePoint pt = true <-> on_curve (mkPoint (px pt) (py pt) one).
Proof. apply ECC_ValidatePoint_correct. Qed.

Lemma ECC_ValidatePoint_iff_witness : on_curve (mkPoint (px (ec_G curve_p256)) (py (ec_G curve_p256)) one).
Proof.
  apply ECC_ValidatePoint_iff; [by_decide | by_decide | vm_compute; reflexivity | vm_compute; reflexivity].
Defined.

(** The check has no test of the range: it accepts the point with [x = p]. *)
Theorem ECC_ValidatePoint_unreduced :
  exists pt, ECC_ValidatePoint pt = true /\ words 8 (px pt) /\ p256 <= val (px pt).
Proof.
  exists (mkPoint [0xffffffff; 0xffffffff; 0xffffffff; 0x0; 0x0; 0x0; 0x1; 0xffffffff] [0x174f93f4; 0x28bf856a; 0x1dae8717; 0x541c2af3; 0x84a06bb6; 0x2433bd5d; 0xe2f83d7; 0x66485c78] one). split; [vm_compute; reflexivity|]. split; by_decide.
Qed.

(** C18: the NAF loop terminates, stays inside its 65-byte array and yields at most
    257 digits in {-1, 0, 1}, no two adjacent ones nonzero, whose weighted sum is
    the scalar, for every scalar below [2^256 - 1]; the all-ones scalar makes the
    carry loop run off the end of the key. *)
Theorem ECC_NAF_correct (k : list Z) :
  words 8 k ->
  (val k < 2 ^ 256 - 1 ->
    exists naf n, ECC_NAF (replicate 65 0) k = Some (naf, n) /\ (n <= 257)%nat /\
      naf_wf naf n /\ naf_sum naf n = val k) /\
  (val k = 2 ^ 256 - 1 -> ECC_NAF (replicate 65 0) k = None).
Proof.
  intros Hk. split.
  - intros Hlt. pose proof (val_bound8 _ Hk).
    destruct (naf_loop_spec 257 (replicate 65 0) 0 k) as (naf & n & E & Hn & Wf & _ & Sum);
      [done | done | lia | done | right; change (Z.of_nat 257 - 1) with 256; lia
      | intros; apply naf_get_zero | intros j Hj; lia | intros j Hj; lia |].
    exists naf, n. split; [done|]. split; [lia|]. split; [done|]. rewrite Sum. cbn [naf_sum]. lia.
  - intros E. assert (k = replicate 8 0xFFFFFFFF) as ->; [|vm_compute; reflexivity].
    apply val_inj with 8%nat; [done | by_decide | by rewrite E].
Qed.

Lemma ECC_NAF_correct_witness :
  exists naf n, ECC_NAF (replicate 65 0) [7; 0; 0; 0; 0; 0; 0; 0] = Some (naf, n) /\ (n <= 257)%nat /\
      naf_wf naf n /\ naf_sum naf n = val [7; 0; 0; 0; 0; 0; 0; 0].
Proof. apply (ECC_NAF_correct [7; 0; 0; 0; 0; 0; 0; 0]); by_decide. Defined.
