(* ===== verification/Aes.v ===== *)
(** * AES block cipher of the crypto toolbox

    Model of [src/system/gd/crypto_toolbox/aes.cc]: the byte-oriented AES with
    precomputed and with on-the-fly key schedules.  A block is a list of 16
    bytes, a byte a [Z] in [0, 255].  The configuration is the one the file
    selects ([USE_TABLES], [HAVE_UINT_32T], [HAVE_MEMCPY], [VERSION_1]); the
    computed S-box of the other configuration is modelled too, and shown to
    agree with the tables.  The reference definitions the theorems compare with
    (FIPS-197) are in [AesSpec.v]. *)

From stdpp Require Import base list.
From Stdlib Require Import ZArith Lia.
From S2P Require Import Prelude.

Open Scope Z_scope.

(** ** Finite field multiplication macros *)

Definition WPOLY : Z := 0x011b.
Definition BPOLY : Z := 0x1b.
Definition DPOLY : Z := 0x008d.

Definition f1 (x : Z) : Z := x.
Definition f2 (x : Z) : Z :=
  Z.lxor (Z.shiftl x 1) (Z.land (Z.shiftr x 7) 1 * WPOLY).
Definition f4 (x : Z) : Z :=
  Z.lxor (Z.lxor (Z.shiftl x 2) (Z.land (Z.shiftr x 6) 1 * WPOLY))
    (Z.land (Z.shiftr x 6) 2 * WPOLY).
Definition f8 (x : Z) : Z :=
  Z.lxor (Z.lxor (Z.lxor (Z.shiftl x 3) (Z.land (Z.shiftr x 5) 1 * WPOLY))
    (Z.land (Z.shiftr x 5) 2 * WPOLY)) (Z.land (Z.shiftr x 5) 4 * WPOLY).
Definition d2 (x : Z) : Z :=
  Z.lxor (Z.shiftr x 1) (if Z.land x 1 =? 0 then 0 else DPOLY).

Definition f3 (x : Z) : Z := Z.lxor (f2 x) x.
Definition f9 (x : Z) : Z := Z.lxor (f8 x) x.
Definition fb (x : Z) : Z := Z.lxor (Z.lxor (f8 x) (f2 x)) x.
Definition fd (x : Z) : Z := Z.lxor (Z.lxor (f8 x) (f4 x)) x.
Definition fe (x : Z) : Z := Z.lxor (Z.lxor (f8 x) (f4 x)) (f2 x).

(** ** Tables ([USE_TABLES])

    Each table is an initialiser list under a macro [w]; an entry is stored in
    a [uint_8t]. *)

Definition sb_data (w : Z -> Z) : list Z :=
  map (fun x => u8 (w x))
   [0x63; 0x7c; 0x77; 0x7b; 0xf2; 0x6b; 0x6f; 0xc5; 0x30; 0x01; 0x67; 0x2b;
    0xfe; 0xd7; 0xab; 0x76; 0xca; 0x82; 0xc9; 0x7d; 0xfa; 0x59; 0x47; 0xf0;
    0xad; 0xd4; 0xa2; 0xaf; 0x9c; 0xa4; 0x72; 0xc0; 0xb7; 0xfd; 0x93; 0x26;
    0x36; 0x3f; 0xf7; 0xcc; 0x34; 0xa5; 0xe5; 0xf1; 0x71; 0xd8; 0x31; 0x15;
    0x04; 0xc7; 0x23; 0xc3; 0x18; 0x96; 0x05; 0x9a; 0x07; 0x12; 0x80; 0xe2;
    0xeb; 0x27; 0xb2; 0x75; 0x09; 0x83; 0x2c; 0x1a; 0x1b; 0x6e; 0x5a; 0xa0;
    0x52; 0x3b; 0xd6; 0xb3; 0x29; 0xe3; 0x2f; 0x84; 0x53; 0xd1; 0x00; 0xed;
    0x20; 0xfc; 0xb1; 0x5b; 0x6a; 0xcb; 0xbe; 0x39; 0x4a; 0x4c; 0x58; 0xcf;
    0xd0; 0xef; 0xaa; 0xfb; 0x43; 0x4d; 0x33; 0x85; 0x45; 0xf9; 0x02; 0x7f;
    0x50; 0x3c; 0x9f; 0xa8; 0x51; 0xa3; 0x40; 0x8f; 0x92; 0x9d; 0x38; 0xf5;
    0xbc; 0xb6; 0xda; 0x21; 0x10; 0xff; 0xf3; 0xd2; 0xcd; 0x0c; 0x13; 0xec;
    0x5f; 0x97; 0x44; 0x17; 0xc4; 0xa7; 0x7e; 0x3d; 0x64; 0x5d; 0x19; 0x73;
    0x60; 0x81; 0x4f; 0xdc; 0x22; 0x2a; 0x90; 0x88; 0x46; 0xee; 0xb8; 0x14;
    0xde; 0x5e; 0x0b; 0xdb; 0xe0; 0x32; 0x3a; 0x0a; 0x49; 0x06; 0x24; 0x5c;
    0xc2; 0xd3; 0xac; 0x62; 0x91; 0x95; 0xe4; 0x79; 0xe7; 0xc8; 0x37; 0x6d;
    0x8d; 0xd5; 0x4e; 0xa9; 0x6c; 0x56; 0xf4; 0xea; 0x65; 0x7a; 0xae; 0x08;
    0xba; 0x78; 0x25; 0x2e; 0x1c; 0xa6; 0xb4; 0xc6; 0xe8; 0xdd; 0x74; 0x1f;
    0x4b; 0xbd; 0x8b; 0x8a; 0x70; 0x3e; 0xb5; 0x66; 0x48; 0x03; 0xf6; 0x0e;
    0x61; 0x35; 0x57; 0xb9; 0x86; 0xc1; 0x1d; 0x9e; 0xe1; 0xf8; 0x98; 0x11;
    0x69; 0xd9; 0x8e; 0x94; 0x9b; 0x1e; 0x87; 0xe9; 0xce; 0x55; 0x28; 0xdf;
    0x8c; 0xa1; 0x89; 0x0d; 0xbf; 0xe6; 0x42; 0x68; 0x41; 0x99; 0x2d; 0x0f;
    0xb0; 0x54; 0xbb; 0x16].

Definition isb_data (w : Z -> Z) : list Z :=
  map (fun x => u8 (w x))
   [0x52; 0x09; 0x6a; 0xd5; 0x30; 0x36; 0xa5; 0x38; 0xbf; 0x40; 0xa3; 0x9e;
    0x81; 0xf3; 0xd7; 0xfb; 0x7c; 0xe3; 0x39; 0x82; 0x9b; 0x2f; 0xff; 0x87;
    0x34; 0x8e; 0x43; 0x44; 0xc4; 0xde; 0xe9; 0xcb; 0x54; 0x7b; 0x94; 0x32;
    0xa6; 0xc2; 0x23; 0x3d; 0xee; 0x4c; 0x95; 0x0b; 0x42; 0xfa; 0xc3; 0x4e;
    0x08; 0x2e; 0xa1; 0x66; 0x28; 0xd9; 0x24; 0xb2; 0x76; 0x5b; 0xa2; 0x49;
    0x6d; 0x8b; 0xd1; 0x25; 0x72; 0xf8; 0xf6; 0x64; 0x86; 0x68; 0x98; 0x16;
    0xd4; 0xa4; 0x5c; 0xcc; 0x5d; 0x65; 0xb6; 0x92; 0x6c; 0x70; 0x48; 0x50;
    0xfd; 0xed; 0xb9; 0xda; 0x5e; 0x15; 0x46; 0x57; 0xa7; 0x8d; 0x9d; 0x84;
    0x90; 0xd8; 0xab; 0x00; 0x8c; 0xbc; 0xd3; 0x0a; 0xf7; 0xe4; 0x58; 0x05;
    0xb8; 0xb3; 0x45; 0x06; 0xd0; 0x2c; 0x1e; 0x8f; 0xca; 0x3f; 0x0f; 0x02;
    0xc1; 0xaf; 0xbd; 0x03; 0x01; 0x13; 0x8a; 0x6b; 0x3a; 0x91; 0x11; 0x41;
    0x4f; 0x67; 0xdc; 0xea; 0x97; 0xf2; 0xcf; 0xce; 0xf0; 0xb4; 0xe6; 0x73;
    0x96; 0xac; 0x74; 0x22; 0xe7; 0xad; 0x35; 0x85; 0xe2; 0xf9; 0x37; 0xe8;
    0x1c; 0x75; 0xdf; 0x6e; 0x47; 0xf1; 0x1a; 0x71; 0x1d; 0x29; 0xc5; 0x89;
    0x6f; 0xb7; 0x62; 0x0e; 0xaa; 0x18; 0xbe; 0x1b; 0xfc; 0x56; 0x3e; 0x4b;
    0xc6; 0xd2; 0x79; 0x20; 0x9a; 0xdb; 0xc0; 0xfe; 0x78; 0xcd; 0x5a; 0xf4;
    0x1f; 0xdd; 0xa8; 0x33; 0x88; 0x07; 0xc7; 0x31; 0xb1; 0x12; 0x10; 0x59;
    0x27; 0x80; 0xec; 0x5f; 0x60; 0x51; 0x7f; 0xa9; 0x19; 0xb5; 0x4a; 0x0d;
    0x2d; 0xe5; 0x7a; 0x9f; 0x93; 0xc9; 0x9c; 0xef; 0xa0; 0xe0; 0x3b; 0x4d;
    0xae; 0x2a; 0xf5; 0xb0; 0xc8; 0xeb; 0xbb; 0x3c; 0x83; 0x53; 0x99; 0x61;
    0x17; 0x2b; 0x04; 0x7e; 0xba; 0x77; 0xd6; 0x26; 0xe1; 0x69; 0x14; 0x63;
    0x55; 0x21; 0x0c; 0x7d].

(** The initialiser lists [0x00], [0x01], ..., [0xff] in order. *)
Definition mm_data (w : Z -> Z) : list Z := map (fun x => u8 (w x)) (seqZ 0 256).

Definition sbox : list Z := sb_data f1.
Definition isbox : list Z := isb_data f1.
Definition gfm2_sbox : list Z := sb_data f2.
Definition gfm3_sbox : list Z := sb_data f3.
Definition gfmul_9 : list Z := mm_data f9.
Definition gfmul_b : list Z := mm_data fb.
Definition gfmul_d : list Z := mm_data fd.
Definition gfmul_e : list Z := mm_data fe.

Definition s_box (x : Z) : Z := rd sbox (Z.to_nat x).
Definition is_box (x : Z) : Z := rd isbox (Z.to_nat x).
Definition gfm2_sb (x : Z) : Z := rd gfm2_sbox (Z.to_nat x).
Definition gfm3_sb (x : Z) : Z := rd gfm3_sbox (Z.to_nat x).
Definition gfm_9 (x : Z) : Z := rd gfmul_9 (Z.to_nat x).
Definition gfm_b (x : Z) : Z := rd gfmul_b (Z.to_nat x).
Definition gfm_d (x : Z) : Z := rd gfmul_d (Z.to_nat x).
Definition gfm_e (x : Z) : Z := rd gfmul_e (Z.to_nat x).

Arguments s_box : simpl never.
Arguments is_box : simpl never.
Arguments gfm2_sb : simpl never.
Arguments gfm3_sb : simpl never.
Arguments gfm_9 : simpl never.
Arguments gfm_b : simpl never.
Arguments gfm_d : simpl never.
Arguments gfm_e : simpl never.
Arguments f2 : simpl never.
Arguments f3 : simpl never.
Arguments f4 : simpl never.
Arguments f8 : simpl never.
Arguments f9 : simpl never.
Arguments fb : simpl never.
Arguments fd : simpl never.
Arguments fe : simpl never.
Arguments d2 : simpl never.

(** ** Computed S-box (the configuration without tables) *)

Definition hibit (x : Z) : Z :=
  let r := u8 (Z.lor (Z.shiftr x 1) (Z.shiftr x 2)) in
  let r := Z.lor r (Z.shiftr r 2) in
  let r := Z.lor r (Z.shiftr r 4) in
  u8 (Z.shiftr (r + 1) 1).

(** [while (n2 >= n1)]: the state is [(p2, n2, v2)].  The mask is the
    [& 0xff] of the first of the two inner loops; the second one truncates in
    the assignment to a [uint_8t] instead, which is the same. *)
Fixpoint gf_inv_while (fuel : nat) (p1 n1 v1 p2 n2 v2 : Z) : option (Z * Z * Z) :=
  match fuel with
  | O => None
  | S fuel =>
      if n2 >=? n1 then
        let n2 := n2 / n1 in
        let p2 := Z.lxor p2 (Z.land (p1 * n2) 0xff) in
        let v2 := u8 (Z.lxor v2 (v1 * n2)) in
        gf_inv_while fuel p1 n1 v1 p2 (hibit p2) v2
      else Some (p2, n2, v2)
  end.

Fixpoint gf_inv_loop (fuel : nat) (p1 n1 v1 p2 n2 v2 : Z) : option Z :=
  match fuel with
  | O => None
  | S fuel =>
      if n1 =? 0 then Some v1
      else
        match gf_inv_while 9 p1 n1 v1 p2 n2 v2 with
        | None => None
        | Some (p2, n2, v2) =>
            if n2 =? 0 then Some v2
            else
              match gf_inv_while 9 p2 n2 v2 p1 n1 v1 with
              | None => None
              | Some (p1, n1, v1) => gf_inv_loop fuel p1 n1 v1 p2 n2 v2
              end
        end
  end.

(** The inverse of a field element; [None] only if 9 divisions per inner loop
    or 9 rounds did not suffice. *)
Definition gf_inv (x : Z) : option Z :=
  if x <? 2 then Some x else gf_inv_loop 9 x (hibit x) 1 BPOLY 0x80 0.

Definition fwd_affine (x : Z) : Z :=
  let w := x in
  let w := Z.lxor w (Z.lxor (Z.lxor (Z.lxor (u32 (Z.shiftl w 1)) (u32 (Z.shiftl w 2)))
                              (u32 (Z.shiftl w 3))) (u32 (Z.shiftl w 4))) in
  u8 (Z.lxor 0x63 (Z.land (Z.lxor w (Z.shiftr w 8)) 0xff)).

Definition inv_affine (x : Z) : Z :=
  let w := x in
  let w := Z.lxor (Z.lxor (u32 (Z.shiftl w 1)) (u32 (Z.shiftl w 3))) (u32 (Z.shiftl w 6)) in
  u8 (Z.lxor 0x05 (Z.land (Z.lxor w (Z.shiftr w 8)) 0xff)).

Definition s_box_computed (x : Z) : option Z := fwd_affine <$> gf_inv x.
Definition is_box_computed (x : Z) : option Z := gf_inv (inv_affine x).

(** ** Operations on the state *)

Definition N_BLOCK : nat := 16.
Definition N_MAX_ROUNDS : nat := 14.

(** The [i]-th 32-bit word of a buffer read through a [uint_32t] pointer, and a
    store of one, on a little-endian machine. *)
Definition ld32 (p : list Z) (i : nat) : Z :=
  p.[4 * i] + Z.shiftl p.[4 * i + 1] 8 + Z.shiftl p.[4 * i + 2] 16 + Z.shiftl p.[4 * i + 3] 24.
Definition st32 (p : list Z) (i : nat) (w : Z) : list Z :=
  p.[4 * i <- Z.land w 0xff].[4 * i + 1 <- Z.land (Z.shiftr w 8) 0xff]
   .[4 * i + 2 <- Z.land (Z.shiftr w 16) 0xff].[4 * i + 3 <- Z.land (Z.shiftr w 24) 0xff].

Definition xor_block (d s : list Z) : list Z :=
  let d := st32 d 0 (Z.lxor (ld32 d 0) (ld32 s 0)) in
  let d := st32 d 1 (Z.lxor (ld32 d 1) (ld32 s 1)) in
  let d := st32 d 2 (Z.lxor (ld32 d 2) (ld32 s 2)) in
  st32 d 3 (Z.lxor (ld32 d 3) (ld32 s 3)).

(** [copy_and_key(d, s, k)]: every byte of [d] is overwritten, so only the new
    contents matter; the caller's [d] may be [s]. *)
Definition copy_and_key (d s k : list Z) : list Z :=
  let d := st32 d 0 (Z.lxor (ld32 s 0) (ld32 k 0)) in
  let d := st32 d 1 (Z.lxor (ld32 s 1) (ld32 k 1)) in
  let d := st32 d 2 (Z.lxor (ld32 s 2) (ld32 k 2)) in
  st32 d 3 (Z.lxor (ld32 s 3) (ld32 k 3)).

Definition add_round_key (d k : list Z) : list Z := xor_block d k.

Definition shift_sub_rows (st : list Z) : list Z :=
  let st := st.[0 <- s_box st.[0]] in
  let st := st.[4 <- s_box st.[4]] in
  let st := st.[8 <- s_box st.[8]] in
  let st := st.[12 <- s_box st.[12]] in
  let tt := st.[1] in
  let st := st.[1 <- s_box st.[5]] in
  let st := st.[5 <- s_box st.[9]] in
  let st := st.[9 <- s_box st.[13]] in
  let st := st.[13 <- s_box tt] in
  let tt := st.[2] in
  let st := st.[2 <- s_box st.[10]] in
  let st := st.[10 <- s_box tt] in
  let tt := st.[6] in
  let st := st.[6 <- s_box st.[14]] in
  let st := st.[14 <- s_box tt] in
  let tt := st.[15] in
  let st := st.[15 <- s_box st.[11]] in
  let st := st.[11 <- s_box st.[7]] in
  let st := st.[7 <- s_box st.[3]] in
  st.[3 <- s_box tt].

Definition inv_shift_sub_rows (st : list Z) : list Z :=
  let st := st.[0 <- is_box st.[0]] in
  let st := st.[4 <- is_box st.[4]] in
  let st := st.[8 <- is_box st.[8]] in
  let st := st.[12 <- is_box st.[12]] in
  let tt := st.[13] in
  let st := st.[13 <- is_box st.[9]] in
  let st := st.[9 <- is_box st.[5]] in
  let st := st.[5 <- is_box st.[1]] in
  let st := st.[1 <- is_box tt] in
  let tt := st.[2] in
  let st := st.[2 <- is_box st.[10]] in
  let st := st.[10 <- is_box tt] in
  let tt := st.[6] in
  let st := st.[6 <- is_box st.[14]] in
  let st := st.[14 <- is_box tt] in
  let tt := st.[3] in
  let st := st.[3 <- is_box st.[7]] in
  let st := st.[7 <- is_box st.[11]] in
  let st := st.[11 <- is_box st.[15]] in
  st.[15 <- is_box tt].

Local Infix "⊕" := Z.lxor (at level 50, left associativity).

Definition mix_sub_columns (dt : list Z) : list Z :=
  let st := dt in
  let dt := dt.[0 <- gfm2_sb st.[0] ⊕ gfm3_sb st.[5] ⊕ s_box st.[10] ⊕ s_box st.[15]] in
  let dt := dt.[1 <- s_box st.[0] ⊕ gfm2_sb st.[5] ⊕ gfm3_sb st.[10] ⊕ s_box st.[15]] in
  let dt := dt.[2 <- s_box st.[0] ⊕ s_box st.[5] ⊕ gfm2_sb st.[10] ⊕ gfm3_sb st.[15]] in
  let dt := dt.[3 <- gfm3_sb st.[0] ⊕ s_box st.[5] ⊕ s_box st.[10] ⊕ gfm2_sb st.[15]] in
  let dt := dt.[4 <- gfm2_sb st.[4] ⊕ gfm3_sb st.[9] ⊕ s_box st.[14] ⊕ s_box st.[3]] in
  let dt := dt.[5 <- s_box st.[4] ⊕ gfm2_sb st.[9] ⊕ gfm3_sb st.[14] ⊕ s_box st.[3]] in
  let dt := dt.[6 <- s_box st.[4] ⊕ s_box st.[9] ⊕ gfm2_sb st.[14] ⊕ gfm3_sb st.[3]] in
  let dt := dt.[7 <- gfm3_sb st.[4] ⊕ s_box st.[9] ⊕ s_box st.[14] ⊕ gfm2_sb st.[3]] in
  let dt := dt.[8 <- gfm2_sb st.[8] ⊕ gfm3_sb st.[13] ⊕ s_box st.[2] ⊕ s_box st.[7]] in
  let dt := dt.[9 <- s_box st.[8] ⊕ gfm2_sb st.[13] ⊕ gfm3_sb st.[2] ⊕ s_box st.[7]] in
  let dt := dt.[10 <- s_box st.[8] ⊕ s_box st.[13] ⊕ gfm2_sb st.[2] ⊕ gfm3_sb st.[7]] in
  let dt := dt.[11 <- gfm3_sb st.[8] ⊕ s_box st.[13] ⊕ s_box st.[2] ⊕ gfm2_sb st.[7]] in
  let dt := dt.[12 <- gfm2_sb st.[12] ⊕ gfm3_sb st.[1] ⊕ s_box st.[6] ⊕ s_box st.[11]] in
  let dt := dt.[13 <- s_box st.[12] ⊕ gfm2_sb st.[1] ⊕ gfm3_sb st.[6] ⊕ s_box st.[11]] in
  let dt := dt.[14 <- s_box st.[12] ⊕ s_box st.[1] ⊕ gfm2_sb st.[6] ⊕ gfm3_sb st.[11]] in
  dt.[15 <- gfm3_sb st.[12] ⊕ s_box st.[1] ⊕ s_box st.[6] ⊕ gfm2_sb st.[11]].

Definition inv_mix_sub_columns (dt : list Z) : list Z :=
  let st := dt in
  let dt := dt.[0 <- is_box (gfm_e st.[0] ⊕ gfm_b st.[1] ⊕ gfm_d st.[2] ⊕ gfm_9 st.[3])] in
  let dt := dt.[5 <- is_box (gfm_9 st.[0] ⊕ gfm_e st.[1] ⊕ gfm_b st.[2] ⊕ gfm_d st.[3])] in
  let dt := dt.[10 <- is_box (gfm_d st.[0] ⊕ gfm_9 st.[1] ⊕ gfm_e st.[2] ⊕ gfm_b st.[3])] in
  let dt := dt.[15 <- is_box (gfm_b st.[0] ⊕ gfm_d st.[1] ⊕ gfm_9 st.[2] ⊕ gfm_e st.[3])] in
  let dt := dt.[4 <- is_box (gfm_e st.[4] ⊕ gfm_b st.[5] ⊕ gfm_d st.[6] ⊕ gfm_9 st.[7])] in
  let dt := dt.[9 <- is_box (gfm_9 st.[4] ⊕ gfm_e st.[5] ⊕ gfm_b st.[6] ⊕ gfm_d st.[7])] in
  let dt := dt.[14 <- is_box (gfm_d st.[4] ⊕ gfm_9 st.[5] ⊕ gfm_e st.[6] ⊕ gfm_b st.[7])] in
  let dt := dt.[3 <- is_box (gfm_b st.[4] ⊕ gfm_d st.[5] ⊕ gfm_9 st.[6] ⊕ gfm_e st.[7])] in
  let dt := dt.[8 <- is_box (gfm_e st.[8] ⊕ gfm_b st.[9] ⊕ gfm_d st.[10] ⊕ gfm_9 st.[11])] in
  let dt := dt.[13 <- is_box (gfm_9 st.[8] ⊕ gfm_e st.[9] ⊕ gfm_b st.[10] ⊕ gfm_d st.[11])] in
  let dt := dt.[2 <- is_box (gfm_d st.[8] ⊕ gfm_9 st.[9] ⊕ gfm_e st.[10] ⊕ gfm_b st.[11])] in
  let dt := dt.[7 <- is_box (gfm_b st.[8] ⊕ gfm_d st.[9] ⊕ gfm_9 st.[10] ⊕ gfm_e st.[11])] in
  let dt := dt.[12 <- is_box (gfm_e st.[12] ⊕ gfm_b st.[13] ⊕ gfm_d st.[14] ⊕ gfm_9 st.[15])] in
  let dt := dt.[1 <- is_box (gfm_9 st.[12] ⊕ gfm_e st.[13] ⊕ gfm_b st.[14] ⊕ gfm_d st.[15])] in
  let dt := dt.[6 <- is_box (gfm_d st.[12] ⊕ gfm_9 st.[13] ⊕ gfm_e st.[14] ⊕ gfm_b st.[15])] in
  dt.[11 <- is_box (gfm_b st.[12] ⊕ gfm_d st.[13] ⊕ gfm_9 st.[14] ⊕ gfm_e st.[15])].

(** ** Precomputed key schedule *)

Record aes_context := { ksch : list Z; rnd : Z }.

(** [(return_type)-1]. *)
Definition RETURN_ERROR : Z := u8 (-1).
Definition EXIT_SUCCESS : Z := 0.
Definition EXIT_FAILURE : Z := 1.

(** One iteration of the expansion loop at [cc]; the loop state is the key
    schedule and the round constant. *)
Definition set_key_step (keylen : nat) (st : list Z * Z) (cc : nat) : list Z * Z :=
  let '(ks, rc) := st in
  let t0 := ks.[cc - 4] in
  let t1 := ks.[cc - 3] in
  let t2 := ks.[cc - 2] in
  let t3 := ks.[cc - 1] in
  let '(t0, t1, t2, t3, rc) :=
    if (cc mod keylen =? 0)%nat then
      (s_box t1 ⊕ rc, s_box t2, s_box t3, s_box t0, u8 (f2 rc))
    else if ((24 <? keylen) && (cc mod keylen =? 16))%nat then
      (s_box t0, s_box t1, s_box t2, s_box t3, rc)
    else (t0, t1, t2, t3, rc) in
  let tt := (cc - keylen)%nat in
  let ks := ks.[cc + 0 <- ks.[tt + 0] ⊕ t0] in
  let ks := ks.[cc + 1 <- ks.[tt + 1] ⊕ t1] in
  let ks := ks.[cc + 2 <- ks.[tt + 2] ⊕ t2] in
  let ks := ks.[cc + 3 <- ks.[tt + 3] ⊕ t3] in
  (ks, rc).

(** The values of [cc] in [for (cc = keylen; cc < hi; cc += 4)]; [hi] is at
    most 240, so the [uint_8t] counter does not wrap. *)
Definition set_key_ccs (keylen hi : nat) : list nat :=
  map (fun i => keylen + 4 * i)%nat (seq 0 ((hi - keylen + 3) / 4)).

Definition aes_set_key (key : list Z) (keylen : Z) (ctx : aes_context) : Z * aes_context :=
  let go (keylen : nat) :=
    (* block_copy_nn(ctx->ksch, key, keylen) *)
    let ks := take keylen key ++ drop keylen (ksch ctx) in
    let hi := u8 (Z.shiftl (Z.of_nat keylen + 28) 2) in
    let rnd := u8 (Z.shiftr hi 4 - 1) in
    (0, {| ksch := fst (fold_left (set_key_step keylen) (set_key_ccs keylen (Z.to_nat hi)) (ks, 1));
           rnd := rnd |}) in
  if (keylen =? 16) || (keylen =? 128) then go 16%nat
  else if (keylen =? 24) || (keylen =? 192) then go 24%nat
  else if keylen =? 32 then go 32%nat
  else (RETURN_ERROR, {| ksch := ksch ctx; rnd := 0 |}).

(** [ctx->ksch + r * N_BLOCK]. *)
Definition round_key (ks : list Z) (r : nat) : list Z := drop (r * N_BLOCK) ks.

(** [aes_encrypt(in, out, ctx)] returns the status and the contents of [out]. *)
Definition aes_encrypt (inp out : list Z) (ctx : aes_context) : Z * list Z :=
  if rnd ctx =? 0 then (RETURN_ERROR, out)
  else
    let n := Z.to_nat (rnd ctx) in
    (* [uint_8t s1[N_BLOCK]] is not initialised; every byte is written *)
    let s1 := copy_and_key (replicate N_BLOCK 0) inp (ksch ctx) in
    let s1 := fold_left (fun s1 r => add_round_key (mix_sub_columns s1) (round_key (ksch ctx) r))
                (seq 1 (n - 1)) s1 in
    let s1 := shift_sub_rows s1 in
    (0, copy_and_key out s1 (round_key (ksch ctx) n)).

Definition aes_decrypt (inp out : list Z) (ctx : aes_context) : Z * list Z :=
  if rnd ctx =? 0 then (RETURN_ERROR, out)
  else
    let n := Z.to_nat (rnd ctx) in
    let s1 := copy_and_key (replicate N_BLOCK 0) inp (round_key (ksch ctx) n) in
    let s1 := inv_shift_sub_rows s1 in
    (* [for (r = ctx->rnd; --r;)] *)
    let s1 := fold_left (fun s1 r => inv_mix_sub_columns (add_round_key s1 (round_key (ksch ctx) r)))
                (rev (seq 1 (n - 1))) s1 in
    (0, copy_and_key out s1 (ksch ctx)).

(** The result of a CBC call: status, the blocks written to [out], the [iv]. *)
Fixpoint aes_cbc_encrypt (inp : list Z) (n_block : nat) (iv : list Z) (ctx : aes_context)
    : Z * list Z * list Z :=
  match n_block with
  | O => (EXIT_SUCCESS, [], iv)
  | S n_block =>
      let iv := xor_block iv inp in
      let '(status, iv) := aes_encrypt iv iv ctx in
      if negb (status =? EXIT_SUCCESS) then (EXIT_FAILURE, [], iv)
      else
        let out := take N_BLOCK iv in
        let '(status, rest, iv) := aes_cbc_encrypt (drop N_BLOCK inp) n_block iv ctx in
        (status, out ++ rest, iv)
  end.

Fixpoint aes_cbc_decrypt (inp : list Z) (n_block : nat) (iv : list Z) (ctx : aes_context)
    : Z * list Z * list Z :=
  match n_block with
  | O => (EXIT_SUCCESS, [], iv)
  | S n_block =>
      let tmp := take N_BLOCK inp in
      let '(status, out) := aes_decrypt inp (replicate N_BLOCK 0) ctx in
      if negb (status =? EXIT_SUCCESS) then (EXIT_FAILURE, [], iv)
      else
        let out := xor_block out iv in
        let iv := tmp in
        let '(status, rest, iv) := aes_cbc_decrypt (drop N_BLOCK inp) n_block iv ctx in
        (status, out ++ rest, iv)
  end.

(** ** On-the-fly key schedules *)

(** [k[cc + 0] ^= k[cc - 4]; ...; k[cc + 3] ^= k[cc - 1]]. *)
Definition xor_word (k : list Z) (cc : nat) : list Z :=
  let k := k.[cc + 0 <- k.[cc + 0] ⊕ k.[cc - 4]] in
  let k := k.[cc + 1 <- k.[cc + 1] ⊕ k.[cc - 3]] in
  let k := k.[cc + 2 <- k.[cc + 2] ⊕ k.[cc - 2]] in
  k.[cc + 3 <- k.[cc + 3] ⊕ k.[cc - 1]].

Definition update_encrypt_key_128 (k : list Z) (rc : Z) : list Z * Z :=
  let k := k.[0 <- k.[0] ⊕ (s_box k.[13] ⊕ rc)] in
  let k := k.[1 <- k.[1] ⊕ s_box k.[14]] in
  let k := k.[2 <- k.[2] ⊕ s_box k.[15]] in
  let k := k.[3 <- k.[3] ⊕ s_box k.[12]] in
  let rc := u8 (f2 rc) in
  (fold_left xor_word [4; 8; 12]%nat k, rc).

(** The loop state of the on-the-fly routines: [s1], [o_key] and [rc]. *)
Definition encrypt_128_round (st : list Z * list Z * Z) (r : nat) : list Z * list Z * Z :=
  let '(s1, o_key, rc) := st in
  let s1 := mix_sub_columns s1 in
  let '(o_key, rc) := update_encrypt_key_128 o_key rc in
  (add_round_key s1 o_key, o_key, rc).

(** Result: the contents of [out] and of [o_key]. *)
Definition aes_encrypt_128 (inp key : list Z) : list Z * list Z :=
  let rc := 1 in
  let o_key := key in
  let s1 := copy_and_key (replicate N_BLOCK 0) inp o_key in
  let '(s1, o_key, rc) :=
    fold_left encrypt_128_round (seq 1 9) (s1, o_key, rc) in
  let s1 := shift_sub_rows s1 in
  let '(o_key, _) := update_encrypt_key_128 o_key rc in
  (copy_and_key (replicate N_BLOCK 0) s1 o_key, o_key).

Definition update_decrypt_key_128 (k : list Z) (rc : Z) : list Z * Z :=
  let k := fold_left xor_word [12; 8; 4]%nat k in
  let rc := u8 (d2 rc) in
  let k := k.[0 <- k.[0] ⊕ (s_box k.[13] ⊕ rc)] in
  let k := k.[1 <- k.[1] ⊕ s_box k.[14]] in
  let k := k.[2 <- k.[2] ⊕ s_box k.[15]] in
  let k := k.[3 <- k.[3] ⊕ s_box k.[12]] in
  (k, rc).

Definition decrypt_128_round (st : list Z * list Z * Z) (r : nat) : list Z * list Z * Z :=
  let '(s1, o_key, rc) := st in
  let '(o_key, rc) := update_decrypt_key_128 o_key rc in
  (inv_mix_sub_columns (add_round_key s1 o_key), o_key, rc).

Definition aes_decrypt_128 (inp key : list Z) : list Z * list Z :=
  let rc := 0x6c in
  let o_key := key in
  let s1 := copy_and_key (replicate N_BLOCK 0) inp o_key in
  let s1 := inv_shift_sub_rows s1 in
  let '(s1, o_key, rc) :=
    fold_left decrypt_128_round (rev (seq 1 9)) (s1, o_key, rc) in
  let '(o_key, _) := update_decrypt_key_128 o_key rc in
  (copy_and_key (replicate N_BLOCK 0) s1 o_key, o_key).

Definition update_encrypt_key_256 (k : list Z) (rc : Z) : list Z * Z :=
  let k := k.[0 <- k.[0] ⊕ (s_box k.[29] ⊕ rc)] in
  let k := k.[1 <- k.[1] ⊕ s_box k.[30]] in
  let k := k.[2 <- k.[2] ⊕ s_box k.[31]] in
  let k := k.[3 <- k.[3] ⊕ s_box k.[28]] in
  let rc := u8 (f2 rc) in
  let k := fold_left xor_word [4; 8; 12]%nat k in
  let k := k.[16 <- k.[16] ⊕ s_box k.[12]] in
  let k := k.[17 <- k.[17] ⊕ s_box k.[13]] in
  let k := k.[18 <- k.[18] ⊕ s_box k.[14]] in
  let k := k.[19 <- k.[19] ⊕ s_box k.[15]] in
  (fold_left xor_word [20; 24; 28]%nat k, rc).

Definition encrypt_256_round (st : list Z * list Z * Z) (r : nat) : list Z * list Z * Z :=
  let '(s1, o_key, rc) := st in
  let s1 := mix_sub_columns s1 in
  if Nat.odd r then (add_round_key s1 (drop 16 o_key), o_key, rc)
  else
    let '(o_key, rc) := update_encrypt_key_256 o_key rc in
    (add_round_key s1 o_key, o_key, rc).

Definition aes_encrypt_256 (inp key : list Z) : list Z * list Z :=
  let rc := 1 in
  let o_key := key in
  let s1 := copy_and_key (replicate N_BLOCK 0) inp o_key in
  let '(s1, o_key, rc) :=
    fold_left encrypt_256_round (seq 1 13) (s1, o_key, rc) in
  let s1 := shift_sub_rows s1 in
  let '(o_key, _) := update_encrypt_key_256 o_key rc in
  (copy_and_key (replicate N_BLOCK 0) s1 o_key, o_key).

Definition update_decrypt_key_256 (k : list Z) (rc : Z) : list Z * Z :=
  let k := fold_left xor_word [28; 24; 20]%nat k in
  let k := k.[16 <- k.[16] ⊕ s_box k.[12]] in
  let k := k.[17 <- k.[17] ⊕ s_box k.[13]] in
  let k := k.[18 <- k.[18] ⊕ s_box k.[14]] in
  let k := k.[19 <- k.[19] ⊕ s_box k.[15]] in
  let k := fold_left xor_word [12; 8; 4]%nat k in
  let rc := u8 (d2 rc) in
  let k := k.[0 <- k.[0] ⊕ (s_box k.[29] ⊕ rc)] in
  let k := k.[1 <- k.[1] ⊕ s_box k.[30]] in
  let k := k.[2 <- k.[2] ⊕ s_box k.[31]] in
  let k := k.[3 <- k.[3] ⊕ s_box k.[28]] in
  (k, rc).

Definition decrypt_256_round (st : list Z * list Z * Z) (r : nat) : list Z * list Z * Z :=
  let '(s1, o_key, rc) := st in
  let '(s1, o_key, rc) :=
    if Nat.odd r then
      let '(o_key, rc) := update_decrypt_key_256 o_key rc in
      (add_round_key s1 (drop 16 o_key), o_key, rc)
    else (add_round_key s1 o_key, o_key, rc) in
  (inv_mix_sub_columns s1, o_key, rc).

Definition aes_decrypt_256 (inp key : list Z) : list Z * list Z :=
  let rc := 0x80 in
  let o_key := key in
  let s1 := copy_and_key (replicate N_BLOCK 0) inp o_key in
  let s1 := inv_shift_sub_rows s1 in
  let '(s1, o_key, rc) :=
    fold_left decrypt_256_round (rev (seq 1 13)) (s1, o_key, rc) in
  (copy_and_key (replicate N_BLOCK 0) s1 o_key, o_key).
