(* ===== verification/AesRound.v ===== *)
(** * The AES rounds against FIPS-197

    A reference AES (the field GF(2^8), SubBytes as the affine image of the
    inverse, ShiftRows, MixColumns, KeyExpansion, Cipher), and the lemmas that
    the state operations of [Aes.v] compute its rounds and invert each other. *)

From stdpp Require Import base list.
From Stdlib Require Import ZArith Lia.
From S2P Require Import Prelude Aes.

Open Scope Z_scope.

Local Infix "⊕" := Z.lxor (at level 50, left associativity).

(** ** Reference definitions *)

Module Fips197.

(** Multiplication by [x] modulo [x^8 + x^4 + x^3 + x + 1]. *)
Definition xtime (a : Z) : Z :=
  if Z.testbit a 7 then Z.lxor (2 * a) 0x11b else 2 * a.

(** Multiplication in the field, by the bits of [b] from the lowest. *)
Fixpoint gmul_aux (n : nat) (a b : Z) : Z :=
  match n with
  | O => 0
  | S n => (if Z.odd b then a else 0) ⊕ gmul_aux n (xtime a) (b / 2)
  end.
Definition gmul (a b : Z) : Z := gmul_aux 8 a b.

(** The inverse is the 254th power; 0 maps to itself. *)
Definition ginv (a : Z) : Z :=
  let sq x := gmul x x in
  let p2 := sq a in let p4 := sq p2 in let p8 := sq p4 in let p16 := sq p8 in
  let p32 := sq p16 in let p64 := sq p32 in let p128 := sq p64 in
  gmul p2 (gmul p4 (gmul p8 (gmul p16 (gmul p32 (gmul p64 p128))))).

Definition rotl8 (x k : Z) : Z := (x * 2 ^ k) mod 256 + x / 2 ^ (8 - k).

Definition sub_byte (x : Z) : Z :=
  let b := ginv x in
  b ⊕ rotl8 b 1 ⊕ rotl8 b 2 ⊕ rotl8 b 3 ⊕ rotl8 b 4 ⊕ 0x63.

Arguments gmul : simpl never.
Arguments sub_byte : simpl never.

(** The state is column-major: row [r] of column [c] is byte [r + 4 * c]. *)
Definition SubBytes (s : list Z) : list Z := map sub_byte s.
Definition ShiftRows (s : list Z) : list Z :=
  map (fun i => let r := (i mod 4)%nat in let c := (i / 4)%nat in
                s.[r + 4 * ((c + r) mod 4)]) (seq 0 16).
Definition mix_column (a0 a1 a2 a3 : Z) : list Z :=
  [gmul a0 2 ⊕ gmul a1 3 ⊕ a2 ⊕ a3; a0 ⊕ gmul a1 2 ⊕ gmul a2 3 ⊕ a3;
   a0 ⊕ a1 ⊕ gmul a2 2 ⊕ gmul a3 3; gmul a0 3 ⊕ a1 ⊕ a2 ⊕ gmul a3 2].
Definition MixColumns (s : list Z) : list Z :=
  flat_map (fun c => mix_column s.[4 * c] s.[4 * c + 1] s.[4 * c + 2] s.[4 * c + 3]) (seq 0 4).
Definition AddRoundKey (s : list Z) (w : list Z) (r : nat) : list Z :=
  xorl s (take 16 (drop (16 * r) w)).

Definition Cipher (Nr : nat) (w inp : list Z) : list Z :=
  let s := AddRoundKey inp w 0 in
  let s := fold_left (fun s r => AddRoundKey (MixColumns (ShiftRows (SubBytes s))) w r)
             (seq 1 (Nr - 1)) s in
  AddRoundKey (ShiftRows (SubBytes s)) w Nr.

Fixpoint Rcon (j : nat) : Z := match j with O => 1 | S j => xtime (Rcon j) end.

(** Word [i] of a schedule. *)
Definition word (w : list Z) (i : nat) : list Z := take 4 (drop (4 * i) w).
Definition RotWord (t : list Z) : list Z := [t.[1]; t.[2]; t.[3]; t.[0]].
Definition SubWord (t : list Z) : list Z := map sub_byte t.

(** The next word after the words of [w], for an [Nk]-word key. *)
Definition next_word (Nk : nat) (w : list Z) : list Z :=
  let i := (length w / 4)%nat in
  let temp := word w (i - 1) in
  let temp :=
    if (i mod Nk =? 0)%nat then xorl (SubWord (RotWord temp)) [Rcon (i / Nk - 1); 0; 0; 0]
    else if ((6 <? Nk) && (i mod Nk =? 4))%nat then SubWord temp
    else temp in
  xorl (word w (i - Nk)) temp.

Fixpoint expand (Nk n : nat) (w : list Z) : list Z :=
  match n with O => w | S n => expand Nk n (w ++ next_word Nk w) end.

Definition Nr (Nk : nat) : nat := (Nk + 6)%nat.

Definition KeyExpansion (Nk : nat) (key : list Z) : list Z :=
  expand Nk (4 * (Nr Nk + 1) - Nk) key.

Definition Encrypt (Nk : nat) (key inp : list Z) : list Z :=
  Cipher (Nr Nk) (KeyExpansion Nk key) inp.

End Fips197.

Import Fips197.

(** ** Blocks and 32-bit accesses *)

Lemma ld32_bytes (w v a0 a1 a2 a3 b0 b1 b2 b3 : Z) :
  byte a0 -> byte a1 -> byte a2 -> byte a3 -> byte b0 -> byte b1 -> byte b2 -> byte b3 ->
  w = a0 + Z.shiftl a1 8 + Z.shiftl a2 16 + Z.shiftl a3 24 ->
  v = b0 + Z.shiftl b1 8 + Z.shiftl b2 16 + Z.shiftl b3 24 ->
  Z.land (w ⊕ v) 0xff = a0 ⊕ b0 /\ Z.land (Z.shiftr (w ⊕ v) 8) 0xff = a1 ⊕ b1 /\
  Z.land (Z.shiftr (w ⊕ v) 16) 0xff = a2 ⊕ b2 /\ Z.land (Z.shiftr (w ⊕ v) 24) 0xff = a3 ⊕ b3.
Proof.
  intros Ha0 Ha1 Ha2 Ha3 Hb0 Hb1 Hb2 Hb3 Hw Hv.
  rewrite !Z.shiftl_mul_pow2 in Hw, Hv by lia.
  assert (land_lxor : forall x y, Z.land (x ⊕ y) 0xff = Z.land x 0xff ⊕ Z.land y 0xff).
  { intros x y. apply Z.bits_inj'. intros n _. rewrite !Z.lxor_spec, !Z.land_spec, Z.lxor_spec.
    by destruct (Z.testbit x n), (Z.testbit y n), (Z.testbit 0xff n). }
  rewrite !Z.shiftr_lxor, !land_lxor, !Z.shiftr_div_pow2 by lia.
  change 0xff with (Z.ones 8). rewrite !Z.land_ones by lia.
  unfold in_range in *. change (2 ^ 8) with 256 in *. change (2 ^ 16) with 65536 in *.
  change (2 ^ 24) with 16777216 in *.
  repeat split; f_equal; dmlia.
Qed.

(** Replace the bytes of an exclusive or of two loaded words. *)
Ltac word_bytes :=
  repeat match goal with
  | |- context [Z.land (Z.lxor (?a0 + Z.shiftl ?a1 8 + Z.shiftl ?a2 16 + Z.shiftl ?a3 24)
                              (?b0 + Z.shiftl ?b1 8 + Z.shiftl ?b2 16 + Z.shiftl ?b3 24)) 0xff] =>
      let E0 := fresh in let E1 := fresh in let E2 := fresh in let E3 := fresh in
      destruct (ld32_bytes _ _ a0 a1 a2 a3 b0 b1 b2 b3 ltac:(assumption) ltac:(assumption)
        ltac:(assumption) ltac:(assumption) ltac:(assumption) ltac:(assumption)
        ltac:(assumption) ltac:(assumption) eq_refl eq_refl) as (E0 & E1 & E2 & E3);
      rewrite E0, E1, E2, E3; clear E0 E1 E2 E3
  end.

Lemma copy_and_key_spec d s k :
  length d = 16%nat -> (16 <= length s)%nat -> (16 <= length k)%nat ->
  Forall byte (take 16 s) -> Forall byte (take 16 k) ->
  copy_and_key d s k = xorl (take 16 s) (take 16 k).
Proof.
  intros Hd Hs Hk Fs Fk.
  do 16 (destruct s as [|? s]; [cbn in Hs; lia|]). do 16 (destruct k as [|? k]; [cbn in Hk; lia|]).
  clear Hs Hk. expose d. cbn in Fs, Fk. rewrite ?Forall_cons in Fs, Fk. destruct_and!.
  unfold copy_and_key, st32, ld32, rd. cbn. word_bytes. done.
Qed.

Lemma xor_block_spec d s :
  block 16 d -> (16 <= length s)%nat -> Forall byte (take 16 s) ->
  xor_block d s = xorl d (take 16 s).
Proof.
  intros [Hd Fd] Hs Fs. rewrite <- (firstn_all d) at 2. rewrite Hd.
  rewrite <- (copy_and_key_spec d d s); try lia; [|by rewrite <- Hd, firstn_all|done].
  expose d. reflexivity.
Qed.

(** ** The field macros *)

Lemma bit_scale (m x y : Z) : m = 1 \/ m = 2 \/ m = 4 ->
  Z.land (x ⊕ y) m * WPOLY = (Z.land x m * WPOLY) ⊕ (Z.land y m * WPOLY).
Proof.
  intros Hm.
  assert (Hb : forall z, Z.land z m = 0 \/ Z.land z m = m).
  { assert (exists k, 0 <= k /\ m = 2 ^ k) as (k & Hk & ->).
    { destruct Hm as [->|[->| ->]]; [exists 0|exists 1|exists 2]; done. }
    intros z. destruct (Z.testbit z k) eqn:E; [right|left]; apply Z.bits_inj'; intros n Hn;
      rewrite Z.land_spec, Z.pow2_bits_eqb, ?Z.bits_0 by lia;
      destruct (Z.eqb_spec k n); subst; by rewrite ?E, ?andb_true_r, ?andb_false_r. }
  assert (Hl : Z.land (x ⊕ y) m = Z.land x m ⊕ Z.land y m).
  { apply Z.bits_inj'. intros n _. rewrite !Z.lxor_spec, !Z.land_spec, Z.lxor_spec.
    by destruct (Z.testbit x n), (Z.testbit y n), (Z.testbit m n). }
  rewrite Hl. destruct (Hb x) as [-> | ->], (Hb y) as [-> | ->], Hm as [-> | [-> | ->]]; done.
Qed.

Lemma f2_lxor x y : f2 (x ⊕ y) = f2 x ⊕ f2 y.
Proof. unfold f2. rewrite Z.shiftl_lxor, Z.shiftr_lxor, bit_scale by tauto. xor_bits. Qed.
Lemma f4_lxor x y : f4 (x ⊕ y) = f4 x ⊕ f4 y.
Proof. unfold f4. rewrite Z.shiftl_lxor, Z.shiftr_lxor, !bit_scale by tauto. xor_bits. Qed.
Lemma f8_lxor x y : f8 (x ⊕ y) = f8 x ⊕ f8 y.
Proof. unfold f8. rewrite Z.shiftl_lxor, Z.shiftr_lxor, !bit_scale by tauto. xor_bits. Qed.

Lemma f9_lxor x y : f9 (x ⊕ y) = f9 x ⊕ f9 y.
Proof. unfold f9. rewrite f8_lxor. xor_bits. Qed.
Lemma fb_lxor x y : fb (x ⊕ y) = fb x ⊕ fb y.
Proof. unfold fb. rewrite f8_lxor, f2_lxor. xor_bits. Qed.
Lemma fd_lxor x y : fd (x ⊕ y) = fd x ⊕ fd y.
Proof. unfold fd. rewrite f8_lxor, f4_lxor. xor_bits. Qed.
Lemma fe_lxor x y : fe (x ⊕ y) = fe x ⊕ fe y.
Proof. unfold fe. rewrite f8_lxor, f4_lxor, f2_lxor. xor_bits. Qed.

Create Rewrite HintDb gf.
#[export] Hint Rewrite f9_lxor fb_lxor fd_lxor fe_lxor : gf.

(** *** Facts about the 256 bytes, by evaluation *)

Ltac by_byte x :=
  match goal with |- ?l = ?r =>
    let f := eval pattern x in l in let g := eval pattern x in r in
    match f with ?f' _ => match g with ?g' _ =>
      apply (forall_byte_eq f' g'); [vm_compute; reflexivity | assumption]
    end end
  end.

(** Both constant maps: a constant is a function of the byte too. *)
Lemma s_box_sub_byte x : byte x -> s_box x = sub_byte x.
Proof. intros. by_byte x. Qed.
Lemma is_box_s_box x : byte x -> is_box (s_box x) = x.
Proof. intros. by_byte x. Qed.
Lemma s_box_is_box x : byte x -> s_box (is_box x) = x.
Proof. intros. by_byte x. Qed.
Lemma gfm2_sb_f2 x : byte x -> gfm2_sb x = f2 (s_box x).
Proof. intros. by_byte x. Qed.
Lemma gfm3_sb_f3 x : byte x -> gfm3_sb x = f3 (s_box x).
Proof. intros. by_byte x. Qed.
Lemma gfm_9_f9 x : byte x -> gfm_9 x = f9 x.
Proof. intros. by_byte x. Qed.
Lemma gfm_b_fb x : byte x -> gfm_b x = fb x.
Proof. intros. by_byte x. Qed.
Lemma gfm_d_fd x : byte x -> gfm_d x = fd x.
Proof. intros. by_byte x. Qed.
Lemma gfm_e_fe x : byte x -> gfm_e x = fe x.
Proof. intros. by_byte x. Qed.
Lemma f2_gmul x : byte x -> f2 x = gmul x 2.
Proof. intros. by_byte x. Qed.
Lemma f3_gmul x : byte x -> f3 x = gmul x 3.
Proof. intros. by_byte x. Qed.
Lemma f2_xtime x : byte x -> f2 x = xtime x.
Proof. intros. by_byte x. Qed.
Lemma d2_f2 x : byte x -> d2 (f2 x) = x.
Proof. intros. by_byte x. Qed.

Lemma byte_by (f : Z -> Z) :
  forallb (fun x => bool_decide (byte (f x))) (seqZ 0 256) = true -> forall x, byte x -> byte (f x).
Proof.
  intros H x Hx. apply (forall_byte _ H) in Hx. by apply bool_decide_eq_true in Hx.
Qed.
Lemma byte_s_box x : byte x -> byte (s_box x).
Proof. apply byte_by. by vm_compute. Qed.
Lemma byte_is_box x : byte x -> byte (is_box x).
Proof. apply byte_by. by vm_compute. Qed.
Lemma byte_f2 x : byte x -> byte (f2 x).
Proof. apply byte_by. by vm_compute. Qed.
Lemma byte_f3 x : byte x -> byte (f3 x).
Proof. apply byte_by. by vm_compute. Qed.
Lemma byte_gfm_9 x : byte x -> byte (gfm_9 x).
Proof. apply byte_by. by vm_compute. Qed.
Lemma byte_gfm_b x : byte x -> byte (gfm_b x).
Proof. apply byte_by. by vm_compute. Qed.
Lemma byte_gfm_d x : byte x -> byte (gfm_d x).
Proof. apply byte_by. by vm_compute. Qed.
Lemma byte_gfm_e x : byte x -> byte (gfm_e x).
Proof. apply byte_by. by vm_compute. Qed.
#[export] Hint Resolve byte_s_box byte_is_box byte_f2 byte_f3 byte_gfm_9 byte_gfm_b byte_gfm_d
  byte_gfm_e : word.

(** The inverse MixColumns matrix times the MixColumns matrix, by diagonals. *)
Lemma mix_diag0 x : byte x -> fe (f2 x) ⊕ fb x ⊕ fd x ⊕ f9 (f3 x) = x.
Proof. intros. by_byte x. Qed.
Lemma mix_diag1 x : byte x -> fe (f3 x) ⊕ fb (f2 x) ⊕ fd x ⊕ f9 x = 0.
Proof. intros. by_byte x. Qed.
Lemma mix_diag2 x : byte x -> fe x ⊕ fb (f3 x) ⊕ fd (f2 x) ⊕ f9 x = 0.
Proof. intros. by_byte x. Qed.
Lemma mix_diag3 x : byte x -> fe x ⊕ fb x ⊕ fd (f3 x) ⊕ f9 (f2 x) = 0.
Proof. intros. by_byte x. Qed.

(** Summing the four columns: the terms of [a] give [a], the others cancel. *)
Lemma xor_rows (a a1 a2 a3 a4 b1 b2 b3 b4 c1 c2 c3 c4 d1 d2 d3 d4 : Z) :
  a1 ⊕ a2 ⊕ a3 ⊕ a4 = a -> b1 ⊕ b2 ⊕ b3 ⊕ b4 = 0 -> c1 ⊕ c2 ⊕ c3 ⊕ c4 = 0 ->
  d1 ⊕ d2 ⊕ d3 ⊕ d4 = 0 ->
  (a1 ⊕ b1 ⊕ c1 ⊕ d1) ⊕ (a2 ⊕ b2 ⊕ c2 ⊕ d2) ⊕ (a3 ⊕ b3 ⊕ c3 ⊕ d3) ⊕ (a4 ⊕ b4 ⊕ c4 ⊕ d4) = a.
Proof.
  intros <- Hb Hc Hd. apply Z.lxor_eq in Hb, Hc, Hd. subst b4 c4 d4. xor_bits.
Qed.

(** One output byte of [inv_mix_sub_columns] after [mix_sub_columns]; the four
    rows are this one with the column rotated. *)
Lemma unmix (a b c d : Z) : byte a -> byte b -> byte c -> byte d ->
  fe (f2 a ⊕ f3 b ⊕ c ⊕ d) ⊕ fb (a ⊕ f2 b ⊕ f3 c ⊕ d) ⊕ fd (a ⊕ b ⊕ f2 c ⊕ f3 d)
    ⊕ f9 (f3 a ⊕ b ⊕ c ⊕ f2 d) = a.
Proof.
  intros. autorewrite with gf.
  apply xor_rows; [by apply mix_diag0|by apply mix_diag1|by apply mix_diag2|by apply mix_diag3].
Qed.

Lemma unmix1 (a b c d : Z) : byte a -> byte b -> byte c -> byte d ->
  f9 (f2 a ⊕ f3 b ⊕ c ⊕ d) ⊕ fe (a ⊕ f2 b ⊕ f3 c ⊕ d) ⊕ fb (a ⊕ b ⊕ f2 c ⊕ f3 d)
    ⊕ fd (f3 a ⊕ b ⊕ c ⊕ f2 d) = b.
Proof. intros. etrans; [|by apply (unmix b c d a)]. autorewrite with gf. xor_bits. Qed.

Lemma unmix2 (a b c d : Z) : byte a -> byte b -> byte c -> byte d ->
  fd (f2 a ⊕ f3 b ⊕ c ⊕ d) ⊕ f9 (a ⊕ f2 b ⊕ f3 c ⊕ d) ⊕ fe (a ⊕ b ⊕ f2 c ⊕ f3 d)
    ⊕ fb (f3 a ⊕ b ⊕ c ⊕ f2 d) = c.
Proof. intros. etrans; [|by apply (unmix c d a b)]. autorewrite with gf. xor_bits. Qed.

Lemma unmix3 (a b c d : Z) : byte a -> byte b -> byte c -> byte d ->
  fb (f2 a ⊕ f3 b ⊕ c ⊕ d) ⊕ fd (a ⊕ f2 b ⊕ f3 c ⊕ d) ⊕ f9 (a ⊕ b ⊕ f2 c ⊕ f3 d)
    ⊕ fe (f3 a ⊕ b ⊕ c ⊕ f2 d) = d.
Proof. intros. etrans; [|by apply (unmix d a b c)]. autorewrite with gf. xor_bits. Qed.

(** ** The state operations *)

(** Name the 16 cells of a block. *)
Ltac cells s :=
  match goal with H : block 16 s |- _ =>
    let L := fresh "L" in let F := fresh "F" in
    destruct H as [L F]; expose s; rewrite ?Forall_cons in F; destruct_and!
  end.

(** Run an operation on a list whose cells are exposed. *)
Ltac run f :=
  match goal with |- context [f ?l] =>
    let r := eval unfold f, rd in (f l) in let r := eval cbn in r in change (f l) with r
  end.

Ltac bytes := repeat (apply Forall_cons; split); auto 12 with word.

Lemma shift_sub_rows_spec s : block 16 s -> shift_sub_rows s = ShiftRows (SubBytes s).
Proof.
  intros H. cells s. unfold ShiftRows, SubBytes. cbn. unfold shift_sub_rows, rd. cbn.
  by rewrite !s_box_sub_byte by assumption.
Qed.

Lemma mix_sub_columns_spec s :
  block 16 s -> mix_sub_columns s = MixColumns (ShiftRows (SubBytes s)).
Proof.
  intros H. cells s. unfold MixColumns, ShiftRows, SubBytes, mix_column, mix_sub_columns, rd. cbn.
  rewrite !gfm2_sb_f2, !gfm3_sb_f3, !f2_gmul, !f3_gmul by auto with word.
  by rewrite !s_box_sub_byte by assumption.
Qed.

Lemma block_shift_sub_rows s : block 16 s -> block 16 (shift_sub_rows s).
Proof.
  intros H. cells s. split; [done|]. run shift_sub_rows. bytes.
Qed.

Lemma block_inv_shift_sub_rows s : block 16 s -> block 16 (inv_shift_sub_rows s).
Proof.
  intros H. cells s. split; [done|]. run inv_shift_sub_rows. bytes.
Qed.

Lemma block_mix_sub_columns s : block 16 s -> block 16 (mix_sub_columns s).
Proof.
  intros H. cells s. split; [done|]. run mix_sub_columns.
  rewrite !gfm2_sb_f2, !gfm3_sb_f3 by assumption. bytes.
Qed.

Lemma inv_shift_sub_rows_inverse s : block 16 s -> inv_shift_sub_rows (shift_sub_rows s) = s.
Proof.
  intros H. cells s. run shift_sub_rows. run inv_shift_sub_rows.
  by rewrite !is_box_s_box by assumption.
Qed.

Lemma block_inv_mix_sub_columns s : block 16 s -> block 16 (inv_mix_sub_columns s).
Proof. intros H. cells s. split; [done|]. run inv_mix_sub_columns. bytes. Qed.

(** The same on the table lookups of the two routines: the four outputs of one
    column [(a, b, c, d)]. *)
Section unmix_tables.
Context (a b c d : Z) (Ha : byte a) (Hb : byte b) (Hc : byte c) (Hd : byte d).
Let m0 := gfm2_sb a ⊕ gfm3_sb b ⊕ s_box c ⊕ s_box d.
Let m1 := s_box a ⊕ gfm2_sb b ⊕ gfm3_sb c ⊕ s_box d.
Let m2 := s_box a ⊕ s_box b ⊕ gfm2_sb c ⊕ gfm3_sb d.
Let m3 := gfm3_sb a ⊕ s_box b ⊕ s_box c ⊕ gfm2_sb d.

Local Ltac solve_row L :=
  unfold m0, m1, m2, m3; rewrite !gfm2_sb_f2, !gfm3_sb_f3 by assumption;
  rewrite gfm_e_fe, gfm_b_fb, gfm_d_fd, gfm_9_f9 by auto 12 with word;
  rewrite L by auto with word; by apply is_box_s_box.

Lemma unmix_row0 : is_box (gfm_e m0 ⊕ gfm_b m1 ⊕ gfm_d m2 ⊕ gfm_9 m3) = a.
Proof. solve_row unmix. Qed.
Lemma unmix_row1 : is_box (gfm_9 m0 ⊕ gfm_e m1 ⊕ gfm_b m2 ⊕ gfm_d m3) = b.
Proof. solve_row unmix1. Qed.
Lemma unmix_row2 : is_box (gfm_d m0 ⊕ gfm_9 m1 ⊕ gfm_e m2 ⊕ gfm_b m3) = c.
Proof. solve_row unmix2. Qed.
Lemma unmix_row3 : is_box (gfm_b m0 ⊕ gfm_d m1 ⊕ gfm_9 m2 ⊕ gfm_e m3) = d.
Proof. solve_row unmix3. Qed.
End unmix_tables.

Lemma inv_mix_sub_columns_inverse s : block 16 s -> inv_mix_sub_columns (mix_sub_columns s) = s.
Proof.
  intros H. cells s. run mix_sub_columns. run inv_mix_sub_columns.
  by rewrite !unmix_row0, !unmix_row1, !unmix_row2, !unmix_row3 by assumption.
Qed.
#[export] Hint Resolve block_shift_sub_rows block_inv_shift_sub_rows block_mix_sub_columns
  block_inv_mix_sub_columns : word.

(** ** The two configurations of the S-box *)

Lemma byte_some (f : Z -> option Z) (g : Z -> Z) :
  forallb (fun x => bool_decide (f x = Some (g x))) (seqZ 0 256) = true ->
  forall x, byte x -> f x = Some (g x).
Proof.
  intros H x Hx. eapply bool_decide_eq_true.
  exact (forall_byte (fun x => bool_decide (f x = Some (g x))) H x Hx).
Qed.

(** The configuration with tables and the one that computes the S-boxes agree
    on every byte: the Euclidean inversion [gf_inv] terminates and the affine maps
    give the table entries, forward and inverse, and the entries are FIPS-197's. *)
Theorem s_box_tables_computed (x : Z) : byte x ->
  s_box_computed x = Some (s_box x) /\ is_box_computed x = Some (is_box x) /\
  s_box x = sub_byte x /\ is_box (s_box x) = x.
Proof.
  intros Hx. split_and!; [| |by apply s_box_sub_byte|by apply is_box_s_box].
  - apply (byte_some s_box_computed s_box); [vm_compute; reflexivity|done].
  - apply (byte_some is_box_computed is_box); [vm_compute; reflexivity|done].
Qed.

Lemma s_box_tables_computed_witness : s_box_computed 0x53 = Some 0xed.
Proof. refine (proj1 (s_box_tables_computed 0x53 _)). by_decide. Defined.
