(* ===== verification/AesSpec.v ===== *)
(** * AES: key schedules and modes

    The prekeyed cipher computes FIPS-197, decryption inverts encryption block by
    block and in CBC mode, and the on-the-fly routines agree with the prekeyed
    ones.  The lemmas on single rounds are in [AesRound.v]. *)

From stdpp Require Import base list.
From Stdlib Require Import ZArith Lia.
From S2P Require Import Prelude Aes AesRound.

Open Scope Z_scope.

Import Fips197.

Local Infix "⊕" := Z.lxor (at level 50, left associativity).

(** ** Prekeyed encryption and decryption *)

(** A context whose key schedule covers its rounds. *)
Definition ctx_ok (ctx : aes_context) : Prop :=
  (16 * (Z.to_nat (rnd ctx) + 1) <= length (ksch ctx))%nat /\ Forall byte (ksch ctx) /\
  0 <= rnd ctx.

#[export] Instance ctx_ok_dec ctx : Decision (ctx_ok ctx).
Proof. unfold ctx_ok. apply _. Defined.

(** The round key [r], as a block. *)
Definition rk (ks : list Z) (r : nat) : list Z := take 16 (round_key ks r).

Lemma block_rk ks r : Forall byte ks -> (16 * (r + 1) <= length ks)%nat -> block 16 (rk ks r).
Proof.
  intros F L. unfold rk, round_key, N_BLOCK. split.
  - rewrite length_take, length_drop. lia.
  - by apply Forall_take, Forall_drop.
Qed.

Lemma add_round_key_rk ks r s : Forall byte ks -> (16 * (r + 1) <= length ks)%nat ->
  block 16 s -> add_round_key s (round_key ks r) = xorl s (rk ks r).
Proof.
  intros F L Hs. apply xor_block_spec; [done| |].
  - unfold round_key, N_BLOCK. rewrite length_drop. lia.
  - by apply (block_rk ks r).
Qed.

Lemma copy_and_key_rk ks r d s : Forall byte ks -> (16 * (r + 1) <= length ks)%nat ->
  length d = 16%nat -> block 16 s -> copy_and_key d s (round_key ks r) = xorl s (rk ks r).
Proof.
  intros F L Hd [Hs Fs]. rewrite copy_and_key_spec; try lia.
  - by rewrite firstn_all2 by lia.
  - unfold round_key, N_BLOCK. rewrite length_drop. lia.
  - by apply Forall_take.
  - by apply (block_rk ks r).
Qed.

(** [aes_encrypt] and [aes_decrypt] as folds over the round keys. *)
Definition enc_round (ks : list Z) (s : list Z) (r : nat) : list Z :=
  xorl (mix_sub_columns s) (rk ks r).
Definition dec_round (ks : list Z) (s : list Z) (r : nat) : list Z :=
  inv_mix_sub_columns (xorl s (rk ks r)).

Lemma aes_encrypt_fold inp out ctx :
  ctx_ok ctx -> rnd ctx <> 0 -> block 16 inp -> length out = 16%nat ->
  let n := Z.to_nat (rnd ctx) in let ks := ksch ctx in
  let s := fold_left (enc_round ks) (seq 1 (n - 1)) (xorl inp (rk ks 0)) in
  aes_encrypt inp out ctx = (0, xorl (shift_sub_rows s) (rk ks n)) /\ block 16 s.
Proof.
  intros (L & F & R) Hr Hi Ho n ks s. unfold aes_encrypt. zcmp; [done|]. fold n ks.
  assert (Hs0 : copy_and_key (replicate N_BLOCK 0) inp ks = xorl inp (rk ks 0)).
  { apply (copy_and_key_rk ks 0); try done. fold ks in L. lia. }
  assert (block 16 (xorl inp (rk ks 0))).
  { apply block_xorl; [done|]. apply block_rk; [done|]. fold ks in L. lia. }
  rewrite Hs0.
  edestruct (fold_left_inv (block 16)
    (fun s1 r => add_round_key (mix_sub_columns s1) (round_key ks r)) (enc_round ks)
    (seq 1 (n - 1))) as [-> Hs]; [done| |].
  - intros s1 r Hrr Hs1. apply elem_of_seq in Hrr. unfold enc_round. fold n ks in L.
    rewrite add_round_key_rk by (auto with word; lia). split; [done|].
    apply block_xorl; auto with word. apply block_rk; [done|lia].
  - fold s in Hs |- *. split; [|done].
    by rewrite copy_and_key_rk by (auto with word; fold n ks in L; lia).
Qed.

Lemma aes_decrypt_fold inp out ctx :
  ctx_ok ctx -> rnd ctx <> 0 -> block 16 inp -> length out = 16%nat ->
  let n := Z.to_nat (rnd ctx) in let ks := ksch ctx in
  let s := fold_left (dec_round ks) (rev (seq 1 (n - 1)))
             (inv_shift_sub_rows (xorl inp (rk ks n))) in
  aes_decrypt inp out ctx = (0, xorl s (rk ks 0)) /\ block 16 s.
Proof.
  intros (L & F & R) Hr Hi Ho n ks s. unfold aes_decrypt. zcmp; [done|]. fold n ks.
  fold n ks in L.
  assert (block 16 (inv_shift_sub_rows (xorl inp (rk ks n)))).
  { apply block_inv_shift_sub_rows, block_xorl; [done|]. apply block_rk; [done|]. lia. }
  rewrite copy_and_key_rk by (done || lia).
  edestruct (fold_left_inv (block 16)
    (fun s1 r => inv_mix_sub_columns (add_round_key s1 (round_key ks r))) (dec_round ks)
    (rev (seq 1 (n - 1)))) as [-> Hs]; [done| |].
  - intros s1 r Hrr Hs1. rewrite list_elem_of_In, <- in_rev, <- list_elem_of_In, elem_of_seq in Hrr.
    unfold dec_round. rewrite add_round_key_rk by (auto with word; lia). split; [done|].
    apply block_inv_mix_sub_columns, block_xorl; auto with word. apply block_rk; [done|lia].
  - fold s in Hs |- *. split; [|done]. f_equal. apply (copy_and_key_rk ks 0); try done. lia.
Qed.

Lemma dec_round_enc_round ks s r : block 16 s -> block 16 (rk ks r) ->
  dec_round ks (enc_round ks s r) r = s.
Proof.
  intros Hs Hk. unfold dec_round, enc_round.
  rewrite xorl_cancel; [by apply inv_mix_sub_columns_inverse|].
  destruct (block_mix_sub_columns s Hs) as [-> _], Hk as [-> _]. done.
Qed.

Lemma aes_roundtrip inp out1 out2 ctx :
  ctx_ok ctx -> rnd ctx <> 0 -> block 16 inp -> length out1 = 16%nat -> length out2 = 16%nat ->
  exists c, aes_encrypt inp out1 ctx = (0, c) /\ block 16 c /\ aes_decrypt c out2 ctx = (0, inp).
Proof.
  intros Hc Hr Hi H1 H2. destruct (aes_encrypt_fold inp out1 ctx) as [He Hb]; try done.
  set (n := Z.to_nat (rnd ctx)) in *. set (ks := ksch ctx) in *.
  set (s := fold_left (enc_round ks) _ _) in *.
  pose proof Hc as (L & F & R). fold n ks in L.
  assert (Hk : forall r, (r <= n)%nat -> block 16 (rk ks r)) by (intros; apply block_rk; [done|lia]).
  eexists. split; [exact He|]. split; [auto with word|].
  destruct (aes_decrypt_fold (xorl (shift_sub_rows s) (rk ks n)) out2 ctx Hc Hr
    ltac:(auto with word) H2) as [-> _]. fold n ks. f_equal.
  assert (Hl : length (shift_sub_rows s) = 16%nat) by (by apply block_shift_sub_rows).
  rewrite xorl_cancel by (rewrite Hl, (proj1 (Hk n ltac:(lia))); lia).
  rewrite inv_shift_sub_rows_inverse by done. unfold s.
  rewrite (fold_left_undo (block 16)); [|apply block_xorl; [done|apply Hk; lia]|].
  - rewrite xorl_cancel; [done|]. rewrite (proj1 Hi), (proj1 (Hk 0%nat ltac:(lia))). lia.
  - intros s1 r Hrr Hs1. apply elem_of_seq in Hrr. split.
    + apply block_xorl; [auto with word|apply Hk; lia].
    + apply dec_round_enc_round; [done|apply Hk; lia].
Qed.

(** ** Key schedule *)

Lemma take4_drop (w : list Z) (n : nat) : (n + 4 <= length w)%nat ->
  take 4 (drop n w) = [w.[n]; w.[n + 1]; w.[n + 2]; w.[n + 3]].
Proof.
  revert w. induction n as [|n IH]; intros w H.
  - do 4 (destruct w as [|? w]; [cbn in H; lia|]). done.
  - destruct w as [|x w]; cbn in H; [lia|]. cbn [drop]. rewrite IH by lia. done.
Qed.

Lemma rd_app_l (a b : list Z) n : (n < length a)%nat -> (a ++ b).[n] = a.[n].
Proof. apply app_nth1. Qed.

Lemma byte_rd (l : list Z) n : Forall byte l -> byte l.[n].
Proof.
  intros F. unfold rd. destruct (decide (n < length l)%nat) as [H|H].
  - rewrite Forall_forall in F. apply F, list_elem_of_In, nth_In, H.
  - rewrite nth_overflow by lia. by_decide.
Qed.

Lemma byte_Rcon j : byte (Rcon j).
Proof.
  induction j as [|j IH]; [by_decide|]. cbn [Rcon]. rewrite <- f2_xtime by done. auto with word.
Qed.
#[export] Hint Resolve byte_rd byte_Rcon : word.

(** The round constant the code holds when the next word is [i]. *)
Definition rc_at (Nk i : nat) : Z := Rcon ((i + Nk - 1) / Nk - 1).

Lemma rc_at_step (Nk i : nat) : (0 < Nk <= i)%nat ->
  rc_at Nk (S i) = if (i mod Nk =? 0)%nat then xtime (rc_at Nk i) else rc_at Nk i.
Proof.
  intros [H1 H2]. unfold rc_at.
  pose proof (Nat.div_mod i Nk ltac:(lia)) as E. pose proof (Nat.mod_upper_bound i Nk ltac:(lia)).
  set (q := (i / Nk)%nat) in *. set (m := (i mod Nk)%nat) in *.
  assert (q <> 0)%nat by (intros ->; lia).
  assert ((S i + Nk - 1) / Nk = S q)%nat as -> by (symmetry; apply (Nat.div_unique _ _ _ m); lia).
  destruct (Nat.eqb_spec m 0) as [Hm|Hm].
  - assert ((i + Nk - 1) / Nk = q)%nat as ->
      by (symmetry; apply (Nat.div_unique _ _ _ (Nk - 1)); lia).
    change (xtime (Rcon (q - 1))) with (Rcon (S (q - 1))). f_equal. lia.
  - assert ((i + Nk - 1) / Nk = S q)%nat as ->; [|done].
    symmetry. apply (Nat.div_unique _ _ _ (m - 1)); lia.
Qed.

Lemma rc_at_multiple (Nk i : nat) : (0 < Nk)%nat -> (i mod Nk = 0)%nat ->
  rc_at Nk i = Rcon (i / Nk - 1).
Proof.
  intros H1 H2. unfold rc_at. pose proof (Nat.div_mod i Nk ltac:(lia)) as E. do 2 f_equal.
  symmetry. apply (Nat.div_unique _ _ _ (Nk - 1)); lia.
Qed.

Lemma div4 (w : list Z) i : length w = (4 * i)%nat -> (length w / 4)%nat = i.
Proof. intros ->. rewrite Nat.mul_comm. by apply Nat.div_mul. Qed.

Lemma SubWord_RotWord4 a b c d :
  SubWord (RotWord [a; b; c; d]) = [sub_byte b; sub_byte c; sub_byte d; sub_byte a].
Proof. done. Qed.
Lemma SubWord4 a b c d : SubWord [a; b; c; d] = [sub_byte a; sub_byte b; sub_byte c; sub_byte d].
Proof. done. Qed.
Lemma xorl4 a b c d a' b' c' d' :
  xorl [a; b; c; d] [a'; b'; c'; d'] = [a ⊕ a'; b ⊕ b'; c ⊕ c'; d ⊕ d'].
Proof. done. Qed.
Lemma byte_0 : byte 0.
Proof. by_decide. Qed.
#[export] Hint Resolve byte_0 : word.

Lemma next_word_block (Nk i : nat) (w : list Z) :
  length w = (4 * i)%nat -> (0 < Nk <= i)%nat -> Forall byte w -> block 4 (next_word Nk w).
Proof.
  intros L H F. unfold next_word, word. rewrite (div4 w i L).
  rewrite !take4_drop by lia.
  destruct (_ =? 0)%nat; [|destruct (_ && _)]; rewrite ?SubWord_RotWord4, ?SubWord4, !xorl4;
    rewrite <- ?s_box_sub_byte by auto with word; (split; [done|]); bytes.
Qed.

Lemma set_key_step_spec (Nk i : nat) (w tl : list Z) (t0 t1 t2 t3 : Z) :
  length w = (4 * i)%nat -> (0 < Nk <= i)%nat -> Forall byte w ->
  set_key_step (4 * Nk) (w ++ t0 :: t1 :: t2 :: t3 :: tl, rc_at Nk i) (4 * i) =
  ((w ++ next_word Nk w) ++ tl, rc_at Nk (S i)).
Proof.
  intros L H F. rewrite rc_at_step by done.
  assert (Hrc : (i mod Nk =? 0)%nat = true -> rc_at Nk i = Rcon (i / Nk - 1)).
  { intros E%Nat.eqb_eq. apply rc_at_multiple; lia. }
  unfold next_word, word. rewrite (div4 w i L).
  rewrite !take4_drop by lia.
  unfold set_key_step.
  assert (Hmod : ((4 * i) mod (4 * Nk) = 4 * (i mod Nk))%nat) by apply Nat.Div0.mul_mod_distr_l.
  rewrite Hmod.
  replace (4 * (i mod Nk) =? 0)%nat with (i mod Nk =? 0)%nat
    by (destruct (Nat.eqb_spec (i mod Nk) 0), (Nat.eqb_spec (4 * (i mod Nk)) 0); lia).
  replace (4 * (i mod Nk) =? 16)%nat with (i mod Nk =? 4)%nat
    by (destruct (Nat.eqb_spec (i mod Nk) 4), (Nat.eqb_spec (4 * (i mod Nk)) 16); lia).
  replace (24 <? 4 * Nk)%nat with (6 <? Nk)%nat
    by (destruct (Nat.ltb_spec 6 Nk), (Nat.ltb_spec 24 (4 * Nk)); lia).
  replace (4 * i - 3)%nat with (4 * (i - 1) + 1)%nat by lia.
  replace (4 * i - 2)%nat with (4 * (i - 1) + 2)%nat by lia.
  replace (4 * i - 1)%nat with (4 * (i - 1) + 3)%nat by lia.
  replace (4 * i - 4)%nat with (4 * (i - 1))%nat by lia.
  replace (4 * i - 4 * Nk)%nat with (4 * (i - Nk))%nat by lia.
  rewrite (Nat.add_0_r (4 * (i - Nk))), !rd_app_l by lia. rewrite <- L.
  rewrite ?s_box_sub_byte by auto with word.
  assert (Hx : u8 (f2 (rc_at Nk i)) = xtime (rc_at Nk i)).
  { rewrite wrap_small by (unfold rc_at; auto with word). by rewrite f2_xtime by (apply byte_Rcon). }
  destruct (i mod Nk =? 0)%nat; [|destruct ((6 <? Nk) && (i mod Nk =? 4))%nat];
    rewrite ?insert_app_r, ?(rd_app_l w) by lia; cbn [insert list_insert];
    rewrite ?Hx, ?SubWord_RotWord4, ?SubWord4, !xorl4, <- app_assoc; try done.
  rewrite Hrc, !Z.lxor_0_r by done. done.
Qed.

Lemma set_key_loop (Nk n : nat) : forall (i : nat) (w tl : list Z),
  length w = (4 * i)%nat -> (0 < Nk <= i)%nat -> Forall byte w -> (4 * n <= length tl)%nat ->
  fold_left (set_key_step (4 * Nk)) (map (fun j => 4 * j)%nat (seq i n)) (w ++ tl, rc_at Nk i) =
    (expand Nk n w ++ drop (4 * n) tl, rc_at Nk (i + n)) /\
  length (expand Nk n w) = (4 * (i + n))%nat /\ Forall byte (expand Nk n w).
Proof.
  induction n as [|n IH]; intros i w tl L H F Ht.
  { cbn. rewrite Nat.add_0_r, drop_0. done. }
  do 4 (destruct tl as [|? tl]; [cbn in Ht; lia|]). cbn [length] in Ht.
  cbn [seq map fold_left expand]. rewrite set_key_step_spec by done.
  destruct (next_word_block Nk i w L H F) as [Ln Fn].
  replace (4 * S n)%nat with (S (S (S (S (4 * n))))) by lia. cbn [drop].
  replace (i + S n)%nat with (S i + n)%nat by lia.
  apply IH; [rewrite length_app; lia|lia|by apply Forall_app|lia].
Qed.

(** The key lengths [aes_set_key] accepts: words of the key, and the length as a
    number of bytes or, where it fits a byte, of bits. *)
Inductive key_length : nat -> Z -> Prop :=
| len16 : key_length 4 16 | len128 : key_length 4 128
| len24 : key_length 6 24 | len192 : key_length 6 192
| len32 : key_length 8 32.

Lemma set_key_ccs_seq (Nk : nat) (hi : nat) : hi = (4 * (4 * Nk + 28))%nat ->
  set_key_ccs (4 * Nk) hi = map (fun j => 4 * j)%nat (seq Nk (4 * (Nr Nk + 1) - Nk)).
Proof.
  intros ->. unfold set_key_ccs, Nr.
  replace (4 * (4 * Nk + 28) - 4 * Nk + 3)%nat with (3 + (3 * Nk + 28) * 4)%nat by lia.
  rewrite Nat.div_add by lia. change (3 / 4)%nat with 0%nat.
  replace (4 * (Nk + 6 + 1) - Nk)%nat with (0 + (3 * Nk + 28))%nat by lia.
  cbn [Nat.add]. generalize (3 * Nk + 28)%nat. intros n.
  enough (forall a, map (fun i => 4 * Nk + 4 * i)%nat (seq a n) =
               map (fun j => 4 * j)%nat (seq (Nk + a) n)) as -> by by rewrite Nat.add_0_r.
  induction n as [|n IH]; intros a; [done|]. cbn [seq map]. rewrite IH, Nat.add_succ_r.
  f_equal. lia.
Qed.

(** Every accepted length: the schedule is FIPS-197's, followed by the old
    contents of the rest of the array. *)
Lemma aes_set_key_spec (Nk : nat) (keylen : Z) (key : list Z) (ctx : aes_context) :
  key_length Nk keylen -> block (4 * Nk) key -> length (ksch ctx) = 240%nat ->
  aes_set_key key keylen ctx =
    (0, {| ksch := KeyExpansion Nk key ++ drop (16 * (Nr Nk + 1)) (ksch ctx);
           rnd := Z.of_nat (Nr Nk) |}) /\
  length (KeyExpansion Nk key) = (16 * (Nr Nk + 1))%nat /\ Forall byte (KeyExpansion Nk key).
Proof.
  intros Hk [Lk Fk] Lc.
  assert (HN : (0 < Nk <= 8)%nat) by (destruct Hk; lia).
  destruct (set_key_loop Nk (4 * (Nr Nk + 1) - Nk) Nk key (drop (4 * Nk) (ksch ctx)) Lk)
    as (E & L & F); [lia|done|rewrite length_drop; unfold Nr; lia|].
  fold (KeyExpansion Nk key) in E, L, F. split_and!; [|rewrite L; unfold Nr; lia|done].
  rewrite drop_drop in E. replace (4 * Nk + 4 * (4 * (Nr Nk + 1) - Nk))%nat
    with (16 * (Nr Nk + 1))%nat in E by (unfold Nr; lia).
  assert (Hrc : rc_at Nk Nk = 1) by (destruct Hk; done). rewrite Hrc in E.
  rewrite <- (set_key_ccs_seq Nk _ eq_refl) in E. rewrite <- (firstn_all key), Lk in E at 1.
  set (hi := u8 (Z.shiftl (Z.of_nat (4 * Nk) + 28) 2)).
  assert (Hgo : aes_set_key key keylen ctx =
    (0, {| ksch := fst (fold_left (set_key_step (4 * Nk)) (set_key_ccs (4 * Nk) (Z.to_nat hi))
                          (take (4 * Nk) key ++ drop (4 * Nk) (ksch ctx), 1));
           rnd := u8 (Z.shiftr hi 4 - 1) |})) by (destruct Hk; reflexivity).
  rewrite Hgo. clear Hgo.
  assert (Z.to_nat hi = 4 * (4 * Nk + 28))%nat as -> by (destruct Hk; reflexivity).
  rewrite E. cbn [fst]. do 2 f_equal. unfold hi. destruct Hk; reflexivity.
Qed.

(** The rounds of the code on a byte schedule are FIPS-197's [Cipher]. *)
Lemma aes_encrypt_cipher inp out ctx :
  ctx_ok ctx -> rnd ctx <> 0 -> block 16 inp -> length out = 16%nat ->
  aes_encrypt inp out ctx = (0, Cipher (Z.to_nat (rnd ctx)) (ksch ctx) inp).
Proof.
  intros Hc Hr Hi Ho. destruct (aes_encrypt_fold inp out ctx) as [-> Hs]; try done.
  set (n := Z.to_nat (rnd ctx)) in *. set (ks := ksch ctx) in *. f_equal.
  unfold Cipher.
  assert (Hrk : forall s r, AddRoundKey s ks r = xorl s (rk ks r)).
  { intros. unfold AddRoundKey, rk, round_key, N_BLOCK. by rewrite Nat.mul_comm. }
  rewrite !Hrk.
  destruct Hc as (L & F & R). fold n ks in L.
  edestruct (fold_left_inv (block 16) (enc_round ks)
    (fun s r => AddRoundKey (MixColumns (ShiftRows (SubBytes s))) ks r) (seq 1 (n - 1)))
    as [E _]; [| |rewrite <- E, shift_sub_rows_spec by done; done].
  - apply block_xorl; [done|]. apply block_rk; [done|lia].
  - intros s r Hrr Hsr. apply elem_of_seq in Hrr. rewrite Hrk. unfold enc_round.
    rewrite <- mix_sub_columns_spec by done. split; [done|].
    apply block_xorl; [auto with word|]. apply block_rk; [done|lia].
Qed.

(** [Cipher] reads only the schedule of its rounds. *)
Lemma Cipher_app Nr w tl inp : length w = (16 * (Nr + 1))%nat -> Nr <> 0%nat ->
  Cipher Nr (w ++ tl) inp = Cipher Nr w inp.
Proof.
  intros L HN. unfold Cipher.
  assert (H : forall s r, (r <= Nr)%nat -> AddRoundKey s (w ++ tl) r = AddRoundKey s w r).
  { intros s r Hr. unfold AddRoundKey. f_equal.
    rewrite drop_app_le, take_app_le; [done|rewrite length_drop; lia|lia]. }
  rewrite !H by lia. do 3 f_equal.
  apply (proj1 (fold_left_inv (fun _ => True)
    (fun s r => AddRoundKey (MixColumns (ShiftRows (SubBytes s))) (w ++ tl) r)
    (fun s r => AddRoundKey (MixColumns (ShiftRows (SubBytes s))) w r) (seq 1 (Nr - 1)) _ I
    (fun s r Hr _ => conj (H _ r ltac:(apply elem_of_seq in Hr; lia)) I))).
Qed.

(** Setting a key and encrypting, for any contents of the context before. *)
Lemma aes_set_key_encrypt (Nk : nat) (keylen : Z) (key inp out : list Z) (ctx : aes_context) :
  key_length Nk keylen -> block (4 * Nk) key -> block 16 inp ->
  length (ksch ctx) = 240%nat -> Forall byte (ksch ctx) -> length out = 16%nat ->
  fst (aes_set_key key keylen ctx) = 0 /\
  aes_encrypt inp out (snd (aes_set_key key keylen ctx)) = (0, Encrypt Nk key inp) /\
  block 16 (Encrypt Nk key inp).
Proof.
  intros Hk Hkey Hi Lc Fc Lo.
  destruct (aes_set_key_spec Nk keylen key ctx Hk Hkey Lc) as (-> & L & F). split; [done|].
  cbn [snd]. assert (Nr Nk <> 0)%nat by (unfold Nr; lia).
  set (c := {| ksch := _; rnd := _ |}).
  assert (Hc : ctx_ok c).
  { split_and!; cbn [c ksch rnd]; [rewrite Nat2Z.id, length_app; lia| |lia].
    apply Forall_app. split; [done|by apply Forall_drop]. }
  assert (Hr : rnd c <> 0) by (cbn [c rnd]; lia).
  assert (E : aes_encrypt inp out c = (0, Encrypt Nk key inp)).
  { rewrite aes_encrypt_cipher by done. cbn [c ksch rnd]. by rewrite Nat2Z.id, Cipher_app by done. }
  split; [done|].
  destruct (aes_roundtrip inp out out c Hc Hr Hi Lo Lo) as (x & Hx & Hb & _).
  rewrite Hx in E. by injection E as <-.
Qed.

(** ** Theorems on the prekeyed cipher *)

(** C15: setting a key of any accepted length (16, 24 or 32 bytes, or 128 or 192
    bits) and encrypting a block yields FIPS-197's [Encrypt]: the byte-wise
    table-driven rounds and the in-place key expansion compute the standard, and
    both calls report success. *)
Theorem aes_encrypt_fips197 (Nk : nat) (keylen : Z) (key inp out : list Z) (ctx : aes_context) :
  key_length Nk keylen -> block (4 * Nk) key -> block 16 inp ->
  length (ksch ctx) = 240%nat -> Forall byte (ksch ctx) -> length out = 16%nat ->
  fst (aes_set_key key keylen ctx) = 0 /\
  aes_encrypt inp out (snd (aes_set_key key keylen ctx)) = (0, Encrypt Nk key inp).
Proof.
  intros. destruct (aes_set_key_encrypt Nk keylen key inp out ctx) as (? & ? & ?); done.
Qed.

(** C32: for every context whose schedule covers its rounds, [aes_decrypt] of the
    output of [aes_encrypt] is the plaintext and both report success; on a context
    with no key ([rnd = 0], as a failed [aes_set_key] leaves it) both fail and
    leave [out] as it was. *)
Theorem aes_decrypt_encrypt (inp out1 out2 : list Z) (ctx : aes_context) :
  ctx_ok ctx -> block 16 inp -> length out1 = 16%nat -> length out2 = 16%nat ->
  if rnd ctx =? 0
  then aes_encrypt inp out1 ctx = (RETURN_ERROR, out1) /\
       aes_decrypt inp out2 ctx = (RETURN_ERROR, out2)
  else exists c, aes_encrypt inp out1 ctx = (0, c) /\ block 16 c /\
                 aes_decrypt c out2 ctx = (0, inp).
Proof.
  intros Hc Hi H1 H2. destruct (Z.eqb_spec (rnd ctx) 0) as [E|E].
  - unfold aes_encrypt, aes_decrypt. by rewrite E.
  - by apply aes_roundtrip.
Qed.

(** The example vectors of FIPS-197, Appendix C. *)
Definition fips_key (n : nat) : list Z := seqZ 0 (Z.of_nat n).
Definition fips_plain : list Z := map (fun i => 0x11 * i) (seqZ 0 16).
Definition fips_cipher : list Z :=
  [0x69; 0xc4; 0xe0; 0xd8; 0x6a; 0x7b; 0x04; 0x30; 0xd8; 0xcd; 0xb7; 0x80; 0x70; 0xb4; 0xc5; 0x5a].
Definition ctx0 : aes_context := {| ksch := replicate 240 0; rnd := 0 |}.

Example aes_encrypt_vector :
  aes_encrypt fips_plain (replicate 16 0) (snd (aes_set_key (fips_key 16) 128 ctx0)) =
    (0, fips_cipher).
Proof. vm_compute. reflexivity. Qed.

Lemma aes_encrypt_fips197_witness :
  aes_encrypt fips_plain (replicate 16 0) (snd (aes_set_key (fips_key 16) 128 ctx0)) =
    (0, Encrypt 4 (fips_key 16) fips_plain).
Proof.
  refine (proj2 (aes_encrypt_fips197 4 128 (fips_key 16) fips_plain (replicate 16 0) ctx0
    len128 _ _ _ _ _)); by_decide.
Defined.

Lemma aes_decrypt_encrypt_witness :
  exists c, aes_encrypt fips_plain (replicate 16 0) {| ksch := replicate 240 7; rnd := 3 |} = (0, c) /\
    block 16 c /\ aes_decrypt c (replicate 16 0) {| ksch := replicate 240 7; rnd := 3 |} = (0, fips_plain).
Proof.
  refine (aes_decrypt_encrypt fips_plain (replicate 16 0) (replicate 16 0)
    {| ksch := replicate 240 7; rnd := 3 |} _ _ _ _); by_decide.
Defined.

(** ** CBC mode *)

(** [aes_decrypt] reads 16 bytes. *)
Lemma aes_decrypt_app c tl out ctx : length c = 16%nat ->
  aes_decrypt (c ++ tl) out ctx = aes_decrypt c out ctx.
Proof.
  intros L. unfold aes_decrypt.
  assert (forall d k, copy_and_key d (c ++ tl) k = copy_and_key d c k) as H by (expose c; done).
  by rewrite H.
Qed.

(** The last 16 bytes of [iv ++ c]. *)
Definition last_block (iv c : list Z) : list Z := drop (length c) (iv ++ c).

Lemma last_block_app iv c cs : length iv = 16%nat -> length c = 16%nat ->
  last_block iv (c ++ cs) = last_block c cs.
Proof.
  intros Lv Lc. unfold last_block. rewrite length_app, Lc, <- Lv.
  rewrite <- drop_drop, drop_app_length. done.
Qed.

(** Removing the mask of a CBC step. *)
Lemma cbc_unmask iv inp : block 16 iv -> block 16 (take 16 inp) ->
  xor_block (xorl iv (take 16 inp)) iv = take 16 inp.
Proof.
  intros Hv Hb. pose proof Hv as [Lv Fv]. pose proof Hb as [Lb Fb].
  rewrite xor_block_spec; [|auto with word|lia|by apply Forall_take].
  rewrite (firstn_all2 iv) by lia. rewrite (xorl_comm iv). by apply xorl_cancel; lia.
Qed.

Lemma aes_cbc_roundtrip (ctx : aes_context) (n : nat) : ctx_ok ctx -> rnd ctx <> 0 ->
  forall inp iv, block (16 * n) inp -> block 16 iv ->
  exists c iv', aes_cbc_encrypt inp n iv ctx = (EXIT_SUCCESS, c, iv') /\ block (16 * n) c /\
    iv' = last_block iv c /\ aes_cbc_decrypt c n iv ctx = (EXIT_SUCCESS, inp, iv').
Proof.
  intros Hc Hr. induction n as [|n IH]; intros inp iv Hi Hv.
  { destruct Hi as [Hi _]. destruct inp; [|done]. eexists [], iv. repeat split; try done. unfold last_block. cbn. by rewrite drop_0, app_nil_r. }
  destruct Hi as [Li Fi].
  assert (Hb : block 16 (take 16 inp)).
  { split; [rewrite length_take; lia|by apply Forall_take]. }
  assert (Hd : block (16 * n) (drop 16 inp)).
  { split; [rewrite length_drop; lia|by apply Forall_drop]. }
  assert (Hx : xor_block iv inp = xorl iv (take 16 inp)) by (apply xor_block_spec; [done|lia|apply Hb]).
  assert (Hxb : block 16 (xorl iv (take 16 inp))) by auto with word.
  destruct (aes_roundtrip (xorl iv (take 16 inp)) (xorl iv (take 16 inp)) (replicate 16 0) ctx)
    as (c & He & Hcb & Hdec); [done|done|done|apply Hxb|done|].
  destruct (IH (drop 16 inp) c Hd Hcb) as (cs & iv' & E1 & [Lcs Fcs] & Hiv' & E2).
  pose proof Hcb as [Lcb Fcb]. exists (c ++ cs), iv'. split_and!.
  - cbn [aes_cbc_encrypt]. rewrite Hx, He. cbv [negb Z.eqb EXIT_SUCCESS N_BLOCK].
    rewrite E1. by rewrite (firstn_all2 c) by lia.
  - split; [rewrite length_app; lia|by apply Forall_app].
  - by rewrite last_block_app by (done || apply Hv).
  - cbn [aes_cbc_decrypt]. rewrite aes_decrypt_app by done.
    change (replicate N_BLOCK 0) with (replicate 16 0). rewrite Hdec.
    cbv [negb Z.eqb EXIT_SUCCESS N_BLOCK].
    rewrite (take_app_length' c), (drop_app_length' c), E2 by lia.
    by rewrite (cbc_unmask iv inp Hv Hb), take_drop.
Qed.

(** CBC decryption inverts CBC encryption for any number of blocks, from the
    same initial vector; both leave in the caller's [iv] the last ciphertext
    block, so that a message may be processed in pieces. *)
Theorem aes_cbc_decrypt_encrypt (ctx : aes_context) (n : nat) (inp iv : list Z) :
  ctx_ok ctx -> rnd ctx <> 0 -> block (16 * n) inp -> block 16 iv ->
  exists c iv', aes_cbc_encrypt inp n iv ctx = (EXIT_SUCCESS, c, iv') /\ block (16 * n) c /\
    iv' = last_block iv c /\ aes_cbc_decrypt c n iv ctx = (EXIT_SUCCESS, inp, iv').
Proof. intros Hc Hr. by apply aes_cbc_roundtrip. Qed.

Lemma aes_cbc_decrypt_encrypt_witness :
  exists c iv', aes_cbc_encrypt (fips_plain ++ fips_key 16) 2 fips_cipher
                  {| ksch := replicate 240 7; rnd := 3 |} = (EXIT_SUCCESS, c, iv') /\
    block 32 c /\ iv' = last_block fips_cipher c /\
    aes_cbc_decrypt c 2 fips_cipher {| ksch := replicate 240 7; rnd := 3 |} =
      (EXIT_SUCCESS, fips_plain ++ fips_key 16, iv').
Proof.
  refine (aes_cbc_decrypt_encrypt {| ksch := replicate 240 7; rnd := 3 |} 2
    (fips_plain ++ fips_key 16) fips_cipher _ _ _ _); by_decide.
Defined.
