(* ===== verification/AesOtf.v ===== *)
(** * AES: on-the-fly key schedules

    [aes_encrypt_128], [aes_decrypt_128], [aes_encrypt_256] and
    [aes_decrypt_256] derive each round key from the previous one.  They compute
    the same cipher as the prekeyed routines, and the key an encryption leaves in
    [o_key] is the one its decryption starts from. *)

From stdpp Require Import base list.
From Stdlib Require Import ZArith Lia.
From S2P Require Import Prelude Aes AesRound AesSpec.

Open Scope Z_scope.

Import Fips197.

Local Infix "⊕" := Z.lxor (at level 50, left associativity).

(** ** The next words of a schedule, from its last [Nk] words *)

Lemma word_app_r pre l j m : length pre = (4 * j)%nat -> word (pre ++ l) (j + m) = word l m.
Proof.
  intros L. unfold word. rewrite Nat.mul_add_distr_l, <- L. by rewrite drop_app_add.
Qed.

(** The next word, as a function of the words [l] since a multiple [j] of [Nk]. *)
Definition next_of (Nk j m : nat) (l : list Z) : list Z :=
  let temp := word l (m - 1) in
  xorl (word l (m - Nk))
    (if (m =? Nk)%nat then xorl (SubWord (RotWord temp)) [Rcon j; 0; 0; 0]
     else if ((6 <? Nk) && (m =? Nk + 4))%nat then SubWord temp else temp).

Lemma next_word_app Nk j m pre l :
  length pre = (4 * (Nk * j))%nat -> length l = (4 * m)%nat -> (0 < Nk <= m)%nat -> (m < 2 * Nk)%nat ->
  next_word Nk (pre ++ l) = next_of Nk j m l.
Proof.
  intros Lp Ll H1 H2. unfold next_word, next_of.
  rewrite (div4 _ (Nk * j + m)%nat) by (rewrite length_app; lia).
  rewrite <- !Nat.add_sub_assoc by lia. rewrite !word_app_r by done.
  assert (Hm : ((Nk * j + m) mod Nk = m - Nk)%nat).
  { symmetry. apply (Nat.mod_unique _ _ (j + 1)); lia. }
  assert (Hd : ((Nk * j + m) / Nk = j + 1)%nat).
  { symmetry. apply (Nat.div_unique _ _ _ (m - Nk)); lia. }
  rewrite Hm, Hd, Nat.add_sub.
  replace (m - Nk =? 0)%nat with (m =? Nk)%nat
    by (destruct (Nat.eqb_spec m Nk), (Nat.eqb_spec (m - Nk) 0); lia).
  replace (m - Nk =? 4)%nat with (m =? Nk + 4)%nat
    by (destruct (Nat.eqb_spec m (Nk + 4)), (Nat.eqb_spec (m - Nk) 4); lia).
  done.
Qed.

Lemma expand_S Nk n w : expand Nk (S n) w = expand Nk n (w ++ next_word Nk w).
Proof. done. Qed.

Lemma expand_add Nk a b w : expand Nk (a + b) w = expand Nk b (expand Nk a w).
Proof. revert w. induction a as [|a IH]; intros w; [done|]. apply IH. Qed.

Lemma expand_prefix Nk n w : exists tl, expand Nk n w = w ++ tl.
Proof.
  revert w. induction n as [|n IH]; intros w; [exists []; by rewrite app_nil_r|].
  destruct (IH (w ++ next_word Nk w)) as [tl E]. rewrite expand_S, E, <- app_assoc. by eexists.
Qed.

(** Evaluate a term on exposed cells, down to the byte operations. *)
Ltac run_bytes t :=
  let r := eval cbv -[Z.lxor s_box sub_byte Rcon xtime f2 d2 wrap] in t in change t with r.

Ltac next_cells :=
  rewrite expand_S;
  match goal with |- context [next_word ?Nk (?pre ++ ?l)] =>
    let m := eval cbv in (length l / 4)%nat in
    match goal with H : length pre = (4 * (Nk * ?j))%nat |- _ =>
      rewrite (next_word_app Nk j m pre l) by (done || lia)
    end
  end;
  match goal with |- context [next_of ?Nk ?j ?m ?l] => run_bytes (next_of Nk j m l) end;
  rewrite <- app_assoc; cbn [app].

Lemma byte_sub_byte x : byte x -> byte (sub_byte x).
Proof. intros. rewrite <- s_box_sub_byte by done. auto with word. Qed.
#[export] Hint Resolve byte_sub_byte : word.

Lemma lxor_cancel a b : a ⊕ b ⊕ b = a.
Proof. by rewrite Z.lxor_assoc, Z.lxor_nilpotent, Z.lxor_0_r. Qed.

(** The exposed cells of a list of [n] bytes. *)
Ltac cells_of n k :=
  match goal with H : block n k |- _ =>
    let L := fresh "L" in let F := fresh "F" in
    destruct H as [L F]; expose k; rewrite ?Forall_cons in F; destruct_and!
  end.

(** ** 128-bit keys *)

Lemma expand4_update (j : nat) (pre k : list Z) : length pre = (4 * (4 * j))%nat -> block 16 k ->
  expand 4 4 (pre ++ k) = (pre ++ k) ++ fst (update_encrypt_key_128 k (Rcon j)).
Proof.
  intros Lp Hk. cells k. do 4 next_cells. cbn [expand].
  match goal with |- context [update_encrypt_key_128 ?k ?rc] =>
    run_bytes (fst (update_encrypt_key_128 k rc)) end.
  rewrite <- app_assoc. cbn [app]. by rewrite !s_box_sub_byte, ?Z.lxor_0_r by done.
Qed.

Lemma block_update_128 k rc : block 16 k -> byte rc -> block 16 (fst (update_encrypt_key_128 k rc)).
Proof.
  intros Hk Hrc. cells k.
  match goal with |- context [update_encrypt_key_128 ?k ?rc] =>
    run_bytes (fst (update_encrypt_key_128 k rc)) end.
  split; [done|]. bytes.
Qed.

Lemma update_decrypt_encrypt_128 k rc : block 16 k -> byte rc ->
  let '(k', rc') := update_encrypt_key_128 k rc in update_decrypt_key_128 k' rc' = (k, rc).
Proof.
  intros Hk Hrc. cells k.
  match goal with |- context [update_encrypt_key_128 ?k ?rc] =>
    run_bytes (update_encrypt_key_128 k rc) end; cbv beta iota.
  match goal with |- context [update_decrypt_key_128 ?k ?rc] =>
    run_bytes (update_decrypt_key_128 k rc) end.
  rewrite (wrap_small 8 (f2 rc)), d2_f2, wrap_small by auto with word.
  by rewrite !lxor_cancel.
Qed.

(** ** 256-bit keys *)

Lemma expand8_update (j : nat) (pre k : list Z) : length pre = (4 * (8 * j))%nat -> block 32 k ->
  expand 8 8 (pre ++ k) = (pre ++ k) ++ fst (update_encrypt_key_256 k (Rcon j)).
Proof.
  intros Lp Hk. cells_of 32%nat k. do 8 next_cells. cbn [expand].
  match goal with |- context [update_encrypt_key_256 ?k ?rc] =>
    run_bytes (fst (update_encrypt_key_256 k rc)) end.
  rewrite <- app_assoc. cbn [app]. by rewrite !s_box_sub_byte, ?Z.lxor_0_r by auto 12 with word.
Qed.

Lemma block_update_256 k rc : block 32 k -> byte rc -> block 32 (fst (update_encrypt_key_256 k rc)).
Proof.
  intros Hk Hrc. cells_of 32%nat k.
  match goal with |- context [update_encrypt_key_256 ?k ?rc] =>
    run_bytes (fst (update_encrypt_key_256 k rc)) end.
  split; [done|]. bytes.
Qed.

Lemma update_decrypt_encrypt_256 k rc : block 32 k -> byte rc ->
  let '(k', rc') := update_encrypt_key_256 k rc in update_decrypt_key_256 k' rc' = (k, rc).
Proof.
  intros Hk Hrc. cells_of 32%nat k.
  match goal with |- context [update_encrypt_key_256 ?k ?rc] =>
    run_bytes (update_encrypt_key_256 k rc) end; cbv beta iota.
  match goal with |- context [update_decrypt_key_256 ?k ?rc] =>
    run_bytes (update_decrypt_key_256 k rc) end.
  rewrite (wrap_small 8 (f2 rc)), d2_f2, wrap_small by auto with word.
  by rewrite !lxor_cancel.
Qed.

(** ** The sequence of keys

    For a key of [Nk] words and its update routines, the successive contents of
    [o_key] are the consecutive [Nk]-word pieces of the FIPS-197 expansion. *)
Section key_sequence.
Context (Nk : nat) (upd updd : list Z -> Z -> list Z * Z) (key : list Z).
Context (HNk : (0 < Nk)%nat) (Hkey : block (4 * Nk) key).
Context (Hrc : forall k rc, snd (upd k rc) = u8 (f2 rc)).
Context (Hblock : forall k rc, block (4 * Nk) k -> byte rc -> block (4 * Nk) (fst (upd k rc))).
Context (Hexp : forall j pre k, length pre = (4 * (Nk * j))%nat -> block (4 * Nk) k ->
  expand Nk Nk (pre ++ k) = (pre ++ k) ++ fst (upd k (Rcon j))).
Context (Hinv : forall k rc, block (4 * Nk) k -> byte rc ->
  let '(k', rc') := upd k rc in updd k' rc' = (k, rc)).

Fixpoint okey (r : nat) : list Z * Z :=
  match r with O => (key, 1) | S r => let '(k, rc) := okey r in upd k rc end.

Lemma okey_spec r : block (4 * Nk) (fst (okey r)) /\ snd (okey r) = Rcon r /\
  exists pre, length pre = (4 * (Nk * r))%nat /\ expand Nk (Nk * r) key = pre ++ fst (okey r).
Proof.
  induction r as [|r (B & R & pre & L & E)].
  { split_and!; [done|done|]. exists []. rewrite Nat.mul_0_r. done. }
  cbn [okey]. destruct (okey r) as [k rc] eqn:Eo. cbn [fst snd] in *. subst rc.
  split_and!.
  - apply Hblock; auto with word.
  - rewrite Hrc, wrap_small by auto with word. by rewrite f2_xtime by auto with word.
  - exists (pre ++ k). split; [rewrite length_app, (proj1 B); lia|].
    rewrite Nat.mul_succ_r, expand_add, E. by apply Hexp.
Qed.

Lemma okey_block r : block (4 * Nk) (fst (okey r)).
Proof. apply okey_spec. Qed.

(** A piece of a longer expansion. *)
Lemma okey_drop r R : (r <= R)%nat ->
  exists tl, drop (4 * Nk * r) (expand Nk (Nk * R) key) = fst (okey r) ++ tl.
Proof.
  intros H. destruct (okey_spec r) as (_ & _ & pre & L & E).
  replace (Nk * R)%nat with (Nk * r + Nk * (R - r))%nat by nia. rewrite expand_add, E.
  destruct (expand_prefix Nk (Nk * (R - r)) (pre ++ fst (okey r))) as [tl ->].
  exists tl. rewrite <- app_assoc. apply drop_app_length'. lia.
Qed.

Lemma okey_prev r : updd (fst (okey (S r))) (snd (okey (S r))) = okey r.
Proof.
  destruct (okey_spec r) as (B & R & _). cbn [okey]. destruct (okey r) as [k rc]. cbn in B, R.
  subst rc. specialize (Hinv k (Rcon r) B ltac:(auto with word)). by destruct (upd k (Rcon r)).
Qed.
End key_sequence.

Lemma add_round_key_block s k : block 16 s -> (16 <= length k)%nat -> Forall byte k ->
  add_round_key s k = xorl s (take 16 k).
Proof. intros. apply xor_block_spec; [done|done|by apply Forall_take]. Qed.

Lemma copy_and_key_block d s k : length d = 16%nat -> block 16 s -> (16 <= length k)%nat ->
  Forall byte k -> copy_and_key d s k = xorl s (take 16 k).
Proof.
  intros Hd [Ls Fs] Lk Fk. rewrite copy_and_key_spec; [|done|lia|done|by apply Forall_take..].
  by rewrite (firstn_all2 s) by lia.
Qed.

Lemma KeyExpansion_ok Nk keylen key : key_length Nk keylen -> block (4 * Nk) key ->
  ctx_ok {| ksch := KeyExpansion Nk key; rnd := Z.of_nat (Nr Nk) |}.
Proof.
  intros Hl Hk. destruct (aes_set_key_spec Nk keylen key {| ksch := replicate 240 0; rnd := 0 |}
    Hl Hk (length_replicate _ _)) as (_ & L & F).
  split_and!; cbn [ksch rnd]; [rewrite L, Nat2Z.id; lia|exact F|lia].
Qed.

(** ** 128-bit routines *)

Lemma snd_update_128 k rc : snd (update_encrypt_key_128 k rc) = u8 (f2 rc).
Proof. done. Qed.

Section otf_128.
Context (key : list Z) (Hkey : block 16 key).
Let K (r : nat) : list Z := fst (okey update_encrypt_key_128 key r).
Let RC (r : nat) : Z := snd (okey update_encrypt_key_128 key r).
Let ks := KeyExpansion 4 key.

Lemma K128_block r : block 16 (K r).
Proof. exact (okey_block 4 update_encrypt_key_128 key ltac:(lia) Hkey snd_update_128 block_update_128 expand4_update r). Qed.

Lemma K128_rk r : (r <= 10)%nat -> rk ks r = K r.
Proof.
  intros Hr. destruct (okey_drop 4 update_encrypt_key_128 key ltac:(lia) Hkey snd_update_128 block_update_128
    expand4_update r 10 Hr) as [tl E].
  unfold rk, round_key, ks, KeyExpansion, Nr, N_BLOCK. rewrite (Nat.mul_comm r).
  change (4 * (4 + 6 + 1) - 4)%nat with (4 * 10)%nat. change (4 * 4)%nat with 16%nat in E.
  rewrite E. apply take_app_length'. by rewrite (proj1 (K128_block r)).
Qed.

Lemma K128_next r : update_encrypt_key_128 (K r) (RC r) = (K (S r), RC (S r)).
Proof. unfold K, RC. cbn [okey]. destruct (okey _ key r). apply surjective_pairing. Qed.

Lemma K128_prev r : update_decrypt_key_128 (K (S r)) (RC (S r)) = (K r, RC r).
Proof.
  unfold K, RC. rewrite (okey_prev 4 update_encrypt_key_128 update_decrypt_key_128 key ltac:(lia) Hkey
    snd_update_128 block_update_128 expand4_update update_decrypt_encrypt_128).
  apply surjective_pairing.
Qed.

Lemma add_K128 s r : (r <= 10)%nat -> block 16 s -> add_round_key s (K r) = xorl s (rk ks r).
Proof.
  intros Hr Hs. destruct (K128_block r) as [L F].
  rewrite add_round_key_block, firstn_all2, K128_rk by (done || lia). done.
Qed.

Lemma encrypt_128_rounds n : forall r s, (r + n <= 10)%nat -> block 16 s ->
  fold_left encrypt_128_round (seq (S r) n) (s, K r, RC r) =
    (fold_left (enc_round ks) (seq (S r) n) s, K (r + n), RC (r + n)) /\
  block 16 (fold_left (enc_round ks) (seq (S r) n) s).
Proof.
  induction n as [|n IH]; intros r s Hr Hs; [by rewrite Nat.add_0_r|].
  cbn [seq fold_left]. unfold encrypt_128_round at 2. rewrite K128_next.
  rewrite add_K128 by (auto with word; lia). rewrite Nat.add_succ_r.
  apply (IH (S r)); [lia|]. unfold enc_round. rewrite K128_rk by lia. apply block_xorl; auto using K128_block with word.
Qed.

Lemma decrypt_128_rounds n : forall s, (n <= 9)%nat -> block 16 s ->
  fold_left decrypt_128_round (rev (seq 1 n)) (s, K (S n), RC (S n)) =
    (fold_left (dec_round ks) (rev (seq 1 n)) s, K 1, RC 1) /\
  block 16 (fold_left (dec_round ks) (rev (seq 1 n)) s).
Proof.
  induction n as [|n IH]; intros s Hr Hs; [done|].
  rewrite seq_S, rev_app_distr. cbn [rev app fold_left Nat.add].
  unfold decrypt_128_round at 2. rewrite K128_prev, add_K128 by (done || lia).
  apply IH; [lia|]. unfold dec_round. rewrite K128_rk by lia.
  apply block_inv_mix_sub_columns, block_xorl; auto using K128_block.
Qed.
(** The prekeyed context with the same key. *)
Let ctx : aes_context := {| ksch := ks; rnd := Z.of_nat (Nr 4) |}.

Lemma copy_K128 s r : (r <= 10)%nat -> block 16 s ->
  copy_and_key (replicate N_BLOCK 0) s (K r) = xorl s (rk ks r).
Proof.
  intros Hr Hs. destruct (K128_block r) as [L F].
  rewrite copy_and_key_block, firstn_all2, K128_rk by (done || lia). done.
Qed.

Lemma block_xor_rk128 s r : (r <= 10)%nat -> block 16 s -> block 16 (xorl s (rk ks r)).
Proof. intros Hr Hs. rewrite K128_rk by lia. apply block_xorl; auto using K128_block. Qed.

Lemma aes_encrypt_128_prekeyed inp : block 16 inp ->
  aes_encrypt_128 inp key = (snd (aes_encrypt inp (replicate 16 0) ctx), K 10).
Proof.
  intros Hi.
  destruct (aes_encrypt_fold inp (replicate 16 0) ctx (KeyExpansion_ok 4 16 key len16 Hkey)
    ltac:(done) Hi (length_replicate _ _)) as [-> Hb].
  change (Z.to_nat (rnd ctx)) with 10%nat. change (ksch ctx) with ks. cbn [snd].
  unfold aes_encrypt_128.
  rewrite (copy_K128 inp 0 ltac:(lia) Hi : copy_and_key _ inp key = _).
  destruct (encrypt_128_rounds 9 0 (xorl inp (rk ks 0))) as [E Hs];
    [lia|by apply block_xor_rk128; [lia|]|].
  change (K 0) with key in E. change (RC 0) with 1 in E. rewrite E.
  cbn [Nat.add]. rewrite K128_next. by rewrite copy_K128 by (auto with word; lia).
Qed.

Lemma aes_decrypt_128_prekeyed inp : block 16 inp ->
  aes_decrypt_128 inp (K 10) = (snd (aes_decrypt inp (replicate 16 0) ctx), key).
Proof.
  intros Hi.
  destruct (aes_decrypt_fold inp (replicate 16 0) ctx (KeyExpansion_ok 4 16 key len16 Hkey)
    ltac:(done) Hi (length_replicate _ _)) as [-> Hb].
  change (Z.to_nat (rnd ctx)) with 10%nat. change (ksch ctx) with ks. cbn [snd].
  unfold aes_decrypt_128. rewrite (copy_K128 inp 10) by (done || lia).
  assert (Hrc : RC 10 = 0x6c).
  { unfold RC. exact (proj1 (proj2 (okey_spec 4 update_encrypt_key_128 key ltac:(lia) Hkey
      snd_update_128 block_update_128 expand4_update 10))). }
  destruct (decrypt_128_rounds 9 (inv_shift_sub_rows (xorl inp (rk ks 10)))) as [E Hs];
    [lia|by apply block_inv_shift_sub_rows, block_xor_rk128; [lia|]|].
  rewrite Hrc in E. rewrite E, K128_prev, (copy_K128 _ 0 ltac:(lia) Hs). reflexivity.
Qed.
End otf_128.

(** ** 256-bit routines *)

Lemma snd_update_256 k rc : snd (update_encrypt_key_256 k rc) = u8 (f2 rc).
Proof. done. Qed.

Section otf_256.
Context (key : list Z) (Hkey : block 32 key).
Let K (r : nat) : list Z := fst (okey update_encrypt_key_256 key r).
Let RC (r : nat) : Z := snd (okey update_encrypt_key_256 key r).
Let ks := KeyExpansion 8 key.

(** The round key [r]: half [r mod 2] of the [r / 2]-th contents of [o_key]. *)
Let half (r : nat) : list Z := if Nat.odd r then drop 16 (K (Nat.div2 r)) else K (Nat.div2 r).

Lemma K256_block r : block 32 (K r).
Proof.
  exact (okey_block 8 update_encrypt_key_256 key ltac:(lia) Hkey snd_update_256 block_update_256
    expand8_update r).
Qed.

Lemma K256_next r : update_encrypt_key_256 (K r) (RC r) = (K (S r), RC (S r)).
Proof. unfold K, RC. cbn [okey]. destruct (okey _ key r). apply surjective_pairing. Qed.

Lemma K256_prev r : update_decrypt_key_256 (K (S r)) (RC (S r)) = (K r, RC r).
Proof.
  unfold K, RC. rewrite (okey_prev 8 update_encrypt_key_256 update_decrypt_key_256 key ltac:(lia)
    Hkey snd_update_256 block_update_256 expand8_update update_decrypt_encrypt_256).
  apply surjective_pairing.
Qed.

Lemma half_ok r : (16 <= length (half r))%nat /\ Forall byte (half r).
Proof.
  destruct (K256_block (Nat.div2 r)) as [L F]. unfold half.
  destruct (Nat.odd r); split; rewrite ?length_drop; try lia; [by apply Forall_drop|done].
Qed.

(** The prekeyed schedule is 60 words; the seventh update computes 4 more. *)
Lemma K256_rk r : (r <= 14)%nat -> rk ks r = take 16 (half r).
Proof.
  intros Hr.
  assert (Hj : (Nat.div2 r <= 7)%nat) by (rewrite Nat.div2_div; apply Nat.Div0.div_le_upper_bound; lia).
  destruct (okey_drop 8 update_encrypt_key_256 key ltac:(lia) Hkey snd_update_256 block_update_256
    expand8_update (Nat.div2 r) 7 Hj) as [tl E]. fold (K (Nat.div2 r)) in E.
  assert (exists tl', expand 8 (8 * 7) key = ks ++ tl' /\ length ks = 240%nat) as (tl' & Hks & Lks).
  { destruct (expand_prefix 8 4 ks) as [tl' E']. exists tl'. split.
    - rewrite <- E'. unfold ks, KeyExpansion. rewrite <- expand_add. done.
    - apply (aes_set_key_spec 8 32 key {| ksch := replicate 240 0; rnd := 0 |} len32 Hkey
        (length_replicate _ _)). }
  assert (Hrk : rk ks r = take 16 (drop (16 * r) (expand 8 (8 * 7) key))).
  { unfold rk, round_key, N_BLOCK. rewrite (Nat.mul_comm r), Hks.
    rewrite drop_app_le, take_app_le by (rewrite ?length_drop; lia). done. }
  rewrite Hrk. destruct (K256_block (Nat.div2 r)) as [L F]. unfold half.
  pose proof (Nat.div2_odd r) as Ho. destruct (Nat.odd r); cbn [Nat.b2n] in Ho.
  - replace (16 * r)%nat with (4 * 8 * Nat.div2 r + 16)%nat by lia.
    rewrite <- drop_drop, E, drop_app_le, take_app_le by (rewrite ?length_drop; lia). done.
  - replace (16 * r)%nat with (4 * 8 * Nat.div2 r)%nat by lia.
    rewrite E, take_app_le by lia. done.
Qed.

Lemma add_K256 s r : (r <= 14)%nat -> block 16 s -> add_round_key s (half r) = xorl s (rk ks r).
Proof.
  intros Hr Hs. destruct (half_ok r). by rewrite K256_rk, add_round_key_block by done.
Qed.

Lemma copy_K256 s r : (r <= 14)%nat -> block 16 s ->
  copy_and_key (replicate N_BLOCK 0) s (half r) = xorl s (rk ks r).
Proof.
  intros Hr Hs. destruct (half_ok r). rewrite K256_rk by done.
  by apply copy_and_key_block.
Qed.

Lemma copy_K256_even s j : (j <= 7)%nat -> block 16 s ->
  copy_and_key (replicate N_BLOCK 0) s (K j) = xorl s (rk ks (2 * j)).
Proof.
  intros Hj Hs. rewrite <- copy_K256 by (done || lia). unfold half.
  rewrite Nat.odd_mul, Nat.div2_double. done.
Qed.

Lemma block_xor_rk256 s r : (r <= 14)%nat -> block 16 s -> block 16 (xorl s (rk ks r)).
Proof.
  intros Hr Hs. apply block_xorl; [done|]. rewrite K256_rk by lia. destruct (half_ok r) as [L F].
  split; [rewrite length_take; lia|by apply Forall_take].
Qed.

Lemma half_even r : Nat.odd r = false -> half r = K (Nat.div2 r).
Proof. intros E. unfold half. by rewrite E. Qed.
Lemma half_odd r : Nat.odd r = true -> half r = drop 16 (K (Nat.div2 r)).
Proof. intros E. unfold half. by rewrite E. Qed.

Lemma div2_S_odd r : Nat.odd (S r) = true -> Nat.div2 (S r) = Nat.div2 r.
Proof.
  intros E. pose proof (Nat.div2_odd r). pose proof (Nat.div2_odd (S r)).
  rewrite Nat.odd_succ, <- Nat.negb_odd in E. rewrite Nat.odd_succ, <- Nat.negb_odd in *.
  destruct (Nat.odd r); cbn [negb Nat.b2n] in *; [done|lia].
Qed.
Lemma div2_S_even r : Nat.odd (S r) = false -> Nat.div2 (S r) = S (Nat.div2 r).
Proof.
  intros E. pose proof (Nat.div2_odd r). pose proof (Nat.div2_odd (S r)).
  rewrite Nat.odd_succ, <- Nat.negb_odd in E. rewrite Nat.odd_succ, <- Nat.negb_odd in *.
  destruct (Nat.odd r); cbn [negb Nat.b2n] in *; [lia|done].
Qed.

Lemma encrypt_256_rounds n : forall r s, (r + n <= 14)%nat -> block 16 s ->
  fold_left encrypt_256_round (seq (S r) n) (s, K (Nat.div2 r), RC (Nat.div2 r)) =
    (fold_left (enc_round ks) (seq (S r) n) s, K (Nat.div2 (r + n)), RC (Nat.div2 (r + n))) /\
  block 16 (fold_left (enc_round ks) (seq (S r) n) s).
Proof.
  induction n as [|n IH]; intros r s Hr Hs; [by rewrite Nat.add_0_r|].
  cbn [seq fold_left].
  assert (encrypt_256_round (s, K (Nat.div2 r), RC (Nat.div2 r)) (S r) =
    (enc_round ks s (S r), K (Nat.div2 (S r)), RC (Nat.div2 (S r)))) as ->.
  { unfold encrypt_256_round, enc_round. rewrite <- add_K256 by (auto with word; lia).
    destruct (Nat.odd (S r)) eqn:E; rewrite ?(half_odd _ E), ?(half_even _ E).
    - by rewrite (div2_S_odd _ E).
    - by rewrite K256_next, (div2_S_even _ E). }
  rewrite Nat.add_succ_r. apply (IH (S r)); [lia|]. apply block_xor_rk256; [lia|auto with word].
Qed.

Lemma decrypt_256_rounds n : forall s, (n <= 13)%nat -> block 16 s ->
  fold_left decrypt_256_round (rev (seq 1 n)) (s, K (Nat.div2 (S n)), RC (Nat.div2 (S n))) =
    (fold_left (dec_round ks) (rev (seq 1 n)) s, K 0, RC 0) /\
  block 16 (fold_left (dec_round ks) (rev (seq 1 n)) s).
Proof.
  induction n as [|n IH]; intros s Hr Hs; [done|].
  rewrite seq_S, rev_app_distr. cbn [rev app fold_left Nat.add].
  assert (decrypt_256_round (s, K (Nat.div2 (S (S n))), RC (Nat.div2 (S (S n)))) (S n) =
    (dec_round ks s (S n), K (Nat.div2 (S n)), RC (Nat.div2 (S n)))) as ->.
  { unfold decrypt_256_round, dec_round. rewrite <- add_K256 by (done || lia).
    destruct (Nat.odd (S n)) eqn:E; rewrite ?(half_odd _ E), ?(half_even _ E).
    - assert (Nat.odd (S (S n)) = false) as E2 by (by rewrite Nat.odd_succ, <- Nat.negb_odd, E).
      by rewrite (div2_S_even _ E2), K256_prev.
    - assert (Nat.odd (S (S n)) = true) as E2 by (by rewrite Nat.odd_succ, <- Nat.negb_odd, E).
      by rewrite (div2_S_odd _ E2). }
  apply IH; [lia|]. apply block_inv_mix_sub_columns, block_xor_rk256; [lia|done].
Qed.
Let ctx : aes_context := {| ksch := ks; rnd := Z.of_nat (Nr 8) |}.

Lemma aes_encrypt_256_prekeyed inp : block 16 inp ->
  aes_encrypt_256 inp key = (snd (aes_encrypt inp (replicate 16 0) ctx), K 7).
Proof.
  intros Hi.
  destruct (aes_encrypt_fold inp (replicate 16 0) ctx (KeyExpansion_ok 8 32 key len32 Hkey)
    ltac:(done) Hi (length_replicate _ _)) as [-> Hb].
  change (Z.to_nat (rnd ctx)) with 14%nat. change (ksch ctx) with ks. cbn [snd].
  unfold aes_encrypt_256.
  change key with (K 0) at 1. rewrite (copy_K256_even inp 0 ltac:(lia) Hi).
  destruct (encrypt_256_rounds 13 0 (xorl inp (rk ks 0))) as [E Hs];
    [lia|by apply block_xor_rk256; [lia|]|].
  change (2 * 0)%nat with 0%nat. change (K (Nat.div2 0)) with key in E.
  change (RC (Nat.div2 0)) with 1 in E. rewrite E.
  change (Nat.div2 (0 + 13)) with 6%nat. rewrite K256_next.
  rewrite (copy_K256_even _ 7 ltac:(lia) (block_shift_sub_rows _ Hs)).
  reflexivity.
Qed.

Lemma aes_decrypt_256_prekeyed inp : block 16 inp ->
  aes_decrypt_256 inp (K 7) = (snd (aes_decrypt inp (replicate 16 0) ctx), key).
Proof.
  intros Hi.
  destruct (aes_decrypt_fold inp (replicate 16 0) ctx (KeyExpansion_ok 8 32 key len32 Hkey)
    ltac:(done) Hi (length_replicate _ _)) as [-> Hb].
  change (Z.to_nat (rnd ctx)) with 14%nat. change (ksch ctx) with ks. cbn [snd].
  unfold aes_decrypt_256.
  rewrite (copy_K256_even inp 7 ltac:(lia) Hi). change (2 * 7)%nat with 14%nat.
  assert (Hrc : RC 7 = 0x80).
  { unfold RC. exact (proj1 (proj2 (okey_spec 8 update_encrypt_key_256 key ltac:(lia) Hkey
      snd_update_256 block_update_256 expand8_update 7))). }
  destruct (decrypt_256_rounds 13 (inv_shift_sub_rows (xorl inp (rk ks 14)))) as [E Hs];
    [lia|by apply block_inv_shift_sub_rows, block_xor_rk256; [lia|]|].
  change (Nat.div2 (S 13)) with 7%nat in E. rewrite Hrc in E. rewrite E.
  rewrite (copy_K256_even _ 0 ltac:(lia) Hs). reflexivity.
Qed.
End otf_256.

(** ** Theorem *)

(** A routine pair with on-the-fly keying implements the cipher for [Nk]-word keys:
    encryption computes FIPS-197 and leaves a key from which decryption recovers
    the block and the original key. *)
Definition otf_correct (Nk : nat) (enc dec : list Z -> list Z -> list Z * list Z) : Prop :=
  forall key inp, block (4 * Nk) key -> block 16 inp ->
  exists o_key, enc inp key = (Encrypt Nk key inp, o_key) /\
                dec (Encrypt Nk key inp) o_key = (inp, key).

Lemma otf_from_prekeyed (Nk : nat) (keylen : Z) enc dec okey :
  key_length Nk keylen ->
  (forall key inp, block (4 * Nk) key -> block 16 inp ->
     let ctx := {| ksch := KeyExpansion Nk key; rnd := Z.of_nat (Nr Nk) |} in
     enc inp key = (snd (aes_encrypt inp (replicate 16 0) ctx), okey key) /\
     dec inp (okey key) = (snd (aes_decrypt inp (replicate 16 0) ctx), key)) ->
  otf_correct Nk enc dec.
Proof.
  intros Hl H key inp Hk Hi. pose proof (KeyExpansion_ok Nk keylen key Hl Hk) as Hc.
  set (ctx := {| ksch := KeyExpansion Nk key; rnd := Z.of_nat (Nr Nk) |}) in *.
  assert (Hr : rnd ctx <> 0) by (cbn [rnd ctx]; unfold Nr; lia).
  destruct (aes_roundtrip inp (replicate 16 0) (replicate 16 0) ctx Hc Hr Hi
    (length_replicate _ _) (length_replicate _ _)) as (c & He & Hcb & Hd).
  assert (c = Encrypt Nk key inp) as <-.
  { rewrite aes_encrypt_cipher in He by (done || apply length_replicate). injection He as <-.
    cbn [ctx rnd ksch]. by rewrite Nat2Z.id. }
  exists (okey key). split.
  - rewrite (proj1 (H key inp Hk Hi)). fold ctx. by rewrite He.
  - rewrite (proj2 (H key c Hk Hcb)). fold ctx. by rewrite Hd.
Qed.

(** C33: the on-the-fly routines for 128- and 256-bit keys compute FIPS-197, like
    the prekeyed ones, and the key left in [o_key] by an encryption, given to the
    decryption routine, yields the plaintext back and the original key in its
    [o_key] (the promise of the comment in aes.h). *)
Theorem aes_otf_correct :
  otf_correct 4 aes_encrypt_128 aes_decrypt_128 /\ otf_correct 8 aes_encrypt_256 aes_decrypt_256.
Proof.
  split.
  - apply (otf_from_prekeyed 4 16 _ _ (fun key => fst (okey update_encrypt_key_128 key 10)) len16).
    intros key inp Hk Hi. exact (conj (aes_encrypt_128_prekeyed key Hk inp Hi)
                                      (aes_decrypt_128_prekeyed key Hk inp Hi)).
  - apply (otf_from_prekeyed 8 32 _ _ (fun key => fst (okey update_encrypt_key_256 key 7)) len32).
    intros key inp Hk Hi. exact (conj (aes_encrypt_256_prekeyed key Hk inp Hi)
                                      (aes_decrypt_256_prekeyed key Hk inp Hi)).
Qed.

Lemma aes_otf_correct_witness :
  exists o_key, aes_encrypt_256 fips_plain (fips_key 32) = (Encrypt 8 (fips_key 32) fips_plain, o_key) /\
    aes_decrypt_256 (Encrypt 8 (fips_key 32) fips_plain) o_key = (fips_plain, fips_key 32).
Proof. refine (proj2 aes_otf_correct (fips_key 32) fips_plain _ _); by_decide. Defined.
