(* ===== verification/CryptoToolbox.v ===== *)
(** * AES-CMAC and the SMP crypto toolbox

    Model of [src/system/gd/crypto_toolbox/aes_cmac.cc] and
    [crypto_toolbox.cc].  Octet arrays are least significant byte first, as in
    the source; the reference functions (RFC 4493 and the key functions of the
    Core Specification) work most significant byte first, so that every theorem
    reads "the reversal of the code's result is the function of the reversed
    arguments". *)

From stdpp Require Import base list.
From Stdlib Require Import ZArith Lia.
From S2P Require Import Prelude Aes AesRound AesSpec.

Open Scope Z_scope.

Local Infix "⊕" := Z.lxor (at level 50, left associativity).

(** ** aes_cmac.cc *)

Definition kOctet16Length : nat := 16.
Definition kOctet32Length : nat := 32.

(** The thread-local control block; [text] is the buffer it points to. *)
Record tCMAC_CB := { text : list Z; len : Z; round : Z }.

(** Zero-initialised octets. *)
Definition zero16 : list Z := replicate kOctet16Length 0.

Definition const_Rb : list Z := 0x87 :: replicate 15 0.

Definition xor_128 (a b : list Z) : list Z :=
  fold_left (fun aa i => aa.[i <- aa.[i] ⊕ b.[i]]) (seq 0 kOctet16Length) a.

(** An operation on the [Octet16] at [&text[off]]. *)
Definition at_octet16 (off : nat) (f : list Z -> list Z) (t : list Z) : list Z :=
  take off t ++ f (take kOctet16Length (drop off t)) ++ drop (off + kOctet16Length) t.

(** The context and the output are stack variables without initialiser; zeros
    stand for their contents, all of which is overwritten before it is read. *)
Definition aes_128 (key message : list Z) : list Z :=
  let key_reversed := rev key in
  let message_reversed := rev message in
  let ctx := {| ksch := replicate ((N_MAX_ROUNDS + 1) * N_BLOCK) 0; rnd := 0 |} in
  let '(_, ctx) := aes_set_key key_reversed (Z.of_nat (length key_reversed)) ctx in
  let '(_, output) := aes_encrypt message_reversed (replicate N_BLOCK 0) ctx in
  rev output.

Definition padding (dest : list Z) (length : Z) : list Z :=
  fold_left (fun p i => p.[kOctet16Length - i - 1 <- if Z.of_nat i =? length then 0x80 else 0])
    (seq (Z.to_nat length) (kOctet16Length - Z.to_nat length)) dest.

(** The loop state is [output] and [overflow]; each [output[i]] is written once,
    in order. *)
Definition leftshift_onebit (input : list Z) : list Z :=
  fst (fold_left (fun '(output, overflow) i =>
         let next_overflow := if Z.land input.[i] 0x80 =? 0 then 0 else 1 in
         (output ++ [u8 (Z.lor (Z.shiftl input.[i] 1) overflow)], next_overflow))
       (seq 0 kOctet16Length) ([], 0)).

(** [while (i <= round)], with [n = round - i + 1] rounds to go: the block
    handled is the one at [(round - i) * 16]. *)
Fixpoint cmac_k_loop (key : list Z) (n : nat) (t x : list Z) : list Z :=
  match n with
  | O => x
  | S n =>
      let t := at_octet16 (n * kOctet16Length) (fun b => xor_128 b x) t in
      let output := aes_128 key (take kOctet16Length (drop (n * kOctet16Length) t)) in
      cmac_k_loop key n t output
  end.

Definition cmac_aes_k_calculate (cb : tCMAC_CB) (key : list Z) : list Z :=
  cmac_k_loop key (Z.to_nat (round cb)) (text cb) zero16.

Definition cmac_prepare_last_block (cb : tCMAC_CB) (k1 k2 : list Z) : tCMAC_CB :=
  let flag := (len cb mod 16 =? 0) && negb (len cb =? 0) in
  let t :=
    if flag then at_octet16 0 (fun b => xor_128 b k1) (text cb)
    else
      let t := at_octet16 0 (fun b => padding b (u8 (len cb mod 16))) (text cb) in
      at_octet16 0 (fun b => xor_128 b k2) t in
  {| text := t; len := len cb; round := round cb |}.

Definition cmac_generate_subkey (cb : tCMAC_CB) (key : list Z) : tCMAC_CB :=
  let p := aes_128 key zero16 in
  let k1 :=
    if negb (Z.land p.[15] 0x80 =? 0) then xor_128 (leftshift_onebit p) const_Rb
    else leftshift_onebit p in
  let k2 :=
    if negb (Z.land k1.[15] 0x80 =? 0) then xor_128 (leftshift_onebit k1) const_Rb
    else leftshift_onebit k1 in
  cmac_prepare_last_block cb k1 k2.

(** The number of rounds and the size of the buffer [aes_cmac] allocates. *)
Definition cmac_rounds (length : Z) : Z :=
  let n := u16 ((length + 16 - 1) / 16) in if n =? 0 then 1 else n.
Definition cmac_buffer (length : Z) : Z := u32 (cmac_rounds length * 16).

(** [aes_cmac(key, input, length)]: [input] is [None] for a null pointer, [stack]
    is what the buffer of [alloca] holds, at least [cmac_buffer length] bytes. *)
Definition aes_cmac (stack : list Z) (key : list Z) (input : option (list Z)) (length : Z)
    : list Z :=
  let n := cmac_rounds length in
  let l := cmac_buffer length in
  let t := take (Z.to_nat l) stack in
  let diff := u16 (l - length) in
  let cb :=
    match input with
    | Some inp =>
        if 0 <? length then
          {| text := take (Z.to_nat diff) t ++ take (Z.to_nat length) inp ++
                     drop (Z.to_nat diff + Z.to_nat length) t;
             len := length; round := n |}
        else {| text := t; len := 0; round := n |}
    | None => {| text := t; len := 0; round := n |}
    end in
  let cb := cmac_generate_subkey cb key in
  cmac_aes_k_calculate cb key.

(** ** crypto_toolbox.cc *)

Section toolbox.
Context (stack : list Z).

(** A call on a whole array. *)
Definition aes_cmac_of (key msg : list Z) : list Z :=
  aes_cmac stack key (Some msg) (Z.of_nat (length msg)).

(** The overload that keeps the [tlen] most significant octets; [None] where the
    pointer into the MAC would be outside it. *)
Definition aes_cmac_tlen (key msg : list Z) (length tlen : Z) : option (list Z) :=
  let signature := aes_cmac stack key (Some msg) length in
  if (kOctet16Length <? Z.to_nat tlen)%nat then None
  else
    let p_mac := drop (kOctet16Length - Z.to_nat tlen) signature in
    Some (take (Z.to_nat tlen) p_mac).

Definition h6 (w keyid : list Z) : list Z := aes_cmac_of w keyid.

Definition h7 (salt w : list Z) : list Z := aes_cmac_of salt w.

Definition f4 (u v x : list Z) (z : Z) : list Z :=
  let msg := [z] ++ take kOctet32Length v ++ take kOctet32Length u in
  aes_cmac_of x msg.

Definition calculate_mac_key_or_ltk (t : list Z) (counter : Z) (key_id n1 n2 a1 a2 length : list Z)
    : list Z :=
  let msg := take 2 length ++ take 7 a2 ++ take 7 a1 ++ n2 ++ n1 ++ take 4 key_id ++ [counter] in
  aes_cmac_of t msg.

Definition f5_salt : list Z :=
  [0xBE; 0x83; 0x60; 0x5A; 0xDB; 0x0B; 0x37; 0x60; 0x38; 0xA5; 0xF5; 0xAA; 0x91; 0x83; 0x88; 0x6C].

(** The pair [(mac_key, ltk)]. *)
Definition f5 (w n1 n2 a1 a2 : list Z) : list Z * list Z :=
  let t := aes_cmac stack f5_salt (Some w) 32 in
  let key_id := [0x65; 0x6c; 0x74; 0x62] in
  let length := [0x00; 0x01] in
  (calculate_mac_key_or_ltk t 0 key_id n1 n2 a1 a2 length,
   calculate_mac_key_or_ltk t 1 key_id n1 n2 a1 a2 length).

Definition f6 (w n1 n2 r iocap a1 a2 : list Z) : list Z :=
  let msg := take 7 a2 ++ take 7 a1 ++ take 3 iocap ++ r ++ n2 ++ n1 in
  aes_cmac_of w msg.

(** [le32toh] of the first four octets. *)
Definition le32 (l : list Z) : Z :=
  l.[0] + l.[1] * 2 ^ 8 + l.[2] * 2 ^ 16 + l.[3] * 2 ^ 24.

Definition g2 (u v x y : list Z) : Z :=
  let msg := y ++ take kOctet32Length v ++ take kOctet32Length u in
  let cmac := aes_cmac_of x msg in
  le32 cmac mod 1000000.

Definition salt_tmp1 : list Z := [0x31; 0x70; 0x6D; 0x74] ++ replicate 12 0.
Definition salt_tmp2 : list Z := [0x32; 0x70; 0x6D; 0x74] ++ replicate 12 0.
Definition keyID_tmp1 : list Z := [0x31; 0x70; 0x6D; 0x74].
Definition keyID_tmp2 : list Z := [0x32; 0x70; 0x6D; 0x74].
Definition keyID_lebr : list Z := [0x72; 0x62; 0x65; 0x6c].
Definition keyID_brle : list Z := [0x65; 0x6c; 0x72; 0x62].

Definition ltk_to_link_key (ltk : list Z) (use_h7 : bool) : list Z :=
  let ilk := if use_h7 then h7 salt_tmp1 ltk else h6 ltk keyID_tmp1 in
  h6 ilk keyID_lebr.

Definition link_key_to_ltk (link_key : list Z) (use_h7 : bool) : list Z :=
  let iltk := if use_h7 then h7 salt_tmp2 link_key else h6 link_key keyID_tmp2 in
  h6 iltk keyID_brle.

(** [for (i = 0; i < kOctet16Length; i++) p[i] = r[i] ^ p[i]]. *)
Definition xor_into (r p : list Z) : list Z :=
  fold_left (fun p i => p.[i <- r.[i] ⊕ p.[i]]) (seq 0 kOctet16Length) p.

Definition c1 (k r preq pres : list Z) (iat : Z) (ia : list Z) (rat : Z) (ra : list Z) : list Z :=
  let p1 := [iat] ++ [rat] ++ take 7 preq ++ take 7 pres in
  let p1 := xor_into r p1 in
  let p1bis := aes_128 k p1 in
  let padding := replicate 4 0 in
  let p2 := take 6 ra ++ take 6 ia ++ padding in
  let p2 := xor_into p1bis p2 in
  aes_128 k p2.

Definition s1 (k r1 r2 : list Z) : list Z :=
  let text := take 8 r1 ++ take 8 r2 in
  aes_128 k text.

End toolbox.
