(* ===== verification/CmacSpec.v ===== *)
(** * AES-CMAC against RFC 4493, the toolbox against the Core Specification

    Reference definitions, most significant byte first, and the theorems that the
    routines of [CryptoToolbox.v] compute them. *)

From stdpp Require Import base list.
From Stdlib Require Import ZArith Lia.
From S2P Require Import Prelude Aes AesRound AesSpec CryptoToolbox.

Open Scope Z_scope.

Local Infix "⊕" := Z.lxor (at level 50, left associativity).

(** ** Octet strings as numbers *)

Fixpoint le (l : list Z) : Z := match l with [] => 0 | b :: l => b + 256 * le l end.
Definition be (l : list Z) : Z := le (rev l).

Fixpoint unle (n : nat) (v : Z) : list Z :=
  match n with O => [] | S n => v mod 256 :: unle n (v / 256) end.
Definition unbe (n : nat) (v : Z) : list Z := rev (unle n v).

Lemma le_range l : Forall byte l -> 0 <= le l < 256 ^ Z.of_nat (length l).
Proof.
  induction 1 as [|b l Hb Hl IH]; [done|]. cbn [le length]. unfold in_range in Hb.
  change (2 ^ 8) with 256 in Hb. rewrite Nat2Z.inj_succ, Z.pow_succ_r by lia. lia.
Qed.

Lemma unle_le l : Forall byte l -> unle (length l) (le l) = l.
Proof.
  induction 1 as [|b l Hb Hl IH]; [done|]. cbn [le length unle]. unfold in_range in Hb.
  change (2 ^ 8) with 256 in Hb. f_equal; [dmlia|].
  replace ((b + 256 * le l) / 256) with (le l) by dmlia. done.
Qed.

(** ** Reference: RFC 4493 *)

Module Rfc4493.
Section cmac.
(** The block cipher under a key. *)
Context (AES : list Z -> list Z -> list Z).

Definition const_Zero : list Z := replicate 16 0.
Definition Rb : list Z := replicate 15 0 ++ [0x87].

Definition shl1 (b : list Z) : list Z := unbe 16 ((2 * be b) mod 2 ^ 128).
Definition dbl (b : list Z) : list Z :=
  if 2 ^ 127 <=? be b then xorl (shl1 b) Rb else shl1 b.

Definition K1 (K : list Z) : list Z := dbl (AES K const_Zero).
Definition K2 (K : list Z) : list Z := dbl (K1 K).

Definition pad (m : list Z) : list Z := m ++ 0x80 :: replicate (15 - length m) 0.

(** The chain [X := AES(K, X xor M_i)] over [n] blocks. *)
Fixpoint chain (K : list Z) (n : nat) (X M : list Z) : list Z :=
  match n with
  | O => X
  | S n => chain K n (AES K (xorl X (take 16 M))) (drop 16 M)
  end.

Definition CMAC (K M : list Z) : list Z :=
  let n := Nat.max 1 ((length M + 15) / 16) in
  let flag := negb (length M =? 0)%nat && (length M mod 16 =? 0)%nat in
  let init := take (16 * (n - 1)) M in
  let M_n := drop (16 * (n - 1)) M in
  let M_last := if flag then xorl M_n (K1 K) else xorl (pad M_n) (K2 K) in
  chain K n const_Zero (init ++ M_last).
End cmac.
End Rfc4493.

(** AES-128 with the big-endian convention of the standards. *)
Definition AES128 : list Z -> list Z -> list Z := Fips197.Encrypt 4.
Definition CMAC := Rfc4493.CMAC AES128.

(** ** Reference: the functions of the Core Specification (Vol 3, Part H) *)

Module CoreSpec.
Definition f4 (U V X : list Z) (Z' : Z) : list Z := CMAC X (U ++ V ++ [Z']).
Definition SALT : list Z :=
  [0x6C; 0x88; 0x83; 0x91; 0xAA; 0xF5; 0xA5; 0x38; 0x60; 0x37; 0x0B; 0xDB; 0x5A; 0x60; 0x83; 0xBE].
(** keyID "btle", Length 256 bits *)
Definition f5_key (T N1 N2 A1 A2 : list Z) (Counter : Z) : list Z :=
  CMAC T ([Counter] ++ [0x62; 0x74; 0x6C; 0x65] ++ N1 ++ N2 ++ A1 ++ A2 ++ [0x01; 0x00]).
Definition f5 (W N1 N2 A1 A2 : list Z) : list Z * list Z :=
  let T := CMAC SALT W in (f5_key T N1 N2 A1 A2 0, f5_key T N1 N2 A1 A2 1).
Definition f6 (W N1 N2 R IOcap A1 A2 : list Z) : list Z :=
  CMAC W (N1 ++ N2 ++ R ++ IOcap ++ A1 ++ A2).
Definition g2 (U V X Y : list Z) : Z := (be (CMAC X (U ++ V ++ Y)) mod 2 ^ 32) mod 10 ^ 6.
Definition h6 (W keyID : list Z) : list Z := CMAC W keyID.
Definition h7 (SALT W : list Z) : list Z := CMAC SALT W.
Definition tmp1 : list Z := [0x74; 0x6D; 0x70; 0x31].
Definition tmp2 : list Z := [0x74; 0x6D; 0x70; 0x32].
Definition lebr : list Z := [0x6C; 0x65; 0x62; 0x72].
Definition brle : list Z := [0x62; 0x72; 0x6C; 0x65].
Definition ltk_to_link_key (LTK : list Z) (ct2 : bool) : list Z :=
  h6 (if ct2 then h7 (replicate 12 0 ++ tmp1) LTK else h6 LTK tmp1) lebr.
Definition link_key_to_ltk (LK : list Z) (ct2 : bool) : list Z :=
  h6 (if ct2 then h7 (replicate 12 0 ++ tmp2) LK else h6 LK tmp2) brle.
(** Legacy pairing: [e] is AES-128. *)
Definition c1 (k r pres preq : list Z) (rat iat : Z) (ia ra : list Z) : list Z :=
  let p1 := pres ++ preq ++ [rat] ++ [iat] in
  let p2 := replicate 4 0 ++ ia ++ ra in
  AES128 k (xorl (AES128 k (xorl r p1)) p2).
End CoreSpec.

(** ** Lemmas *)

Lemma rev_zip_xor a b : length a = length b -> rev (xorl a b) = xorl (rev a) (rev b).
Proof.
  revert b. induction a as [|x a IH]; intros [|y b] H; cbn in H; try done.
  change (xorl (x :: a) (y :: b)) with ((x ⊕ y) :: xorl a b). cbn [rev]. rewrite IH by lia.
  unfold xorl. rewrite zip_with_app by (rewrite !length_rev; lia). done.
Qed.

Lemma block_rev n l : block n l -> block n (rev l).
Proof. intros [L F]. split; [by rewrite length_rev|by apply Forall_rev]. Qed.
#[export] Hint Resolve block_rev : word.

Lemma xor_128_spec a b : length a = 16%nat -> length b = 16%nat -> xor_128 a b = xorl a b.
Proof. intros Ha Hb. expose a. expose b. reflexivity. Qed.

Lemma aes_128_spec key msg : block 16 key -> block 16 msg ->
  aes_128 key msg = rev (AES128 (rev key) (rev msg)) /\ block 16 (aes_128 key msg).
Proof.
  intros Hk Hm. unfold aes_128.
  set (ctx := {| ksch := _; rnd := 0 |}).
  destruct (aes_set_key_encrypt 4 16 (rev key) (rev msg) (replicate N_BLOCK 0) ctx len16
    (block_rev _ _ Hk) (block_rev _ _ Hm)) as (_ & E & B); [by_decide..|].
  rewrite length_rev, (proj1 Hk). change (Z.of_nat 16) with 16.
  destruct (aes_set_key (rev key) 16 ctx) as [st c]. cbn [snd] in E. rewrite E.
  exact (conj eq_refl (block_rev _ _ B)).
Qed.

#[local] Opaque aes_128 AES128.

(** *** The shift *)

Lemma overflow_div b : byte b -> (if Z.land b 0x80 =? 0 then 0 else 1) = b / 128.
Proof. intros. by_byte b. Qed.
Lemma shl_bit0 b : byte b -> u8 (Z.lor (Z.shiftl b 1) 0) = (2 * b + 0) mod 256.
Proof. intros. by_byte b. Qed.
Lemma shl_bit1 b : byte b -> u8 (Z.lor (Z.shiftl b 1) 1) = (2 * b + 1) mod 256.
Proof. intros. by_byte b. Qed.

Lemma shl_bit b o : byte b -> 0 <= o <= 1 -> u8 (Z.lor (Z.shiftl b 1) o) = (2 * b + o) mod 256.
Proof.
  intros Hb Ho. assert (o = 0 \/ o = 1) as [-> | ->] by lia; [by apply shl_bit0|by apply shl_bit1].
Qed.
Lemma div128_range b : byte b -> 0 <= b / 128 <= 1.
Proof. unfold in_range. change (2 ^ 8) with 256. dmlia. Qed.

Fixpoint shl_from (l : list Z) (o : Z) : list Z :=
  match l with [] => [] | b :: l => (2 * b + o) mod 256 :: shl_from l (b / 128) end.

Lemma shl_from_le l : Forall byte l -> forall o, 0 <= o <= 1 ->
  block (length l) (shl_from l o) /\ le (shl_from l o) = (2 * le l + o) mod 256 ^ Z.of_nat (length l).
Proof.
  induction 1 as [|b l Hb Hl IH]; intros o Ho.
  { split; [done|]. cbn. by rewrite Z.mod_1_r. }
  unfold in_range in Hb. change (2 ^ 8) with 256 in Hb.
  destruct (IH (b / 128)) as [[L F] E]; [dmlia|]. split.
  - split; [cbn; by rewrite L|]. constructor; [|done]. unfold in_range. change (2 ^ 8) with 256. dmlia.
  - cbn [shl_from le length]. rewrite E, Nat2Z.inj_succ, Z.pow_succ_r by lia.
    set (P := 256 ^ Z.of_nat (length l)). assert (0 < P) by (apply Z.pow_pos_nonneg; lia).
    rewrite Z.rem_mul_r by lia. f_equal; [apply (mod_eq_by 256 _ _ (-2 * le l)); lia|].
    do 2 f_equal. dmlia.
Qed.

Lemma leftshift_onebit_spec l : block 16 l ->
  block 16 (leftshift_onebit l) /\ le (leftshift_onebit l) = (2 * le l) mod 2 ^ 128.
Proof.
  intros H. pose proof H as [L F]. assert (leftshift_onebit l = shl_from l 0) as ->.
  { clear L F. cells l. cbv -[Z.land Z.lor Z.shiftl Z.mul Z.add Z.div Z.modulo wrap Z.eqb].
    rewrite !overflow_div by done. rewrite !shl_bit by (lia || auto using div128_range). done. }
  destruct (shl_from_le l F 0 ltac:(lia)) as [B E]. rewrite L in B, E. split; [done|].
  rewrite E. f_equal. lia.
Qed.

Lemma le_app a b : le (a ++ b) = le a + 256 ^ Z.of_nat (length a) * le b.
Proof.
  induction a as [|x a IH]; [cbn [app length le]; rewrite Z.pow_0_r; lia|].
  cbn [app le length]. rewrite IH, Nat2Z.inj_succ, Z.pow_succ_r by lia. lia.
Qed.

(** The most significant bit. *)
Lemma msb_le l : block 16 l -> negb (Z.land l.[15] 0x80 =? 0) = (2 ^ 127 <=? le l).
Proof.
  intros [L F]. assert (Hl : l = take 15 l ++ [l.[15]]) by (expose l; done).
  assert (Hc : byte l.[15]) by auto with word. pose proof (overflow_div _ Hc) as Ho.
  pose proof (le_range (take 15 l) (Forall_take _ 15 l F)) as Hr.
  rewrite length_take, L in Hr. change (Z.of_nat (15 `min` 16)) with 15 in Hr.
  assert (He : le l = le (take 15 l) + 256 ^ 15 * l.[15]).
  { rewrite Hl at 1. rewrite le_app, length_take, L. change (Z.of_nat (15 `min` 16)) with 15.
    cbn [le]. lia. }
  change (256 ^ 15) with (2 ^ 120) in *. change (2 ^ 127) with (128 * 2 ^ 120).
  unfold in_range in Hc. change (2 ^ 8) with 256 in Hc. set (P := 2 ^ 120) in *.
  assert (0 < P) by (unfold P; lia). clearbody P.
  destruct (Z.eqb_spec (Z.land l.[15] 128) 0); destruct (Z.leb_spec (128 * P) (le l)); cbn; try done;
    [assert (l.[15] < 128) by dmlia | assert (128 <= l.[15]) by dmlia]; nia.
Qed.

(** One doubling, least significant byte first. *)
Lemma subkey_dbl l : block 16 l ->
  (if negb (Z.land l.[15] 0x80 =? 0) then xor_128 (leftshift_onebit l) const_Rb
   else leftshift_onebit l) = rev (Rfc4493.dbl (rev l)) /\ block 16 (Rfc4493.dbl (rev l)).
Proof.
  intros H. destruct (leftshift_onebit_spec l H) as [B E].
  assert (Hs : rev (Rfc4493.shl1 (rev l)) = leftshift_onebit l).
  { unfold Rfc4493.shl1, unbe, be. rewrite !rev_involutive, <- E, <- (proj1 B).
    apply unle_le, B. }
  assert (Hs' : Rfc4493.shl1 (rev l) = rev (leftshift_onebit l)) by (by rewrite <- Hs, rev_involutive).
  assert (Hc : negb (Z.land l.[15] 0x80 =? 0) = (2 ^ 127 <=? be (rev l))).
  { unfold be. rewrite rev_involutive. by apply msb_le. }
  unfold Rfc4493.dbl. rewrite Hc. destruct (2 ^ 127 <=? be (rev l)).
  - rewrite xor_128_spec, rev_zip_xor, Hs by (done || rewrite ?Hs', ?length_rev; apply B).
    split; [done|]. rewrite Hs'. apply block_xorl; [auto with word|by_decide].
  - rewrite Hs. split; [done|]. rewrite Hs'. auto with word.
Qed.

(** *** The chain *)

(** The buffer may extend beyond the blocks still to handle. *)
Lemma cmac_k_loop_spec key n : block 16 key ->
  forall t tl x, block (16 * n) t -> block 16 x ->
  cmac_k_loop key n (t ++ tl) x = rev (Rfc4493.chain AES128 (rev key) n (rev x) (rev t)) /\
  block 16 (cmac_k_loop key n (t ++ tl) x).
Proof.
  intros Hk. induction n as [|n IH]; intros t tl x [Lt Ft] Hx; [cbn; by rewrite rev_involutive|].
  cbn [cmac_k_loop Rfc4493.chain]. unfold at_octet16, kOctet16Length.
  replace (n * 16)%nat with (16 * n)%nat by lia.
  rewrite <- (take_drop (16 * n) t).
  assert (Hlo : block (16 * n) (take (16 * n) t)).
  { split; [rewrite length_take; lia|by apply Forall_take]. }
  assert (Hhi : block 16 (drop (16 * n) t)).
  { split; [rewrite length_drop; lia|by apply Forall_drop]. }
  set (lo := take (16 * n) t) in *. set (hi := drop (16 * n) t) in *.
  destruct Hlo as [Llo Flo]. pose proof Hhi as [Lhi Fhi].
  rewrite <- app_assoc, (take_app_length' lo), (drop_app_length' lo _ (16 * n)) by lia.
  rewrite (take_app_length' hi) by lia.
  rewrite xor_128_spec by (done || apply Hx).
  assert (Hxb : block 16 (xorl hi x)) by auto with word.
  rewrite (drop_app_length' lo (xorl hi x ++ _) (16 * n)), (take_app_length' (xorl hi x))
    by (rewrite ?(proj1 Hxb); lia).
  destruct (aes_128_spec key _ Hk Hxb) as [Ea Ba].
  destruct (IH lo (xorl hi x ++ drop (16 * n + 16) (lo ++ hi ++ tl)) _ (conj Llo Flo) Ba) as [E B].
  split; [|exact B]. rewrite E, Ea, rev_involutive.
  rewrite rev_zip_xor, (xorl_comm (rev hi)) by (rewrite Lhi; symmetry; apply Hx).
  rewrite rev_app_distr, (take_app_length' (rev hi)), (drop_app_length' (rev hi))
    by (rewrite length_rev; lia). done.
Qed.

(** *** The last block *)

Lemma padding_spec b l : length b = 16%nat -> 0 <= l < 16 ->
  padding b l = rev (Rfc4493.pad (rev (drop (16 - Z.to_nat l) b))).
Proof.
  intros Hb Hl. assert (exists n, (n < 16)%nat /\ l = Z.of_nat n) as (n & Hn & ->).
  { exists (Z.to_nat l). lia. }
  rewrite Nat2Z.id. expose b.
  do 16 (destruct n as [|n]; [reflexivity|]). lia.
Qed.

#[local] Opaque xor_128 padding.

Lemma cmac_rounds_spec L : 0 <= L < 65536 ->
  Z.to_nat (cmac_rounds L) = Nat.max 1 ((Z.to_nat L + 15) / 16) /\
  cmac_buffer L = 16 * cmac_rounds L /\ 1 <= cmac_rounds L <= 4096 /\
  0 <= cmac_buffer L - L <= 16.
Proof.
  intros HL. unfold cmac_buffer.
  assert (Hn : u16 ((L + 16 - 1) / 16) = (L + 15) / 16).
  { rewrite wrap_small; [f_equal; lia|]. unfold in_range. change (2 ^ 16) with 65536. dmlia. }
  assert (Hc : cmac_rounds L = Z.max 1 ((L + 15) / 16)).
  { unfold cmac_rounds. rewrite Hn. zcmp; dmlia. }
  assert (1 <= cmac_rounds L <= 4096) by (rewrite Hc; dmlia).
  rewrite wrap_small by (unfold in_range; change (2 ^ 32) with 4294967296; lia).
  split_and!; try lia; rewrite Hc; [|dmlia..].
  rewrite Z2Nat.inj_max, Z2Nat.inj_div, Z2Nat.inj_add by lia. done.
Qed.

(** The buffer once filled: [diff] bytes of the stack, then the message. *)
Lemma cmac_text stack (msg : list Z) L :
  L = Z.of_nat (length msg) -> L < 65536 -> (Z.to_nat (cmac_buffer L) <= length stack)%nat ->
  forall key, aes_cmac stack key (Some msg) L =
    cmac_aes_k_calculate (cmac_generate_subkey
      {| text := take (Z.to_nat (cmac_buffer L) - length msg) stack ++ msg;
         len := L; round := cmac_rounds L |} key) key.
Proof.
  intros HL Hm Hs key.
  destruct (cmac_rounds_spec L ltac:(lia)) as (_ & Hb & Hr & Hd).
  unfold aes_cmac. rewrite wrap_small by (unfold in_range; change (2 ^ 16) with 65536; lia).
  set (b := cmac_buffer L) in *.
  assert (Hdn : Z.to_nat (b - L) = (Z.to_nat b - length msg)%nat) by lia.
  destruct (Z.ltb_spec 0 L) as [H|H].
  - rewrite Hdn, take_take, Nat.min_l by lia.
    rewrite (firstn_all2 msg) by lia.
    rewrite (drop_ge (take _ _)), app_nil_r by (rewrite length_take; lia). done.
  - assert (L = 0) as EL by lia. assert (length msg = 0%nat) as Em by lia.
    destruct msg; [|done]. rewrite app_nil_r, Nat.sub_0_r, EL. done.
Qed.

Lemma cmac_subkeys key : block 16 key ->
  exists k1 k2, (forall cb, cmac_generate_subkey cb key = cmac_prepare_last_block cb k1 k2) /\
    k1 = rev (Rfc4493.K1 AES128 (rev key)) /\ k2 = rev (Rfc4493.K2 AES128 (rev key)) /\
    block 16 k1 /\ block 16 k2.
Proof.
  intros Hk. assert (Hz : block 16 zero16) by by_decide.
  destruct (aes_128_spec key zero16 Hk Hz) as [Ep Bp].
  assert (HL : rev (aes_128 key zero16) = AES128 (rev key) Rfc4493.const_Zero)
    by (rewrite Ep, rev_involutive; reflexivity).
  destruct (subkey_dbl _ Bp) as [E1 B1].
  assert (Bk1 : block 16 (rev (Rfc4493.dbl (rev (aes_128 key zero16))))) by auto with word.
  destruct (subkey_dbl _ Bk1) as [E2 B2]. rewrite rev_involutive in E2, B2.
  eexists _, _. split_and!.
  - intros cb. unfold cmac_generate_subkey. rewrite E1, E2. reflexivity.
  - by rewrite HL.
  - by rewrite HL.
  - done.
  - auto with word.
Qed.

Lemma at_octet16_0 f t : at_octet16 0 f t = f (take 16 t) ++ drop 16 t.
Proof. done. Qed.

Lemma cmac_prepare_spec (J msg : list Z) n L k1 k2 :
  L = Z.of_nat (length msg) -> length (J ++ msg) = (16 * n)%nat -> (1 <= n)%nat ->
  (length J <= 16)%nat -> (length J = 16 <-> length msg = 0)%nat ->
  length k1 = 16%nat -> length k2 = 16%nat ->
  let l := (length msg - 16 * (n - 1))%nat in
  let flag := negb (length msg =? 0)%nat && (length msg mod 16 =? 0)%nat in
  text (cmac_prepare_last_block {| text := J ++ msg; len := L; round := Z.of_nat n |} k1 k2) =
    (if flag then xorl (take l msg) k1
     else xorl (rev (Rfc4493.pad (rev (take l msg)))) k2) ++ drop l msg.
Proof.
  intros HL Hlen Hn HJ HJ0 Hk1 Hk2 l flag.
  rewrite length_app in Hlen.
  pose proof (Nat.div_mod (length msg) 16 ltac:(lia)) as Hdm.
  pose proof (Nat.mod_upper_bound (length msg) 16 ltac:(lia)) as Hub.
  set (q := (length msg / 16)%nat) in *. set (m := (length msg mod 16)%nat) in *.
  assert (Hm : L mod 16 = Z.of_nat m) by (rewrite HL; unfold m; rewrite Nat2Z.inj_mod; done).
  unfold cmac_prepare_last_block. cbn [CryptoToolbox.len text].
  assert (((L mod 16 =? 0) && negb (L =? 0)) = flag) as ->.
  { unfold flag. fold m. rewrite Hm, HL, andb_comm. f_equal.
    - do 2 f_equal. destruct (Z.eqb_spec (Z.of_nat (length msg)) 0), (Nat.eqb_spec (length msg) 0); lia.
    - destruct (Z.eqb_spec (Z.of_nat m) 0), (Nat.eqb_spec m 0); lia. }
  rewrite Hm, wrap_small by (unfold in_range; change (2 ^ 8) with 256; lia).
  rewrite !at_octet16_0.
  destruct flag eqn:Ef; unfold flag in Ef; fold m in Ef; clearbody q m.
  - apply andb_true_iff in Ef as [E0 Em]. apply negb_true_iff, Nat.eqb_neq in E0.
    apply Nat.eqb_eq in Em. assert (length J = 0)%nat by lia. destruct J; [|done].
    cbn [app length] in *. assert (l = 16%nat) as -> by lia.
    by rewrite xor_128_spec by (rewrite ?length_take; lia).
  - assert (length J = (16 - m)%nat /\ l = m) as [HJm ->].
    { apply andb_false_iff in Ef as [E0|Em].
      - apply negb_false_iff, Nat.eqb_eq in E0. lia.
      - apply Nat.eqb_neq in Em. lia. }
    assert (Hb : take 16 (J ++ msg) = J ++ take m msg).
    { rewrite take_app, (firstn_all2 J) by lia. do 2 f_equal. lia. }
    assert (Hd : drop 16 (J ++ msg) = drop m msg).
    { rewrite drop_app, (drop_ge J) by lia. cbn [app]. f_equal. lia. }
    rewrite Hb, Hd, padding_spec by (rewrite ?length_app, ?length_take; lia).
    rewrite Nat2Z.id, (drop_app_length' J) by lia.
    set (P := rev (Rfc4493.pad (rev (take m msg)))).
    assert (HP : length P = 16%nat).
    { unfold P, Rfc4493.pad. rewrite length_rev, length_app. cbn [length].
      rewrite length_replicate, !length_rev, length_take. lia. }
    rewrite (take_app_length' P), (drop_app_length' P) by lia.
    by rewrite xor_128_spec by done.
Qed.

Lemma cmac_last (m : list Z) (flag : bool) k1 k2 :
  Forall byte m -> (if flag then length m = 16%nat else (length m < 16)%nat) ->
  block 16 k1 -> block 16 k2 ->
  let last := if flag then xorl m k1 else xorl (rev (Rfc4493.pad (rev m))) k2 in
  block 16 last /\
  rev last = if flag then xorl (rev m) (rev k1) else xorl (Rfc4493.pad (rev m)) (rev k2).
Proof.
  intros Fm Lm B1 B2. destruct flag; cbv zeta.
  - assert (block 16 m) by done. split; [auto with word|]. apply rev_zip_xor. by rewrite Lm, (proj1 B1).
  - assert (Hp : block 16 (Rfc4493.pad (rev m))).
    { unfold Rfc4493.pad. split.
      - rewrite length_app. cbn [length]. rewrite length_replicate, length_rev. lia.
      - apply Forall_app. split; [by apply Forall_rev|]. constructor; [by_decide|].
        apply Forall_replicate. by_decide. }
    split; [auto with word|]. rewrite rev_zip_xor, rev_involutive; [done|].
    by rewrite length_rev, (proj1 Hp), (proj1 B2).
Qed.

Lemma aes_cmac_spec stack key msg L :
  block 16 key -> Forall byte msg -> L = Z.of_nat (length msg) -> L < 65536 ->
  Forall byte stack -> (Z.to_nat (cmac_buffer L) <= length stack)%nat ->
  aes_cmac stack key (Some msg) L = rev (CMAC (rev key) (rev msg)) /\
  block 16 (aes_cmac stack key (Some msg) L).
Proof.
  intros Hk Fm HL Hm Fs Hs. rewrite (cmac_text stack msg L HL Hm Hs).
  destruct (cmac_rounds_spec L ltac:(lia)) as (Hn & Hb & Hr & Hd).
  destruct (cmac_subkeys key Hk) as (k1 & k2 & -> & Ek1 & Ek2 & B1 & B2).
  set (n := Z.to_nat (cmac_rounds L)) in *.
  rewrite <- (Z2Nat.id (cmac_rounds L)) by lia. fold n.
  set (J := take _ stack).
  assert (HJ : length J = (16 * n - length msg)%nat).
  { unfold J. rewrite length_take. lia. }
  rewrite HL, Nat2Z.id in Hn. 
  pose proof (Nat.div_mod (length msg + 15) 16 ltac:(lia)) as Hdm.
  pose proof (Nat.mod_upper_bound (length msg + 15) 16 ltac:(lia)) as Hub.
  pose proof (cmac_prepare_spec J msg n L k1 k2 HL ltac:(rewrite length_app; lia) ltac:(lia)
    ltac:(lia) ltac:(lia) (proj1 B1) (proj1 B2)) as Ht.
  cbv zeta in Ht. unfold cmac_aes_k_calculate. rewrite Ht.
  cbn [round cmac_prepare_last_block]. rewrite Nat2Z.id.
  set (flag := negb (length msg =? 0)%nat && _) in *.
  set (l := (length msg - 16 * (n - 1))%nat) in *.
  assert (Hflag : flag = true -> l = 16%nat).
  { intros [E0%negb_true_iff%Nat.eqb_neq Em%Nat.eqb_eq]%andb_true_iff.
    pose proof (Nat.div_mod (length msg) 16 ltac:(lia)). lia. }
  assert (Hl15 : flag = false -> (l < 16)%nat).
  { intros [E0%negb_false_iff%Nat.eqb_eq|Em%Nat.eqb_neq]%andb_false_iff; [lia|].
    pose proof (Nat.div_mod (length msg) 16 ltac:(lia)).
    pose proof (Nat.mod_upper_bound (length msg) 16 ltac:(lia)). lia. }
  destruct (cmac_last (take l msg) flag k1 k2 (Forall_take _ l msg Fm)) as [Bl El];
    [|exact B1|exact B2|].
  { rewrite length_take. destruct flag; [rewrite Hflag by done|specialize (Hl15 eq_refl)]; lia. }
  set (last := if flag then _ else _) in Bl, El |- *. clearbody last.
  rewrite Ek1, Ek2, !rev_involutive in El.
  assert (Bt : block (16 * n) (last ++ drop l msg)).
  { split; [rewrite length_app, (proj1 Bl), length_drop; lia|].
    apply Forall_app. split; [apply Bl|by apply Forall_drop]. }
  destruct (cmac_k_loop_spec key n Hk _ [] zero16 Bt ltac:(by_decide)) as [E B].
  rewrite app_nil_r in E, B. split; [|exact B]. rewrite E.
  change (rev zero16) with Rfc4493.const_Zero. f_equal. unfold CMAC, Rfc4493.CMAC.
  rewrite !length_rev, <- Hn, firstn_rev, skipn_rev. fold flag l.
  by rewrite rev_app_distr, El.
Qed.

(** ** Theorems *)

(** The stack below [aes_cmac]: at least [n] bytes. *)
Definition stack_ok (n : nat) (stack : list Z) : Prop := Forall byte stack /\ (n <= length stack)%nat.

#[export] Instance stack_ok_dec n s : Decision (stack_ok n s).
Proof. unfold stack_ok. apply _. Defined.

Lemma aes_cmac_of_spec stack key msg :
  stack_ok 80 stack -> block 16 key -> Forall byte msg -> (length msg <= 80)%nat ->
  aes_cmac_of stack key msg = rev (CMAC (rev key) (rev msg)) /\
  block 16 (aes_cmac_of stack key msg).
Proof.
  intros [Fs Ls] Hk Fm Lm. apply aes_cmac_spec; try done; [lia|].
  destruct (cmac_rounds_spec (Z.of_nat (length msg)) ltac:(lia)) as (Hn & Hb & _).
  rewrite Nat2Z.id in Hn.
  assert ((length msg + 15) / 16 < 6)%nat by (apply Nat.Div0.div_lt_upper_bound; lia). lia.
Qed.

(** The last [n] octets, most significant first. *)
Lemma rev_take_drop (l : list Z) n : length l = 16%nat -> (n <= 16)%nat ->
  rev (take n (drop (16 - n) l)) = take n (rev l).
Proof.
  intros L H. rewrite firstn_rev, L, take_ge by (rewrite length_drop; lia). done.
Qed.

(** C16: [aes_cmac] on octet strings stored least significant byte first computes
    RFC 4493's AES-CMAC, for every message of at most 65535 bytes, complete last
    block or not, empty message included; the result does not depend on what the
    unused bytes of the stack buffer hold.  The overload with a length returns the
    most significant octets, the truncation of the RFC. *)
Theorem aes_cmac_rfc4493 (stack key msg : list Z) (length : Z) :
  block 16 key -> Forall byte msg -> length = Z.of_nat (List.length msg) -> length < 65536 ->
  stack_ok (Z.to_nat (cmac_buffer length)) stack ->
  rev (aes_cmac stack key (Some msg) length) = CMAC (rev key) (rev msg) /\
  forall tlen, 0 <= tlen <= 16 ->
    (@rev Z) <$> aes_cmac_tlen stack key msg length tlen =
      Some (take (Z.to_nat tlen) (CMAC (rev key) (rev msg))).
Proof.
  intros Hk Fm HL Hm [Fs Hs].
  destruct (aes_cmac_spec stack key msg length Hk Fm HL Hm Fs Hs) as [E [L _]].
  rewrite <- (rev_involutive (CMAC _ _)), <- E. split; [done|].
  intros tlen Ht. unfold aes_cmac_tlen, kOctet16Length.
  destruct (Nat.ltb_spec 16 (Z.to_nat tlen)); [lia|]. cbn. f_equal. apply rev_take_drop; [done|lia].
Qed.

Lemma aes_cmac_rfc4493_witness :
  rev (aes_cmac (replicate 64 7) (fips_key 16) (Some (fips_key 40)) 40) =
    CMAC (rev (fips_key 16)) (rev (fips_key 40)).
Proof.
  refine (proj1 (aes_cmac_rfc4493 (replicate 64 7) (fips_key 16) (fips_key 40) 40 _ _ _ _ _));
    by_decide.
Defined.

(** Example 3 of RFC 4493: a 40-byte message. *)
Example aes_cmac_vector :
  rev (aes_cmac (replicate 64 9)
    (rev [0x2b; 0x7e; 0x15; 0x16; 0x28; 0xae; 0xd2; 0xa6; 0xab; 0xf7; 0x15; 0x88; 0x09; 0xcf; 0x4f; 0x3c])
    (Some (rev [0x6b; 0xc1; 0xbe; 0xe2; 0x2e; 0x40; 0x9f; 0x96; 0xe9; 0x3d; 0x7e; 0x11; 0x73; 0x93; 0x17; 0x2a;
      0xae; 0x2d; 0x8a; 0x57; 0x1e; 0x03; 0xac; 0x9c; 0x9e; 0xb7; 0x6f; 0xac; 0x45; 0xaf; 0x8e; 0x51;
      0x30; 0xc8; 0x1c; 0x46; 0xa3; 0x5c; 0xe4; 0x11])) 40) =
  [0xdf; 0xa6; 0x67; 0x47; 0xde; 0x9a; 0xe6; 0x30; 0x30; 0xca; 0x32; 0x61; 0x14; 0x97; 0xc8; 0x27].
Proof. vm_compute. reflexivity. Qed.

Lemma le32_spec l : block 16 l -> le32 l = le l mod 2 ^ 32.
Proof.
  intros [L F]. assert (Hl : l = [l.[0]; l.[1]; l.[2]; l.[3]] ++ drop 4 l) by (expose l; done).
  rewrite Hl at 2. rewrite le_app. cbn [length le]. change (256 ^ Z.of_nat 4) with (2 ^ 32).
  rewrite (Z.mul_comm (2 ^ 32)), Z_mod_plus_full.
  assert (H : forall i, 0 <= l.[i] < 256) by (intros i; apply (byte_rd l i F)).
  pose proof (H 0%nat). pose proof (H 1%nat). pose proof (H 2%nat). pose proof (H 3%nat).
  unfold le32. change (2 ^ 8) with 256. change (2 ^ 16) with 65536. change (2 ^ 24) with 16777216.
  change (2 ^ 32) with 4294967296. rewrite Z.mod_small; lia.
Qed.

(** Lengths and byte ranges of a message built from blocks. *)
Ltac block_facts :=
  repeat match goal with H : block _ ?l |- _ =>
    let L := fresh "L" in let F := fresh "F" in destruct H as [L F]
  end.
Ltac msg_bytes :=
  block_facts; repeat (apply Forall_app; split); repeat (apply Forall_cons; split);
  try done; try by_decide; by apply Forall_take.
Ltac msg_length :=
  block_facts; rewrite ?length_app, ?length_take, ?length_replicate; cbn [length]; lia.

(** Normalise the reversal of a concatenation of whole arguments. *)
Ltac rev_msg :=
  block_facts; rewrite ?firstn_all2 by lia; rewrite ?rev_app_distr; cbn [rev app];
  rewrite <- ?app_assoc; cbn [app].

Lemma f5_key_spec stack t counter n1 n2 a1 a2 :
  stack_ok 80 stack -> block 16 t -> byte counter ->
  block 16 n1 -> block 16 n2 -> block 7 a1 -> block 7 a2 ->
  rev (calculate_mac_key_or_ltk stack t counter [0x65; 0x6c; 0x74; 0x62] n1 n2 a1 a2 [0x00; 0x01]) =
    CoreSpec.f5_key (rev t) (rev n1) (rev n2) (rev a1) (rev a2) counter.
Proof.
  intros Hs Ht Hc Hn1 Hn2 Ha1 Ha2. unfold calculate_mac_key_or_ltk, CoreSpec.f5_key.
  cbn [take]. set (msg := [0; 1] ++ _).
  destruct (aes_cmac_of_spec stack t msg) as [-> _];
    [done|done|unfold msg; msg_bytes|unfold msg; msg_length|].
  rewrite rev_involutive. unfold msg. by rev_msg.
Qed.

Lemma f5_spec stack w n1 n2 a1 a2 :
  stack_ok 80 stack -> block 32 w -> block 16 n1 -> block 16 n2 -> block 7 a1 -> block 7 a2 ->
  (let '(mac_key, ltk) := f5 stack w n1 n2 a1 a2 in (rev mac_key, rev ltk)) =
    CoreSpec.f5 (rev w) (rev n1) (rev n2) (rev a1) (rev a2).
Proof.
  intros Hs Hw Hn1 Hn2 Ha1 Ha2. unfold f5, CoreSpec.f5.
  destruct (aes_cmac_of_spec stack f5_salt w) as [E B];
    [done|by_decide|apply Hw|rewrite (proj1 Hw); lia|].
  unfold aes_cmac_of in E, B. rewrite (proj1 Hw) in E, B. change (Z.of_nat 32) with 32 in E, B.
  assert (Et : rev (aes_cmac stack f5_salt (Some w) 32) = CMAC CoreSpec.SALT (rev w)).
  { rewrite E, rev_involutive. reflexivity. }
  rewrite !f5_key_spec by (done || by_decide). by rewrite Et.
Qed.

(** C34: the pairing functions [f4], [f5], [f6] and [g2] are those of the Core
    Specification (LE Secure Connections) on octet strings stored least significant
    byte first. *)
Theorem toolbox_pairing_functions (stack u v w x y r n1 n2 a1 a2 iocap : list Z) (z : Z) :
  stack_ok 80 stack -> block 32 u -> block 32 v -> block 32 w -> block 16 x -> block 16 y ->
  block 16 r -> block 16 n1 -> block 16 n2 -> block 7 a1 -> block 7 a2 -> block 3 iocap -> byte z ->
  rev (f4 stack u v x z) = CoreSpec.f4 (rev u) (rev v) (rev x) z /\
  (let '(mac_key, ltk) := f5 stack w n1 n2 a1 a2 in (rev mac_key, rev ltk)) =
    CoreSpec.f5 (rev w) (rev n1) (rev n2) (rev a1) (rev a2) /\
  rev (f6 stack x n1 n2 r iocap a1 a2) =
    CoreSpec.f6 (rev x) (rev n1) (rev n2) (rev r) (rev iocap) (rev a1) (rev a2) /\
  g2 stack u v x y = CoreSpec.g2 (rev u) (rev v) (rev x) (rev y).
Proof.
  intros Hs Hu Hv Hw Hx Hy Hr Hn1 Hn2 Ha1 Ha2 Hio Hz. split_and!.
  - unfold f4, CoreSpec.f4, kOctet32Length.
    destruct (aes_cmac_of_spec stack x ([z] ++ take 32 v ++ take 32 u)) as [-> _];
      [done|done|msg_bytes|msg_length|].
    rewrite rev_involutive. by rev_msg.
  - by apply f5_spec.
  - unfold f6, CoreSpec.f6.
    destruct (aes_cmac_of_spec stack x (take 7 a2 ++ take 7 a1 ++ take 3 iocap ++ r ++ n2 ++ n1))
      as [-> _]; [done|done|msg_bytes|msg_length|].
    rewrite rev_involutive. by rev_msg.
  - unfold g2, CoreSpec.g2, kOctet32Length, be.
    destruct (aes_cmac_of_spec stack x (y ++ take 32 v ++ take 32 u)) as [E B];
      [done|done|msg_bytes|msg_length|].
    rewrite le32_spec, E by done. change (10 ^ 6) with 1000000. do 3 f_equal. by rev_msg.
Qed.

Lemma toolbox_pairing_functions_witness :
  rev (f4 (replicate 80 7) (fips_key 32) (fips_key 32) fips_plain 1) =
    CoreSpec.f4 (rev (fips_key 32)) (rev (fips_key 32)) (rev fips_plain) 1.
Proof.
  refine (proj1 (toolbox_pairing_functions (replicate 80 7) (fips_key 32) (fips_key 32) (fips_key 32)
    fips_plain fips_plain fips_plain fips_plain fips_plain (fips_key 7) (fips_key 7) (fips_key 3) 1
    _ _ _ _ _ _ _ _ _ _ _ _ _)); by_decide.
Defined.

(** The conversions between LE long term keys and BR/EDR link keys are those of
    the Core Specification, with [h7] (CT2 supported by both devices) and with
    [h6]. *)
Theorem toolbox_key_conversion (stack key : list Z) (use_h7 : bool) :
  stack_ok 80 stack -> block 16 key ->
  rev (ltk_to_link_key stack key use_h7) = CoreSpec.ltk_to_link_key (rev key) use_h7 /\
  rev (link_key_to_ltk stack key use_h7) = CoreSpec.link_key_to_ltk (rev key) use_h7.
Proof.
  intros Hs Hk.
  assert (H : forall w id, block 16 w -> (id = key \/ block 4 id) ->
    aes_cmac_of stack w id = rev (CMAC (rev w) (rev id)) /\ block 16 (aes_cmac_of stack w id)).
  { intros w id Hw [-> | [Lid Fid]]; apply aes_cmac_of_spec; try done; try apply Hk; try lia.
    rewrite (proj1 Hk). lia. }
  unfold ltk_to_link_key, link_key_to_ltk, CoreSpec.ltk_to_link_key, CoreSpec.link_key_to_ltk.
  unfold h6, h7, CoreSpec.h6, CoreSpec.h7.
  destruct use_h7; (split;
    match goal with |- rev (aes_cmac_of _ (aes_cmac_of _ ?a ?b) ?c) = _ =>
      destruct (H a b) as [E B];
        [first [exact Hk|by_decide] | first [left; reflexivity|right; by_decide] |];
      destruct (H (aes_cmac_of stack a b) c B) as [-> _]; [right; by_decide|];
      rewrite E, !rev_involutive; reflexivity
    end).
Qed.

Lemma toolbox_key_conversion_witness :
  rev (ltk_to_link_key (replicate 80 7) (fips_key 16) true) =
    CoreSpec.ltk_to_link_key (rev (fips_key 16)) true.
Proof.
  refine (proj1 (toolbox_key_conversion (replicate 80 7) (fips_key 16) true _ _)); by_decide.
Defined.

Lemma xor_into_spec r p : length r = 16%nat -> length p = 16%nat -> xor_into r p = xorl r p.
Proof. intros Hr Hp. expose r. expose p. reflexivity. Qed.

(** The legacy pairing confirm value [c1] is the Core Specification's
    e(k, e(k, r XOR p1) XOR p2), and [s1] encrypts the least significant halves of
    its two random numbers, that of [r1] being the less significant. *)
Theorem toolbox_legacy_pairing (k r preq pres ia ra r1 r2 : list Z) (iat rat : Z) :
  block 16 k -> block 16 r -> block 7 preq -> block 7 pres -> block 6 ia -> block 6 ra ->
  byte iat -> byte rat -> block 16 r1 -> block 16 r2 ->
  rev (c1 k r preq pres iat ia rat ra) =
    CoreSpec.c1 (rev k) (rev r) (rev pres) (rev preq) rat iat (rev ia) (rev ra) /\
  rev (s1 k r1 r2) = AES128 (rev k) (rev (take 8 r2) ++ rev (take 8 r1)).
Proof.
  intros Hk Hr Hpq Hps Hia Hra Hiat Hrat H1 H2. split.
  - unfold c1, CoreSpec.c1.
    assert (B1 : block 16 ([iat] ++ [rat] ++ take 7 preq ++ take 7 pres))
      by (split; [msg_length|msg_bytes]).
    assert (B2 : block 16 (take 6 ra ++ take 6 ia ++ replicate 4 0))
      by (split; [msg_length|msg_bytes]).
    set (p1 := [iat] ++ _) in *. set (p2 := take 6 ra ++ _) in *.
    rewrite (xor_into_spec r p1) by (apply Hr || apply B1).
    destruct (aes_128_spec k (xorl r p1) Hk ltac:(auto with word)) as [E1 Be1].
    rewrite xor_into_spec by (apply Be1 || apply B2).
    destruct (aes_128_spec k (xorl (aes_128 k (xorl r p1)) p2) Hk ltac:(auto with word)) as [-> _].
    rewrite rev_involutive, rev_zip_xor by (rewrite (proj1 Be1), (proj1 B2); done).
    rewrite E1, rev_involutive, rev_zip_xor by (rewrite (proj1 Hr), (proj1 B1); done).
    assert (rev p1 = rev pres ++ rev preq ++ [rat] ++ [iat]) as -> by (unfold p1; by rev_msg).
    assert (rev p2 = replicate 4 0 ++ rev ia ++ rev ra) as -> by (unfold p2; by rev_msg).
    reflexivity.
  - unfold s1. destruct (aes_128_spec k (take 8 r1 ++ take 8 r2) Hk) as [-> _].
    { split; [msg_length|msg_bytes]. }
    by rewrite rev_involutive, rev_app_distr.
Qed.

Lemma toolbox_legacy_pairing_witness :
  rev (s1 (fips_key 16) fips_plain fips_cipher) =
    AES128 (rev (fips_key 16)) (rev (take 8 fips_cipher) ++ rev (take 8 fips_plain)).
Proof.
  refine (proj2 (toolbox_legacy_pairing (fips_key 16) fips_plain (fips_key 7) (fips_key 7)
    (fips_key 6) (fips_key 6) fips_plain fips_cipher 0 1 _ _ _ _ _ _ _ _ _ _)); by_decide.
Defined.
