(* ===== verification/AdvertiseData.v ===== *)
(** * Advertising data parser

    Model of [AdvertiseDataParser]
    ([src/system/stack/include/advertise_data_parser.h]) and of
    [IsTargetedAnnouncement] (connection_manager.cc), which walks the service data
    fields with it.  A byte array is a list of [Z]; a read outside the array is a
    fault, [None], as is running out of fuel, so that the totality theorems state
    that neither happens. *)

From stdpp Require Import base list option.
From Stdlib Require Import ZArith Lia.
From S2P Require Import Prelude.

Open Scope Z_scope.

(** ** The class *)

Definition trx_quirk : list Z :=
  [0x14; 0x09; 0x54; 0xFF; 0xFF; 0x20; 0x42; 0x4C; 0x45; 0x05; 0x12; 0xFF; 0x00; 0xE8; 0x03; 0x02;
   0x0A; 0x00].

(** [std::equal(ad + a, ad + a + n, trx_quirk + b)]. *)
Definition equal_at (ad : list Z) (a b n : nat) : bool :=
  bool_decide (take n (drop a ad) = take n (drop b trx_quirk)).

Definition MalformedPacketQuirk (ad : list Z) (position : nat) : bool :=
  (18 <=? length ad - position)%nat && equal_at ad position 0 3 &&
  equal_at ad (position + 5) 5 6 && equal_at ad (position + 12) 12 6.

Fixpoint remove_trailing_zeros_loop (fuel : nat) (ad : list Z) (position : nat) : option (list Z) :=
  match fuel with
  | O => None
  | S fuel =>
      if (position =? length ad)%nat then Some ad
      else
        len ← ad !! position;
        if len =? 0 then Some (take position ad)
        else if (length ad <=? position + Z.to_nat len)%nat then Some ad
        else remove_trailing_zeros_loop fuel ad (position + Z.to_nat len + 1)
  end.

(** Every iteration advances by at least two bytes; one per byte is enough. *)
Definition RemoveTrailingZeros (ad : list Z) : option (list Z) :=
  remove_trailing_zeros_loop (S (length ad)) ad 0.

Fixpoint is_valid_loop (fuel : nat) (ad : list Z) (position : nat) : option bool :=
  match fuel with
  | O => None
  | S fuel =>
      if (position =? length ad)%nat then Some true
      else
        len ← ad !! position;
        if len =? 0 then Some (forallb (fun b => b =? 0) (drop (position + 1) ad))
        else if (length ad <=? position + Z.to_nat len)%nat then
          if MalformedPacketQuirk ad position then Some true else Some false
        else is_valid_loop fuel ad (position + Z.to_nat len + 1)
  end.

Definition IsValid (ad : list Z) : option bool := is_valid_loop (S (length ad)) ad 0.

(** [Some None] is the null pointer (with [*p_length = 0]); [Some (Some (p, l))]
    the pointer [ad + p] with [*p_length = l]. *)
Fixpoint get_field_loop (fuel : nat) (ad : list Z) (type : Z) (position : nat)
    : option (option (nat * Z)) :=
  match fuel with
  | O => None
  | S fuel =>
      if (position =? length ad)%nat then Some None
      else
        len ← ad !! position;
        if len =? 0 then Some None
        else if (length ad <=? position + Z.to_nat len)%nat then Some None
        else
          adv_type ← ad !! (position + 1)%nat;
          if adv_type =? type then Some (Some (position + 2, u8 (len - 1)))%nat
          else get_field_loop fuel ad type (position + Z.to_nat len + 1)
  end.

Definition GetFieldByType (ad : list Z) (type : Z) : option (option (nat * Z)) :=
  get_field_loop (S (length ad)) ad type 0.

(** ** Targeted announcements *)

Definition BTM_BLE_AD_TYPE_SERVICE_DATA_TYPE : Z := 0x16.

(** One iteration of the [while]: [start] is [p_service_data + service_data_len]
    as an offset in [p_eir]. *)
Fixpoint targeted_announcement_loop (fuel : nat) (eir : list Z) (start : nat) : option bool :=
  match fuel with
  | O => None
  | S fuel =>
      field ← GetFieldByType (drop start eir) BTM_BLE_AD_TYPE_SERVICE_DATA_TYPE;
      match field with
      | None => Some false
      | Some (p, service_data_len) =>
          let p_service_data := (start + p)%nat in
          let next := (p_service_data + Z.to_nat service_data_len)%nat in
          if service_data_len <? 3 then targeted_announcement_loop fuel eir next
          else
            b0 ← eir !! p_service_data;
            b1 ← eir !! (p_service_data + 1)%nat;
            let uuid := b0 + Z.shiftl b1 8 in
            if negb (uuid =? 0x184E) && negb (uuid =? 0x1853)
            then targeted_announcement_loop fuel eir next
            else
              announcement_type ← eir !! (p_service_data + 2)%nat;
              if announcement_type =? 0x01 then Some true
              else targeted_announcement_loop fuel eir next
      end
  end.

Definition IsTargetedAnnouncement (eir : list Z) : option bool :=
  targeted_announcement_loop (S (length eir)) eir 0.

(** ** Specification: a sequence of fields *)

Record field := { f_type : Z; f_data : list Z }.

Definition field_ok (f : field) : Prop :=
  byte (f_type f) /\ Forall byte (f_data f) /\ (length (f_data f) <= 254)%nat.

Definition enc_field (f : field) : list Z :=
  Z.of_nat (S (length (f_data f))) :: f_type f :: f_data f.

Definition encode (fs : list field) : list Z := flat_map enc_field fs.

(** What stops a walk: the end, a zero length, or a field longer than the rest. *)
Inductive tail := TEnd | TZero (rest : list Z) | TTrunc (len : Z) (rest : list Z).

Definition tail_bytes (t : tail) : list Z :=
  match t with TEnd => [] | TZero rest => 0 :: rest | TTrunc len rest => len :: rest end.

Definition tail_ok (t : tail) : Prop :=
  match t with
  | TEnd => True
  | TZero rest => Forall byte rest
  | TTrunc len rest => byte len /\ len <> 0 /\ Forall byte rest /\ (length rest < Z.to_nat len)%nat
  end.

(** ** Every byte string is a sequence of fields and a tail *)

Lemma encode_cons f fs : encode (f :: fs) = enc_field f ++ encode fs.
Proof. done. Qed.

Lemma length_enc_field f : length (enc_field f) = S (S (length (f_data f))).
Proof. done. Qed.

Lemma parse_total (ad : list Z) : Forall byte ad ->
  exists fs t, ad = encode fs ++ tail_bytes t /\ Forall field_ok fs /\ tail_ok t.
Proof.
  remember (length ad) as n eqn:Hn. revert ad Hn.
  induction n as [n IH] using (well_founded_induction lt_wf). intros ad Hn F.
  destruct ad as [|len rest]; [by exists [], TEnd|].
  apply Forall_cons_1 in F as [Hl Fr]. unfold in_range in Hl. change (2 ^ 8) with 256 in Hl.
  destruct (decide (len = 0)) as [-> | Hz]; [by exists [], (TZero rest)|].
  destruct (decide (length rest < Z.to_nat len)%nat) as [Ht|Ht].
  { exists [], (TTrunc len rest). split; [done|]. split; [done|]. split_and!; try done. }
  destruct rest as [|ty rest]; [cbn in Ht; lia|]. apply Forall_cons_1 in Fr as [Hty Fr].
  set (k := (Z.to_nat len - 1)%nat). cbn [length] in Ht, Hn.
  destruct (IH (length (drop k rest)) ltac:(rewrite length_drop; lia) (drop k rest) eq_refl
    (Forall_drop _ _ _ Fr)) as (fs & t & E & Ffs & Ht').
  exists ({| f_type := ty; f_data := take k rest |} :: fs), t. split_and!; [|constructor; [|done]|done].
  - rewrite encode_cons, <- app_assoc, <- E. unfold enc_field. cbn [f_data f_type app].
    rewrite length_take, Nat.min_l, take_drop by lia. do 2 f_equal. lia.
  - split_and!; cbn; [done|by apply Forall_take|rewrite length_take; lia].
Qed.

(** ** The loops, field by field *)

(** At a field boundary the walk sees the bytes from there on. *)
Section walk.
Context (pre : list Z).

Lemma walk_lookup (suf : list Z) i : (pre ++ suf) !! (length pre + i)%nat = suf !! i.
Proof. rewrite lookup_app_r by lia. f_equal. lia. Qed.

Lemma walk_field_head f rest : (pre ++ enc_field f ++ rest) !! length pre =
  Some (Z.of_nat (S (length (f_data f)))).
Proof. rewrite <- (Nat.add_0_r (length pre)), walk_lookup. done. Qed.

Lemma walk_field_type f rest : (pre ++ enc_field f ++ rest) !! (length pre + 1)%nat =
  Some (f_type f).
Proof. by rewrite walk_lookup. Qed.

Lemma walk_not_end suf : suf <> [] -> (length pre =? length (pre ++ suf))%nat = false.
Proof. intros H. apply Nat.eqb_neq. rewrite length_app. destruct suf; [done|]. cbn. lia. Qed.

Lemma walk_fits f rest :
  (length (pre ++ enc_field f ++ rest) <=?
    length pre + Z.to_nat (Z.of_nat (S (length (f_data f)))))%nat = false.
Proof. apply Nat.leb_gt. rewrite !length_app, length_enc_field. lia. Qed.

Lemma walk_next f :
  (length pre + Z.to_nat (Z.of_nat (S (length (f_data f)))) + 1)%nat = length (pre ++ enc_field f).
Proof. rewrite length_app, length_enc_field. lia. Qed.

Lemma walk_trunc len rest : (length rest < Z.to_nat len)%nat ->
  (length (pre ++ len :: rest) <=? length pre + Z.to_nat len)%nat = true.
Proof. intros H. apply Nat.leb_le. rewrite length_app. cbn. lia. Qed.

Lemma walk_tail_head suf b : (pre ++ b :: suf) !! length pre = Some b.
Proof. by rewrite <- (Nat.add_0_r (length pre)), walk_lookup. Qed.
End walk.

Lemma field_len_nonzero f : (Z.of_nat (S (length (f_data f))) =? 0) = false.
Proof. apply Z.eqb_neq. lia. Qed.

(** The rewrites of one step over a field. *)
Ltac walk_field :=
  rewrite walk_not_end by done; rewrite walk_field_head; cbn [mbind option_bind];
  rewrite field_len_nonzero, walk_fits; rewrite ?walk_field_type; cbn [mbind option_bind];
  rewrite ?walk_next.

(** [RemoveTrailingZeros] keeps the fields and cuts at a zero length. *)
Definition cut_tail (t : tail) : list Z := match t with TZero _ => [] | _ => tail_bytes t end.

Lemma remove_trailing_zeros_walk fs t : tail_ok t -> forall pre fuel,
  (length (encode fs ++ tail_bytes t) < fuel)%nat ->
  remove_trailing_zeros_loop fuel (pre ++ encode fs ++ tail_bytes t) (length pre) =
    Some (pre ++ encode fs ++ cut_tail t).
Proof.
  intros Ht. induction fs as [|f fs IH]; intros pre fuel Hf; (destruct fuel as [|fuel]; [lia|]);
    cbn [remove_trailing_zeros_loop].
  - change (encode []) with (@nil Z). cbn [app]. destruct t as [|rest|len rest]; cbn [tail_bytes cut_tail].
    + by rewrite app_nil_r, Nat.eqb_refl.
    + rewrite walk_not_end, walk_tail_head by done. cbn. by rewrite app_nil_r, take_app_length.
    + destruct Ht as (Hb & Hz & Fr & Hl). rewrite walk_not_end, walk_tail_head by done. cbn.
      apply Z.eqb_neq in Hz. rewrite Hz, walk_trunc by done. done.
  - rewrite encode_cons in Hf |- *. rewrite <- app_assoc in Hf |- *. walk_field.
    rewrite (app_assoc pre). rewrite IH by (rewrite length_app, length_enc_field in Hf; lia).
    by rewrite <- !app_assoc.
Qed.

(** The verdict of [IsValid] on the tail. *)
Definition tail_valid (ad : list Z) (position : nat) (t : tail) : bool :=
  match t with
  | TEnd => true
  | TZero rest => forallb (fun b => b =? 0) rest
  | TTrunc _ _ => MalformedPacketQuirk ad position
  end.

Lemma is_valid_walk fs t : tail_ok t -> forall pre fuel,
  (length (encode fs ++ tail_bytes t) < fuel)%nat ->
  let ad := pre ++ encode fs ++ tail_bytes t in
  is_valid_loop fuel ad (length pre) = Some (tail_valid ad (length (pre ++ encode fs)) t).
Proof.
  intros Ht. induction fs as [|f fs IH]; intros pre fuel Hf; (destruct fuel as [|fuel]; [lia|]);
    cbn [is_valid_loop]; cbv zeta.
  - change (encode []) with (@nil Z). cbn [app]. destruct t as [|rest|len rest]; cbn [tail_bytes tail_valid].
    + by rewrite app_nil_r, Nat.eqb_refl.
    + rewrite walk_not_end, walk_tail_head by done. cbn.
      by rewrite (cons_middle 0), app_assoc, drop_app_length' by (rewrite length_app; cbn; lia).
    + destruct Ht as (Hb & Hz & Fr & Hl). rewrite walk_not_end, walk_tail_head by done. cbn.
      apply Z.eqb_neq in Hz. rewrite Hz, walk_trunc, app_nil_r by done.
      by destruct (MalformedPacketQuirk _ _).
  - rewrite encode_cons in Hf |- *. rewrite <- app_assoc in Hf |- *. walk_field.
    rewrite (app_assoc pre). rewrite IH by (rewrite length_app, length_enc_field in Hf; lia).
    by rewrite <- !app_assoc.
Qed.

(** The first field of a type, with the offset of its data. *)
Fixpoint find_field (fs : list field) (type : Z) (off : nat) : option (nat * field) :=
  match fs with
  | [] => None
  | f :: fs =>
      if f_type f =? type then Some (off + 2, f)%nat
      else find_field fs type (off + length (enc_field f))
  end.

Definition field_ptr (r : option (nat * field)) : option (nat * Z) :=
  (fun '(p, f) => (p, Z.of_nat (length (f_data f)))) <$> r.

Lemma get_field_walk type fs t : Forall field_ok fs -> tail_ok t -> forall pre fuel,
  (length (encode fs ++ tail_bytes t) < fuel)%nat ->
  get_field_loop fuel (pre ++ encode fs ++ tail_bytes t) type (length pre) =
    Some (field_ptr (find_field fs type (length pre))).
Proof.
  intros Ffs Ht. induction Ffs as [|f fs Hok Ffs IH]; intros pre fuel Hf;
    (destruct fuel as [|fuel]; [lia|]); cbn [get_field_loop find_field].
  - change (encode []) with (@nil Z). cbn [app]. destruct t as [|rest|len rest]; cbn [tail_bytes].
    + by rewrite app_nil_r, Nat.eqb_refl.
    + by rewrite walk_not_end, walk_tail_head by done.
    + destruct Ht as (Hb & Hz & Fr & Hl). rewrite walk_not_end, walk_tail_head by done. cbn.
      apply Z.eqb_neq in Hz. by rewrite Hz, walk_trunc by done.
  - rewrite encode_cons in Hf |- *. rewrite <- app_assoc in Hf |- *. walk_field.
    destruct (f_type f =? type).
    + cbn. do 3 f_equal. destruct Hok as (_ & _ & Hlen).
      rewrite wrap_small by (unfold in_range; change (2 ^ 8) with 256; lia). lia.
    + rewrite (app_assoc pre), IH by (rewrite length_app, length_enc_field in Hf; lia).
      by rewrite length_app.
Qed.

(** ** Fields found *)

Lemma find_field_split fs type off p f : find_field fs type off = Some (p, f) ->
  exists fs1 fs2, fs = fs1 ++ f :: fs2 /\ f_type f = type /\
    Forall (fun g => f_type g <> type) fs1 /\ p = (off + length (encode fs1) + 2)%nat.
Proof.
  revert off. induction fs as [|g fs IH]; intros off; [done|]. cbn [find_field].
  destruct (Z.eqb_spec (f_type g) type) as [E|E].
  - intros [= <- <-]. exists [], fs. split_and!; try done. change (encode []) with (@nil Z). cbn. lia.
  - intros (fs1 & fs2 & -> & Ht & F1 & ->)%IH. exists (g :: fs1), fs2. split_and!; try done.
    + by constructor.
    + rewrite encode_cons, length_app. lia.
Qed.

Lemma find_field_none fs type off : find_field fs type off = None ->
  Forall (fun g => f_type g <> type) fs.
Proof.
  revert off. induction fs as [|g fs IH]; intros off; cbn [find_field]; [constructor|].
  destruct (Z.eqb_spec (f_type g) type); [done|]. intros H%IH. by constructor.
Qed.

Lemma encode_app fs gs : encode (fs ++ gs) = encode fs ++ encode gs.
Proof. unfold encode. apply flat_map_app. Qed.

(** The data of a field lies at its offset. *)
Lemma field_data_at pre f suf :
  take (length (f_data f)) (drop (length pre + 2) (pre ++ enc_field f ++ suf)) = f_data f.
Proof.
  rewrite drop_app_add. unfold enc_field. cbn [app drop]. apply take_app_length.
Qed.

Lemma length_encode fs : (2 * length fs <= length (encode fs))%nat.
Proof.
  induction fs as [|f fs IH]; [done|]. rewrite encode_cons, length_app, length_enc_field.
  cbn [length]. lia.
Qed.

(** ** Targeted announcements among the fields *)

Definition announces (f : field) : bool :=
  (f_type f =? BTM_BLE_AD_TYPE_SERVICE_DATA_TYPE) &&
  match f_data f with
  | b0 :: b1 :: b2 :: _ =>
      ((b0 + 256 * b1 =? 0x184E) || (b0 + 256 * b1 =? 0x1853)) && (b2 =? 1)
  | _ => false
  end.

Lemma existsb_other_types fs :
  Forall (fun g => f_type g <> BTM_BLE_AD_TYPE_SERVICE_DATA_TYPE) fs -> existsb announces fs = false.
Proof.
  induction 1 as [|g fs Hg _ IH]; [done|]. cbn [existsb]. rewrite IH. unfold announces.
  by apply Z.eqb_neq in Hg as ->.
Qed.

(** The decision on one service data field, at its place in [eir]. *)
Lemma announces_step (eir : list Z) (p : nat) (f : field) (next : option bool) :
  f_type f = BTM_BLE_AD_TYPE_SERVICE_DATA_TYPE ->
  (forall i, (i < length (f_data f))%nat -> eir !! (p + i)%nat = f_data f !! i) ->
  (if Z.of_nat (length (f_data f)) <? 3 then next
   else
     b0 ← eir !! p;
     b1 ← eir !! (p + 1)%nat;
     let uuid := b0 + Z.shiftl b1 8 in
     if negb (uuid =? 0x184E) && negb (uuid =? 0x1853) then next
     else
       announcement_type ← eir !! (p + 2)%nat;
       if announcement_type =? 0x01 then Some true else next) =
  if announces f then Some true else next.
Proof.
  intros Ht Hd. unfold announces. rewrite Ht, Z.eqb_refl.
  destruct (f_data f) as [|b0 [|b1 [|b2 d]]] eqn:E; [done..|]. cbn [length] in *.
  destruct (Z.ltb_spec (Z.of_nat (S (S (S (length d))))) 3); [lia|].
  pose proof (Hd 0%nat ltac:(lia)) as H0. rewrite Nat.add_0_r in H0.
  rewrite H0, (Hd 1%nat), (Hd 2%nat) by lia. cbn -[Z.mul Z.add].
  rewrite Z.shiftl_mul_pow2, (Z.mul_comm b1) by lia. change (2 ^ 8) with 256.
  destruct (b0 + 256 * b1 =? 6222), (b0 + 256 * b1 =? 6227), (b2 =? 1); done.
Qed.

Lemma enc_field_lookup f r i : (i < length (f_data f))%nat ->
  (enc_field f ++ r) !! (2 + i)%nat = f_data f !! i.
Proof. intros H. exact (lookup_app_l (f_data f) r i H). Qed.

Lemma targeted_announcement_walk t : tail_ok t -> forall n fs, (length fs <= n)%nat ->
  Forall field_ok fs -> forall pre fuel, (n < fuel)%nat ->
  targeted_announcement_loop fuel (pre ++ encode fs ++ tail_bytes t) (length pre) =
    Some (existsb announces fs).
Proof.
  intros Ht. induction n as [|n IH]; intros fs Hn Ffs pre fuel Hf;
    (destruct fuel as [|fuel]; [lia|]); cbn [targeted_announcement_loop];
    rewrite drop_app_length; unfold GetFieldByType;
    rewrite (get_field_walk _ fs t Ffs Ht []) by lia; cbn [mbind option_bind length].
  { destruct fs; [done|cbn in Hn; lia]. }
  destruct (find_field fs _ 0) as [[p f]|] eqn:E; cbn [field_ptr fmap option_fmap option_map].
  2:{ by rewrite existsb_other_types by (by eapply find_field_none). }
  destruct (find_field_split _ _ _ _ _ E) as (fs1 & fs2 & -> & Hty & F1 & ->).
  apply Forall_app in Ffs as [_ [_ F2]%Forall_cons_1]. rewrite length_app in Hn. cbn [length] in Hn.
  set (pre' := pre ++ encode fs1).
  assert (Hpre : (length pre + (0 + length (encode fs1) + 2) = length pre' + 2)%nat)
    by (unfold pre'; rewrite length_app; lia).
  assert (Heir : pre ++ encode (fs1 ++ f :: fs2) ++ tail_bytes t =
                 pre' ++ enc_field f ++ encode fs2 ++ tail_bytes t).
  { unfold pre'. rewrite encode_app, encode_cons, <- !app_assoc. done. }
  rewrite Hpre, Heir.
  replace (length pre' + 2 + Z.to_nat (Z.of_nat (length (f_data f))))%nat
    with (length (pre' ++ enc_field f)) by (rewrite length_app, length_enc_field; lia).
  rewrite announces_step by (try done; intros i Hi;
    by rewrite <- Nat.add_assoc, walk_lookup, enc_field_lookup by done).
  rewrite (app_assoc pre'), IH by (done || lia).
  rewrite existsb_app, (existsb_other_types fs1 F1). cbn. by destruct (announces f).
Qed.

Lemma forallb_zeros n : forallb (fun b => b =? 0) (replicate n 0) = true.
Proof. by induction n. Qed.

(** ** Theorems *)

(** On every byte array the parser walks the fields the array consists of, up to
    its end, a zero length or a truncated field, and never reads outside it:
    [RemoveTrailingZeros] keeps the fields and drops what follows a zero length,
    [IsValid] accepts exactly a complete sequence, zero padding or the known quirk,
    and [GetFieldByType] returns the first field of the type. *)
Theorem advertise_data_parser_walks (ad : list Z) : Forall byte ad ->
  exists fs t, ad = encode fs ++ tail_bytes t /\ Forall field_ok fs /\ tail_ok t /\
    RemoveTrailingZeros ad = Some (encode fs ++ cut_tail t) /\
    IsValid ad = Some (tail_valid ad (length (encode fs)) t) /\
    (forall type, GetFieldByType ad type = Some (field_ptr (find_field fs type 0))).
Proof.
  intros F. destruct (parse_total ad F) as (fs & t & -> & Ffs & Ht). exists fs, t.
  split_and!; try done.
  - apply (remove_trailing_zeros_walk fs t Ht []). lia.
  - apply (is_valid_walk fs t Ht []). lia.
  - intros type. apply (get_field_walk type fs t Ffs Ht []). lia.
Qed.

Lemma advertise_data_parser_walks_witness :
  exists fs t, [2; 1; 6; 0; 0] = encode fs ++ tail_bytes t /\ Forall field_ok fs /\ tail_ok t /\
    RemoveTrailingZeros [2; 1; 6; 0; 0] = Some (encode fs ++ cut_tail t) /\
    IsValid [2; 1; 6; 0; 0] = Some (tail_valid [2; 1; 6; 0; 0] (length (encode fs)) t) /\
    (forall type, GetFieldByType [2; 1; 6; 0; 0] type = Some (field_ptr (find_field fs type 0))).
Proof. refine (advertise_data_parser_walks [2; 1; 6; 0; 0] _). by_decide. Defined.

(** C40: what is encoded is found again: on a sequence of fields followed by zero
    padding, [IsValid] accepts, [RemoveTrailingZeros] returns the fields alone, and
    the pointer [GetFieldByType] returns delimits, inside the array, the data of the
    first field of the type ([None] when there is none). *)
Theorem advertise_data_roundtrip (fs : list field) (n : nat) (type : Z) :
  Forall field_ok fs ->
  let ad := encode fs ++ replicate n 0 in
  IsValid ad = Some true /\ RemoveTrailingZeros ad = Some (encode fs) /\
  match GetFieldByType ad type with
  | Some (Some (p, len)) =>
      exists fs1 f fs2, fs = fs1 ++ f :: fs2 /\ f_type f = type /\
        Forall (fun g => f_type g <> type) fs1 /\
        (p + Z.to_nat len <= length ad)%nat /\ take (Z.to_nat len) (drop p ad) = f_data f
  | Some None => Forall (fun g => f_type g <> type) fs
  | None => False
  end.
Proof.
  intros Ffs ad.
  set (t := match n with O => TEnd | S n => TZero (replicate n 0) end).
  assert (Et : tail_bytes t = replicate n 0) by (by destruct n).
  assert (Ht : tail_ok t).
  { destruct n; [done|]. apply Forall_replicate. by_decide. }
  subst ad. rewrite <- Et. split_and!.
  - etrans; [apply (is_valid_walk fs t Ht []); lia|]. destruct n; [done|]. cbn [t tail_valid]. f_equal.
    apply forallb_zeros.
  - etrans; [apply (remove_trailing_zeros_walk fs t Ht []); lia|]. cbn [app].
    replace (cut_tail t) with (@nil Z) by (by destruct n). by rewrite app_nil_r.
  - unfold GetFieldByType. rewrite (get_field_walk type fs t Ffs Ht []) by lia. cbn [length].
    destruct (find_field fs type 0) as [[p f]|] eqn:E; cbn [field_ptr fmap option_fmap option_map].
    2:{ by eapply find_field_none. }
    destruct (find_field_split _ _ _ _ _ E) as (fs1 & fs2 & -> & Hty & F1 & ->).
    exists fs1, f, fs2. rewrite Nat2Z.id, encode_app, encode_cons, <- !app_assoc, Nat.add_0_l.
    split_and!; try done; [|apply field_data_at].
    rewrite !length_app, length_enc_field. lia.
Qed.

Lemma advertise_data_roundtrip_witness :
  IsValid (encode [{| f_type := 1; f_data := [6] |}; {| f_type := 9; f_data := [65; 66] |}]
             ++ replicate 3 0) = Some true.
Proof.
  refine (proj1 (advertise_data_roundtrip
    [{| f_type := 1; f_data := [6] |}; {| f_type := 9; f_data := [65; 66] |}] 3 9 _)).
  repeat constructor; cbn; by_decide || lia.
Defined.

(** [IsTargetedAnnouncement] visits every service data field of the report and
    answers whether one of them is a targeted CAP (0x1853) or ASCS (0x184E)
    announcement; short fields and other UUIDs are skipped, and no read is out of
    bounds. *)
Theorem targeted_announcement_iff (eir : list Z) : Forall byte eir ->
  exists fs t, eir = encode fs ++ tail_bytes t /\ tail_ok t /\
    IsTargetedAnnouncement eir = Some (existsb announces fs).
Proof.
  intros F. destruct (parse_total eir F) as (fs & t & -> & Ffs & Ht). exists fs, t.
  split_and!; [done|done|].
  apply (targeted_announcement_walk t Ht (length fs) fs (le_n _) Ffs []).
  pose proof (length_encode fs). rewrite length_app. lia.
Qed.

Lemma targeted_announcement_iff_witness :
  exists fs t, [2; 1; 6; 4; 0x16; 0x53; 0x18; 1] = encode fs ++ tail_bytes t /\ tail_ok t /\
    IsTargetedAnnouncement [2; 1; 6; 4; 0x16; 0x53; 0x18; 1] = Some (existsb announces fs).
Proof. refine (targeted_announcement_iff [2; 1; 6; 4; 0x16; 0x53; 0x18; 1] _). by_decide. Defined.

Example targeted_announcement_ex :
  IsTargetedAnnouncement [2; 1; 6; 4; 0x16; 0x53; 0x18; 1] = Some true /\
  IsTargetedAnnouncement [3; 0x16; 0x53; 0x18; 4; 0x16; 0x53; 0x18; 0] = Some false.
Proof. done. Qed.
