(* ===== verification/ConnectionManager.v ===== *)
(** * LE connection manager

    Model of [src/system/stack/connection_manager/connection_manager.cc]: the
    table of devices applications want to connect to, and the commands it sends to
    the LE ACL manager (accept and ignore connections from a device), to the
    targeted announcement filter and to its clients.

    The state is the map [bgconn_dev]; every operation returns its result, the new
    state and the list of commands it issued, in order.  The recursive mutex makes
    each operation atomic.  Bluetooth addresses and application ids are integers;
    the security database ([btm_find_dev]), the controller and the feature flag are
    parameters; the address with type a command carries is computed from the
    database as [BTM_Sec_GetAddressWithType] of [btm_dev.cc] does (the build for
    Android: without [TARGET_FLOSS]). *)

From stdpp Require Import base list gmap sets fin_maps sorting.
From Stdlib Require Import ZArith Lia.
From S2P Require Import Prelude AdvertiseData.

Open Scope Z_scope.

(** ** Data *)

Abbreviation RawAddress := Z (only parsing).
Abbreviation tAPP_ID := Z (only parsing).

(** [doing_direct_conn] maps an application to its armed alarm: the key set is the
    set of applications with a running 30 s timer. *)
Record tAPPS_CONNECTING := {
  doing_bg_conn : gset tAPP_ID;
  doing_targeted_announcements_conn : gset tAPP_ID;
  is_in_accept_list : bool;
  doing_direct_conn : gset tAPP_ID;
}.

(** A value-initialised entry, as [operator[]] inserts it. *)
Definition new_entry : tAPPS_CONNECTING := {|
  doing_bg_conn := ∅; doing_targeted_announcements_conn := ∅;
  is_in_accept_list := false; doing_direct_conn := ∅ |}.

Definition set_bg (s : gset tAPP_ID) (e : tAPPS_CONNECTING) : tAPPS_CONNECTING := {|
  doing_bg_conn := s; doing_targeted_announcements_conn := doing_targeted_announcements_conn e;
  is_in_accept_list := is_in_accept_list e; doing_direct_conn := doing_direct_conn e |}.
Definition set_ta (s : gset tAPP_ID) (e : tAPPS_CONNECTING) : tAPPS_CONNECTING := {|
  doing_bg_conn := doing_bg_conn e; doing_targeted_announcements_conn := s;
  is_in_accept_list := is_in_accept_list e; doing_direct_conn := doing_direct_conn e |}.
Definition set_list (b : bool) (e : tAPPS_CONNECTING) : tAPPS_CONNECTING := {|
  doing_bg_conn := doing_bg_conn e;
  doing_targeted_announcements_conn := doing_targeted_announcements_conn e;
  is_in_accept_list := b; doing_direct_conn := doing_direct_conn e |}.
Definition set_direct (s : gset tAPP_ID) (e : tAPPS_CONNECTING) : tAPPS_CONNECTING := {|
  doing_bg_conn := doing_bg_conn e;
  doing_targeted_announcements_conn := doing_targeted_announcements_conn e;
  is_in_accept_list := is_in_accept_list e; doing_direct_conn := s |}.

Abbreviation bgconn := (gmap RawAddress tAPPS_CONNECTING).

(** Type and address. *)
Abbreviation tBLE_BD_ADDR := (Z * RawAddress)%type (only parsing).
Definition BLE_ADDR_PUBLIC : Z := 0x00.
Definition BLE_ADDR_ANONYMOUS : Z := 0xFF.
Definition BT_DEVICE_TYPE_BLE : Z := 0x02.

(** The fields of a security device record the connection manager reads. *)
Record dev_rec := {
  device_type : Z;
  ble_addr_type : Z;
  identity_address_with_type : tBLE_BD_ADDR;
}.

(** Commands to the rest of the stack.  [AcceptLe] and [IgnoreLe] carry the address
    with type passed to the ACL manager, and nothing else of the device. *)
Inductive command :=
| AcceptLe (address_with_type : tBLE_BD_ADDR) (is_direct relax : bool)
| IgnoreLe (address_with_type : tBLE_BD_ADDR)
| FilteringSet (enable : bool)
| ClearFilterAcceptList
| OnConnectionTimedOut (app_id : tAPP_ID) (address : RawAddress)
| PostDirectConnectAdd (app_id : tAPP_ID) (address : RawAddress).

(** [set.empty()] and [*set.begin()] of an ordered set. *)
Definition nonempty (s : gset tAPP_ID) : bool := negb (bool_decide (s = ∅)).
Definition begin (s : gset tAPP_ID) : option tAPP_ID := head (merge_sort (≤) (elements s)).

(** [bgconn_dev[address]], updated. *)
Definition update_at (address : RawAddress) (f : tAPPS_CONNECTING -> tAPPS_CONNECTING) (s : bgconn)
    : bgconn :=
  <[address := f (default new_entry (s !! address))]> s.

(** ** Operations *)

Definition num_of_targeted_announcements_users (s : bgconn) : nat :=
  size (filter (fun '(_, e) => negb (is_in_accept_list e) &&
                               nonempty (doing_targeted_announcements_conn e) = true) s).

Definition is_anyone_interested_to_use_accept_list (e : tAPPS_CONNECTING) : bool :=
  if nonempty (doing_targeted_announcements_conn e) then nonempty (doing_direct_conn e)
  else nonempty (doing_bg_conn e) || nonempty (doing_direct_conn e).

Definition is_anyone_connecting (e : tAPPS_CONNECTING) : bool :=
  nonempty (doing_bg_conn e) || nonempty (doing_direct_conn e) ||
  nonempty (doing_targeted_announcements_conn e).

Definition num_entries (s : bgconn) : Z :=
  Z.of_nat (size (filter (fun '(_, e) => is_in_accept_list e = true) s)).

Definition get_apps_connecting_to (address : RawAddress) (s : bgconn) : gset tAPP_ID :=
  match s !! address with
  | None => ∅
  | Some e => doing_bg_conn e ∪ doing_targeted_announcements_conn e ∪ doing_direct_conn e
  end.

Definition is_background_connection (address : RawAddress) (s : bgconn) : bool :=
  match s !! address with None => false | Some e => is_in_accept_list e end.

Definition is_direct_connection (address : RawAddress) (s : bgconn) : bool :=
  match s !! address with None => false | Some e => nonempty (doing_direct_conn e) end.

(** Return value, new table, commands issued. *)
Abbreviation result := (bool * bgconn * list command)%type (only parsing).

Section operations.
Context (btm_find_dev : RawAddress -> option dev_rec).
Context (BTM_GetHCIConnHandle : RawAddress -> Z).
Context (LeFilterAcceptListSize : Z).
Context (flag_idempotent_direct_connect_add : bool).

Definition is_device_type_has_ble (p_dev_rec : dev_rec) : bool :=
  negb (Z.land (device_type p_dev_rec) BT_DEVICE_TYPE_BLE =? 0).

Definition BTM_Sec_GetAddressWithType (bd_addr : RawAddress) : tBLE_BD_ADDR :=
  match btm_find_dev bd_addr with
  | None => (BLE_ADDR_PUBLIC, bd_addr)
  | Some p_dev_rec =>
      if negb (is_device_type_has_ble p_dev_rec) then (BLE_ADDR_PUBLIC, bd_addr)
      else if snd (identity_address_with_type p_dev_rec) =? 0
      then (ble_addr_type p_dev_rec, bd_addr)
      else identity_address_with_type p_dev_rec
  end.

(** [ACL_AcceptLeConnectionFrom] and [ACL_IgnoreLeConnectionFrom] on the address
    with the type of the security database. *)
Definition accept (address : RawAddress) (is_direct relax : bool) : command :=
  AcceptLe (BTM_Sec_GetAddressWithType address) is_direct relax.
Definition ignore (address : RawAddress) : command :=
  IgnoreLe (BTM_Sec_GetAddressWithType address).

Definition accept_list_is_full (s : bgconn) : bool := num_entries s >=? LeFilterAcceptListSize.

Definition background_connect_targeted_announcement_add (app_id : tAPP_ID) (address : RawAddress)
    (s : bgconn) : result :=
  let continue (disable_accept_list : bool) : result :=
    let '(s, c1) :=
      if disable_accept_list then (update_at address (set_list false) s, [ignore address])
      else (s, []) in
    let s := update_at address
               (fun e => set_ta ({[app_id]} ∪ doing_targeted_announcements_conn e) e) s in
    let c2 := if (num_of_targeted_announcements_users s =? 1)%nat then [FilteringSet true] else [] in
    (true, s, c1 ++ c2) in
  match s !! address with
  | None => continue false
  | Some e =>
      if bool_decide (app_id ∈ doing_targeted_announcements_conn e) then (true, s, [])
      else
        let targeted_filtering_enabled := nonempty (doing_targeted_announcements_conn e) in
        if nonempty (doing_direct_conn e) then continue false
        else continue (negb targeted_filtering_enabled && nonempty (doing_bg_conn e))
  end.

Definition background_connect_add (app_id : tAPP_ID) (address : RawAddress) (s : bgconn) : result :=
  let insert_app (s : bgconn) (c : list command) : result :=
    (true, update_at address (fun e => set_bg ({[app_id]} ∪ doing_bg_conn e) e) s, c) in
  let continue (in_acceptlist is_targeted_announcement_enabled : bool) : result :=
    if negb in_acceptlist then
      if is_targeted_announcement_enabled then insert_app s []
      else if accept_list_is_full s then (false, s, [])
      else insert_app (update_at address (set_list true) s) [accept address false false]
    else insert_app s [] in
  match s !! address with
  | None => continue false false
  | Some e =>
      if bool_decide (app_id ∈ doing_bg_conn e) then (true, s, [])
      else if is_in_accept_list e then continue true false
      else continue false (nonempty (doing_targeted_announcements_conn e))
  end.

Definition remove_unconditional (address : RawAddress) (s : bgconn) : result :=
  (bool_decide (is_Some (s !! address)), delete address s, [ignore address]).

Definition background_connect_remove (app_id : tAPP_ID) (address : RawAddress) (s : bgconn)
    : result :=
  match s !! address with
  | None => (false, s, [])
  | Some e =>
      let accept_list_enabled := is_in_accept_list e in
      let num_of_targeted_announcements_before_remove :=
        size (doing_targeted_announcements_conn e) in
      let removed_from_bg_conn := bool_decide (app_id ∈ doing_bg_conn e) in
      let removed_from_ta := bool_decide (app_id ∈ doing_targeted_announcements_conn e) in
      let e := set_bg (doing_bg_conn e ∖ {[app_id]}) e in
      let e := set_ta (doing_targeted_announcements_conn e ∖ {[app_id]}) e in
      let s := <[address := e]> s in
      if negb removed_from_bg_conn && negb removed_from_ta then (false, s, [])
      else if is_anyone_connecting e then
        if negb accept_list_enabled then
          if nonempty (doing_targeted_announcements_conn e) then (true, s, [])
          else if nonempty (doing_bg_conn e) then
            (true, update_at address (set_list true) s, [accept address false false])
          else (true, s, [])
        else (true, s, [])
      else
        let s := delete address s in
        if accept_list_enabled then (true, s, [ignore address])
        else if (0 <? num_of_targeted_announcements_before_remove)%nat &&
                (num_of_targeted_announcements_users s =? 0)%nat
        then (true, s, [FilteringSet true])
        else (true, s, [])
  end.

(** One iteration of [on_app_deregistered]: the entry at [address]. *)
Definition deregister_entry (app_id : tAPP_ID) (st : bgconn * list command) (address : RawAddress)
    : bgconn * list command :=
  let '(s, c) := st in
  match s !! address with
  | None => (s, c)
  | Some e =>
      let e := set_bg (doing_bg_conn e ∖ {[app_id]}) e in
      let e := set_direct (doing_direct_conn e ∖ {[app_id]}) e in
      if is_anyone_connecting e then (<[address := e]> s, c)
      else (delete address s, c ++ [ignore address])
  end.

Definition on_app_deregistered (app_id : tAPP_ID) (s : bgconn) : bgconn * list command :=
  fold_left (deregister_entry app_id) (merge_sort (≤) (elements (dom s))) (s, []).

Definition direct_connect_remove (app_id : tAPP_ID) (address : RawAddress) (connection_timeout : bool)
    (s : bgconn) : result :=
  match s !! address with
  | None => (false, s, [])
  | Some e =>
      if negb (bool_decide (app_id ∈ doing_direct_conn e)) then (false, s, [])
      else
        let is_targeted_announcement_enabled := nonempty (doing_targeted_announcements_conn e) in
        let e := set_direct (doing_direct_conn e ∖ {[app_id]}) e in
        let s := <[address := e]> s in
        if is_anyone_interested_to_use_accept_list e then
          (true, s, if connection_timeout then [accept address false false] else [])
        else if negb is_targeted_announcement_enabled then (true, delete address s, [ignore address])
        else (true, <[address := set_list false e]> s, [ignore address])
  end.

(** The [while] of [remove_all_clients_with_pending_connections]; [None] if the
    fuel does not suffice. *)
Fixpoint remove_all_clients_loop (fuel : nat) (address : RawAddress) (s : bgconn)
    (c : list command) : option (bgconn * list command) :=
  match fuel with
  | O => None
  | S fuel =>
      match s !! address with
      | None => Some (s, c)
      | Some e =>
          match begin (doing_direct_conn e) with
          | None => Some (s, c)
          | Some app_id =>
              let '(_, s, c') := direct_connect_remove app_id address false s in
              remove_all_clients_loop fuel address s (c ++ c')
          end
      end
  end.

(** One iteration per client, and one to leave the loop. *)
Definition remove_all_clients_with_pending_connections (address : RawAddress) (s : bgconn)
    : option (bgconn * list command) :=
  let n := match s !! address with None => 0%nat | Some e => size (doing_direct_conn e) end in
  remove_all_clients_loop (n + 2) address s [].

Definition on_connection_complete (address : RawAddress) (s : bgconn)
    : option (bgconn * list command) :=
  remove_all_clients_with_pending_connections address s.

Definition on_connection_timed_out_from_shim (address : RawAddress) (s : bgconn)
    : bgconn * list command :=
  (s, [OnConnectionTimedOut 0x00 address]).

Definition reset (after_reset : bool) (s : bgconn) : bgconn * list command :=
  (∅, if negb after_reset then [FilteringSet false; ClearFilterAcceptList] else []).

Definition wl_direct_connect_timeout_cb (app_id : tAPP_ID) (address : RawAddress) (s : bgconn)
    : bgconn * list command :=
  let '(_, s, c) := direct_connect_remove app_id address true s in
  (s, c ++ [OnConnectionTimedOut app_id address]).

Definition find_in_device_record (bd_addr : RawAddress) (address_with_type : tBLE_BD_ADDR)
    : tBLE_BD_ADDR :=
  match btm_find_dev bd_addr with
  | None => address_with_type
  | Some p_dev_rec =>
      if negb (Z.land (device_type p_dev_rec) BT_DEVICE_TYPE_BLE =? 0) then
        if snd (identity_address_with_type p_dev_rec) =? 0
        then (ble_addr_type p_dev_rec, bd_addr)
        else identity_address_with_type p_dev_rec
      else (BLE_ADDR_PUBLIC, bd_addr)
  end.

Definition direct_connect_add (app_id : tAPP_ID) (address : RawAddress) (addr_type : Z)
    (prefer_relax_mode : bool) (s : bgconn) : result :=
  let address_with_type := find_in_device_record address (addr_type, address) in
  if fst address_with_type =? BLE_ADDR_ANONYMOUS then (false, s, [])
  else
    let accept_direct := AcceptLe address_with_type true prefer_relax_mode in
    let set_timer (s : bgconn) : result :=
      (true, update_at address (fun e => set_direct ({[app_id]} ∪ doing_direct_conn e) e) s,
       [accept_direct]) in
    let continue (in_acceptlist : bool) : result :=
      if negb in_acceptlist then
        if accept_list_is_full s then (false, s, [])
        else set_timer (update_at address (set_list true) s)
      else set_timer s in
    match s !! address with
    | None => continue false
    | Some info =>
        if bool_decide (app_id ∈ doing_direct_conn info) then
          (flag_idempotent_direct_connect_add, s, [])
        else if nonempty (doing_direct_conn info) then (true, s, [])
        else continue (is_in_accept_list info)
    end.

Definition schedule_direct_connect_add (app_id : tAPP_ID) (address : RawAddress) (s : bgconn)
    : result :=
  direct_connect_add app_id address 0 false s.

Definition target_announcement_observe_results_cb (address : RawAddress) (eir : list Z) (s : bgconn)
    : option (list command) :=
  match s !! address with
  | None => Some []
  | Some e =>
      if negb (nonempty (doing_targeted_announcements_conn e)) then Some []
      else
        targeted ← IsTargetedAnnouncement eir;
        if negb targeted then Some []
        else if is_in_accept_list e then Some []
        else if negb (BTM_GetHCIConnHandle address =? 0xFFFF) then Some []
        else
          app_id ← begin (doing_targeted_announcements_conn e);
          Some [PostDirectConnectAdd app_id address]
  end.

End operations.

(** ** Invariant

    [wl] is the set of addresses with type the ACL manager has been asked to accept:
    the effect of the commands issued so far. *)

Definition apply_command (wl : gset tBLE_BD_ADDR) (c : command) : gset tBLE_BD_ADDR :=
  match c with
  | AcceptLe t _ _ => {[t]} ∪ wl
  | IgnoreLe t => wl ∖ {[t]}
  | ClearFilterAcceptList => ∅
  | FilteringSet _ | OnConnectionTimedOut _ _ | PostDirectConnectAdd _ _ => wl
  end.
Definition replay (c : list command) (wl : gset tBLE_BD_ADDR) : gset tBLE_BD_ADDR :=
  fold_left apply_command c wl.

(** The same for the membership of one address. *)
Definition apply_bit (b : bool) (c : command) : bool :=
  match c with
  | AcceptLe _ _ _ => true
  | IgnoreLe _ | ClearFilterAcceptList => false
  | _ => b
  end.

(** Commands that concern no address with type but [t]. *)
Definition about (t : tBLE_BD_ADDR) (c : command) : Prop :=
  match c with
  | AcceptLe t' _ _ | IgnoreLe t' => t' = t
  | ClearFilterAcceptList => False
  | _ => True
  end.

Lemma replay_same t c wl : Forall (about t) c ->
  bool_decide (t ∈ replay c wl) = fold_left apply_bit c (bool_decide (t ∈ wl)).
Proof.
  intros H. revert wl. induction H as [|x c Hx _ IH]; intros wl; [done|]. cbn. rewrite IH. f_equal.
  destruct x; cbn in Hx |- *; subst; try done; [apply bool_decide_eq_true|apply bool_decide_eq_false];
    set_solver.
Qed.

Lemma replay_other t u c wl : Forall (about t) c -> u <> t -> u ∈ replay c wl <-> u ∈ wl.
Proof.
  intros H Hb. revert wl. induction H as [|x c Hx _ IH]; intros wl; [done|]. cbn. rewrite IH.
  destruct x; cbn in Hx |- *; subst; try done; set_solver.
Qed.

(** An entry exists only while somebody is connecting; the device is in the accept
    list if somebody is interested ([strict]: exactly then); at most one direct
    connection is in progress per device. *)
Definition entry_ok (strict : bool) (e : tAPPS_CONNECTING) : Prop :=
  is_anyone_connecting e = true /\
  (if strict then is_in_accept_list e = is_anyone_interested_to_use_accept_list e
   else is_anyone_interested_to_use_accept_list e = true -> is_in_accept_list e = true) /\
  (size (doing_direct_conn e) <= 1)%nat.

(** An address: its entry and its membership in the accept list. *)
Definition slot_ok (strict : bool) (o : option tAPPS_CONNECTING) (w : bool) : Prop :=
  match o with
  | None => w = false
  | Some e => w = is_in_accept_list e /\ entry_ok strict e
  end.

Abbreviation database := (RawAddress -> option dev_rec) (only parsing).

(** The database gives different devices different addresses: [U] holds of the
    addresses the clients use. *)
Definition distinct (U : RawAddress -> Prop) (db : database) : Prop :=
  forall a b, U a -> U b ->
    BTM_Sec_GetAddressWithType db a = BTM_Sec_GetAddressWithType db b -> a = b.

Record config_ok (U : RawAddress -> Prop) (strict : bool) (db : database) (s : bgconn)
    (wl : gset tBLE_BD_ADDR) : Prop := {
  config_distinct : distinct U db;
  config_slot a : U a -> slot_ok strict (s !! a) (bool_decide (BTM_Sec_GetAddressWithType db a ∈ wl));
  config_dom a : is_Some (s !! a) -> U a;
  config_image t : t ∈ wl -> exists a, U a /\ t = BTM_Sec_GetAddressWithType db a;
}.

(** The effect of an operation on one address. *)
Definition local_ok (db : database) (strict : bool) (a : RawAddress) (s : bgconn) (w : bool)
    (s' : bgconn) (c : list command) : Prop :=
  (forall b, b <> a -> s' !! b = s !! b) /\ Forall (about (BTM_Sec_GetAddressWithType db a)) c /\
  slot_ok strict (s' !! a) (fold_left apply_bit c w).

(** [wl] apart from the address of [a], which may have been dropped before. *)
Lemma local_config_from U strict db a s s' wl wl' c : config_ok U strict db s wl -> U a ->
  (forall t, t <> BTM_Sec_GetAddressWithType db a -> t ∈ wl' <-> t ∈ wl) ->
  local_ok db strict a s (bool_decide (BTM_Sec_GetAddressWithType db a ∈ wl')) s' c ->
  config_ok U strict db s' (replay c wl').
Proof.
  intros Hc Ha Hwl (Ho & Hab & Hs). split; [apply Hc| | |].
  - intros b Hb. destruct (decide (b = a)) as [->|Hn]; [by rewrite replay_same|].
    rewrite Ho by done.
    assert (BTM_Sec_GetAddressWithType db b <> BTM_Sec_GetAddressWithType db a)
      by (intros E; by apply Hn, Hc).
    rewrite (bool_decide_ext _ (BTM_Sec_GetAddressWithType db b ∈ wl)); [by apply Hc|].
    rewrite (replay_other _ _ c wl' Hab) by done. by apply Hwl.
  - intros b. destruct (decide (b = a)) as [->|Hn]; [done|]. rewrite Ho by done. apply Hc.
  - intros t Ht. destruct (decide (t = BTM_Sec_GetAddressWithType db a)) as [->|Hn]; [by exists a|].
    rewrite (replay_other _ _ c wl' Hab Hn), (Hwl t Hn) in Ht. by apply Hc.
Qed.

Lemma local_config U strict db a s s' wl c : config_ok U strict db s wl -> U a ->
  local_ok db strict a s (bool_decide (BTM_Sec_GetAddressWithType db a ∈ wl)) s' c ->
  config_ok U strict db s' (replay c wl).
Proof. intros Hc Ha. by apply (local_config_from U strict db a s s' wl). Qed.

(** The listed addresses are those of the devices marked so. *)
Lemma config_member U strict db s wl t : config_ok U strict db s wl ->
  t ∈ wl <-> exists a, is_background_connection a s = true /\ t = BTM_Sec_GetAddressWithType db a.
Proof.
  intros Hc. unfold is_background_connection. split.
  - intros Ht. destruct (config_image _ _ _ _ _ Hc t Ht) as (a & Ha & ->). exists a. split; [|done].
    pose proof (config_slot _ _ _ _ _ Hc a Ha) as Hs. rewrite bool_decide_true in Hs by done.
    destruct (s !! a); cbn in Hs; [by destruct Hs|done].
  - intros (a & He & ->). destruct (s !! a) as [e|] eqn:E; [|done].
    pose proof (config_slot _ _ _ _ _ Hc a ltac:(apply Hc; by rewrite E)) as Hs. rewrite E in Hs.
    destruct Hs as [Hs _]. by rewrite He, bool_decide_eq_true in Hs.
Qed.

(** The records may change as long as the listed devices keep their addresses. *)
Lemma records_config U strict db db' s wl : config_ok U strict db s wl -> distinct U db' ->
  (forall a, is_background_connection a s = true ->
    BTM_Sec_GetAddressWithType db' a = BTM_Sec_GetAddressWithType db a) ->
  config_ok U strict db' s wl.
Proof.
  intros Hc Hd Hk. split; [done| |apply Hc|].
  - intros a Ha. pose proof (config_slot _ _ _ _ _ Hc a Ha) as Hs.
    assert (forall t, t ∈ wl <-> _) as Hm by (intros t; by apply (config_member U strict db s wl t)).
    assert (bool_decide (BTM_Sec_GetAddressWithType db' a ∈ wl) = is_background_connection a s) as ->.
    { apply eq_bool_prop_intro. rewrite bool_decide_spec, Hm, Is_true_true. split.
      - intros (b & Hb & E). rewrite <- (Hk b Hb) in E. apply Hd in E; [by subst|done|].
        apply Hc. unfold is_background_connection in Hb. by destruct (s !! b).
      - intros Hb. exists a. by rewrite <- Hk. }
    unfold is_background_connection. destruct (s !! a) as [e|]; [|done]. by destruct Hs.
  - intros t Ht. apply (config_member U strict db s wl t Hc) in Ht as (a & Ha & ->). exists a.
    split; [|by rewrite Hk]. apply Hc. unfold is_background_connection in Ha. by destruct (s !! a).
Qed.

(** ** Lemmas on sets *)

Lemma nonempty_true s : nonempty s = true <-> s <> ∅.
Proof. unfold nonempty. case_bool_decide; cbn; split; congruence. Qed.
Lemma nonempty_false s : nonempty s = false <-> s = ∅.
Proof. unfold nonempty. case_bool_decide; cbn; split; congruence. Qed.
Lemma nonempty_empty : nonempty ∅ = false.
Proof. by apply nonempty_false. Qed.
Lemma nonempty_add x s : nonempty ({[x]} ∪ s) = true.
Proof. apply nonempty_true. set_solver. Qed.
Lemma nonempty_elem (x : tAPP_ID) s : x ∈ s -> nonempty s = true.
Proof. intros H. apply nonempty_true. set_solver. Qed.
Lemma nonempty_diff x s : nonempty s = false -> nonempty (s ∖ {[x]}) = false.
Proof. rewrite !nonempty_false. set_solver. Qed.
Lemma diff_absent (x : tAPP_ID) (s : gset tAPP_ID) : x ∉ s -> s ∖ {[x]} = s.
Proof. set_solver. Qed.
Lemma size_add_empty (x : tAPP_ID) s : nonempty s = false -> (size ({[x]} ∪ s) <= 1)%nat.
Proof. intros ->%nonempty_false. rewrite union_empty_r_L, size_singleton. done. Qed.
Lemma size_diff (x : tAPP_ID) (s : gset tAPP_ID) n : (size s <= n)%nat -> (size (s ∖ {[x]}) <= n)%nat.
Proof. intros H. assert (size (s ∖ {[x]}) <= size s)%nat by (apply subseteq_size; set_solver). lia. Qed.

(** After one removal a direct connection is no longer in progress. *)
Lemma direct_last (x : tAPP_ID) s : (size s <= 1)%nat -> x ∈ s -> nonempty (s ∖ {[x]}) = false.
Proof.
  intros Hs Hx. apply nonempty_false, elem_of_equiv_empty_L. intros y [Hy Hn]%elem_of_difference.
  assert (size s <> 0)%nat by (intros E%size_empty_inv; set_solver).
  apply Hn, elem_of_singleton. apply (size_singleton_inv s); [lia|done|done].
Qed.

(** ** The operations preserve the invariant, address by address *)

(** Reduce an entry to the emptiness of its sets. *)
Ltac simpl_entry :=
  unfold entry_ok, is_anyone_connecting, is_anyone_interested_to_use_accept_list in *;
  cbn [doing_bg_conn doing_targeted_announcements_conn is_in_accept_list doing_direct_conn
       set_bg set_ta set_list set_direct new_entry from_option default Datatypes.id] in *;
  rewrite ?nonempty_add, ?nonempty_empty, ?orb_true_r.

Ltac slot :=
  unfold update_at; rewrite ?lookup_insert_eq; cbn [default from_option Datatypes.id slot_ok fold_left apply_bit app].

Ltac elsewhere :=
  intros ? ?; unfold update_at;
  repeat first [rewrite lookup_insert_ne by congruence | rewrite lookup_delete_ne by congruence]; done.

(** Nothing changes. *)
Lemma local_refl db strict a s w : slot_ok strict (s !! a) w -> local_ok db strict a s w s [].
Proof. intros H. split; [done|]. by split; [constructor|]. Qed.

(** An operation that ends by writing the entry of [a]. *)
Lemma local_insert db strict a s w s' e c :
  (forall b, b <> a -> s' !! b = s !! b) -> s' !! a = Some e ->
  Forall (about (BTM_Sec_GetAddressWithType db a)) c -> fold_left apply_bit c w = is_in_accept_list e -> entry_ok strict e ->
  local_ok db strict a s w s' c.
Proof. intros Ho He Hc Hw Hok. split; [done|]. split; [done|]. by rewrite He. Qed.

(** An operation that ends by erasing the entry of [a]. *)
Lemma local_delete db strict a s w s' c :
  (forall b, b <> a -> s' !! b = s !! b) -> s' !! a = None ->
  Forall (about (BTM_Sec_GetAddressWithType db a)) c -> fold_left apply_bit c w = false -> local_ok db strict a s w s' c.
Proof. intros Ho He Hc Hw. split; [done|]. split; [done|]. by rewrite He. Qed.

Ltac cmds := repeat (apply Forall_cons; split); done.

(** Decide an entry invariant by cases on the emptiness of the sets. *)
Ltac case_bool t := let b := fresh "b" in set (b := t) in *; clearbody b; destruct b.

Ltac bool_cases :=
  repeat match goal with
  | |- context [nonempty ?x] => case_bool (nonempty x)
  | H : context [nonempty ?x] |- _ => case_bool (nonempty x)
  | |- context [is_in_accept_list ?x] => case_bool (is_in_accept_list x)
  | H : context [is_in_accept_list ?x] |- _ => case_bool (is_in_accept_list x)
  end; cbn in *;
  repeat match goal with H : ?x = ?x -> _ |- _ => specialize (H eq_refl) end; try done; try tauto.

Ltac entry_cases :=
  match goal with |- entry_ok ?strict _ =>
    simpl_entry; destruct_and?; split_and!;
    [bool_cases|destruct strict; bool_cases|
     first [done | by apply size_diff | by apply size_add_empty | by rewrite size_empty; lia]]
  end.

Ltac insert_at E := eapply local_insert; [elsewhere|slot; rewrite ?E; reflexivity|try cmds|try reflexivity|].

Lemma ta_add_filter t (n : nat) : let c := if (n =? 1)%nat then [FilteringSet true] else [] in
  Forall (about t) c /\ forall b, fold_left apply_bit c b = b.
Proof. destruct (n =? 1)%nat; (split; [cmds|done]). Qed.

Section preservation.
Context (db : database).
Context (AcceptListSize : Z).
Context (flag : bool).
Context (strict : bool).

(** Adding the application and, possibly, leaving the accept list. *)
Lemma ta_insert_local id a s e (dis : bool) :
  s !! a = Some e -> entry_ok strict e ->
  dis = negb (nonempty (doing_direct_conn e)) &&
        (negb (nonempty (doing_targeted_announcements_conn e)) && nonempty (doing_bg_conn e)) ->
  let s1 := if dis then update_at a (set_list false) s else s in
  let c1 := if dis then [ignore db a] else [] in
  let s2 := update_at a (fun e => set_ta ({[id]} ∪ doing_targeted_announcements_conn e) e) s1 in
  let c2 := if (num_of_targeted_announcements_users s2 =? 1)%nat then [FilteringSet true] else [] in
  local_ok db strict a s (is_in_accept_list e) s2 (c1 ++ c2).
Proof.
  intros E Hok Hdis. cbv zeta. destruct dis; set (s' := update_at _ _ _);
    destruct (ta_add_filter (BTM_Sec_GetAddressWithType db a) (num_of_targeted_announcements_users s')) as [Hc Hb].
  - eapply local_insert; [unfold s'; elsewhere|unfold s'; slot; by rewrite E| |by cbn; rewrite Hb|].
    { by constructor. }
    clear Hc Hb. subst s'. entry_cases.
  - eapply local_insert; [unfold s'; elsewhere|unfold s'; slot; by rewrite E|done|by rewrite app_nil_l, Hb|].
    clear Hc Hb. subst s'. entry_cases.
Qed.

Lemma ta_add_local id a s w : slot_ok strict (s !! a) w ->
  let '(_, s', c) := background_connect_targeted_announcement_add db id a s in
  local_ok db strict a s w s' c.
Proof.
  unfold background_connect_targeted_announcement_add. intros Hs.
  destruct (s !! a) as [e|] eqn:E; cbn [slot_ok] in Hs.
  - case_bool_decide as Hin; [apply local_refl; by rewrite E|].
    destruct Hs as [-> Hok].
    destruct (nonempty (doing_direct_conn e)) eqn:Ed.
    + apply (ta_insert_local id a s e false E Hok). by rewrite Ed.
    + destruct (negb _ && _) eqn:Edis.
      * apply (ta_insert_local id a s e true E Hok). by rewrite Ed, Edis.
      * apply (ta_insert_local id a s e false E Hok). by rewrite Ed, Edis.
  - cbv beta iota zeta. set (s' := update_at _ _ _).
    destruct (ta_add_filter (BTM_Sec_GetAddressWithType db a) (num_of_targeted_announcements_users s')) as [Hc Hb].
    eapply local_insert; [unfold s'; elsewhere|unfold s'; slot; by rewrite E|done|by rewrite app_nil_l, Hb|].
    clear Hc Hb. subst s'. entry_cases.
Qed.

Lemma bg_add_local id a s w : slot_ok strict (s !! a) w ->
  let '(_, s', c) := background_connect_add db AcceptListSize id a s in
  local_ok db strict a s w s' c.
Proof.
  unfold background_connect_add. intros Hs.
  destruct (s !! a) as [e|] eqn:E; cbn [slot_ok] in Hs.
  - case_bool_decide as Hin; [apply local_refl; by rewrite E|].
    destruct Hs as [-> Hok]. destruct (is_in_accept_list e) eqn:El; cbn [negb].
    + insert_at E; [done|]. entry_cases.
    + destruct (nonempty (doing_targeted_announcements_conn e)) eqn:Et.
      * insert_at E; [done|]. entry_cases.
      * destruct (accept_list_is_full AcceptListSize s).
        { apply local_refl. by rewrite E, <- El. }
        insert_at E. entry_cases.
  - cbn [negb]. destruct (accept_list_is_full AcceptListSize s); [apply local_refl; by rewrite E|].
    insert_at E. entry_cases.
Qed.

Lemma remove_unconditional_local a s w :
  let '(_, s', c) := remove_unconditional db a s in local_ok db strict a s w s' c.
Proof. apply local_delete; [elsewhere|by rewrite lookup_delete_eq|cmds|done]. Qed.

Lemma bg_remove_local id a s w : slot_ok strict (s !! a) w ->
  let '(_, s', c) := background_connect_remove db id a s in
  local_ok db strict a s w s' c.
Proof.
  unfold background_connect_remove. intros Hs.
  destruct (s !! a) as [e|] eqn:E; [|apply local_refl; by rewrite E]. destruct Hs as [-> Hok].
  set (e' := set_ta _ _).
  pose proof (nonempty_diff id (doing_bg_conn e)) as Hb.
  pose proof (nonempty_diff id (doing_targeted_announcements_conn e)) as Ht.
  destruct (negb _ && negb _) eqn:Er.
  { apply andb_true_iff in Er as [Hn1%negb_true_iff%bool_decide_eq_false
      Hn2%negb_true_iff%bool_decide_eq_false].
    assert (e' = e) as ->.
    { unfold e', set_ta, set_bg. cbn. rewrite !diff_absent by done. by destruct e. }
    rewrite insert_id by done. apply local_refl. by rewrite E. }
  destruct (is_anyone_connecting e') eqn:Ec.
  - destruct (is_in_accept_list e) eqn:El; cbn [negb].
    + insert_at E; [done|]. subst e'. entry_cases.
    + destruct (nonempty (doing_targeted_announcements_conn e')) eqn:Et'.
      { insert_at E; [done|]. subst e'. entry_cases. }
      destruct (nonempty (doing_bg_conn e')) eqn:Eb'.
      { eapply local_insert; [elsewhere|slot; reflexivity|cmds|reflexivity|]. subst e'. entry_cases. }
      insert_at E; [done|]. subst e'. entry_cases.
  - destruct (is_in_accept_list e); cbn [negb].
    { apply local_delete; [elsewhere|by rewrite lookup_delete_eq|cmds|done]. }
    clear Er. destruct (_ && _); (apply local_delete; [elsewhere|by rewrite lookup_delete_eq|cmds|done]).
Qed.

(** Without a record, the address of a direct attempt is the one of the database if
    the caller gives the type the database does. *)
Definition type_known (ty : Z) (a : RawAddress) : Prop :=
  db a = None -> ty = BLE_ADDR_PUBLIC \/ ty = BLE_ADDR_ANONYMOUS.

Lemma find_in_device_record_known ty a : type_known ty a ->
  (fst (find_in_device_record db a (ty, a)) =? BLE_ADDR_ANONYMOUS) = false ->
  find_in_device_record db a (ty, a) = BTM_Sec_GetAddressWithType db a.
Proof.
  unfold type_known, find_in_device_record, BTM_Sec_GetAddressWithType, is_device_type_has_ble.
  destruct (db a) as [r|].
  - intros _. destruct (_ =? 0); cbn [negb]; [done|]. by destruct (_ =? 0).
  - intros H. by destruct (H eq_refl) as [-> | ->].
Qed.

Lemma direct_add_local id a ty relax s w : slot_ok strict (s !! a) w -> type_known ty a ->
  let '(_, s', c) := direct_connect_add db AcceptListSize flag id a ty relax s in
  local_ok db strict a s w s' c.
Proof.
  unfold direct_connect_add. intros Hs Hty.
  destruct (_ =? BLE_ADDR_ANONYMOUS) eqn:Ety; [by apply local_refl|].
  rewrite (find_in_device_record_known ty a Hty Ety). clear Ety.
  destruct (s !! a) as [e|] eqn:E; cbn [slot_ok] in Hs.
  - case_bool_decide as Hin; [apply local_refl; by rewrite E|].
    destruct (nonempty (doing_direct_conn e)) eqn:Ed; [apply local_refl; by rewrite E|].
    destruct Hs as [-> Hok]. destruct (is_in_accept_list e) eqn:El; cbn [negb].
    + insert_at E; [done|]. entry_cases.
    + destruct (accept_list_is_full AcceptListSize s); [apply local_refl; by rewrite E, <- El|].
      insert_at E. entry_cases.
  - cbn [negb]. destruct (accept_list_is_full AcceptListSize s); [apply local_refl; by rewrite E|].
    insert_at E. entry_cases.
Qed.

(** [w] after the lower layer dropped the device on a timeout. *)
Lemma direct_remove_local id a s w (timeout : bool) : slot_ok strict (s !! a) w ->
  (timeout = true -> exists e, s !! a = Some e /\ id ∈ doing_direct_conn e) ->
  let '(_, s', c) := direct_connect_remove db id a timeout s in
  local_ok db strict a s (if timeout then false else w) s' c.
Proof.
  unfold direct_connect_remove. intros Hs Hto.
  destruct (s !! a) as [e|] eqn:E.
  2:{ destruct timeout; [by destruct (Hto eq_refl) as (? & [=] & _)|]. apply local_refl. by rewrite E. }
  destruct Hs as [-> Hok]. case_bool_decide as Hin; cbn [negb].
  2:{ destruct timeout; [|apply local_refl; by rewrite E].
      by destruct (Hto eq_refl) as (? & [= <-] & ?). }
  set (e' := set_direct _ _).
  pose proof (direct_last id (doing_direct_conn e)) as Hl.
  pose proof (nonempty_elem id _ Hin) as Hne.
  specialize (Hl ltac:(apply Hok) Hin).
  destruct (is_anyone_interested_to_use_accept_list e') eqn:Ei.
  - eapply local_insert; [elsewhere|slot; reflexivity|destruct timeout; cmds| |].
    + subst e'. destruct timeout; cbn; [|done]. destruct Hok as (_ & Hok & _).
      simpl_entry. rewrite Hl in Ei. destruct strict; bool_cases.
    + subst e'. entry_cases.
  - destruct (nonempty (doing_targeted_announcements_conn e)) eqn:Et; cbn [negb].
    + eapply local_insert; [elsewhere|slot; reflexivity|cmds|by destruct timeout|].
      subst e'. entry_cases.
    + apply local_delete; [elsewhere|by rewrite lookup_delete_eq|cmds|by destruct timeout].
Qed.
End preservation.

(** ** Loops over entries and clients *)

Lemma replay_app c1 c2 wl : replay (c1 ++ c2) wl = replay c2 (replay c1 wl).
Proof. apply fold_left_app. Qed.

Section loops.
Context (db : database).

Lemma deregister_entry_local id s c a :
  exists s' c', deregister_entry db id (s, c) a = (s', c ++ c') /\
    forall w, slot_ok false (s !! a) w -> local_ok db false a s w s' c'.
Proof.
  unfold deregister_entry. destruct (s !! a) as [e|] eqn:E.
  2:{ exists s, []. rewrite app_nil_r. split; [done|]. intros w Hw. apply local_refl. by rewrite E. }
  set (e' := set_direct _ _). destruct (is_anyone_connecting e') eqn:Ec.
  - exists (<[a := e']> s), []. rewrite app_nil_r. split; [done|]. intros w [-> Hok].
    pose proof (nonempty_diff id (doing_bg_conn e)).
    pose proof (nonempty_diff id (doing_direct_conn e)).
    eapply local_insert; [elsewhere|slot; reflexivity|cmds|done|]. subst e'.
    simpl_entry. destruct_and?. split_and!; [done|bool_cases|by apply size_diff].
  - exists (delete a s), [ignore db a]. split; [done|]. intros w _.
    apply local_delete; [elsewhere|by rewrite lookup_delete_eq|cmds|done].
Qed.

Lemma deregister_fold U id keys wl : forall s c, config_ok U false db s (replay c wl) ->
  let '(s', c') := fold_left (deregister_entry db id) keys (s, c) in
  config_ok U false db s' (replay c' wl).
Proof.
  induction keys as [|a keys IH]; intros s c H; [done|]. cbn [fold_left].
  destruct (s !! a) as [e|] eqn:E.
  - destruct (deregister_entry_local id s c a) as (s' & c' & -> & Hl). apply IH.
    rewrite replay_app. assert (U a) by (apply H; by rewrite E).
    apply (local_config U false db a s); [done..|]. by apply Hl, H.
  - unfold deregister_entry at 2. rewrite E. by apply IH.
Qed.

(** [begin] is an element of the set, if there is one. *)
Lemma begin_spec s : match begin s with None => s = ∅ | Some x => x ∈ s end.
Proof.
  unfold begin. pose proof (merge_sort_Permutation (≤) (elements s)) as P.
  destruct (merge_sort (≤) (elements s)) as [|x l]; cbn.
  - apply Permutation_nil in P. by apply elements_empty_inv in P; fold_leibniz.
  - apply elem_of_elements. rewrite <- P. left.
Qed.

(** One client removed: the entry keeps its other clients, or nobody is left. *)
Lemma direct_remove_effect id a s e : s !! a = Some e -> id ∈ doing_direct_conn e ->
  let '(r, s', c) := direct_connect_remove db id a false s in
  r = true /\ (forall b, b <> a -> s' !! b = s !! b) /\
  ((exists l, s' !! a = Some (set_list l (set_direct (doing_direct_conn e ∖ {[id]}) e))) \/
   (s' !! a = None /\ doing_bg_conn e = ∅ /\ doing_targeted_announcements_conn e = ∅ /\
    doing_direct_conn e ∖ {[id]} = ∅)).
Proof.
  intros E Hin. unfold direct_connect_remove. rewrite E. rewrite bool_decide_true by done. cbn [negb].
  destruct (is_anyone_interested_to_use_accept_list _) eqn:Ei.
  - split_and!; [done|elsewhere|]. left. exists (is_in_accept_list e). by rewrite lookup_insert_eq.
  - destruct (nonempty (doing_targeted_announcements_conn e)) eqn:Et; cbn [negb].
    + split_and!; [done|elsewhere|]. left. exists false. by rewrite lookup_insert_eq.
    + split_and!; [done|elsewhere|]. right. rewrite lookup_delete_eq. simpl_entry. rewrite Et in Ei.
      apply orb_false_iff in Ei as [Hb Hd]. by rewrite !nonempty_false in *.
Qed.

Lemma size_remove (x : tAPP_ID) (s : gset tAPP_ID) : x ∈ s -> S (size (s ∖ {[x]})) = size s.
Proof.
  intros H. assert (s = {[x]} ∪ s ∖ {[x]}) as E by (apply union_difference_singleton_L; done).
  pose proof (size_union ({[x]} : gset Z) (s ∖ {[x]}) ltac:(set_solver)) as Hs.
  rewrite <- E, size_singleton in Hs. lia.
Qed.

(** What removing all pending clients of [a] leaves. *)
Definition clients_removed (a : RawAddress) (s s' : bgconn) : Prop :=
  (forall b, b <> a -> s' !! b = s !! b) /\ is_direct_connection a s' = false /\
  match s !! a, s' !! a with
  | None, o => o = None
  | Some e, Some e' =>
      doing_bg_conn e' = doing_bg_conn e /\
      doing_targeted_announcements_conn e' = doing_targeted_announcements_conn e
  | Some e, None => doing_bg_conn e = ∅ /\ doing_targeted_announcements_conn e = ∅
  end.

Definition pending (a : RawAddress) (s : bgconn) : nat :=
  match s !! a with None => 0 | Some e => size (doing_direct_conn e) end.

Lemma remove_all_clients_total a fuel : forall s c, (pending a s < fuel)%nat ->
  exists s' c', remove_all_clients_loop db fuel a s c = Some (s', c ++ c') /\
    clients_removed a s s' /\
    (forall strict w, slot_ok strict (s !! a) w -> local_ok db strict a s w s' c').
Proof.
  induction fuel as [|fuel IH]; intros s c Hf; [lia|]. cbn [remove_all_clients_loop].
  destruct (s !! a) as [e|] eqn:E.
  2:{ exists s, []. rewrite app_nil_r. split_and!; [done| |intros; apply local_refl; by rewrite E].
      unfold clients_removed, is_direct_connection. by rewrite E. }
  pose proof (begin_spec (doing_direct_conn e)) as Hb.
  destruct (begin (doing_direct_conn e)) as [id|].
  2:{ exists s, []. rewrite app_nil_r. split_and!; [done| |intros; apply local_refl; by rewrite E].
      unfold clients_removed, is_direct_connection. rewrite E, Hb, nonempty_empty. done. }
  pose proof (direct_remove_effect id a s e E Hb) as He.
  assert (Hloc := fun strict w H => direct_remove_local db strict id a s w false H
    ltac:(done)).
  destruct (direct_connect_remove db id a false s) as [[r s1] c1].
  destruct He as (_ & Ho & Ha).
  assert (Hp : (pending a s1 < fuel)%nat).
  { pose proof (size_remove id _ Hb). unfold pending in *. rewrite E in Hf.
    destruct Ha as [[l ->]|[-> _]]; cbn in *; lia. }
  destruct (IH s1 (c ++ c1) Hp) as (s' & c' & Hl & (Ho' & Hd & Hk) & Hloc').
  exists s', (c1 ++ c'). rewrite app_assoc. split_and!; [done| |].
  - unfold clients_removed. rewrite E. split_and!; [|done|].
    + intros b Hbn. by rewrite Ho', Ho.
    + destruct Ha as [[l Ha]|(Ha & H1 & H2 & _)]; rewrite Ha in Hk.
      * by destruct (s' !! a).
      * by rewrite Hk.
  - intros strict w Hw. rewrite E in Hloc. specialize (Hloc strict w Hw).
    destruct Hloc as (_ & Hab & Hs1). destruct (Hloc' strict _ Hs1) as (_ & Hab' & Hs').
    split_and!; [intros b Hbn; by rewrite Ho', Ho|by apply Forall_app|by rewrite fold_left_app].
Qed.

Lemma on_connection_complete_total a s :
  exists s' c, on_connection_complete db a s = Some (s', c) /\
    clients_removed a s s' /\
    (forall strict w, slot_ok strict (s !! a) w -> local_ok db strict a s w s' c).
Proof.
  apply (remove_all_clients_total a _ s []). unfold pending. destruct (s !! a); lia.
Qed.
End loops.

(** ** The manager as a transition system

    A configuration is the security database, the table and the addresses the ACL
    manager was asked to accept.  The clients call the operations in any order; when
    a direct attempt times out the lower layer has already dropped the device from
    its list (comment in [direct_connect_remove]); a controller reset empties the
    list before [reset(true)]; the records of the database change between the
    calls. *)

Inductive event :=
| EvTargetedAdd (app_id : tAPP_ID) (address : RawAddress)
| EvBackgroundAdd (app_id : tAPP_ID) (address : RawAddress)
| EvBackgroundRemove (app_id : tAPP_ID) (address : RawAddress)
| EvRemoveUnconditional (address : RawAddress)
| EvDeregistered (app_id : tAPP_ID)
| EvConnectionComplete (address : RawAddress)
| EvDirectAdd (app_id : tAPP_ID) (address : RawAddress) (addr_type : Z) (relax : bool)
| EvDirectRemove (app_id : tAPP_ID) (address : RawAddress)
| EvDirectTimeout (app_id : tAPP_ID) (address : RawAddress)
| EvReset
| EvControllerReset
| EvRecords (db : database).

Record config := { records : database; table : bgconn; listed : gset tBLE_BD_ADDR }.

Section system.
Context (AcceptListSize : Z).
Context (flag : bool).

Definition of_result (r : result) : option (bgconn * list command) :=
  let '(_, s, c) := r in Some (s, c).

(** The operation a client's call runs; the three events of the other layers are not
    calls. *)
Definition run (db : database) (ev : event) (s : bgconn) : option (bgconn * list command) :=
  match ev with
  | EvTargetedAdd id a => of_result (background_connect_targeted_announcement_add db id a s)
  | EvBackgroundAdd id a => of_result (background_connect_add db AcceptListSize id a s)
  | EvBackgroundRemove id a => of_result (background_connect_remove db id a s)
  | EvRemoveUnconditional a => of_result (remove_unconditional db a s)
  | EvDeregistered id => Some (on_app_deregistered db id s)
  | EvConnectionComplete a => on_connection_complete db a s
  | EvDirectAdd id a ty relax =>
      of_result (direct_connect_add db AcceptListSize flag id a ty relax s)
  | EvDirectRemove id a => of_result (direct_connect_remove db id a false s)
  | EvReset => Some (reset false s)
  | EvDirectTimeout _ _ | EvControllerReset | EvRecords _ => None
  end.

Inductive step : config -> event -> list command -> config -> Prop :=
| step_call ev db s wl s' c : run db ev s = Some (s', c) ->
    step {| records := db; table := s; listed := wl |} ev c
         {| records := db; table := s'; listed := replay c wl |}
| step_timeout id a e db s wl s' c :
    s !! a = Some e -> id ∈ doing_direct_conn e ->
    wl_direct_connect_timeout_cb db id a s = (s', c) ->
    step {| records := db; table := s; listed := wl |} (EvDirectTimeout id a) c
         {| records := db; table := s';
            listed := replay c (wl ∖ {[BTM_Sec_GetAddressWithType db a]}) |}
| step_controller_reset db s wl :
    step {| records := db; table := s; listed := wl |} EvControllerReset []
         {| records := db; table := fst (reset true s); listed := ∅ |}
| step_records db db' s wl :
    step {| records := db; table := s; listed := wl |} (EvRecords db') []
         {| records := db'; table := s; listed := wl |}.

(** What the invariant asks of the other layers: clients name a device of [U] by one
    address; a direct attempt to a device without a record gives the type public;
    a change of the records keeps devices apart and does not touch the address of a
    listed device. *)
Definition proper (U : RawAddress -> Prop) (x : config) (ev : event) : Prop :=
  match ev with
  | EvTargetedAdd _ a | EvBackgroundAdd _ a | EvBackgroundRemove _ a | EvRemoveUnconditional a
  | EvConnectionComplete a | EvDirectRemove _ a | EvDirectTimeout _ a => U a
  | EvDirectAdd _ a ty _ => U a /\ type_known (records x) ty a
  | EvDeregistered _ | EvReset | EvControllerReset => True
  | EvRecords db' =>
      distinct U db' /\
      forall a, is_background_connection a (table x) = true ->
        BTM_Sec_GetAddressWithType db' a = BTM_Sec_GetAddressWithType (records x) a
  end.

(** Configurations reachable by proper events that satisfy [P]. *)
Inductive reachable (U : RawAddress -> Prop) (P : event -> Prop) : config -> Prop :=
| reach_init db : distinct U db ->
    reachable U P {| records := db; table := ∅; listed := ∅ |}
| reach_step x ev c x' : reachable U P x -> P ev -> proper U x ev -> step x ev c x' ->
    reachable U P x'.

Lemma config_ok_empty U strict db : distinct U db -> config_ok U strict db ∅ ∅.
Proof.
  intros Hd. split; [done| | |].
  - intros a _. rewrite lookup_empty. cbn. by apply bool_decide_eq_false.
  - intros a. rewrite lookup_empty. by intros [? [=]].
  - done.
Qed.

Lemma of_result_local U strict db a s wl s' c r : config_ok U strict db s wl -> U a ->
  (let '(_, s1, c1) := r in
   local_ok db strict a s (bool_decide (BTM_Sec_GetAddressWithType db a ∈ wl)) s1 c1) ->
  of_result r = Some (s', c) -> config_ok U strict db s' (replay c wl).
Proof.
  intros Hc Ha Hl. destruct r as [[b s1] c1]. intros [= -> ->]. by apply (local_config U strict db a s).
Qed.

Lemma run_config U strict db ev s wl s' c :
  config_ok U strict db s wl -> (strict = true -> forall id, ev <> EvDeregistered id) ->
  proper U {| records := db; table := s; listed := wl |} ev ->
  run db ev s = Some (s', c) -> config_ok U strict db s' (replay c wl).
Proof.
  intros Hc Hs. destruct ev as [id a|id a|id a|a|id|a|id a ty relax|id a|id a| | |db'];
    cbn [run proper records]; intros Ha Hr; try done;
    try (eapply of_result_local; [done|apply Ha| |exact Hr]).
  - by apply ta_add_local, Hc.
  - by apply bg_add_local, Hc.
  - by apply bg_remove_local, Hc.
  - apply remove_unconditional_local.
  - destruct strict; [by destruct (Hs eq_refl id)|]. injection Hr as Hr.
    pose proof (deregister_fold db U id (merge_sort (≤) (elements (dom s))) wl s [] Hc) as H.
    unfold on_app_deregistered in Hr. by rewrite Hr in H.
  - destruct (on_connection_complete_total db a s) as (s1 & c1 & E & _ & Hl).
    rewrite E in Hr. injection Hr as <- <-. apply (local_config U strict db a s); [done..|].
    by apply Hl, Hc.
  - destruct Ha as [Ha Hty]. apply direct_add_local; [by apply Hc|done].
  - apply (direct_remove_local db strict id a s _ false); [by apply Hc|done].
  - injection Hr as <- <-. apply config_ok_empty, Hc.
Qed.

Lemma timeout_config U strict db id a e s wl : config_ok U strict db s wl -> U a -> s !! a = Some e ->
  id ∈ doing_direct_conn e ->
  let '(s', c) := wl_direct_connect_timeout_cb db id a s in
  config_ok U strict db s' (replay c (wl ∖ {[BTM_Sec_GetAddressWithType db a]})).
Proof.
  intros Hc Ha E Hin. unfold wl_direct_connect_timeout_cb.
  pose proof (direct_remove_local db strict id a s _ true (config_slot _ _ _ _ _ Hc a Ha)
    ltac:(by exists e)) as Hl.
  destruct (direct_connect_remove db id a true s) as [[r s'] c].
  rewrite replay_app. change (replay [OnConnectionTimedOut id a] ?x) with x.
  apply (local_config_from U strict db a s s' wl); [done|done| |].
  { intros t Ht. rewrite elem_of_difference, elem_of_singleton. tauto. }
  rewrite bool_decide_false; [done|]. by intros [_ ?%not_elem_of_singleton]%elem_of_difference.
Qed.

Lemma reachable_config U strict P x : reachable U P x ->
  (strict = true -> forall id, ~ P (EvDeregistered id)) ->
  config_ok U strict (records x) (table x) (listed x).
Proof.
  intros Hr HP. induction Hr as [db Hd|x ev c x' Hr IH Hev Hp Hst]; [by apply config_ok_empty|].
  destruct Hst as [ev db s wl s' c Hrun|id a e db s wl s' c E Hin Ht|db s wl|db db' s wl]; cbn in *.
  - apply (run_config U strict db ev s); [done| |done|done]. intros Hs id ->. by apply (HP Hs id).
  - pose proof (timeout_config U strict db id a e s wl IH Hp E Hin) as H. by rewrite Ht in H.
  - apply config_ok_empty, IH.
  - destruct Hp. by apply (records_config U strict db).
Qed.
End system.

(** ** The size of the accept list *)

(** No device enters the accept list. *)
Definition flags_le (s' s : bgconn) : Prop :=
  forall b, is_background_connection b s' = true -> is_background_connection b s = true.

Lemma flags_le_refl s : flags_le s s.
Proof. by intros b. Qed.
Lemma flags_le_trans s1 s2 s3 : flags_le s1 s2 -> flags_le s2 s3 -> flags_le s1 s3.
Proof. intros H1 H2 b Hb. by apply H2, H1. Qed.

Lemma flags_le_insert a e s : (is_in_accept_list e = true -> is_background_connection a s = true) ->
  flags_le (<[a := e]> s) s.
Proof.
  intros H b. unfold is_background_connection in *. destruct (decide (b = a)) as [->|Hb].
  - by rewrite lookup_insert_eq.
  - by rewrite lookup_insert_ne by congruence.
Qed.
Lemma flags_le_delete a s : flags_le (delete a s) s.
Proof.
  intros b. unfold is_background_connection. destruct (decide (b = a)) as [->|Hb].
  - by rewrite lookup_delete_eq.
  - by rewrite lookup_delete_ne by congruence.
Qed.
Lemma flags_le_empty s : flags_le ∅ s.
Proof. intros b. unfold is_background_connection. by rewrite lookup_empty. Qed.

(** The devices in the accept list, as a set. *)
Definition in_list (s : bgconn) : gset RawAddress :=
  dom (filter (fun '(_, e) => is_in_accept_list e = true) s).

Lemma elem_in_list a s : a ∈ in_list s <-> is_background_connection a s = true.
Proof.
  unfold in_list, is_background_connection. rewrite elem_of_dom. split.
  - intros [e [E He]%map_lookup_filter_Some]. by rewrite E.
  - destruct (s !! a) as [e|] eqn:E; [|done]. intros He. exists e. by apply map_lookup_filter_Some.
Qed.

Lemma num_entries_in_list s : num_entries s = Z.of_nat (size (in_list s)).
Proof. unfold num_entries, in_list. by rewrite size_dom. Qed.

Lemma num_entries_le s s' : flags_le s' s -> num_entries s' <= num_entries s.
Proof.
  intros H. rewrite !num_entries_in_list. apply inj_le, subseteq_size. intros a.
  rewrite !elem_in_list. apply H.
Qed.

Lemma num_entries_add a s s' : (forall b, b <> a -> s' !! b = s !! b) ->
  num_entries s' <= num_entries s + 1.
Proof.
  intros H. rewrite !num_entries_in_list.
  assert (size (in_list s') <= size ({[a]} ∪ in_list s))%nat as Hs.
  { apply subseteq_size. intros b. rewrite elem_in_list. intros Hb. apply elem_of_union.
    destruct (decide (b = a)) as [->|Hn]; [left; by apply elem_of_singleton|right].
    apply elem_in_list. unfold is_background_connection in *. by rewrite <- H. }
  assert (size ({[a]} ∪ in_list s) <= 1 + size (in_list s))%nat.
  { rewrite <- (size_singleton (C := gset Z) a), size_union_alt.
    assert (size (in_list s ∖ {[a]}) <= size (in_list s))%nat by (apply subseteq_size; set_solver). lia. }
  lia.
Qed.

Section bound.
Context (db : database).
Context (AcceptListSize : Z).
Context (flag : bool).

Ltac bg_lookup E := unfold is_background_connection, update_at; rewrite ?lookup_insert_eq, ?E; cbn.

Lemma ta_add_flags id a s :
  let '(_, s', _) := background_connect_targeted_announcement_add db id a s in
  flags_le s' s.
Proof.
  unfold background_connect_targeted_announcement_add.
  destruct (s !! a) as [e|] eqn:E.
  - case_bool_decide; [apply flags_le_refl|].
    destruct (nonempty _); [|destruct (negb _ && _)]; cbv beta iota zeta; unfold update_at;
      rewrite ?lookup_insert_eq, ?insert_insert_eq, ?E; apply flags_le_insert; cbn; try done;
      unfold is_background_connection; by rewrite E.
  - cbv beta iota zeta. unfold update_at. rewrite E. by apply flags_le_insert.
Qed.

Lemma direct_remove_flags id a t s :
  let '(_, s', _) := direct_connect_remove db id a t s in flags_le s' s.
Proof.
  unfold direct_connect_remove. destruct (s !! a) as [e|] eqn:E; [|apply flags_le_refl].
  destruct (negb (bool_decide _)); [apply flags_le_refl|].
  assert (is_background_connection a s = is_in_accept_list e) as Hb
    by (unfold is_background_connection; by rewrite E).
  destruct (is_anyone_interested_to_use_accept_list _); [|destruct (negb _)].
  - apply flags_le_insert. by rewrite Hb.
  - rewrite delete_insert_eq. apply flags_le_delete.
  - rewrite insert_insert_eq. by apply flags_le_insert.
Qed.

Lemma complete_flags fuel a : forall s c s' c',
  remove_all_clients_loop db fuel a s c = Some (s', c') -> flags_le s' s.
Proof.
  induction fuel as [|fuel IH]; intros s c s' c'; [done|]. cbn [remove_all_clients_loop].
  destruct (s !! a) as [e|]; [|intros [= -> ->]; apply flags_le_refl].
  destruct (begin _) as [id|]; [|intros [= -> ->]; apply flags_le_refl].
  pose proof (direct_remove_flags id a false s) as Hd.
  destruct (direct_connect_remove _ _ _ _ _) as [[r s1] c1].
  intros H%IH. by eapply flags_le_trans.
Qed.

Lemma deregister_flags id keys : forall s c,
  flags_le (fst (fold_left (deregister_entry db id) keys (s, c))) s.
Proof.
  induction keys as [|a keys IH]; intros s c; [apply flags_le_refl|]. cbn [fold_left].
  assert (exists s1 c1, deregister_entry db id (s, c) a = (s1, c1) /\ flags_le s1 s)
    as (s1 & c1 & -> & H1).
  { unfold deregister_entry. destruct (s !! a) as [e|] eqn:E; [|do 2 eexists; split; [done|apply flags_le_refl]].
    destruct (is_anyone_connecting _); do 2 eexists; (split; [done|]).
    - apply flags_le_insert. unfold is_background_connection. by rewrite E.
    - apply flags_le_delete. }
  eapply flags_le_trans; [apply IH|done].
Qed.

(** An operation that may add one device, only when the list is not full. *)
Definition adds_if_not_full (s s' : bgconn) : Prop :=
  flags_le s' s \/ (accept_list_is_full AcceptListSize s = false /\ num_entries s' <= num_entries s + 1).

Lemma bg_add_flags id a s :
  let '(_, s', _) := background_connect_add db AcceptListSize id a s in
  adds_if_not_full s s'.
Proof.
  unfold background_connect_add, adds_if_not_full.
  destruct (s !! a) as [e|] eqn:E.
  - case_bool_decide; [left; apply flags_le_refl|].
    assert (is_background_connection a s = is_in_accept_list e) as Hb
      by (unfold is_background_connection; by rewrite E).
    destruct (is_in_accept_list e) eqn:El; cbn [negb].
    { left. unfold update_at. rewrite E. by apply flags_le_insert. }
    destruct (nonempty _).
    { left. unfold update_at. rewrite E. apply flags_le_insert. cbn. by rewrite El. }
    destruct (accept_list_is_full AcceptListSize s) eqn:Ef; [left; apply flags_le_refl|].
    right. split; [done|]. apply (num_entries_add a). elsewhere.
  - cbn [negb]. destruct (accept_list_is_full AcceptListSize s) eqn:Ef; [left; apply flags_le_refl|].
    right. split; [done|]. apply (num_entries_add a). elsewhere.
Qed.

Lemma direct_add_flags id a ty relax s :
  let '(_, s', _) := direct_connect_add db AcceptListSize flag id a ty relax s in
  adds_if_not_full s s'.
Proof.
  unfold direct_connect_add, adds_if_not_full.
  destruct (_ =? BLE_ADDR_ANONYMOUS); [left; apply flags_le_refl|].
  destruct (s !! a) as [e|] eqn:E.
  - case_bool_decide; [left; apply flags_le_refl|].
    destruct (nonempty _); [left; apply flags_le_refl|].
    destruct (is_in_accept_list e) eqn:El; cbn [negb].
    { left. unfold update_at. rewrite E. apply flags_le_insert. cbn.
      unfold is_background_connection. by rewrite E. }
    destruct (accept_list_is_full AcceptListSize s) eqn:Ef; [left; apply flags_le_refl|].
    right. split; [done|]. apply (num_entries_add a). elsewhere.
  - cbn [negb]. destruct (accept_list_is_full AcceptListSize s) eqn:Ef; [left; apply flags_le_refl|].
    right. split; [done|]. apply (num_entries_add a). elsewhere.
Qed.

Lemma adds_bound s s' : adds_if_not_full s s' -> num_entries s <= AcceptListSize ->
  num_entries s' <= AcceptListSize.
Proof.
  intros [H|[Hf H]] Hs.
  - pose proof (num_entries_le s s' H). lia.
  - unfold accept_list_is_full in Hf. rewrite Z.geb_leb in Hf. apply Z.leb_gt in Hf. lia.
Qed.

Lemma run_bound ev s s' c : (forall id a, ev <> EvBackgroundRemove id a) ->
  run AcceptListSize flag db ev s = Some (s', c) ->
  adds_if_not_full s s'.
Proof.
  intros Hev. destruct ev as [id a|id a|id a|a|id|a|id a ty relax|id a|id a| | |db']; cbn [run].
  - pose proof (ta_add_flags id a s) as H.
    destruct (background_connect_targeted_announcement_add _ _ _ _) as [[r s1] c1].
    intros [= -> ->]. by left.
  - pose proof (bg_add_flags id a s) as H.
    destruct (background_connect_add _ _ _ _ _) as [[r s1] c1]. by intros [= -> ->].
  - by destruct (Hev id a).
  - intros [= <- <-]. left. apply flags_le_delete.
  - intros [= H]. left. pose proof (deregister_flags id (merge_sort (≤) (elements (dom s))) s []) as Hd.
    unfold on_app_deregistered in H. by rewrite H in Hd.
  - intros H. left. by eapply complete_flags.
  - pose proof (direct_add_flags id a ty relax s) as H.
    destruct (direct_connect_add _ _ _ _ _ _ _ _) as [[r s1] c1]. by intros [= -> ->].
  - pose proof (direct_remove_flags id a false s) as H.
    destruct (direct_connect_remove _ _ _ _ _) as [[r s1] c1]. intros [= -> ->]. by left.
  - done.
  - intros [= <- <-]. left. apply flags_le_empty.
  - done.
  - done.
Qed.
End bound.

(** ** Theorems *)

(** Concrete parameters for the witnesses: the security database knows no device. *)
Definition no_device (_ : RawAddress) : option dev_rec := None.

Lemma no_device_distinct U : distinct U no_device.
Proof. intros a b _ _ [=]. done. Qed.

(** C9: in every reachable configuration, whatever the clients call, the addresses
    with type the ACL manager was asked to accept are exactly those
    [BTM_Sec_GetAddressWithType] gives for the devices whose entry is marked
    [is_in_accept_list]; every entry has a client, is in the accept list if a client
    needs it, and has at most one direct connection attempt.  The calls are [proper]:
    every device is named by one address and has an address of its own in the
    security database, a direct attempt to a device the database does not know is made
    with the type public, and a change of the database leaves the addresses of the
    listed devices. *)
Theorem accept_list_synchronised AcceptListSize flag U P db s wl :
  reachable AcceptListSize flag U P {| records := db; table := s; listed := wl |} ->
  (forall t, t ∈ wl <->
     exists a, is_background_connection a s = true /\ t = BTM_Sec_GetAddressWithType db a) /\
  (forall a e, s !! a = Some e -> entry_ok false e /\
     (BTM_Sec_GetAddressWithType db a ∈ wl <-> is_in_accept_list e = true)).
Proof.
  intros Hr. pose proof (reachable_config _ _ U false P _ Hr ltac:(done)) as H.
  cbn [records table listed] in H. split; [intros t; by apply (config_member U false)|].
  intros a e E. pose proof (config_slot _ _ _ _ _ H a ltac:(apply H; by rewrite E)) as Hs.
  rewrite E in Hs. destruct Hs as [Hw Hok]. by rewrite <- Hw, bool_decide_eq_true.
Qed.

(** A database with one device, known by its identity address. *)
Definition paired (a : RawAddress) : option dev_rec :=
  if a =? 7 then Some {| device_type := 2; ble_addr_type := 1; identity_address_with_type := (0, 70) |}
  else None.

Lemma paired_distinct : distinct (fun a => a < 70) paired.
Proof.
  intros a b Ha Hb. unfold BTM_Sec_GetAddressWithType, paired.
  destruct (Z.eqb_spec a 7), (Z.eqb_spec b 7); cbn; intros [=]; lia.
Qed.

Lemma accept_list_synchronised_witness :
  (0, 70) ∈ replay [AcceptLe (0, 70) true false] ∅ <->
  exists a, is_background_connection a
    (snd (fst (direct_connect_add paired 1 true 3 7 1 false ∅))) = true /\
    (0, 70) = BTM_Sec_GetAddressWithType paired a.
Proof.
  refine (proj1 (accept_list_synchronised 1 true (fun a => a < 70) (fun _ => True) paired _ _ _) (0, 70)).
  eapply (reach_step _ _ _ _ {| records := paired; table := ∅; listed := ∅ |}
    (EvDirectAdd 3 7 1 false) [AcceptLe (0, 70) true false]);
    [constructor; apply paired_distinct|exact I|split; [reflexivity|intros [=]]|].
  constructor. reflexivity.
Defined.

(** As long as no application is deregistered, the accept list is exact: a device
    is in it if and only if a client is interested in using it (a direct attempt, or a
    background connection that is not waiting for a targeted announcement). *)
Theorem accept_list_exact AcceptListSize flag U (P : event -> Prop) db s wl :
  (forall id, ~ P (EvDeregistered id)) ->
  reachable AcceptListSize flag U P {| records := db; table := s; listed := wl |} ->
  forall t, t ∈ wl <->
    exists a e, s !! a = Some e /\ is_anyone_interested_to_use_accept_list e = true /\
      t = BTM_Sec_GetAddressWithType db a.
Proof.
  intros HP Hr t. pose proof (reachable_config _ _ U true P _ Hr ltac:(done)) as H.
  cbn [records table listed] in H. rewrite (config_member U true db s wl t H).
  assert (forall a e, s !! a = Some e ->
    is_in_accept_list e = is_anyone_interested_to_use_accept_list e) as Hx.
  { intros a e E. pose proof (config_slot _ _ _ _ _ H a ltac:(apply H; by rewrite E)) as Hs.
    rewrite E in Hs. apply Hs. }
  unfold is_background_connection. split.
  - intros (a & Ha & ->). destruct (s !! a) as [e|] eqn:E; [|done]. exists a, e.
    by rewrite <- (Hx a e E).
  - intros (a & e & E & Hi & ->). exists a. by rewrite E, (Hx a e E).
Qed.

Lemma accept_list_exact_witness :
  (0, 7) ∈ replay [AcceptLe (0, 7) true false] ∅ <->
  exists a e, snd (fst (direct_connect_add no_device 1 true 3 7 0 false ∅)) !! a = Some e /\
    is_anyone_interested_to_use_accept_list e = true /\
    (0, 7) = BTM_Sec_GetAddressWithType no_device a.
Proof.
  refine (accept_list_exact 1 true (fun _ => True)
    (fun ev => match ev with EvDeregistered _ => False | _ => True end) no_device _ _ _ _ (0, 7)).
  - intros id H. exact H.
  - eapply (reach_step _ _ _ _ {| records := no_device; table := ∅; listed := ∅ |}
      (EvDirectAdd 3 7 0 false) [AcceptLe (0, 7) true false]);
      [constructor; apply no_device_distinct|exact I|split; [exact I|left; reflexivity]|].
    constructor. reflexivity.
Defined.

(** [on_connection_complete] terminates on every table; afterwards no direct
    attempt to the device is pending, its background and targeted announcement
    clients are kept (the entry goes away only if it had none), and no other device
    is affected. *)
Theorem on_connection_complete_clears db a s :
  exists s' c, on_connection_complete db a s = Some (s', c) /\
    is_direct_connection a s' = false /\ (forall b, b <> a -> s' !! b = s !! b) /\
    match s !! a, s' !! a with
    | None, o => o = None
    | Some e, Some e' =>
        doing_bg_conn e' = doing_bg_conn e /\
        doing_targeted_announcements_conn e' = doing_targeted_announcements_conn e
    | Some e, None => doing_bg_conn e = ∅ /\ doing_targeted_announcements_conn e = ∅
    end.
Proof.
  destruct (on_connection_complete_total db a s) as (s' & c & E & (Ho & Hd & Hk) & _).
  exists s', c. split_and!; done.
Qed.

(** Every operation but [background_connect_remove] keeps the number of devices in
    the accept list within the size of the controller's list. *)
Theorem accept_list_bound AcceptListSize flag db ev s s' c :
  (forall id a, ev <> EvBackgroundRemove id a) ->
  run AcceptListSize flag db ev s = Some (s', c) ->
  num_entries s <= AcceptListSize -> num_entries s' <= AcceptListSize.
Proof. intros Hev Hr. apply adds_bound. by eapply run_bound. Qed.

Lemma accept_list_bound_witness :
  num_entries (snd (fst (direct_connect_add no_device 1 true 3 7 0 false ∅))) <= 1.
Proof.
  refine (accept_list_bound 1 true no_device (EvDirectAdd 3 7 0 false) ∅ _
    [AcceptLe (0, 7) true false] _ _ _); [done|reflexivity|by_decide].
Defined.

(** The table and the accept list after a sequence of calls, each with the security
    database at its time. *)
Definition runs_on (size : Z) (evs : list (database * event))
    : option (bgconn * gset tBLE_BD_ADDR) :=
  fold_left (fun o '(db, ev) =>
    '(s, wl) ← o; '(s, c) ← run size true db ev s; Some (s, replay c wl)) evs (Some (∅, ∅)).
Definition runs (size : Z) (evs : list event) : option bgconn :=
  fst <$> runs_on size (pair no_device <$> evs).

(** Why the calls have to be [proper].  A direct attempt to a device without a
    record goes out with the type the caller gives, its removal with the type public:
    the device stays in the accept list when nobody wants it.  Two addresses of one
    device (its identity and a resolvable one) share one place in the accept list:
    removing one removes the other.  A device whose identity becomes known while it is
    listed is never removed. *)
Theorem accept_list_desynchronised :
  (wl ← runs_on 8 [(no_device, EvDirectAdd 3 7 1 false); (no_device, EvDirectRemove 3 7)];
   Some (bool_decide (wl.1 = ∅), elements wl.2)) = Some (true, [(1, 7)]) /\
  (wl ← runs_on 8 [(paired, EvBackgroundAdd 3 7); (paired, EvBackgroundAdd 3 70);
                   (paired, EvBackgroundRemove 3 70)];
   Some (is_background_connection 7 wl.1, elements wl.2)) = Some (true, []) /\
  (wl ← runs_on 8 [(no_device, EvBackgroundAdd 3 7); (paired, EvBackgroundRemove 3 7)];
   Some (bool_decide (wl.1 = ∅), elements wl.2)) = Some (true, [(0, 7)]).
Proof. split_and!; vm_compute; reflexivity. Qed.

(** [background_connect_remove] does not check whether the accept list is full: with
    a controller list of one device, a targeted announcement client of device 1 with a
    background client, then a background client of device 2, then the removal of the
    targeted announcement client put two devices in the accept list. *)
Theorem background_connect_remove_overflows :
  num_entries <$> runs 1 [EvTargetedAdd 1 1; EvBackgroundAdd 2 1; EvBackgroundAdd 3 2] = Some 1 /\
  num_entries <$> runs 1 [EvTargetedAdd 1 1; EvBackgroundAdd 2 1; EvBackgroundAdd 3 2;
                          EvBackgroundRemove 1 1] = Some 2.
Proof. split; vm_compute; reflexivity. Qed.

(** [on_app_deregistered] may leave a device in the accept list that no client is
    interested in: it forgets the direct attempt of the application without leaving the
    accept list when a targeted announcement client remains, and from then on the
    device's targeted announcements are ignored. *)
Theorem on_app_deregistered_leaves_stale_entry :
  exists s e, runs 8 [EvTargetedAdd 1 1; EvDirectAdd 2 1 0 false; EvDeregistered 2] = Some s /\
    s !! 1 = Some e /\ is_in_accept_list e = true /\
    is_anyone_interested_to_use_accept_list e = false /\
    IsTargetedAnnouncement [4; 0x16; 0x53; 0x18; 1] = Some true /\
    target_announcement_observe_results_cb (fun _ => 0xFFFF) 1 [4; 0x16; 0x53; 0x18; 1] s = Some [].
Proof. eexists _, _. split_and!; vm_compute; reflexivity. Qed.

(** When the last user of targeted announcement filtering goes away,
    [background_connect_remove] asks for the filtering to be enabled, not disabled. *)
Theorem background_connect_remove_filtering db id a s e :
  s !! a = Some e -> is_in_accept_list e = false ->
  doing_targeted_announcements_conn e = {[id]} -> doing_direct_conn e = ∅ ->
  doing_bg_conn e ⊆ {[id]} -> num_of_targeted_announcements_users (delete a s) = 0%nat ->
  background_connect_remove db id a s = (true, delete a s, [FilteringSet true]).
Proof.
  intros E Hl Ht Hd Hb Hn. unfold background_connect_remove. rewrite E.
  cbn [doing_bg_conn doing_targeted_announcements_conn is_in_accept_list doing_direct_conn set_bg set_ta].
  rewrite Ht, (bool_decide_true (id ∈ {[id]})) by set_solver. rewrite andb_false_r.
  assert (is_anyone_connecting
    (set_ta ({[id]} ∖ {[id]}) (set_bg (doing_bg_conn e ∖ {[id]}) e)) = false) as ->.
  { unfold is_anyone_connecting. cbn. rewrite Hd.
    assert (doing_bg_conn e ∖ {[id]} = ∅) as -> by set_solver.
    assert (({[id]} ∖ {[id]} : gset Z) = ∅) as -> by set_solver. by rewrite !nonempty_empty. }
  rewrite Hl, delete_insert_eq, Hn, size_singleton. done.
Qed.

Lemma background_connect_remove_filtering_witness :
  background_connect_remove no_device 5 9
    (snd (fst (background_connect_targeted_announcement_add no_device 5 9 ∅))) =
  (true, delete 9 (snd (fst (background_connect_targeted_announcement_add no_device 5 9 ∅))),
   [FilteringSet true]).
Proof.
  refine (background_connect_remove_filtering no_device 5 9
    (snd (fst (background_connect_targeted_announcement_add no_device 5 9 ∅))) _
    eq_refl eq_refl eq_refl eq_refl _ eq_refl). by_decide.
Defined.
