(* ===== verification/AclScheduler.v ===== *)
(** * ACL connection scheduler

    Model of [AclScheduler::impl]
    ([src/system/gd/hci/acl_manager/acl_scheduler.cc]): one outgoing operation at
    a time, a queue of the requested ones, and the set of peers with an incoming
    connection in progress.

    A callback is identified by the number of the request it belongs to; running a
    callback is an output of the operation.  The callbacks are contextual: running
    one posts it, so that an operation is never reentered. *)

From stdpp Require Import base list gmap sets.
From Stdlib Require Import ZArith Lia.
From S2P Require Import Prelude.

Open Scope Z_scope.

Abbreviation Address := Z (only parsing).

(** ** State *)

Inductive QueueEntry :=
| AclCreateConnectionQueueEntry (address : Address) (request : nat)
| RemoteNameRequestQueueEntry (address : Address) (request : nat).

#[export] Instance QueueEntry_eq_dec : EqDecision QueueEntry.
Proof. solve_decision. Defined.

Record impl := {
  outgoing_entry_ : option QueueEntry;
  pending_outgoing_operations_ : list QueueEntry;
  incoming_connecting_address_set_ : gset Address;
  stopped_ : bool;
}.

Definition initial : impl := {|
  outgoing_entry_ := None; pending_outgoing_operations_ := [];
  incoming_connecting_address_set_ := ∅; stopped_ := false |}.

Definition set_outgoing (o : option QueueEntry) (s : impl) : impl := {|
  outgoing_entry_ := o; pending_outgoing_operations_ := pending_outgoing_operations_ s;
  incoming_connecting_address_set_ := incoming_connecting_address_set_ s; stopped_ := stopped_ s |}.
Definition set_pending (q : list QueueEntry) (s : impl) : impl := {|
  outgoing_entry_ := outgoing_entry_ s; pending_outgoing_operations_ := q;
  incoming_connecting_address_set_ := incoming_connecting_address_set_ s; stopped_ := stopped_ s |}.
Definition set_incoming (i : gset Address) (s : impl) : impl := {|
  outgoing_entry_ := outgoing_entry_ s;
  pending_outgoing_operations_ := pending_outgoing_operations_ s;
  incoming_connecting_address_set_ := i; stopped_ := stopped_ s |}.

(** The callbacks run, in order. *)
Inductive callback :=
| Started (e : QueueEntry)                (* [callback] of a dequeued entry *)
| HandleOutgoingConnection (address : Address)
| HandleIncomingConnection (address : Address)
| HandleUnknownConnection (address : Address)
| CancelOutgoing (address : Address)      (* cancel_connection or cancel_request *)
| CancelledQueued (e : QueueEntry).       (* cancel_connection_completed or callback_when_cancelled *)

(** ** Operations *)

Definition ready_to_send_next_operation (s : impl) : bool :=
  if stopped_ s then false
  else
    match pending_outgoing_operations_ s with
    | [] => false
    | front :: _ =>
        let default := bool_decide (incoming_connecting_address_set_ s = ∅) &&
                       bool_decide (outgoing_entry_ s = None) in
        match front with
        | RemoteNameRequestQueueEntry address _ =>
            if bool_decide (address ∈ incoming_connecting_address_set_ s) then true else default
        | AclCreateConnectionQueueEntry _ _ => default
        end
    end.

Definition try_dequeue_next_operation (s : impl) : impl * list callback :=
  if ready_to_send_next_operation s then
    match pending_outgoing_operations_ s with
    | entry :: rest => (set_outgoing (Some entry) (set_pending rest s), [Started entry])
    | [] => (s, [])
    end
  else (s, []).

Definition EnqueueOutgoingAclConnection (address : Address) (request : nat) (s : impl)
    : impl * list callback :=
  try_dequeue_next_operation
    (set_pending (pending_outgoing_operations_ s ++ [AclCreateConnectionQueueEntry address request]) s).

Definition RegisterPendingIncomingConnection (address : Address) (s : impl) : impl * list callback :=
  (set_incoming ({[address]} ∪ incoming_connecting_address_set_ s) s, []).

Section with_flag.
Context (flag_acl_fix_in_and_out_connection_reqs : bool).

Definition ReportAclConnectionCompletion (address : Address) (s : impl) : impl * list callback :=
  let incoming_part :=
    let '(s, c) :=
      if bool_decide (address ∈ incoming_connecting_address_set_ s) then
        (set_incoming (incoming_connecting_address_set_ s ∖ {[address]}) s,
         [HandleIncomingConnection address])
      else (s, [HandleUnknownConnection address]) in
    let '(s, c') := try_dequeue_next_operation s in (s, c ++ c') in
  match outgoing_entry_ s with
  | Some (AclCreateConnectionQueueEntry a _) =>
      if a =? address then
        let s := set_outgoing None s in
        let s :=
          if flag_acl_fix_in_and_out_connection_reqs &&
             bool_decide (address ∈ incoming_connecting_address_set_ s)
          then set_incoming (incoming_connecting_address_set_ s ∖ {[address]}) s
          else s in
        let '(s, c) := try_dequeue_next_operation s in
        (s, HandleOutgoingConnection address :: c)
      else incoming_part
  | _ => incoming_part
  end.

Definition ReportOutgoingAclConnectionFailure (s : impl) : impl * list callback :=
  match outgoing_entry_ s with
  | Some (AclCreateConnectionQueueEntry _ _) => try_dequeue_next_operation (set_outgoing None s)
  | Some (RemoteNameRequestQueueEntry _ _) | None => (s, [])
  end.

(** [std::find_if] and [erase]: the first entry that matches, and the queue
    without it. *)
Fixpoint find_erase (matcher : QueueEntry -> bool) (q : list QueueEntry)
    : option (QueueEntry * list QueueEntry) :=
  match q with
  | [] => None
  | e :: q =>
      if matcher e then Some (e, q)
      else match find_erase matcher q with None => None | Some (x, q') => Some (x, e :: q') end
  end.

Definition cancel_outgoing_or_queued_connection (matcher : QueueEntry -> bool) (address : Address)
    (s : impl) : bool * impl * list callback :=
  let queued :=
    match find_erase matcher (pending_outgoing_operations_ s) with
    | None => (false, s, [])
    | Some (e, q) => (true, set_pending q s, [CancelledQueued e])
    end in
  match outgoing_entry_ s with
  | Some e => if matcher e then (true, s, [CancelOutgoing address]) else queued
  | None => queued
  end.

Definition is_acl_to (address : Address) (e : QueueEntry) : bool :=
  match e with AclCreateConnectionQueueEntry a _ => a =? address | _ => false end.
Definition is_rnr_to (address : Address) (e : QueueEntry) : bool :=
  match e with RemoteNameRequestQueueEntry a _ => a =? address | _ => false end.

Definition CancelAclConnection (address : Address) (s : impl) : impl * list callback :=
  let '(_, s, c) := cancel_outgoing_or_queued_connection (is_acl_to address) address s in (s, c).

Definition EnqueueRemoteNameRequest (address : Address) (request : nat) (s : impl)
    : impl * list callback :=
  try_dequeue_next_operation
    (set_pending (pending_outgoing_operations_ s ++ [RemoteNameRequestQueueEntry address request]) s).

Definition ReportRemoteNameRequestCompletion (s : impl) : impl * list callback :=
  match outgoing_entry_ s with
  | None => (s, [])
  | Some _ => try_dequeue_next_operation (set_outgoing None s)
  end.

Definition CancelRemoteNameRequest (address : Address) (s : impl) : impl * list callback :=
  let '(_, s, c) := cancel_outgoing_or_queued_connection (is_rnr_to address) address s in (s, c).

Definition Stop (s : impl) : impl * list callback :=
  ({| outgoing_entry_ := outgoing_entry_ s;
      pending_outgoing_operations_ := pending_outgoing_operations_ s;
      incoming_connecting_address_set_ := incoming_connecting_address_set_ s; stopped_ := true |}, []).

(** ** The scheduler as a transition system *)

Inductive event :=
| EvEnqueueAcl (address : Address) (request : nat)
| EvEnqueueRnr (address : Address) (request : nat)
| EvRegisterIncoming (address : Address)
| EvAclCompletion (address : Address)
| EvAclFailure
| EvRnrCompletion
| EvCancelAcl (address : Address)
| EvCancelRnr (address : Address)
| EvStop.

Definition run (ev : event) (s : impl) : impl * list callback :=
  match ev with
  | EvEnqueueAcl a r => EnqueueOutgoingAclConnection a r s
  | EvEnqueueRnr a r => EnqueueRemoteNameRequest a r s
  | EvRegisterIncoming a => RegisterPendingIncomingConnection a s
  | EvAclCompletion a => ReportAclConnectionCompletion a s
  | EvAclFailure => ReportOutgoingAclConnectionFailure s
  | EvRnrCompletion => ReportRemoteNameRequestCompletion s
  | EvCancelAcl a => CancelAclConnection a s
  | EvCancelRnr a => CancelRemoteNameRequest a s
  | EvStop => Stop s
  end.

(** The entries an event requests. *)
Definition requested (ev : event) : list QueueEntry :=
  match ev with
  | EvEnqueueAcl a r => [AclCreateConnectionQueueEntry a r]
  | EvEnqueueRnr a r => [RemoteNameRequestQueueEntry a r]
  | _ => []
  end.
Definition started (c : list callback) : list QueueEntry :=
  omap (fun x => match x with Started e => Some e | _ => None end) c.
Definition cancelled (c : list callback) : list QueueEntry :=
  omap (fun x => match x with CancelledQueued e => Some e | _ => None end) c.

(** A history: the entries requested, the callbacks run, the state. *)
Inductive history : list QueueEntry -> list callback -> impl -> Prop :=
| hist_init : history [] [] initial
| hist_step req c s ev s' c' : history req c s -> run ev s = (s', c') ->
    (forall e, e ∈ requested ev -> e ∉ req) -> history (req ++ requested ev) (c ++ c') s'.

(** ** One operation *)

(** Nobody waits although nothing is in progress. *)
Definition no_lost_wakeup (s : impl) : Prop :=
  stopped_ s = false -> outgoing_entry_ s = None -> incoming_connecting_address_set_ s = ∅ ->
  pending_outgoing_operations_ s = [].

Lemma ready_idle s : stopped_ s = false -> outgoing_entry_ s = None ->
  incoming_connecting_address_set_ s = ∅ -> pending_outgoing_operations_ s <> [] ->
  ready_to_send_next_operation s = true.
Proof.
  intros Hs Ho Hi Hp. unfold ready_to_send_next_operation. rewrite Hs, Ho, Hi.
  destruct (pending_outgoing_operations_ s) as [|[a r|a r] q]; [done|done|].
  by destruct (bool_decide (a ∈ ∅)).
Qed.

(** [try_dequeue_next_operation] starts the first entry of the queue, or nothing. *)
Lemma try_dequeue_spec s : let '(s', c) := try_dequeue_next_operation s in
  no_lost_wakeup s' /\
  ((s' = s /\ c = []) \/
   exists e q, pending_outgoing_operations_ s = e :: q /\
     s' = set_outgoing (Some e) (set_pending q s) /\ c = [Started e] /\
     ready_to_send_next_operation s = true).
Proof.
  unfold try_dequeue_next_operation. destruct (ready_to_send_next_operation s) eqn:Er.
  - destruct (pending_outgoing_operations_ s) as [|e q] eqn:Ep.
    + unfold ready_to_send_next_operation in Er. rewrite Ep in Er. by destruct (stopped_ s).
    + split; [by intros _ [=]|]. right. by exists e, q.
  - split; [|by left]. intros Hs Ho Hi. destruct (pending_outgoing_operations_ s) eqn:Ep; [done|].
    rewrite ready_idle in Er; [done|done..|by rewrite Ep].
Qed.

(** The accounting of one operation: what was queued and is requested is started
    from the front, cancelled, or still queued. *)
Definition step_ok (s : impl) (ev : event) (s' : impl) (c : list callback) : Prop :=
  let q := pending_outgoing_operations_ s ++ requested ev in
  let q' := pending_outgoing_operations_ s' in
  (cancelled c = [] /\ q = started c ++ q') \/
  (exists e q1 q2, started c = [] /\ cancelled c = [e] /\ q = q1 ++ e :: q2 /\ q' = q1 ++ q2).

Lemma find_erase_spec matcher q e q' : find_erase matcher q = Some (e, q') ->
  matcher e = true /\ exists q1 q2, q = q1 ++ e :: q2 /\ q' = q1 ++ q2.
Proof.
  revert q'. induction q as [|x q IH]; intros q'; [done|]. cbn [find_erase].
  destruct (matcher x) eqn:Em.
  - intros [= -> ->]. split; [done|]. by exists [], q'.
  - destruct (find_erase matcher q) as [[y q0]|]; [|done]. intros [= -> <-].
    destruct (IH q0 eq_refl) as (Hm & q1 & q2 & -> & ->). split; [done|]. by exists (x :: q1), q2.
Qed.

(** An operation that changes no queue before [try_dequeue_next_operation]. *)
Lemma dequeue_step_ok s ev s0 : pending_outgoing_operations_ s0 =
    pending_outgoing_operations_ s ++ requested ev ->
  let '(s', c) := try_dequeue_next_operation s0 in
  step_ok s ev s' c /\ no_lost_wakeup s' /\ cancelled c = [].
Proof.
  intros Hp. pose proof (try_dequeue_spec s0) as H.
  destruct (try_dequeue_next_operation s0) as [s' c]. destruct H as [Hw [[-> ->]|(e & q & Ep & -> & -> & _)]].
  - split_and!; [|done|done]. left. by rewrite Hp.
  - split_and!; [|done|done]. left. split; [done|]. by rewrite <- Hp, Ep.
Qed.

Lemma cancel_step_ok s ev matcher address : requested ev = [] -> no_lost_wakeup s ->
  let '(_, s', c) := cancel_outgoing_or_queued_connection matcher address s in
  step_ok s ev s' c /\ no_lost_wakeup s'.
Proof.
  intros Hr Hw. unfold cancel_outgoing_or_queued_connection, step_ok. rewrite Hr, app_nil_r.
  assert (Hq : let '(_, s', c) :=
     match find_erase matcher (pending_outgoing_operations_ s) with
     | None => (false, s, [])
     | Some (e, q) => (true, set_pending q s, [CancelledQueued e])
     end in
     ((cancelled c = [] /\ pending_outgoing_operations_ s = started c ++ pending_outgoing_operations_ s') \/
      (exists e q1 q2, started c = [] /\ cancelled c = [e] /\
        pending_outgoing_operations_ s = q1 ++ e :: q2 /\ pending_outgoing_operations_ s' = q1 ++ q2)) /\
     no_lost_wakeup s').
  { destruct (find_erase matcher _) as [[e q]|] eqn:Ef; [|by split; [left|]].
    destruct (find_erase_spec _ _ _ _ Ef) as (_ & q1 & q2 & E & ->). split.
    - right. by exists e, q1, q2.
    - intros H1 H2 H3. specialize (Hw H1 H2 H3). rewrite E in Hw. by destruct q1. }
  destruct (outgoing_entry_ s) as [e|] eqn:Eo; [|exact Hq].
  destruct (matcher e); [|exact Hq]. split; [by left|done].
Qed.

Lemma refl_step_ok s ev : requested ev = [] -> no_lost_wakeup s -> step_ok s ev s [] /\ no_lost_wakeup s.
Proof. intros Hr Hw. split; [|done]. left. by rewrite Hr, app_nil_r. Qed.

(** A leading callback that neither starts nor cancels a request. *)
Lemma step_ok_cons s ev s' c x : started [x] = [] -> cancelled [x] = [] ->
  step_ok s ev s' c -> step_ok s ev s' (x :: c).
Proof.
  intros H1 H2. unfold step_ok. change (x :: c) with ([x] ++ c). unfold started, cancelled in *.
  by rewrite !omap_app, H1, H2.
Qed.

Lemma completion_step_ok a s s' c : no_lost_wakeup s -> ReportAclConnectionCompletion a s = (s', c) ->
  step_ok s (EvAclCompletion a) s' c /\ no_lost_wakeup s'.
Proof.
  intros Hw. unfold ReportAclConnectionCompletion.
  assert (Hd : forall s0 x, pending_outgoing_operations_ s0 = pending_outgoing_operations_ s ->
    started [x] = [] -> cancelled [x] = [] ->
    (let '(s1, c1) := try_dequeue_next_operation s0 in (s1, x :: c1)) = (s', c) ->
    step_ok s (EvAclCompletion a) s' c /\ no_lost_wakeup s').
  { intros s0 x Hp H1 H2.
    pose proof (dequeue_step_ok s (EvAclCompletion a) s0 ltac:(by rewrite Hp, app_nil_r)) as H.
    destruct (try_dequeue_next_operation s0) as [s1 c1]. intros [= <- <-].
    destruct H as (Hs & Hn & _). split; [by apply step_ok_cons|done]. }
  assert (Hin : (let '(s0, c0) :=
      if bool_decide (a ∈ incoming_connecting_address_set_ s)
      then (set_incoming (incoming_connecting_address_set_ s ∖ {[a]}) s, [HandleIncomingConnection a])
      else (s, [HandleUnknownConnection a]) in
      let '(s1, c1) := try_dequeue_next_operation s0 in (s1, c0 ++ c1)) = (s', c) ->
    step_ok s (EvAclCompletion a) s' c /\ no_lost_wakeup s').
  { destruct (bool_decide _); apply Hd; done. }
  destruct (outgoing_entry_ s) as [[b r|b r]|]; [|exact Hin..].
  destruct (b =? a); [|exact Hin].
  destruct (_ && _); apply Hd; done.
Qed.

Lemma run_step_ok ev s s' c : no_lost_wakeup s -> run ev s = (s', c) ->
  step_ok s ev s' c /\ no_lost_wakeup s'.
Proof.
  intros Hw. destruct ev as [a r|a r|a|a| | |a|a|]; cbn [run]; intros Hr.
  - pose proof (dequeue_step_ok s (EvEnqueueAcl a r)
      (set_pending (pending_outgoing_operations_ s ++ [AclCreateConnectionQueueEntry a r]) s) eq_refl) as H.
    unfold EnqueueOutgoingAclConnection in Hr. by rewrite Hr in H; destruct H as (? & ? & _).
  - pose proof (dequeue_step_ok s (EvEnqueueRnr a r)
      (set_pending (pending_outgoing_operations_ s ++ [RemoteNameRequestQueueEntry a r]) s) eq_refl) as H.
    unfold EnqueueRemoteNameRequest in Hr. by rewrite Hr in H; destruct H as (? & ? & _).
  - injection Hr as <- <-. split; [left; by cbn; rewrite app_nil_r|].
    intros _ _ H. cbn in H. set_solver.
  - by eapply completion_step_ok.
  - unfold ReportOutgoingAclConnectionFailure in Hr.
    destruct (outgoing_entry_ s) as [[b r|b r]|] eqn:Eo; [|by injection Hr as <- <-; apply refl_step_ok..].
    pose proof (dequeue_step_ok s EvAclFailure (set_outgoing None s)
      (eq_sym (app_nil_r _))) as H. by rewrite Hr in H; destruct H as (? & ? & _).
  - unfold ReportRemoteNameRequestCompletion in Hr.
    destruct (outgoing_entry_ s) as [e|] eqn:Eo; [|by injection Hr as <- <-; apply refl_step_ok].
    pose proof (dequeue_step_ok s EvRnrCompletion (set_outgoing None s)
      (eq_sym (app_nil_r _))) as H. by rewrite Hr in H; destruct H as (? & ? & _).
  - pose proof (cancel_step_ok s (EvCancelAcl a) (is_acl_to a) a eq_refl Hw) as H.
    unfold CancelAclConnection in Hr.
    destruct (cancel_outgoing_or_queued_connection _ _ _) as [[b s1] c1]. by injection Hr as <- <-.
  - pose proof (cancel_step_ok s (EvCancelRnr a) (is_rnr_to a) a eq_refl Hw) as H.
    unfold CancelRemoteNameRequest in Hr.
    destruct (cancel_outgoing_or_queued_connection _ _ _) as [[b s1] c1]. by injection Hr as <- <-.
  - injection Hr as <- <-. split; [left; by cbn; rewrite app_nil_r|]. by intros [=].
Qed.

(** ** Histories *)

Lemma omap_app_started c c' : started (c ++ c') = started c ++ started c'.
Proof. apply omap_app. Qed.
Lemma omap_app_cancelled c c' : cancelled (c ++ c') = cancelled c ++ cancelled c'.
Proof. apply omap_app. Qed.

(** The requests that were not cancelled. *)
Definition kept (gone : list QueueEntry) (req : list QueueEntry) : list QueueEntry :=
  filter (fun e => e ∉ gone) req.

Lemma kept_app gone r1 r2 : kept gone (r1 ++ r2) = kept gone r1 ++ kept gone r2.
Proof. apply filter_app. Qed.

Lemma kept_nil_l r : kept [] r = r.
Proof.
  unfold kept. induction r as [|e r IH]; [done|]. rewrite filter_cons_True by set_solver. by rewrite IH.
Qed.

(** Cancelling one more entry [e] that occurs once. *)
Lemma kept_cancel gone e req l1 l2 : NoDup req -> kept gone req = l1 ++ e :: l2 ->
  kept (gone ++ [e]) req = l1 ++ l2.
Proof.
  intros Hnd Hk.
  assert (kept (gone ++ [e]) req = filter (fun x => x <> e) (kept gone req)) as ->.
  { unfold kept. rewrite list_filter_filter. apply list_filter_iff. intros x.
    rewrite not_elem_of_app, list_elem_of_singleton. tauto. }
  assert (Hnd' : NoDup (l1 ++ e :: l2)) by (rewrite <- Hk; by apply NoDup_filter).
  rewrite Hk. rewrite filter_app, filter_cons_False by tauto.
  apply NoDup_app in Hnd' as (_ & Hd & [Hn2 _]%NoDup_cons).
  assert (forall l : list QueueEntry, e ∉ l -> filter (fun x => x <> e) l = l) as Hf.
  { induction l as [|x l IH]; intros Hl; [done|]. rewrite filter_cons_True by set_solver.
    f_equal. apply IH. set_solver. }
  rewrite !Hf; [done|done|]. intros He. apply (Hd e He). left.
Qed.

Lemma history_inv req c s : history req c s ->
  no_lost_wakeup s /\ NoDup req /\ (forall e, e ∈ cancelled c -> e ∈ req) /\
  kept (cancelled c) req = started c ++ pending_outgoing_operations_ s.
Proof.
  induction 1 as [|req c s ev s' c' Hh (Hw & Hnd & Hcr & Hk) Hr Hfresh]; [by split_and!; [|constructor|set_solver|]|].
  destruct (run_step_ok ev s s' c' Hw Hr) as [Hs Hw'].
  assert (Hnd' : NoDup (req ++ requested ev)).
  { apply NoDup_app. split_and!; [done|intros e H1 H2; by apply (Hfresh e)|].
    destruct ev; cbn; repeat constructor; set_solver. }
  assert (Hkr : kept (cancelled c) (req ++ requested ev) =
    started c ++ pending_outgoing_operations_ s ++ requested ev).
  { rewrite kept_app, Hk, <- app_assoc. do 2 f_equal. unfold kept.
    assert (forall e, e ∈ requested ev -> e ∉ cancelled c) as H by (intros e He Hc; by apply (Hfresh e), Hcr).
    revert H. clear. intros H. induction (requested ev) as [|e l IH]; [done|].
    rewrite filter_cons_True by (apply H; left). f_equal. apply IH. intros x Hx. apply H. by right. }
  split_and!; [done|done| |].
  - intros e. rewrite omap_app_cancelled, !elem_of_app. intros [He|He]; [left; by apply Hcr|].
    destruct Hs as [[Hc _]|(x & q1 & q2 & _ & Hc & Hq & _)]; rewrite Hc in He; [by apply elem_of_nil in He|].
    apply list_elem_of_singleton in He as ->.
    assert (x ∈ kept (cancelled c) (req ++ requested ev)) as Hx.
    { rewrite Hkr, Hq. set_solver. }
    apply elem_of_app. unfold kept in Hx. by apply list_elem_of_filter in Hx as [_ Hx].
  - rewrite omap_app_cancelled, omap_app_started.
    destruct Hs as [[Hc Hq]|(x & q1 & q2 & Hst & Hc & Hq & Hq')].
    + rewrite Hc, app_nil_r, Hkr, Hq, app_assoc. done.
    + rewrite Hc, Hst, app_nil_r, Hq', app_assoc. apply kept_cancel; [done|].
      by rewrite Hkr, Hq, app_assoc.
Qed.

(** ** Sequences of events *)

(** The states and the callbacks of a sequence of events, run from [s]. *)
Fixpoint run_all (evs : list event) (s : impl) : impl * list callback :=
  match evs with
  | [] => (s, [])
  | ev :: evs =>
      let '(s', c) := run ev s in
      let '(s'', c') := run_all evs s' in (s'', c ++ c')
  end.

Lemma history_run_all evs req c s s' c' : history req c s -> run_all evs s = (s', c') ->
  NoDup (req ++ (evs ≫= requested)) -> history (req ++ (evs ≫= requested)) (c ++ c') s'.
Proof.
  revert req c s s' c'. induction evs as [|ev evs IH]; intros req c s s' c' Hh Hr Hnd.
  - injection Hr as <- <-. change (@nil event ≫= requested) with (@nil QueueEntry).
    by rewrite !app_nil_r.
  - cbn [run_all] in Hr. destruct (run ev s) as [s1 c1] eqn:E1.
    destruct (run_all evs s1) as [s2 c2] eqn:E2. injection Hr as <- <-.
    rewrite bind_cons in *. rewrite !app_assoc in *. eapply IH; [|done|done].
    eapply hist_step; [done|done|]. intros e He Hin. apply NoDup_app in Hnd as (Hnd & _ & _).
    apply NoDup_app in Hnd as (_ & Hd & _). by apply (Hd e).
Qed.

Lemma run_all_history evs : NoDup (evs ≫= requested) ->
  history (evs ≫= requested) (run_all evs initial).2 (run_all evs initial).1.
Proof.
  intros Hnd. destruct (run_all evs initial) as [s c] eqn:E.
  by apply (history_run_all evs [] [] initial s c hist_init E).
Qed.

(** The event that ends the outgoing operation [o]. *)
Definition ends (ev : event) (o : QueueEntry) : bool :=
  match ev, o with
  | EvAclCompletion a, AclCreateConnectionQueueEntry b _ => b =? a
  | EvAclFailure, AclCreateConnectionQueueEntry _ _ => true
  | EvRnrCompletion, _ => true
  | _, _ => false
  end.

(** A remote name request to a peer whose incoming connection is in progress. *)
Definition rnr_to_incoming (s : impl) (e : QueueEntry) : Prop :=
  exists a r, e = RemoteNameRequestQueueEntry a r /\ a ∈ incoming_connecting_address_set_ s.

(** What justifies that [e] is started: it is alone, or it is a remote name request
    to a peer that is connecting. *)
Definition justified (s s' : impl) (e : QueueEntry) : Prop :=
  outgoing_entry_ s' = Some e /\
  (rnr_to_incoming s' e \/
   incoming_connecting_address_set_ s' = ∅ /\ outgoing_entry_ s = None).

Lemma ready_justified s e q : pending_outgoing_operations_ s = e :: q ->
  ready_to_send_next_operation s = true ->
  justified s (set_outgoing (Some e) (set_pending q s)) e.
Proof.
  intros Hp. unfold ready_to_send_next_operation, justified, rnr_to_incoming. rewrite Hp. cbn.
  destruct (stopped_ s); [done|]. intros Hr. split; [done|].
  assert (Hd : bool_decide (incoming_connecting_address_set_ s = ∅) &&
               bool_decide (outgoing_entry_ s = None) = true ->
    incoming_connecting_address_set_ s = ∅ /\ outgoing_entry_ s = None).
  { intros [H1 H2]%andb_true_iff. by apply bool_decide_eq_true in H1, H2. }
  destruct e as [a r|a r]; [by right; apply Hd|].
  destruct (bool_decide (a ∈ _)) eqn:Ea; [|by right; apply Hd].
  apply bool_decide_eq_true in Ea. left. by exists a, r.
Qed.

Lemma dequeue_justified s s' c e : try_dequeue_next_operation s = (s', c) -> e ∈ started c ->
  justified s s' e.
Proof.
  intros Hd He. pose proof (try_dequeue_spec s) as H. rewrite Hd in H.
  destruct H as [_ [[-> ->]|(x & q & Hp & -> & -> & Hr)]]; cbn in He; [by apply elem_of_nil in He|].
  apply list_elem_of_singleton in He as ->. by apply ready_justified.
Qed.

Lemma cancel_starts_nothing matcher a s :
  started (cancel_outgoing_or_queued_connection matcher a s).2 = [].
Proof.
  unfold cancel_outgoing_or_queued_connection.
  destruct (outgoing_entry_ s) as [o|]; [destruct (matcher o); [done|]|];
    by destruct (find_erase _ _) as [[]|].
Qed.

Lemma justified_weaken ev s s0 s' e : justified s0 s' e ->
  (outgoing_entry_ s0 = None -> from_option (ends ev) true (outgoing_entry_ s) = true) ->
  outgoing_entry_ s' = Some e /\
  (rnr_to_incoming s' e \/
   incoming_connecting_address_set_ s' = ∅ /\ from_option (ends ev) true (outgoing_entry_ s) = true).
Proof. intros [H1 [H2|[H2 H3]]] Hs; split; auto. Qed.

Lemma outgoing_none ev s : outgoing_entry_ s = None ->
  from_option (ends ev) true (outgoing_entry_ s) = true.
Proof. by intros ->. Qed.

Lemma completion_starts a s s' c e : ReportAclConnectionCompletion a s = (s', c) -> e ∈ started c ->
  exists s0, justified s0 s' e /\
    (outgoing_entry_ s0 = None ->
     from_option (ends (EvAclCompletion a)) true (outgoing_entry_ s) = true).
Proof.
  unfold ReportAclConnectionCompletion. intros Hr He.
  assert (Hd : forall s0 x, started [x] = [] ->
    (let '(s1, c1) := try_dequeue_next_operation s0 in (s1, x :: c1)) = (s', c) -> justified s0 s' e).
  { intros s0 x Hx. destruct (try_dequeue_next_operation s0) as [s1 c1] eqn:E. intros [= <- <-].
    change (x :: c1) with ([x] ++ c1) in He. rewrite omap_app_started, Hx in He.
    by eapply dequeue_justified. }
  assert (Hin : (let '(s0, c0) :=
      if bool_decide (a ∈ incoming_connecting_address_set_ s)
      then (set_incoming (incoming_connecting_address_set_ s ∖ {[a]}) s, [HandleIncomingConnection a])
      else (s, [HandleUnknownConnection a]) in
      let '(s1, c1) := try_dequeue_next_operation s0 in (s1, c0 ++ c1)) = (s', c) ->
    exists s0, justified s0 s' e /\ outgoing_entry_ s0 = outgoing_entry_ s).
  { destruct (bool_decide _); intros H; eexists; (split; [eapply Hd; [|exact H]; done|done]). }
  destruct (outgoing_entry_ s) as [[b r|b r]|] eqn:Eo.
  1: destruct (b =? a) eqn:Eb.
  { eexists. split; [eapply Hd; [|exact Hr]; done|]. intros _. cbn. exact Eb. }
  all: destruct (Hin Hr) as (s0 & Hj & E); exists s0; (split; [exact Hj|]);
    intros H; rewrite H in E; try discriminate E; reflexivity.
Qed.

End with_flag.

Lemma run_starts fix_flag ev s s' c e : run fix_flag ev s = (s', c) -> e ∈ started c ->
  exists s0, justified s0 s' e /\
    (outgoing_entry_ s0 = None -> from_option (ends ev) true (outgoing_entry_ s) = true).
Proof.
  intros Hr He. destruct ev as [a r|a r|a|a| | |a|a|]; cbn [run] in Hr.
  1-2: eexists; split; [eapply dequeue_justified; [exact Hr|exact He]|]; intros H; exact (outgoing_none _ s H).
  - injection Hr as <- <-. by apply elem_of_nil in He.
  - by eapply completion_starts.
  - unfold ReportOutgoingAclConnectionFailure in Hr.
    destruct (outgoing_entry_ s) as [[b r|b r]|] eqn:Eo;
      [|injection Hr as <- <-; by apply elem_of_nil in He..].
    eexists; split; [eapply dequeue_justified; [exact Hr|exact He]|done].
  - unfold ReportRemoteNameRequestCompletion in Hr.
    destruct (outgoing_entry_ s) as [o|] eqn:Eo; [|injection Hr as <- <-; by apply elem_of_nil in He].
    eexists; split; [eapply dequeue_justified; [exact Hr|exact He]|done].
  - pose proof (cancel_starts_nothing (is_acl_to a) a s) as H. unfold CancelAclConnection in Hr.
    destruct (cancel_outgoing_or_queued_connection _ _ _) as [[b s1] c1]. injection Hr as <- <-.
    change (started c1 = []) in H. rewrite H in He. by apply elem_of_nil in He.
  - pose proof (cancel_starts_nothing (is_rnr_to a) a s) as H. unfold CancelRemoteNameRequest in Hr.
    destruct (cancel_outgoing_or_queued_connection _ _ _) as [[b s1] c1]. injection Hr as <- <-.
    change (started c1 = []) in H. rewrite H in He. by apply elem_of_nil in He.
  - injection Hr as <- <-. by apply elem_of_nil in He.
Qed.

(** ** Properties *)

(** C23: the scheduler is a first-in first-out queue: over any history of requests
    (with distinct callbacks), completions, failures, incoming connections and
    cancellations, the requests that were not cancelled while queued, in the order
    they were made, are exactly those started, in the order they were started,
    followed by those still queued.  So no request is lost, started twice, started
    after it was reported cancelled, or overtaken. *)
Theorem acl_scheduler_fifo fix_flag req c s : history fix_flag req c s ->
  kept (cancelled c) req = started c ++ pending_outgoing_operations_ s.
Proof. intros Hh. by destruct (history_inv _ _ _ _ Hh) as (_ & _ & _ & Hk). Qed.

Definition example_events : list event :=
  [EvEnqueueAcl 10 0; EvEnqueueRnr 11 1; EvEnqueueAcl 12 2; EvEnqueueAcl 13 3; EvCancelAcl 12;
   EvAclFailure; EvRegisterIncoming 14; EvRnrCompletion].

Lemma acl_scheduler_fifo_witness :
  started (run_all true example_events initial).2 =
    [AclCreateConnectionQueueEntry 10 0; RemoteNameRequestQueueEntry 11 1] /\
  kept (cancelled (run_all true example_events initial).2) (example_events ≫= requested) =
  started (run_all true example_events initial).2 ++
    pending_outgoing_operations_ (run_all true example_events initial).1.
Proof.
  split; [reflexivity|].
  apply (acl_scheduler_fifo true), run_all_history. by_decide.
Defined.

(** C36: no wake-up is lost: in every reachable state of a scheduler that is not
    stopped, a request waits in the queue only while an outgoing operation is
    recorded or an incoming connection is in progress. *)
Theorem acl_scheduler_no_lost_wakeup fix_flag req c s : history fix_flag req c s ->
  stopped_ s = false -> pending_outgoing_operations_ s <> [] ->
  outgoing_entry_ s <> None \/ incoming_connecting_address_set_ s <> ∅.
Proof.
  intros Hh Hs Hp. destruct (history_inv _ _ _ _ Hh) as (Hw & _).
  destruct (decide (outgoing_entry_ s = None)) as [Ho|]; [right|by left].
  intros Hi. by apply Hp, Hw.
Qed.

Lemma acl_scheduler_no_lost_wakeup_witness :
  let s := (run_all true example_events initial).1 in
  outgoing_entry_ s <> None \/ incoming_connecting_address_set_ s <> ∅.
Proof.
  eapply (acl_scheduler_no_lost_wakeup true (example_events ≫= requested)
    (run_all true example_events initial).2).
  - apply run_all_history. by_decide.
  - reflexivity.
  - vm_compute. discriminate.
Defined.

(** What an operation of the scheduler starts becomes the outgoing entry, and
    it is started only when no incoming connection is in progress and no outgoing
    operation was, other than the one the event reports as over; the one exception
    is a remote name request to a peer whose incoming connection is in progress. *)
Theorem acl_scheduler_exclusive fix_flag ev s s' c e :
  run fix_flag ev s = (s', c) -> e ∈ started c ->
  outgoing_entry_ s' = Some e /\
  (rnr_to_incoming s' e \/
   incoming_connecting_address_set_ s' = ∅ /\
   from_option (ends ev) true (outgoing_entry_ s) = true).
Proof.
  intros Hr He. destruct (run_starts _ _ _ _ _ _ Hr He) as (s0 & Hj & Hs).
  by eapply justified_weaken.
Qed.

Lemma acl_scheduler_exclusive_witness :
  let s := (run_all true (firstn 5 example_events) initial).1 in
  outgoing_entry_ (run true EvAclFailure s).1 = Some (RemoteNameRequestQueueEntry 11 1).
Proof.
  cbv zeta.
  set (s := (run_all true (firstn 5 example_events) initial).1).
  destruct (acl_scheduler_exclusive true EvAclFailure s (run true EvAclFailure s).1
    (run true EvAclFailure s).2 (RemoteNameRequestQueueEntry 11 1)) as [H _].
  - by destruct (run true EvAclFailure s).
  - change (started (run true EvAclFailure s).2) with [RemoteNameRequestQueueEntry 11 1].
    apply list_elem_of_here.
  - exact H.
Defined.

(** The exception costs the scheduler its record of an outgoing connection: with
    a connection to [a] outgoing and one from [b] incoming, a remote name request
    to [b] is started at once and replaces the outgoing entry, so the completion of
    the connection to [a] is dispatched as that of an unknown connection. *)
Theorem rnr_bypass_forgets_outgoing fix_flag a b r1 r2 : a <> b ->
  (run_all fix_flag [EvEnqueueAcl a r1; EvRegisterIncoming b; EvEnqueueRnr b r2; EvAclCompletion a]
     initial).2 =
  [Started (AclCreateConnectionQueueEntry a r1); Started (RemoteNameRequestQueueEntry b r2);
   HandleUnknownConnection a].
Proof.
  intros Hab. set (inc := {[b]} ∪ ∅ : gset Address).
  assert (E3 : EnqueueRemoteNameRequest b r2
      {| outgoing_entry_ := Some (AclCreateConnectionQueueEntry a r1);
         pending_outgoing_operations_ := []; incoming_connecting_address_set_ := inc;
         stopped_ := false |} =
    ({| outgoing_entry_ := Some (RemoteNameRequestQueueEntry b r2);
        pending_outgoing_operations_ := []; incoming_connecting_address_set_ := inc;
        stopped_ := false |}, [Started (RemoteNameRequestQueueEntry b r2)])).
  { unfold EnqueueRemoteNameRequest, try_dequeue_next_operation, ready_to_send_next_operation.
    simpl. by rewrite bool_decide_eq_true_2 by set_solver. }
  assert (E1 : EnqueueOutgoingAclConnection a r1 initial =
    (set_outgoing (Some (AclCreateConnectionQueueEntry a r1)) initial,
     [Started (AclCreateConnectionQueueEntry a r1)])) by reflexivity.
  cbn [run_all run]. rewrite E1. cbn [RegisterPendingIncomingConnection].
  unfold set_incoming, set_outgoing. simpl. fold inc.
  rewrite E3. unfold ReportAclConnectionCompletion. simpl.
  by rewrite bool_decide_eq_false_2 by set_solver.
Qed.

Lemma rnr_bypass_forgets_outgoing_witness :
  (run_all true [EvEnqueueAcl 1 0; EvRegisterIncoming 2; EvEnqueueRnr 2 1; EvAclCompletion 1]
     initial).2 =
  [Started (AclCreateConnectionQueueEntry 1 0); Started (RemoteNameRequestQueueEntry 2 1);
   HandleUnknownConnection 1].
Proof. apply rnr_bypass_forgets_outgoing. discriminate. Defined.

(** Cancelling a queued connection does not start the next request: here the remote
    name request behind it has become ready, and stays queued. *)
Example cancel_leaves_ready_request :
  let '(s, c) := run_all true
    [EvRegisterIncoming 2; EvEnqueueAcl 1 0; EvEnqueueRnr 2 1; EvCancelAcl 1] initial in
  ready_to_send_next_operation s = true /\
  c = [CancelledQueued (AclCreateConnectionQueueEntry 1 0)].
Proof. split; reflexivity. Qed.
