(* ===== verification/LeScanningReassembler.v ===== *)
(** * LE scanning reassembler

    Model of [LeScanningReassembler]
    ([src/system/gd/hci/le_scanning_reassembler.cc] and [.h]): the reports of an
    advertiser are concatenated in a bounded cache until they are complete, and
    joined with the scan response.  A [std::list] is a list and an iterator a
    position in it; an address is a number. *)

From stdpp Require Import base list option sets.
From Stdlib Require Import ZArith Lia.
From S2P Require Import Prelude AdvertiseData.

Open Scope Z_scope.

Abbreviation Address := Z (only parsing).

(** ** Constants and state *)

Definition kConnectableBit : Z := 0.
Definition kScannableBit : Z := 1.
Definition kScanResponseBit : Z := 3.
Definition kLegacyBit : Z := 4.
Definition kDataStatusBits : Z := 5.
Definition kMaximumCacheSize : nat := 16.
Definition kMaximumPeriodicCacheSize : nat := 16.

Definition kEmpty : Address := 0.
Definition NO_ADDRESS_PROVIDED : Z := 0xFF.

Inductive DataStatus := COMPLETE | CONTINUING | TRUNCATED | RESERVED.

#[export] Instance DataStatus_eq_dec : EqDecision DataStatus.
Proof. solve_decision. Defined.

(** The value of a two-bit field. *)
Definition DataStatus_of (x : Z) : DataStatus :=
  if x =? 0 then COMPLETE else if x =? 1 then CONTINUING else if x =? 2 then TRUNCATED else RESERVED.

(** [AddressWithType] is a pair; its equality is that of both parts. *)
Record AdvertisingKey := { key_address : option (Address * Z); key_sid : option Z }.

#[export] Instance AdvertisingKey_eq_dec : EqDecision AdvertisingKey.
Proof. solve_decision. Defined.

(** The constructor of [AdvertisingKey]. *)
Definition make_key (address : Address) (address_type sid : Z) : AdvertisingKey := {|
  key_address := if address_type =? NO_ADDRESS_PROVIDED then None else Some (address, address_type);
  key_sid := if sid =? 0xff then None else Some sid |}.

Record AdvertisingFragment := {
  key : AdvertisingKey;
  extended_event_type : Z;
  data : list Z;
}.

Record PeriodicAdvertisingFragment := { sync_handle : Z; periodic_data : list Z }.

Record CompleteAdvertisingData := { complete_event_type : Z; complete_data : list Z }.

Record reassembler := {
  ignore_scan_responses_ : bool;
  cache_ : list AdvertisingFragment;
  periodic_cache_ : list PeriodicAdvertisingFragment;
}.

Definition initial : reassembler :=
  {| ignore_scan_responses_ := false; cache_ := []; periodic_cache_ := [] |}.

Definition set_cache (c : list AdvertisingFragment) (s : reassembler) : reassembler :=
  {| ignore_scan_responses_ := ignore_scan_responses_ s; cache_ := c;
     periodic_cache_ := periodic_cache_ s |}.
Definition set_periodic (c : list PeriodicAdvertisingFragment) (s : reassembler) : reassembler :=
  {| ignore_scan_responses_ := ignore_scan_responses_ s; cache_ := cache_ s; periodic_cache_ := c |}.

Definition SetIgnoreScanResponses (ignore_scan_responses : bool) (s : reassembler) : reassembler :=
  {| ignore_scan_responses_ := ignore_scan_responses; cache_ := cache_ s;
     periodic_cache_ := periodic_cache_ s |}.

(** ** Trimming *)

(** One iteration per offset; [None] when the fuel is exhausted. *)
Fixpoint trim_loop (fuel : nat) (advertising_data : list Z) (offset : nat) (significant : list Z)
    : option (list Z) :=
  match fuel with
  | O => None
  | S fuel =>
      if (offset <? length advertising_data)%nat then
        let remaining_size := (length advertising_data - offset)%nat in
        let entry_size := advertising_data.[offset] in
        let significant :=
          if negb (entry_size =? 0) && (entry_size <? Z.of_nat remaining_size)
          then significant ++ entry_size ::
                 take (Z.to_nat entry_size) (drop (offset + 1) advertising_data)
          else significant in
        trim_loop fuel advertising_data (offset + (Z.to_nat entry_size + 1)) significant
      else Some significant
  end.

(** Every iteration advances: one per byte and one for the exit are enough. *)
Definition TrimAdvertisingData (advertising_data : list Z) : list Z :=
  default [] (trim_loop (S (length advertising_data)) advertising_data 0 []).

(** ** The caches *)

(** [None] is [cache_.end()]. *)
Fixpoint FindFragment (k : AdvertisingKey) (cache : list AdvertisingFragment) : option nat :=
  match cache with
  | [] => None
  | f :: cache => if decide (key f = k) then Some O else S <$> FindFragment k cache
  end.

Definition ContainsFragment (k : AdvertisingKey) (cache : list AdvertisingFragment) : bool :=
  match FindFragment k cache with Some _ => true | None => false end.

Definition RemoveFragment (k : AdvertisingKey) (cache : list AdvertisingFragment)
    : list AdvertisingFragment :=
  match FindFragment k cache with Some i => delete i cache | None => cache end.

(** [pop_back]. *)
Definition pop_back {A} (l : list A) : list A := take (length l - 1) l.

Definition bit (x n : Z) : bool := negb (Z.land x (Z.shiftl 1 n) =? 0).

Definition update_fragment (event_type : Z) (d : list Z) (f : AdvertisingFragment)
    : AdvertisingFragment := {|
  key := key f;
  extended_event_type :=
    if bit event_type kLegacyBit && bit event_type kScanResponseBit
    then Z.lor event_type (Z.land (extended_event_type f) (Z.shiftl 1 kConnectableBit))
    else event_type;
  data := data f ++ d |}.

(** The iterator returned, and the cache. *)
Definition AppendFragment (k : AdvertisingKey) (event_type : Z) (d : list Z)
    (cache : list AdvertisingFragment) : nat * list AdvertisingFragment :=
  match FindFragment k cache with
  | Some i => (i, alter (update_fragment event_type d) i cache)
  | None =>
      let cache := if (kMaximumCacheSize <? length cache)%nat then pop_back cache else cache in
      (O, {| key := k; extended_event_type := event_type; data := d |} :: cache)
  end.

Fixpoint FindPeriodicFragment (h : Z) (cache : list PeriodicAdvertisingFragment) : option nat :=
  match cache with
  | [] => None
  | f :: cache => if decide (sync_handle f = h) then Some O else S <$> FindPeriodicFragment h cache
  end.

Definition append_periodic (d : list Z) (f : PeriodicAdvertisingFragment)
    : PeriodicAdvertisingFragment :=
  {| sync_handle := sync_handle f; periodic_data := periodic_data f ++ d |}.

Definition AppendPeriodicFragment (h : Z) (d : list Z) (cache : list PeriodicAdvertisingFragment)
    : nat * list PeriodicAdvertisingFragment :=
  match FindPeriodicFragment h cache with
  | Some i => (i, alter (append_periodic d) i cache)
  | None =>
      let cache := if (kMaximumPeriodicCacheSize <? length cache)%nat then pop_back cache else cache in
      (O, {| sync_handle := h; periodic_data := d |} :: cache)
  end.

(** ** Reports *)

Record report := {
  event_type : Z;
  address_type : Z;
  address : Address;
  advertising_sid : Z;
  advertising_data : list Z;
}.

Definition report_key (r : report) : AdvertisingKey :=
  make_key (address r) (address_type r) (advertising_sid r).

Definition trim_fragment (f : AdvertisingFragment) : AdvertisingFragment :=
  {| key := key f; extended_event_type := extended_event_type f; data := TrimAdvertisingData (data f) |}.

Definition is_scannable (r : report) : bool := bit (event_type r) kScannableBit.
Definition is_scan_response (r : report) : bool := bit (event_type r) kScanResponseBit.
Definition is_legacy (r : report) : bool := bit (event_type r) kLegacyBit.
Definition data_status (r : report) : DataStatus :=
  DataStatus_of (Z.land (Z.shiftr (event_type r) kDataStatusBits) 0x3).

Section with_flag.
Context (flag_support_passive_scanning : bool).

(** The iterator is dereferenced where the source does: [lookup] is never [None]
    there. *)
Definition ProcessAdvertisingReport (r : report) (s : reassembler)
    : reassembler * option CompleteAdvertisingData :=
  if negb (address_type r =? NO_ADDRESS_PROVIDED) && (address r =? kEmpty) then (s, None)
  else
    let k := report_key r in
    if is_scan_response r && (ignore_scan_responses_ s || negb (ContainsFragment k (cache_ s)))
    then (s, None)
    else
      let cache :=
        if is_legacy r && negb (is_scan_response r) then RemoveFragment k (cache_ s) else cache_ s in
      let '(it, cache) := AppendFragment k (event_type r) (advertising_data r) cache in
      let cache :=
        if decide (data_status r = CONTINUING) then cache else alter trim_fragment it cache in
      let expect_scan_response :=
        is_scannable r && negb (is_scan_response r) && negb (ignore_scan_responses_ s) in
      if bool_decide (data_status r = CONTINUING) ||
         (expect_scan_response && negb flag_support_passive_scanning)
      then (set_cache cache s, None)
      else
        let result := (fun f => {| complete_event_type := extended_event_type f;
                                   complete_data := data f |}) <$> cache !! it in
        if expect_scan_response then (set_cache cache s, result)
        else (set_cache (delete it cache) s, result).

End with_flag.

Definition ProcessPeriodicAdvertisingReport (h : Z) (status : DataStatus) (d : list Z)
    (s : reassembler) : reassembler * option (list Z) :=
  let '(it, cache) := AppendPeriodicFragment h d (periodic_cache_ s) in
  if decide (status = CONTINUING) then (set_periodic cache s, None)
  else (set_periodic (delete it cache) s, (fun f => TrimAdvertisingData (periodic_data f)) <$> cache !! it).

(** ** Trimming, as a relation on the entries *)

(** [entries d fs]: the non-empty, non-overflowing entries of [d] are [fs]. *)
Inductive entries : list Z -> list field -> Prop :=
| entries_nil : entries [] []
| entries_empty d fs : entries d fs -> entries (0 :: d) fs
| entries_field f d fs : field_ok f -> entries d fs -> entries (enc_field f ++ d) (f :: fs)
| entries_overflow len rest : byte len -> (length rest < Z.to_nat len)%nat ->
    entries (len :: rest) [].

Lemma entries_total d : Forall byte d -> exists fs, entries d fs.
Proof.
  remember (length d) as n eqn:Hn. revert d Hn.
  induction n as [n IH] using (well_founded_induction lt_wf). intros d Hn F.
  destruct d as [|len rest]; [by exists []; constructor|].
  apply Forall_cons_1 in F as [Hl Fr]. cbn in Hn.
  destruct (decide (len = 0)) as [-> | Hz].
  { destruct (IH (length rest) ltac:(lia) rest eq_refl Fr) as [fs Hfs].
    exists fs. by constructor. }
  destruct (decide (length rest < Z.to_nat len)%nat) as [Ht|Ht]; [by exists []; constructor|].
  assert (Hl' : 0 <= len < 256) by exact Hl.
  destruct rest as [|ty rest]; [cbn in Ht; lia|]. apply Forall_cons_1 in Fr as [Hty Fr].
  set (k := (Z.to_nat len - 1)%nat). cbn [length] in Ht, Hn.
  destruct (IH (length (drop k rest)) ltac:(rewrite length_drop; lia) (drop k rest) eq_refl
    (Forall_drop _ _ _ Fr)) as [fs Hfs].
  set (f := {| f_type := ty; f_data := take k rest |}).
  assert (length (f_data f) = k) as Hk by (cbn; rewrite length_take; lia).
  exists (f :: fs).
  assert (len :: ty :: rest = enc_field f ++ drop k rest) as ->.
  { unfold enc_field. rewrite Hk. cbn [f_data f_type f app]. rewrite take_drop. f_equal. lia. }
  constructor; [|done]. split_and!; [done|by apply Forall_take|rewrite Hk; lia].
Qed.

Lemma entries_encode fs d gs : Forall field_ok fs -> entries d gs -> entries (encode fs ++ d) (fs ++ gs).
Proof.
  intros F Hd. induction F as [|f fs Hf F IH]; [done|].
  rewrite encode_cons, <- app_assoc. by constructor.
Qed.

Lemma entries_ok d fs : entries d fs -> Forall field_ok fs.
Proof. induction 1; [constructor|done|by constructor|constructor]. Qed.

Lemma rd_walk (pre suf : list Z) b : (pre ++ b :: suf).[length pre] = b.
Proof. unfold rd. rewrite app_nth2 by lia. by rewrite Nat.sub_diag. Qed.

Lemma trim_loop_entries d fs : entries d fs -> forall fuel pre acc, (length d < fuel)%nat ->
  trim_loop fuel (pre ++ d) (length pre) acc = Some (acc ++ encode fs).
Proof.
  induction 1 as [|d fs Hd IH|f d fs Hf Hd IH|len rest Hb Hl]; intros fuel pre acc Hfu;
    (destruct fuel as [|fuel]; [lia|]); cbn [trim_loop].
  - by rewrite app_nil_r, Nat.ltb_irrefl, app_nil_r.
  - destruct (Nat.ltb_spec (length pre) (length (pre ++ 0 :: d))) as [_|H];
      [|rewrite length_app in H; cbn in H; lia].
    rewrite rd_walk. cbn. rewrite cons_middle, app_assoc. change (Z.to_nat 0 + 1)%nat with 1%nat.
    replace (length pre + 1)%nat with (length (pre ++ [0])) by (rewrite length_app; done).
    apply IH. cbn in Hfu. lia.
  - assert (Hlen : length (pre ++ enc_field f ++ d) =
        (length pre + (S (S (length (f_data f)))) + length d)%nat)
      by (rewrite !length_app, length_enc_field; lia).
    destruct (Nat.ltb_spec (length pre) (length (pre ++ enc_field f ++ d))) as [_|H]; [|lia].
    assert (Hrd : (pre ++ enc_field f ++ d).[length pre] = Z.of_nat (S (length (f_data f))))
      by apply rd_walk.
    rewrite Hrd, field_len_nonzero, (proj2 (Z.ltb_lt _ _)) by (rewrite Hlen; lia). cbn [negb andb].
    rewrite Nat2Z.id, drop_app_add. unfold enc_field at 2. cbn [app drop take].
    rewrite take_app_length.
    replace (length pre + (S (length (f_data f)) + 1))%nat with (length (pre ++ enc_field f))
      by (rewrite length_app, length_enc_field; lia).
    rewrite (app_assoc pre), IH by (rewrite length_app, length_enc_field in Hfu; lia).
    rewrite encode_cons. by rewrite <- app_assoc.
  - destruct (Nat.ltb_spec (length pre) (length (pre ++ len :: rest))) as [_|H];
      [|rewrite length_app in H; cbn in H; lia].
    rewrite rd_walk, (proj2 (Z.ltb_ge _ _)) by (rewrite length_app; cbn [length]; lia).
    rewrite andb_false_r. destruct fuel as [|fuel]; [cbn in Hfu; lia|]. cbn [trim_loop].
    rewrite (proj2 (Nat.ltb_ge _ _)) by (rewrite length_app; cbn [length]; lia).
    by rewrite app_nil_r.
Qed.

Lemma trim_loop_run d fs : entries d fs -> trim_loop (S (length d)) d 0 [] = Some (encode fs).
Proof. intros H. exact (trim_loop_entries d fs H (S (length d)) [] [] (Nat.lt_succ_diag_r _)). Qed.

Lemma trim_entries d fs : entries d fs -> TrimAdvertisingData d = encode fs.
Proof. intros H. unfold TrimAdvertisingData. by rewrite (trim_loop_run d fs H). Qed.

(** Trimmed data is a sequence of fields, and trimming what follows it does not
    change it. *)
Lemma trim_trimmed_app a b : Forall byte a -> Forall byte b ->
  TrimAdvertisingData (TrimAdvertisingData a ++ b) = TrimAdvertisingData a ++ TrimAdvertisingData b.
Proof.
  intros [fs Ha]%entries_total [gs Hb]%entries_total.
  rewrite (trim_entries a fs Ha), (trim_entries b gs Hb).
  rewrite (trim_entries _ (fs ++ gs)) by (apply entries_encode; [by eapply entries_ok|done]).
  apply encode_app.
Qed.

Lemma enc_field_bytes f : field_ok f -> Forall byte (enc_field f).
Proof.
  intros (Ht & Hd & Hl). constructor; [|by constructor].
  unfold in_range. change (2 ^ 8) with 256. lia.
Qed.

Lemma trim_bytes a : Forall byte a -> Forall byte (TrimAdvertisingData a).
Proof.
  intros [fs Ha]%entries_total. rewrite (trim_entries a fs Ha).
  apply entries_ok in Ha. induction Ha; [constructor|].
  rewrite encode_cons. apply Forall_app_2; [by apply enc_field_bytes|done].
Qed.

(** On every byte string the loop of [TrimAdvertisingData] ends, and keeps, in
    order, the entries that are neither empty nor overflowing: the result is a
    sequence of well-formed fields, which [AdvertiseDataParser] accepts as valid
    and leaves as it is, and which trimming leaves as it is. *)
Theorem trim_advertising_data_spec (d : list Z) : Forall byte d ->
  exists fs, entries d fs /\ Forall field_ok fs /\
    trim_loop (S (length d)) d 0 [] = Some (encode fs) /\
    TrimAdvertisingData d = encode fs /\
    IsValid (TrimAdvertisingData d) = Some true /\
    RemoveTrailingZeros (TrimAdvertisingData d) = Some (TrimAdvertisingData d) /\
    TrimAdvertisingData (TrimAdvertisingData d) = TrimAdvertisingData d.
Proof.
  intros F. destruct (entries_total d F) as [fs Hd].
  pose proof (trim_entries d fs Hd) as E. pose proof (entries_ok d fs Hd) as Hok.
  exists fs. split_and!; [done|done| |done|rewrite E..|].
  - by apply trim_loop_run.
  - pose proof (is_valid_walk fs TEnd I [] (S (length (encode fs)))) as H. cbn [tail_bytes app] in H.
    rewrite app_nil_r in H. exact (H (Nat.lt_succ_diag_r _)).
  - pose proof (remove_trailing_zeros_walk fs TEnd I [] (S (length (encode fs)))) as H.
    cbn [tail_bytes app cut_tail] in H. rewrite app_nil_r in H.
    exact (H (Nat.lt_succ_diag_r _)).
  - pose proof (trim_trimmed_app d [] F ltac:(constructor)) as H. by rewrite !app_nil_r in H.
Qed.

Lemma trim_advertising_data_spec_witness :
  TrimAdvertisingData [2; 1; 6; 0; 3; 9; 65; 66; 0; 0; 5; 1; 2] = [2; 1; 6; 3; 9; 65; 66] /\
  IsValid (TrimAdvertisingData [2; 1; 6; 0; 3; 9; 65; 66; 0; 0; 5; 1; 2]) = Some true.
Proof.
  split; [reflexivity|].
  destruct (trim_advertising_data_spec [2; 1; 6; 0; 3; 9; 65; 66; 0; 0; 5; 1; 2])
    as (fs & _ & _ & _ & _ & H & _); [by_decide|exact H].
Defined.

(** ** Caches with a key

    Both caches are lists searched by a key; the lemmas on them are proved once. *)

Section cache.
Context {F K : Type} `{!EqDecision K} (kf : F -> K).
Implicit Types (c : list F) (k : K) (f : F).

Fixpoint find_by k c : option nat :=
  match c with
  | [] => None
  | f :: c => if decide (kf f = k) then Some O else S <$> find_by k c
  end.

(** [f] is the first element of [c] with the key [k], at position [i]. *)
Definition at_ k (i : nat) f c : Prop :=
  exists l1 l2, c = l1 ++ f :: l2 /\ length l1 = i /\ kf f = k /\ k ∉ kf <$> l1.

Definition absent k c : Prop := k ∉ kf <$> c.

Lemma find_absent k c : find_by k c = None <-> absent k c.
Proof.
  unfold absent. induction c as [|f c IH]; cbn; [split; [set_solver|done]|].
  destruct (decide (kf f = k)) as [<-|Hk]; [split; [done|set_solver]|].
  rewrite fmap_None, IH. set_solver.
Qed.

Lemma find_at k c i : find_by k c = Some i -> exists f, at_ k i f c.
Proof.
  revert i. induction c as [|f c IH]; intros i; cbn; [done|].
  destruct (decide (kf f = k)) as [<-|Hk].
  - intros [= <-]. exists f, [], c. split_and!; [done..|set_solver].
  - intros (j & Hj & ->)%fmap_Some.
    destruct (IH j Hj) as (g & l1 & l2 & -> & <- & Hg & Hn).
    exists g, (f :: l1), l2. split_and!; [done..|]. cbn. set_solver.
Qed.

Lemma at_find k i f c : at_ k i f c -> find_by k c = Some i.
Proof.
  intros (l1 & l2 & -> & <- & Hf & Hn). induction l1 as [|g l1 IH]; cbn.
  - by rewrite decide_True.
  - cbn in Hn. rewrite decide_False by set_solver. rewrite IH by set_solver. done.
Qed.

Lemma at_lookup k i f c : at_ k i f c -> c !! i = Some f.
Proof. intros (l1 & l2 & -> & <- & _). by apply list_lookup_middle. Qed.

Lemma at_key k i f c : at_ k i f c -> kf f = k.
Proof. by intros (l1 & l2 & _ & _ & H & _). Qed.

Lemma at_not_absent k i f c : at_ k i f c -> ~ absent k c.
Proof. intros (l1 & l2 & -> & _ & <- & _) H. apply H. rewrite fmap_app. set_solver. Qed.

Lemma at_inj k i f j g c : at_ k i f c -> at_ k j g c -> i = j /\ f = g.
Proof.
  intros H1 H2. pose proof (at_find _ _ _ _ H1) as E. rewrite (at_find _ _ _ _ H2) in E.
  injection E as ->. split; [done|]. apply at_lookup in H1, H2. congruence.
Qed.

Lemma at_neq k1 k2 i j f g c : at_ k1 i f c -> at_ k2 j g c -> k1 <> k2 -> i <> j.
Proof.
  intros H1 H2 Hk ->. pose proof (at_lookup _ _ _ _ H1) as E.
  rewrite (at_lookup _ _ _ _ H2) in E. injection E as <-.
  apply at_key in H1, H2. congruence.
Qed.

Lemma present_or_absent k c : absent k c \/ exists i f, at_ k i f c.
Proof.
  destruct (find_by k c) as [i|] eqn:E; [right|left; by apply find_absent].
  destruct (find_at _ _ _ E) as [f Hf]. by exists i, f.
Qed.

(** *** Updates in place *)

Lemma keys_alter (g : F -> F) i c : (forall x, kf (g x) = kf x) -> kf <$> alter g i c = kf <$> c.
Proof.
  intros Hg. revert i. induction c as [|f c IH]; intros [|i]; cbn; try done.
  - by rewrite Hg.
  - by rewrite IH.
Qed.

Lemma at_alter (g : F -> F) k i f c : (forall x, kf (g x) = kf x) -> at_ k i f c ->
  at_ k i (g f) (alter g i c).
Proof.
  intros Hg (l1 & l2 & -> & <- & Hf & Hn). exists l1, l2. split_and!; [|done|by rewrite Hg|done].
  clear. induction l1 as [|x l1 IH]; [done|]. cbn. f_equal. apply IH.
Qed.

Lemma at_alter_other (g : F -> F) k i j f c : (forall x, kf (g x) = kf x) -> j <> i ->
  at_ k i f c -> at_ k i f (alter g j c).
Proof.
  intros Hg Hij (l1 & l2 & -> & <- & Hf & Hn).
  destruct (decide (j < length l1)%nat) as [H|H].
  - rewrite alter_app_l by done. exists (alter g j l1), l2.
    split_and!; [done|apply length_alter|done|by rewrite keys_alter].
  - replace j with (length l1 + (j - length l1))%nat by lia. rewrite alter_app_r.
    destruct (j - length l1)%nat as [|m] eqn:E; [lia|]. cbn. by exists l1, (alter g m l2).
Qed.

(** *** Removals *)

Lemma sublist_absent k c c' : c' `sublist_of` c -> absent k c -> absent k c'.
Proof.
  intros Hs Ha H. apply Ha. apply list_elem_of_fmap in H as (f & -> & Hf).
  apply list_elem_of_fmap. exists f. split; [done|]. by eapply elem_of_sublist.
Qed.

Lemma delete_sublist i c : delete i c `sublist_of` c.
Proof. apply sublist_delete. Qed.
Lemma pop_back_sublist c : pop_back c `sublist_of` c.
Proof. apply sublist_take. Qed.

Lemma keys_sublist_NoDup c c' : c' `sublist_of` c -> NoDup (kf <$> c) -> NoDup (kf <$> c').
Proof.
  intros Hs Hnd. eapply sublist_NoDup; [exact Hnd|]. by apply fmap_sublist. Qed.

Lemma delete_middle (l1 l2 : list F) f : delete (length l1) (l1 ++ f :: l2) = l1 ++ l2.
Proof. induction l1 as [|x l1 IH]; [done|]. cbn. f_equal. apply IH. Qed.

Lemma at_delete k i f c : NoDup (kf <$> c) -> at_ k i f c -> absent k (delete i c).
Proof.
  intros Hnd (l1 & l2 & -> & <- & Hf & Hn). rewrite delete_middle. unfold absent.
  rewrite fmap_app in *. cbn in Hnd. apply NoDup_app in Hnd as (_ & _ & [Hn2 _]%NoDup_cons).
  rewrite Hf in Hn2. set_solver.
Qed.

Lemma delete_app_l (l1 l2 : list F) j : (j < length l1)%nat -> delete j (l1 ++ l2) = delete j l1 ++ l2.
Proof.
  revert j. induction l1 as [|x l1 IH]; intros [|j] H; cbn in *; try lia; [done|].
  f_equal. apply IH. lia.
Qed.

Lemma delete_app_r (l1 l2 : list F) j : delete (length l1 + j)%nat (l1 ++ l2) = l1 ++ delete j l2.
Proof. induction l1 as [|x l1 IH]; [done|]. cbn. f_equal. apply IH. Qed.

Lemma at_delete_other k i j f c : j <> i -> at_ k i f c ->
  exists i', (i' <= i)%nat /\ at_ k i' f (delete j c).
Proof.
  intros Hij (l1 & l2 & -> & <- & Hf & Hn).
  destruct (decide (j < length l1)%nat) as [H|H].
  - rewrite delete_app_l by done. exists (length (delete j l1)). split.
    + apply sublist_length, sublist_delete.
    + exists (delete j l1), l2. split_and!; try done.
      eapply sublist_absent; [apply sublist_delete|done].
  - exists (length l1). split; [done|].
    replace j with (length l1 + (j - length l1))%nat by lia. rewrite delete_app_r.
    destruct (j - length l1)%nat as [|m] eqn:E; [lia|]. cbn. by exists l1, (delete m l2).
Qed.

Lemma at_pop_back k i f c : (i < length c - 1)%nat -> at_ k i f c -> at_ k i f (pop_back c).
Proof.
  intros Hi (l1 & l2 & -> & <- & Hf & Hn). unfold pop_back in *.
  exists l1, (take (length l2 - 1) l2). split_and!; [|done..].
  rewrite length_app in *. cbn [length] in *.
  rewrite take_app_ge by lia. f_equal.
  replace (length l1 + S (length l2) - 1 - length l1)%nat with (S (length l2 - 1)) by lia. done.
Qed.

Lemma at_pop_back_last k i f c : (length c - 1 <= i)%nat -> at_ k i f c -> absent k (pop_back c).
Proof.
  intros Hi (l1 & l2 & -> & <- & Hf & Hn). unfold pop_back in *. rewrite length_app in *. cbn [length] in *.
  assert (length l2 = 0)%nat as ->%nil_length_inv by lia.
  replace (length l1 + _ - 1)%nat with (length l1) by (cbn; lia). by rewrite take_app_length.
Qed.

Lemma at_cons k i f g c : kf g <> k -> at_ k i f c -> at_ k (S i) f (g :: c).
Proof.
  intros Hg (l1 & l2 & -> & <- & Hf & Hn). exists (g :: l1), l2. split_and!; [done..|].
  cbn. set_solver.
Qed.

Lemma at_head f c : at_ (kf f) 0 f (f :: c).
Proof. exists [], c. split_and!; [done..|set_solver]. Qed.

(** *** Insertion in front, with the size bound [n] *)

Definition push (n : nat) f c : list F := f :: if (n <? length c)%nat then pop_back c else c.

Lemma push_NoDup n f c : NoDup (kf <$> c) -> absent (kf f) c -> NoDup (kf <$> push n f c).
Proof.
  intros Hnd Ha. unfold push. rewrite fmap_cons. apply NoDup_cons.
  destruct (n <? length c)%nat; [|by split].
  split; [by apply (sublist_absent _ _ _ (pop_back_sublist c))|].
  by apply (keys_sublist_NoDup _ _ (pop_back_sublist c)).
Qed.

Lemma push_length n f c : (length c <= S n)%nat -> (length (push n f c) <= S n)%nat.
Proof.
  intros H. unfold push, pop_back. cbn [length].
  destruct (Nat.ltb_spec n (length c)); [rewrite length_take|]; lia.
Qed.

(** Every other element survives, unless it is the oldest of a full cache. *)
Lemma at_push n k i f g c : kf g <> k -> at_ k i f c ->
  at_ k (S i) f (push n g c) \/ (n <= i)%nat /\ absent k (push n g c).
Proof.
  intros Hg Hat. unfold push. destruct (Nat.ltb_spec n (length c)) as [Hl|Hl].
  - destruct (decide (i < length c - 1)%nat) as [Hi|Hi].
    + left. apply at_cons; [done|]. by apply at_pop_back.
    + right. split; [lia|]. pose proof (at_pop_back_last k i f c ltac:(lia) Hat) as Ha.
      unfold absent in *. cbn. set_solver.
  - left. by apply at_cons.
Qed.

Lemma absent_push n k g c : kf g <> k -> absent k c -> absent k (push n g c).
Proof.
  intros Hg Ha. unfold push, absent. rewrite fmap_cons. apply not_elem_of_cons. split; [congruence|].
  destruct (n <? length c)%nat; [|done].
  by apply (sublist_absent _ _ _ (pop_back_sublist c)).
Qed.

(** *** What an operation on one key does to another key [k]

    [keeps]: its element stays, not further from the front; [ages]: it moves away
    from the front by at most one place, or is dropped from a place beyond the
    bound [n]. *)

Definition keeps k c c' : Prop :=
  (absent k c -> absent k c') /\
  forall i f, at_ k i f c -> exists j, (j <= i)%nat /\ at_ k j f c'.

Definition ages (n : nat) k c c' : Prop :=
  (absent k c -> absent k c') /\
  forall i f, at_ k i f c ->
    (exists j, (j <= S i)%nat /\ at_ k j f c') \/ (n <= i)%nat /\ absent k c'.

Lemma keeps_refl k c : keeps k c c.
Proof. split; [done|]. intros i f H. by exists i. Qed.

Lemma keeps_ages n k c c' : keeps k c c' -> ages n k c c'.
Proof.
  intros [Ha Hk]. split; [done|]. intros i f (j & Hj & H)%Hk. left. exists j. split; [lia|done].
Qed.

Lemma keeps_then_ages n k c c1 c2 : keeps k c c1 -> ages n k c1 c2 -> ages n k c c2.
Proof.
  intros [Ha Hk] [Ha' Hk']. split; [auto|]. intros i f (j & Hj & H)%Hk.
  destruct (Hk' _ _ H) as [(j' & Hj' & H')|[Hn H']].
  - left. exists j'. split; [lia|done].
  - right. split; [lia|done].
Qed.

Lemma ages_then_keeps n k c c1 c2 : ages n k c c1 -> keeps k c1 c2 -> ages n k c c2.
Proof.
  intros [Ha Hk] [Ha' Hk']. split; [auto|]. intros i f [(j & Hj & H)|[Hn H]]%Hk.
  - destruct (Hk' _ _ H) as (j' & Hj' & H'). left. exists j'. split; [lia|done].
  - right. split; [lia|auto].
Qed.

Lemma keeps_alter (g : F -> F) k k' i f c : (forall x, kf (g x) = kf x) -> k' <> k ->
  at_ k' i f c -> keeps k c (alter g i c).
Proof.
  intros Hg Hk Hat. split; [unfold absent; by rewrite keys_alter|].
  intros j x Hx. exists j. split; [done|]. apply at_alter_other; [done| |done].
  by eapply at_neq.
Qed.

Lemma keeps_delete k k' i f c : k' <> k -> at_ k' i f c -> keeps k c (delete i c).
Proof.
  intros Hk Hat. split; [apply sublist_absent, delete_sublist|].
  intros j x Hx. apply at_delete_other; [|done]. by eapply at_neq.
Qed.

Lemma ages_push n k g c : kf g <> k -> ages n k c (push n g c).
Proof.
  intros Hg. split; [by apply absent_push|]. intros i f Hat.
  destruct (at_push n k i f g c Hg Hat) as [H|H]; [left; by exists (S i)|by right].
Qed.

End cache.

(** ** The reassembler of one advertiser

    The specification has no cache: it keeps the event type and the data of one
    advertiser. *)

Abbreviation assembly := (option (Z * list Z)) (only parsing).

Definition joined (event_type : Z) (d : list Z) (st : assembly) : Z * list Z :=
  match st with
  | Some (et, d0) =>
      (if bit event_type kLegacyBit && bit event_type kScanResponseBit
       then Z.lor event_type (Z.land et 1) else event_type, d0 ++ d)
  | None => (event_type, d)
  end.

Definition complete (p : Z * list Z) : CompleteAdvertisingData :=
  {| complete_event_type := p.1; complete_data := p.2 |}.

Definition trimmed (p : Z * list Z) : Z * list Z := (p.1, TrimAdvertisingData p.2).

Definition spec_step (passive ignore : bool) (r : report) (st : assembly)
    : assembly * option CompleteAdvertisingData :=
  if negb (address_type r =? NO_ADDRESS_PROVIDED) && (address r =? kEmpty) then (st, None)
  else if is_scan_response r && (ignore || negb (bool_decide (is_Some st))) then (st, None)
  else
    let p := joined (event_type r) (advertising_data r)
               (if is_legacy r && negb (is_scan_response r) then None else st) in
    if bool_decide (data_status r = CONTINUING) then (Some p, None)
    else if is_scannable r && negb (is_scan_response r) && negb ignore
    then (Some (trimmed p), if passive then Some (complete (trimmed p)) else None)
    else (None, Some (complete (trimmed p))).

(** The assembly the cache holds for [k]. *)
Definition view (k : AdvertisingKey) (c : list AdvertisingFragment) : assembly :=
  (fun f => (extended_event_type f, data f)) <$> (FindFragment k c ≫= fun i => c !! i).

Lemma view_at k i f c : at_ key k i f c -> view k c = Some (extended_event_type f, data f).
Proof.
  intros H. unfold view. change (FindFragment k c) with (find_by key k c).
  rewrite (at_find _ _ _ _ _ H). cbn. by rewrite (at_lookup _ _ _ _ _ H).
Qed.

Lemma view_absent k c : absent key k c -> view k c = None.
Proof.
  intros H%find_absent. unfold view. change (FindFragment k c) with (find_by key k c). by rewrite H.
Qed.

(** The key of a fragment does not change. *)
Lemma key_update et d f : key (update_fragment et d f) = key f.
Proof. done. Qed.
Lemma key_trim f : key (trim_fragment f) = key f.
Proof. done. Qed.

Definition cache_ok (c : list AdvertisingFragment) : Prop :=
  NoDup (key <$> c) /\ (length c <= S kMaximumCacheSize)%nat.

Lemma cache_ok_alter g i c : (forall x, key (g x) = key x) -> cache_ok c -> cache_ok (alter g i c).
Proof. intros Hg [H1 H2]. split; [by rewrite keys_alter|by rewrite length_alter]. Qed.

Lemma cache_ok_delete i c : cache_ok c -> cache_ok (delete i c).
Proof.
  intros [H1 H2]. split; [by apply (keys_sublist_NoDup _ _ _ (delete_sublist i c))|].
  pose proof (sublist_length _ _ (delete_sublist i c)). lia.
Qed.

Lemma append_spec k et d c it c' : cache_ok c -> AppendFragment k et d c = (it, c') ->
  cache_ok c' /\ (forall k', k <> k' -> ages key kMaximumCacheSize k' c c') /\
  (it = 0%nat \/ exists f, at_ key k it f c) /\
  exists f, at_ key k it f c' /\ (extended_event_type f, data f) = joined et d (view k c).
Proof.
  intros Hc. unfold AppendFragment. change (FindFragment k c) with (find_by key k c).
  destruct (find_by key k c) as [i|] eqn:E.
  - destruct (find_at _ _ _ _ E) as [f Hf]. intros [= <- <-]. split_and!.
    + by apply cache_ok_alter.
    + intros k' Hk. by eapply keeps_ages, keeps_alter.
    + right. by exists f.
    + exists (update_fragment et d f). split; [by apply at_alter|]. by rewrite (view_at _ _ _ _ Hf).
  - apply find_absent in E. set (f := {| key := k; extended_event_type := et; data := d |}).
    intros [= <- <-]. change (_ :: _) with (push kMaximumCacheSize f c). destruct Hc as [H1 H2].
    split_and!; [split; [by apply push_NoDup|by apply push_length]| | |].
    + intros k' Hk. by apply ages_push.
    + by left.
    + exists f. split; [apply (at_head key f)|]. by rewrite view_absent.
Qed.

Lemma remove_spec k c : cache_ok c ->
  cache_ok (RemoveFragment k c) /\ absent key k (RemoveFragment k c) /\
  forall k', k <> k' -> keeps key k' c (RemoveFragment k c).
Proof.
  intros Hc. unfold RemoveFragment. change (FindFragment k c) with (find_by key k c).
  destruct (find_by key k c) as [i|] eqn:E.
  - destruct (find_at _ _ _ _ E) as [f Hf]. split_and!; [by apply cache_ok_delete| |].
    + eapply at_delete; [apply Hc|done].
    + intros k' Hk. by eapply keeps_delete.
  - apply find_absent in E. split_and!; [done|done|]. intros k' Hk. apply keeps_refl.
Qed.

Lemma contains_view k c : ContainsFragment k c = bool_decide (is_Some (view k c)).
Proof.
  unfold ContainsFragment. change (FindFragment k c) with (find_by key k c).
  destruct (find_by key k c) as [i|] eqn:E.
  - destruct (find_at _ _ _ _ E) as [f Hf]. by rewrite (view_at _ _ _ _ Hf).
  - apply find_absent in E. by rewrite view_absent.
Qed.

(** The end of [ProcessAdvertisingReport], from the fragment [it] on. *)
Definition finish (passive : bool) (r : report) (s : reassembler) (it : nat)
    (cache : list AdvertisingFragment) : reassembler * option CompleteAdvertisingData :=
  let cache :=
    if decide (data_status r = CONTINUING) then cache else alter trim_fragment it cache in
  let expect_scan_response :=
    is_scannable r && negb (is_scan_response r) && negb (ignore_scan_responses_ s) in
  if bool_decide (data_status r = CONTINUING) || (expect_scan_response && negb passive)
  then (set_cache cache s, None)
  else
    let result := (fun f => {| complete_event_type := extended_event_type f;
                               complete_data := data f |}) <$> cache !! it in
    if expect_scan_response then (set_cache cache s, result)
    else (set_cache (delete it cache) s, result).

Lemma finish_spec passive r s it c f k s' out : cache_ok c -> at_ key k it f c ->
  finish passive r s it c = (s', out) ->
  cache_ok (cache_ s') /\ (forall k', k <> k' -> keeps key k' c (cache_ s')) /\
  (forall i g, at_ key k i g (cache_ s') -> i = it) /\
  ignore_scan_responses_ s' = ignore_scan_responses_ s /\ periodic_cache_ s' = periodic_cache_ s /\
  let p := (extended_event_type f, data f) in
  (view k (cache_ s'), out) =
    if bool_decide (data_status r = CONTINUING) then (Some p, None)
    else if is_scannable r && negb (is_scan_response r) && negb (ignore_scan_responses_ s)
    then (Some (trimmed p), if passive then Some (complete (trimmed p)) else None)
    else (None, Some (complete (trimmed p))).
Proof.
  intros Hc Hat. unfold finish.
  destruct (decide (data_status r = CONTINUING)) as [Ed|Ed].
  { rewrite bool_decide_eq_true_2 by done. intros [= <- <-].
    cbn [set_cache cache_ ignore_scan_responses_ periodic_cache_].
    split_and!; [done|intros; apply keeps_refl| |done|done|by rewrite (view_at _ _ _ _ Hat)].
    intros i g Hg. by apply (at_inj _ _ _ _ _ _ _ Hg Hat). }
  rewrite bool_decide_eq_false_2 by done. cbn [orb].
  pose proof (at_alter key trim_fragment k it f c key_trim Hat) as Hat'.
  pose proof (cache_ok_alter trim_fragment it c key_trim Hc) as Hc'.
  assert (Hk : forall k', k <> k' -> keeps key k' c (alter trim_fragment it c)).
  { intros k' Hk. by eapply keeps_alter. }
  rewrite (at_lookup _ _ _ _ _ Hat').
  destruct (is_scannable r && negb (is_scan_response r) && negb (ignore_scan_responses_ s));
    [destruct passive|]; cbn [negb andb fmap option_fmap option_map]; intros [= <- <-]; cbn [set_cache cache_ ignore_scan_responses_ periodic_cache_].
  1-2: split_and!; [done|done| |done|done|by rewrite (view_at _ _ _ _ Hat')];
    intros i g Hg; by apply (at_inj _ _ _ _ _ _ _ Hg Hat').
  pose proof (at_delete key k it _ _ (proj1 Hc') Hat') as Hd.
  split_and!; [by apply cache_ok_delete| | |done|done|].
  - intros k' Hkk. destruct (Hk k' Hkk) as [A B].
    destruct (keeps_delete key k' k it _ _ Hkk Hat') as [A' B']. split; [auto|].
    intros i x (j & Hj & H)%B. destruct (B' _ _ H) as (j' & Hj' & H'). exists j'. split; [lia|done].
  - intros i g Hg. by apply at_not_absent in Hg.
  - by rewrite view_absent.
Qed.

(** One report: its advertiser goes through one step of the specification, the
    others keep what they have or are the oldest of a full cache. *)
Lemma process_spec passive r s s' out : cache_ok (cache_ s) ->
  ProcessAdvertisingReport passive r s = (s', out) ->
  cache_ok (cache_ s') /\ ignore_scan_responses_ s' = ignore_scan_responses_ s /\
  periodic_cache_ s' = periodic_cache_ s /\
  (view (report_key r) (cache_ s'), out) =
    spec_step passive (ignore_scan_responses_ s) r (view (report_key r) (cache_ s)) /\
  (forall i f, at_ key (report_key r) i f (cache_ s') ->
     i = 0%nat \/ exists g, at_ key (report_key r) i g (cache_ s)) /\
  forall k', report_key r <> k' -> ages key kMaximumCacheSize k' (cache_ s) (cache_ s').
Proof.
  intros Hc. unfold ProcessAdvertisingReport, spec_step.
  assert (Hid : cache_ok (cache_ s) /\ ignore_scan_responses_ s = ignore_scan_responses_ s /\
    periodic_cache_ s = periodic_cache_ s /\
    (view (report_key r) (cache_ s), None) = (view (report_key r) (cache_ s), @None CompleteAdvertisingData) /\
    (forall i f, at_ key (report_key r) i f (cache_ s) ->
       i = 0%nat \/ exists g, at_ key (report_key r) i g (cache_ s)) /\
    forall k', report_key r <> k' -> ages key kMaximumCacheSize k' (cache_ s) (cache_ s)).
  { split_and!; try done; [intros i f H; right; by exists f|]. intros. apply keeps_ages, keeps_refl. }
  destruct (negb _ && _); [by intros [= <- <-]|].
  rewrite contains_view. destruct (is_scan_response r && (_ || _)); [by intros [= <- <-]|].
  set (k := report_key r) in *.
  set (c1 := if is_legacy r && negb (is_scan_response r) then RemoveFragment k (cache_ s) else cache_ s).
  assert (H1 : cache_ok c1 /\
    view k c1 = (if is_legacy r && negb (is_scan_response r) then None else view k (cache_ s)) /\
    (forall i f, at_ key k i f c1 -> exists g, at_ key k i g (cache_ s)) /\
    forall k', k <> k' -> keeps key k' (cache_ s) c1).
  { subst c1. destruct (is_legacy r && _).
    2: { split_and!; [done|done|intros i f H; by exists f|intros; apply keeps_refl]. }
    destruct (remove_spec k (cache_ s) Hc) as (A & B & C).
    split_and!; [done|by apply view_absent| |done]. intros i f H. by apply at_not_absent in H. }
  destruct H1 as (Hc1 & Hv1 & Ho1 & Hk1).
  destruct (AppendFragment k (event_type r) (advertising_data r) c1) as [it c2] eqn:Ea.
  destruct (append_spec _ _ _ _ _ _ Hc1 Ea) as (Hc2 & Hk2 & Ho2 & f & Hat & Ef).
  fold (finish passive r s it c2). intros Hf.
  destruct (finish_spec _ _ _ _ _ _ _ _ _ Hc2 Hat Hf) as (Hc3 & Hk3 & Ho3 & Hi & Hp & Hv).
  split_and!; [done|done|done| | |].
  - rewrite Hv, Ef, Hv1. done.
  - intros i g ->%Ho3. destruct Ho2 as [->|[g2 H2]]; [by left|right; by eapply Ho1].
  - intros k' Hk. eapply keeps_then_ages; [by apply Hk1|]. eapply ages_then_keeps; [by apply Hk2|by apply Hk3].
Qed.

(** ** Periodic reports *)

Definition periodic_ok (c : list PeriodicAdvertisingFragment) : Prop :=
  NoDup (sync_handle <$> c) /\ (length c <= S kMaximumPeriodicCacheSize)%nat.

Definition periodic_view (h : Z) (c : list PeriodicAdvertisingFragment) : option (list Z) :=
  periodic_data <$> (FindPeriodicFragment h c ≫= fun i => c !! i).

Lemma periodic_view_at h i f c : at_ sync_handle h i f c -> periodic_view h c = Some (periodic_data f).
Proof.
  intros H. unfold periodic_view. change (FindPeriodicFragment h c) with (find_by sync_handle h c).
  rewrite (at_find _ _ _ _ _ H). cbn. by rewrite (at_lookup _ _ _ _ _ H).
Qed.

Lemma periodic_view_absent h c : absent sync_handle h c -> periodic_view h c = None.
Proof.
  intros H%find_absent. unfold periodic_view.
  change (FindPeriodicFragment h c) with (find_by sync_handle h c). by rewrite H.
Qed.

(** The specification of one periodic advertiser. *)
Definition periodic_step (status : DataStatus) (d : list Z) (st : option (list Z))
    : option (list Z) * option (list Z) :=
  let p := default [] st ++ d in
  if decide (status = CONTINUING) then (Some p, None) else (None, Some (TrimAdvertisingData p)).

Lemma append_periodic_spec h d c it c' : periodic_ok c -> AppendPeriodicFragment h d c = (it, c') ->
  periodic_ok c' /\ (forall h', h <> h' -> ages sync_handle kMaximumPeriodicCacheSize h' c c') /\
  exists f, at_ sync_handle h it f c' /\ periodic_data f = default [] (periodic_view h c) ++ d.
Proof.
  intros [H1 H2]. unfold AppendPeriodicFragment.
  change (FindPeriodicFragment h c) with (find_by sync_handle h c).
  destruct (find_by sync_handle h c) as [i|] eqn:E.
  - destruct (find_at _ _ _ _ E) as [f Hf]. intros [= <- <-]. split_and!.
    + split; [by rewrite keys_alter|by rewrite length_alter].
    + intros h' Hk. by eapply keeps_ages, keeps_alter.
    + exists (append_periodic d f). split; [by apply at_alter|]. by rewrite (periodic_view_at _ _ _ _ Hf).
  - apply find_absent in E. set (f := {| sync_handle := h; periodic_data := d |}).
    intros [= <- <-]. change (_ :: _) with (push kMaximumPeriodicCacheSize f c).
    split_and!; [split; [by apply push_NoDup|by apply push_length]| |].
    + intros h' Hk. by apply ages_push.
    + exists f. split; [apply (at_head sync_handle f)|]. by rewrite periodic_view_absent.
Qed.

Lemma process_periodic_spec h status d s s' out : periodic_ok (periodic_cache_ s) ->
  ProcessPeriodicAdvertisingReport h status d s = (s', out) ->
  periodic_ok (periodic_cache_ s') /\ cache_ s' = cache_ s /\
  (periodic_view h (periodic_cache_ s'), out) =
    periodic_step status d (periodic_view h (periodic_cache_ s)) /\
  forall h', h <> h' ->
    ages sync_handle kMaximumPeriodicCacheSize h' (periodic_cache_ s) (periodic_cache_ s').
Proof.
  intros Hc. unfold ProcessPeriodicAdvertisingReport, periodic_step.
  destruct (AppendPeriodicFragment h d (periodic_cache_ s)) as [it c] eqn:Ea.
  destruct (append_periodic_spec _ _ _ _ _ Hc Ea) as (Hc' & Hk & f & Hat & <-).
  destruct (decide (status = CONTINUING)); intros [= <- <-]; cbn [set_periodic periodic_cache_ cache_].
  - split_and!; [done|done| |done]. by rewrite (periodic_view_at _ _ _ _ Hat).
  - rewrite (at_lookup _ _ _ _ _ Hat). cbn [fmap option_fmap option_map]. destruct Hc' as [H1 H2].
    split_and!; [split|done| |].
    + by apply (keys_sublist_NoDup _ _ _ (delete_sublist it c)).
    + pose proof (sublist_length _ _ (delete_sublist it c)). lia.
    + by rewrite periodic_view_absent by (eapply at_delete; done).
    + intros h' Hh. eapply ages_then_keeps; [by apply Hk|by eapply keeps_delete].
Qed.

(** ** Reachable states *)

Inductive event :=
| EvReport (r : report)
| EvPeriodic (h : Z) (status : DataStatus) (d : list Z)
| EvSetIgnore (b : bool).

Definition run (passive : bool) (ev : event) (s : reassembler) : reassembler :=
  match ev with
  | EvReport r => (ProcessAdvertisingReport passive r s).1
  | EvPeriodic h st d => (ProcessPeriodicAdvertisingReport h st d s).1
  | EvSetIgnore b => SetIgnoreScanResponses b s
  end.

Inductive reachable (passive : bool) : reassembler -> Prop :=
| reach_init : reachable passive initial
| reach_step s ev : reachable passive s -> reachable passive (run passive ev s).

Lemma reachable_ok passive s : reachable passive s -> cache_ok (cache_ s) /\ periodic_ok (periodic_cache_ s).
Proof.
  induction 1 as [|s ev _ [Hc Hp]]; [by split; split; [constructor|cbn; lia|constructor|cbn; lia]|].
  destruct ev as [r|h st d|b]; cbn [run].
  - destruct (ProcessAdvertisingReport passive r s) as [s' out] eqn:E.
    destruct (process_spec _ _ _ _ _ Hc E) as (? & _ & Ep & _). cbn. by rewrite Ep.
  - destruct (ProcessPeriodicAdvertisingReport h st d s) as [s' out] eqn:E.
    destruct (process_periodic_spec _ _ _ _ _ _ Hp E) as (? & Ec & _). cbn. by rewrite Ec.
  - done.
Qed.

Lemma reachable_fold passive evs s : reachable passive s ->
  reachable passive (fold_left (fun s ev => run passive ev s) evs s).
Proof. revert s. induction evs as [|ev evs IH]; intros s Hs; [done|]. apply IH. by constructor. Qed.

(** ** Sequences of reports *)

Fixpoint run_reports (passive : bool) (rs : list report) (s : reassembler)
    : list (report * option CompleteAdvertisingData) :=
  match rs with
  | [] => []
  | r :: rs =>
      let '(s', out) := ProcessAdvertisingReport passive r s in (r, out) :: run_reports passive rs s'
  end.

Fixpoint spec_run (passive ignore : bool) (rs : list report) (st : assembly)
    : list (option CompleteAdvertisingData) :=
  match rs with
  | [] => []
  | r :: rs => let '(st', out) := spec_step passive ignore r st in out :: spec_run passive ignore rs st'
  end.

(** The reports of [k] and of the others, and the results of [k]. *)
Definition of_key (k : AdvertisingKey) (rs : list report) : list report :=
  filter (fun r => report_key r = k) rs.
Definition of_others (k : AdvertisingKey) (rs : list report) : list report :=
  filter (fun r => report_key r <> k) rs.
Definition results (k : AdvertisingKey) (l : list (report * option CompleteAdvertisingData))
    : list (option CompleteAdvertisingData) :=
  (filter (fun p => report_key p.1 = k) l).*2.

(** The room [k] has left: [n] more reports of others do not drop it. *)
Definition room (k : AdvertisingKey) (n : nat) (c : list AdvertisingFragment) : Prop :=
  forall i f, at_ key k i f c -> (i + n <= kMaximumCacheSize)%nat.

Lemma run_reports_spec passive k rs s : cache_ok (cache_ s) ->
  room k (length (of_others k rs)) (cache_ s) -> (length (of_others k rs) <= kMaximumCacheSize)%nat ->
  results k (run_reports passive rs s) =
  spec_run passive (ignore_scan_responses_ s) (of_key k rs) (view k (cache_ s)).
Proof.
  revert s. induction rs as [|r rs IH]; intros s Hc Hroom Hn; [done|].
  cbn [run_reports]. destruct (ProcessAdvertisingReport passive r s) as [s' out] eqn:E.
  destruct (process_spec _ _ _ _ _ Hc E) as (Hc' & Hi & _ & Hv & Ho & Hk).
  unfold results, of_key, of_others in *. destruct (decide (report_key r = k)) as [Hr|Hr].
  - rewrite !filter_cons_True by done. rewrite filter_cons_False in Hroom, Hn by tauto.
    cbn [spec_run fmap list_fmap]. subst k.
    rewrite <- Hv, <- Hi. f_equal. apply IH; [done| |done].
    intros i f [->|[g Hg]]%Ho; [lia|by eapply Hroom].
  - rewrite !filter_cons_False by done. rewrite filter_cons_True in Hroom, Hn by done.
    cbn [length] in Hroom, Hn. destruct (Hk k Hr) as [Ha Hat'].
    assert (Hsame : view k (cache_ s') = view k (cache_ s)).
    { destruct (present_or_absent key k (cache_ s)) as [A|(i & f & A)].
      - by rewrite !view_absent by auto.
      - specialize (Hroom i f A). destruct (Hat' i f A) as [(j & _ & H)|[H _]]; [|lia].
        by rewrite (view_at _ _ _ _ A), (view_at _ _ _ _ H). }
    rewrite <- Hsame, <- Hi. apply IH; [done| |lia].
    intros j g Hj. destruct (present_or_absent key k (cache_ s)) as [A|(i & f & A)].
    + by apply Ha, (at_not_absent _ _ _ _ _ Hj) in A.
    + specialize (Hroom i f A). destruct (Hat' i f A) as [(j' & Hj' & H)|[H _]]; [|lia].
      destruct (at_inj _ _ _ _ _ _ _ Hj H) as [-> _]. lia.
Qed.

(** ** Whole advertisements *)

(** Not a report without an address that should have one. *)
Definition addressed (r : report) : bool :=
  negb (negb (address_type r =? NO_ADDRESS_PROVIDED) && (address r =? kEmpty)).

(** An incomplete report, and one that completes the advertisement ([sr = false])
    or the scan response ([sr = true]). *)
Definition fragment_of (sr : bool) (r : report) : Prop :=
  addressed r = true /\ is_scan_response r = sr /\ is_legacy r = false /\ data_status r = CONTINUING.
Definition final_of (sr : bool) (r : report) : Prop :=
  addressed r = true /\ is_scan_response r = sr /\ data_status r <> CONTINUING.

#[export] Instance fragment_of_dec sr r : Decision (fragment_of sr r).
Proof. unfold fragment_of. apply _. Defined.
#[export] Instance final_of_dec sr r : Decision (final_of sr r).
Proof. unfold final_of. apply _. Defined.

Definition payload (rs : list report) : list Z := mjoin (advertising_data <$> rs).

Fixpoint spec_final (passive ignore : bool) (rs : list report) (st : assembly) : assembly :=
  match rs with
  | [] => st
  | r :: rs => spec_final passive ignore rs (spec_step passive ignore r st).1
  end.

Lemma spec_run_app passive ignore a b st : spec_run passive ignore (a ++ b) st =
  spec_run passive ignore a st ++ spec_run passive ignore b (spec_final passive ignore a st).
Proof.
  revert st. induction a as [|r a IH]; intros st; [done|]. cbn [app spec_run spec_final].
  destruct (spec_step passive ignore r st) as [st' out]. cbn. by rewrite IH.
Qed.

(** The data gathered so far. *)
Definition gathered (st : assembly) : list Z := default [] (snd <$> st).

Lemma joined_plain r st : is_legacy r && is_scan_response r = false ->
  joined (event_type r) (advertising_data r) st = (event_type r, gathered st ++ advertising_data r).
Proof. unfold is_legacy, is_scan_response. intros H. destruct st as [[et d]|]; cbn; [by rewrite H|done]. Qed.

(** A scan response is taken only after a report. *)
Definition expected (sr ignore : bool) (st : assembly) : Prop :=
  sr = true -> ignore = false /\ is_Some st.

Lemma spec_step_taken passive ignore r sr st : addressed r = true -> is_scan_response r = sr ->
  expected sr ignore st -> spec_step passive ignore r st =
    let p := joined (event_type r) (advertising_data r)
               (if is_legacy r && negb (is_scan_response r) then None else st) in
    if bool_decide (data_status r = CONTINUING) then (Some p, None)
    else if is_scannable r && negb (is_scan_response r) && negb ignore
    then (Some (trimmed p), if passive then Some (complete (trimmed p)) else None)
    else (None, Some (complete (trimmed p))).
Proof.
  unfold addressed, spec_step. intros Ha Hsr He. apply negb_true_iff in Ha. rewrite Ha, Hsr.
  destruct sr; [|done]. destruct (He eq_refl) as [-> Hst]. by rewrite bool_decide_eq_true_2.
Qed.

Lemma spec_fragments passive ignore sr rs st : Forall (fragment_of sr) rs -> expected sr ignore st ->
  spec_run passive ignore rs st = replicate (length rs) None /\
  gathered (spec_final passive ignore rs st) = gathered st ++ payload rs /\
  expected sr ignore (spec_final passive ignore rs st).
Proof.
  intros F. revert st. induction F as [|r rs (Ha & Hsr & Hl & Hd) F IH]; intros st He.
  { split_and!; [done|by rewrite app_nil_r|done]. }
  cbn [spec_run spec_final length replicate].
  rewrite (spec_step_taken _ _ _ _ _ Ha Hsr He), bool_decide_eq_true_2 by done. cbv zeta. cbn [fst].
  rewrite Hl. cbn [andb]. rewrite joined_plain by (by rewrite Hl).
  destruct (IH (Some (event_type r, gathered st ++ advertising_data r))) as (-> & -> & He').
  { intros H. split; [by apply He|by eexists]. }
  split_and!; [done| |done]. unfold payload. cbn. by rewrite app_assoc.
Qed.

Lemma payload_bytes rs : Forall (fun r => Forall byte (advertising_data r)) rs -> Forall byte (payload rs).
Proof.
  unfold payload. induction 1 as [|r rs Hr _ IH]; [constructor|]. cbn. by apply Forall_app_2.
Qed.

Lemma payload_snoc rs r : payload (rs ++ [r]) = payload rs ++ advertising_data r.
Proof. unfold payload. rewrite fmap_app, join_app. cbn. by rewrite app_nil_r. Qed.

(** The last report of an advertisement, after the fragments [ads]. *)
Lemma spec_advertisement passive ignore ads ad : Forall (fragment_of false) ads -> final_of false ad ->
  (is_legacy ad = true -> ads = []) ->
  let p := (event_type ad, TrimAdvertisingData (payload (ads ++ [ad]))) in
  spec_run passive ignore ads None = replicate (length ads) None /\
  spec_step passive ignore ad (spec_final passive ignore ads None) =
    if is_scannable ad && negb ignore
    then (Some p, if passive then Some (complete p) else None) else (None, Some (complete p)).
Proof.
  intros F (Ha & Hsr & Hd) Hleg. cbv zeta.
  destruct (spec_fragments passive ignore false ads None F) as (-> & Hg & _); [done|].
  split; [done|]. rewrite (spec_step_taken _ _ _ false) by done.
  rewrite bool_decide_eq_false_2 by done. rewrite Hsr. cbn [negb]. rewrite !andb_true_r. cbv zeta.
  assert (joined (event_type ad) (advertising_data ad)
    (if is_legacy ad then None else spec_final passive ignore ads None) =
    (event_type ad, payload (ads ++ [ad]))) as ->.
  { rewrite joined_plain by (by rewrite Hsr, andb_false_r). f_equal. rewrite payload_snoc. f_equal.
    destruct (is_legacy ad); [by rewrite Hleg|exact Hg]. }
  done.
Qed.

Lemma reachable_absent_room k n c : view k c = None -> room k n c.
Proof. intros Hv i f Hat. by rewrite (view_at _ _ _ _ Hat) in Hv. Qed.

(** ** Properties *)

(** C35: in every reachable state no two entries of a cache have the same key, and a
    cache holds at most [kMaximumCacheSize + 1] entries. *)
Theorem reassembler_caches_bounded passive s : reachable passive s ->
  NoDup (key <$> cache_ s) /\ (length (cache_ s) <= kMaximumCacheSize + 1)%nat /\
  NoDup (sync_handle <$> periodic_cache_ s) /\
  (length (periodic_cache_ s) <= kMaximumPeriodicCacheSize + 1)%nat.
Proof.
  intros [[H1 H2] [H3 H4]]%reachable_ok. rewrite !Nat.add_1_r. done.
Qed.

(** Eighteen advertisers, each with one incomplete report. *)
Definition crowd : list event :=
  (fun i => EvReport {| event_type := 0x20; address_type := 0; address := i + 1;
                        advertising_sid := 0; advertising_data := [2; 1; 6] |}) <$> seqZ 0 18.

Lemma reassembler_caches_bounded_witness :
  let s := fold_left (fun s ev => run true ev s) crowd initial in
  length (cache_ s) = 17%nat /\ NoDup (key <$> cache_ s).
Proof.
  split; [vm_compute; reflexivity|].
  apply (reassembler_caches_bounded true), reachable_fold, reach_init.
Defined.

(** C8: up to sixteen reports of other advertisers between its own do not disturb an
    advertiser: whatever the interleaving, the results of its reports are those of a
    reassembler that serves it alone and has no cache. *)
Theorem reassembler_isolates_advertisers passive k rs s : reachable passive s ->
  view k (cache_ s) = None -> (length (of_others k rs) <= kMaximumCacheSize)%nat ->
  results k (run_reports passive rs s) =
  spec_run passive (ignore_scan_responses_ s) (of_key k rs) None.
Proof.
  intros [Hc _]%reachable_ok Hv Hn. rewrite <- Hv.
  apply run_reports_spec; [done|by apply reachable_absent_room|done].
Qed.

Definition sample (a et : Z) (d : list Z) : report :=
  {| event_type := et; address_type := 0; address := a; advertising_sid := 1; advertising_data := d |}.

Lemma reassembler_isolates_advertisers_witness :
  results (report_key (sample 7 0 [])) (run_reports true
    [sample 7 0x20 [5; 9]; sample 8 0 [2; 1; 6]; sample 7 0 [65; 66; 67; 68]] initial) =
  [None; Some {| complete_event_type := 0; complete_data := [5; 9; 65; 66; 67; 68] |}].
Proof.
  rewrite (reassembler_isolates_advertisers true).
  - vm_compute. reflexivity.
  - apply reach_init.
  - reflexivity.
  - vm_compute. repeat constructor.
Defined.

(** The reports of an advertisement, possibly fragmented and interleaved with up
    to sixteen reports of others, give nothing until the last one, and then the
    trimmed concatenation of all their data with the event type of the last. *)
Theorem advertisement_reassembled passive k rs s ads ad : reachable passive s ->
  view k (cache_ s) = None -> (length (of_others k rs) <= kMaximumCacheSize)%nat ->
  of_key k rs = ads ++ [ad] -> Forall (fragment_of false) ads -> final_of false ad ->
  (is_legacy ad = true -> ads = []) -> is_scannable ad && negb (ignore_scan_responses_ s) = false ->
  results k (run_reports passive rs s) = replicate (length ads) None ++
    [Some {| complete_event_type := event_type ad;
             complete_data := TrimAdvertisingData (payload (ads ++ [ad])) |}].
Proof.
  intros [Hc _]%reachable_ok Hv Hn Hk F Hf Hl Hs.
  rewrite run_reports_spec by (done || by apply reachable_absent_room).
  rewrite Hv, Hk, spec_run_app.
  destruct (spec_advertisement passive (ignore_scan_responses_ s) ads ad F Hf Hl) as [-> E].
  cbn [spec_run]. rewrite E, Hs. done.
Qed.

Lemma advertisement_reassembled_witness :
  results (report_key (sample 7 0 [])) (run_reports false
    [sample 7 0x20 [5; 9]; sample 8 0 [2; 1; 6]; sample 7 0 [65; 66; 67; 68]] initial) =
  [None; Some {| complete_event_type := 0; complete_data := [5; 9; 65; 66; 67; 68] |}].
Proof.
  rewrite (advertisement_reassembled false _ _ _ [sample 7 0x20 [5; 9]] (sample 7 0 [65; 66; 67; 68])).
  - vm_compute. reflexivity.
  - apply reach_init.
  - reflexivity.
  - vm_compute. repeat constructor.
  - reflexivity.
  - by_decide.
  - by_decide.
  - discriminate.
  - reflexivity.
Defined.

(** The data of a scannable advertisement and of its scan response, each possibly
    fragmented, are joined: the last report of the scan response gives the trimmed
    data of the advertisement followed by that of the scan response, with the event
    type of the scan response (and, for legacy reports, the connectable bit of the
    advertisement); the advertisement itself is reported at once only with passive
    scanning support. *)
Theorem scan_response_joined passive k rs s ads ad srs sr : reachable passive s ->
  view k (cache_ s) = None -> (length (of_others k rs) <= kMaximumCacheSize)%nat ->
  of_key k rs = ads ++ ad :: srs ++ [sr] ->
  Forall (fun r => Forall byte (advertising_data r)) (of_key k rs) ->
  Forall (fragment_of false) ads -> final_of false ad -> (is_legacy ad = true -> ads = []) ->
  Forall (fragment_of true) srs -> final_of true sr -> (is_legacy sr = true -> srs = []) ->
  is_scannable ad = true -> ignore_scan_responses_ s = false ->
  let adv := TrimAdvertisingData (payload (ads ++ [ad])) in
  results k (run_reports passive rs s) =
    replicate (length ads) None ++
    [if passive then Some {| complete_event_type := event_type ad; complete_data := adv |} else None] ++
    replicate (length srs) None ++
    [Some {| complete_event_type :=
               if is_legacy sr then Z.lor (event_type sr) (Z.land (event_type ad) 1) else event_type sr;
             complete_data := adv ++ TrimAdvertisingData (payload (srs ++ [sr])) |}].
Proof.
  intros [Hc _]%reachable_ok Hv Hn Hk Fb F Hf Hl Fs (Ha & Hsr & Hd) Hls Hscan Hig. cbv zeta.
  rewrite run_reports_spec by (done || by apply reachable_absent_room).
  rewrite Hv, Hig. rewrite Hk in Fb |- *. rewrite spec_run_app.
  destruct (spec_advertisement passive false ads ad F Hf Hl) as [-> E]. f_equal.
  cbn [spec_run]. rewrite E, Hscan. cbn [negb andb].
  set (p := (event_type ad, TrimAdvertisingData (payload (ads ++ [ad])))).
  change ([?x] ++ ?l) with (x :: l). f_equal.
  rewrite spec_run_app.
  destruct (spec_fragments passive false true srs (Some p) Fs) as (-> & Hg & He).
  { intros _. split; [done|by eexists]. }
  f_equal. cbn [spec_run]. rewrite (spec_step_taken _ _ _ true) by done.
  rewrite bool_decide_eq_false_2, Hsr, !andb_false_r by done. cbv zeta. cbn [negb andb].
  assert (Hb : Forall byte (payload (ads ++ [ad])) /\ Forall byte (payload (srs ++ [sr]))).
  { rewrite cons_middle, app_assoc in Fb. apply Forall_app in Fb as [? ?].
    split; by apply payload_bytes. }
  rewrite <- trim_trimmed_app by apply Hb. unfold complete, trimmed, joined. f_equal.
  change (bit (event_type sr) kLegacyBit) with (is_legacy sr).
  change (bit (event_type sr) kScanResponseBit) with (is_scan_response sr). rewrite Hsr, andb_true_r.
  rewrite (payload_snoc srs sr), app_assoc.
  change (TrimAdvertisingData (payload (ads ++ [ad]))) with (gathered (Some p)).
  rewrite <- Hg. destruct (spec_final passive false srs (Some p)) as [[et d]|] eqn:Ef.
  - cbn [fst snd]. do 2 f_equal. destruct (is_legacy sr); [|done].
    rewrite Hls in Ef by done. cbn in Ef. by injection Ef as <- _.
  - destruct (He eq_refl) as [_ [? [=]]].
Qed.

(** A legacy scannable and connectable advertisement, and its scan response. *)
Lemma scan_response_joined_witness :
  results (report_key (sample 7 0 [])) (run_reports false
    [sample 7 0x13 [2; 1; 6; 0; 0]; sample 8 0x10 [2; 1; 6]; sample 7 0x1a [3; 9; 65; 66]] initial) =
  [None; Some {| complete_event_type := 0x1b; complete_data := [2; 1; 6; 3; 9; 65; 66] |}].
Proof.
  rewrite (scan_response_joined false _ _ _ [] (sample 7 0x13 [2; 1; 6; 0; 0]) []
    (sample 7 0x1a [3; 9; 65; 66])).
  - vm_compute. reflexivity.
  - apply reach_init.
  - reflexivity.
  - vm_compute. repeat constructor.
  - reflexivity.
  - by_decide.
  - constructor.
  - by_decide.
  - done.
  - constructor.
  - by_decide.
  - done.
  - reflexivity.
  - reflexivity.
Defined.

(** Periodic reports of several trains. *)
Fixpoint run_periodic (l : list (Z * DataStatus * list Z)) (s : reassembler)
    : list (Z * option (list Z)) :=
  match l with
  | [] => []
  | (h, st, d) :: l =>
      let '(s', out) := ProcessPeriodicAdvertisingReport h st d s in (h, out) :: run_periodic l s'
  end.

Lemma run_periodic_single h ds d s : periodic_ok (periodic_cache_ s) ->
  run_periodic (((fun x => (h, CONTINUING, x)) <$> ds) ++ [(h, COMPLETE, d)]) s =
  replicate (length ds) (h, None) ++
    [(h, Some (TrimAdvertisingData (default [] (periodic_view h (periodic_cache_ s)) ++ mjoin ds ++ d)))].
Proof.
  revert s. induction ds as [|x ds IH]; intros s Hp; cbn [fmap list_fmap app run_periodic].
  - destruct (ProcessPeriodicAdvertisingReport h COMPLETE d s) as [s' out] eqn:E.
    destruct (process_periodic_spec _ _ _ _ _ _ Hp E) as (_ & _ & [= _ ->] & _). done.
  - destruct (ProcessPeriodicAdvertisingReport h CONTINUING x s) as [s' out] eqn:E.
    destruct (process_periodic_spec _ _ _ _ _ _ Hp E) as (Hp' & _ & Hs & _).
    pose proof (f_equal fst Hs) as Hv. pose proof (f_equal snd Hs) as Ho.
    change (out = None) in Ho. subst out.
    change (periodic_view h (periodic_cache_ s') =
      Some (default [] (periodic_view h (periodic_cache_ s)) ++ x)) in Hv.
    change (list_fmap _ _ ?f ds) with (f <$> ds). rewrite (IH s' Hp'), Hv.
    change (mjoin (x :: ds)) with (x ++ mjoin ds). cbn [default from_option length replicate app].
    unfold id. by rewrite <- !app_assoc.
Qed.

(** The fragments of a periodic advertisement give nothing until the last one,
    and then the trimmed concatenation of the data; a later advertisement of the
    same train starts afresh, and reports of other trains leave the fragments of a
    train in place unless they are the oldest of a full cache. *)
Theorem periodic_reassembled passive s h ds d : reachable passive s ->
  periodic_view h (periodic_cache_ s) = None ->
  run_periodic (((fun x => (h, CONTINUING, x)) <$> ds) ++ [(h, COMPLETE, d)]) s =
    replicate (length ds) (h, None) ++ [(h, Some (TrimAdvertisingData (mjoin ds ++ d)))] /\
  periodic_view h (periodic_cache_ (ProcessPeriodicAdvertisingReport h COMPLETE d s).1) = None /\
  forall h' st x, h' <> h ->
    ages sync_handle kMaximumPeriodicCacheSize h (periodic_cache_ s)
      (periodic_cache_ (ProcessPeriodicAdvertisingReport h' st x s).1).
Proof.
  intros [_ Hp]%reachable_ok Hv. split_and!.
  - rewrite run_periodic_single by done. by rewrite Hv.
  - destruct (ProcessPeriodicAdvertisingReport h COMPLETE d s) as [s' out] eqn:E.
    destruct (process_periodic_spec _ _ _ _ _ _ Hp E) as (_ & _ & Hs & _). exact (f_equal fst Hs).
  - intros h' st x Hh. destruct (ProcessPeriodicAdvertisingReport h' st x s) as [s' out] eqn:E.
    destruct (process_periodic_spec _ _ _ _ _ _ Hp E) as (_ & _ & _ & H). by apply H.
Qed.

Lemma periodic_reassembled_witness :
  run_periodic [(3, CONTINUING, [3; 9]); (3, COMPLETE, [65; 66; 0])] initial =
  [(3, None); (3, Some [3; 9; 65; 66])].
Proof.
  destruct (periodic_reassembled true initial 3 [[3; 9]] [65; 66; 0]) as [H _].
  - apply reach_init.
  - reflexivity.
  - exact H.
Defined.
