(* ===== verification/PacketView.v ===== *)
(** * Packet views and iterators

    Model of the read side of [src/system/gd/packet]: [View] (view.cc),
    [PacketView] (packet_view.cc) and [Iterator] (iterator.cc, iterator.h).  A
    shared vector is immutable, hence a list; a [std::forward_list] is a list and
    an iterator in it a position.  A failed [assert], an [abort] and a read outside
    a container are [None]. *)

From stdpp Require Import base list option.
From Stdlib Require Import ZArith Lia.
From S2P Require Import Prelude.

Open Scope Z_scope.

(** ** View

    A range of a vector.  [begin_ <= end_] holds of every view made from a range
    [begin <= end], so that [size] does not wrap. *)

Record View := { data_ : list Z; begin_ : nat; end_ : nat }.

Definition make_view (data : list Z) (b e : nat) : View := {|
  data_ := data;
  begin_ := if (b <? length data)%nat then b else length data;
  end_ := if (e <? length data)%nat then e else length data |}.

Definition view_size (v : View) : nat := end_ v - begin_ v.

Definition sub_view (view : View) (b e : nat) : View := {|
  data_ := data_ view;
  begin_ := ((if (b <? view_size view)%nat then b else view_size view) + begin_ view)%nat;
  end_ := ((if (e <? view_size view)%nat then e else view_size view) + begin_ view)%nat |}.

(** [operator[]]. *)
Definition view_get (v : View) (i : nat) : option Z :=
  if (i + begin_ v <? end_ v)%nat then data_ v !! (i + begin_ v)%nat else None.

(** ** PacketView *)

Record PacketView := { fragments_ : list View; length_ : nat }.

Definition sizes (l : list View) : nat := sum_list_with view_size l.

Definition packet_of_fragments (fragments : list View) : PacketView :=
  {| fragments_ := fragments; length_ := sizes fragments |}.

Definition packet_of_vector (packet : list Z) : PacketView :=
  {| fragments_ := [make_view packet 0 (length packet)]; length_ := length packet |}.

(** The loop of [at] and of [Iterator::operator*]. *)
Fixpoint get_loop (fragments : list View) (index : nat) : option Z :=
  match fragments with
  | [] => None
  | fragment :: fragments =>
      if (index <? view_size fragment)%nat then view_get fragment index
      else get_loop fragments (index - view_size fragment)
  end.

Definition at_ (p : PacketView) (index : nat) : option Z :=
  if (index <? length_ p)%nat then get_loop (fragments_ p) index else None.

Fixpoint subview_loop (fragments : list View) (begin length : nat) : list View :=
  match fragments with
  | [] => []
  | fragment :: fragments =>
      if (view_size fragment <=? begin)%nat
      then subview_loop fragments (begin - view_size fragment) length
      else
        let view := sub_view fragment begin (begin + Nat.min length (view_size fragment - begin)) in
        view :: subview_loop fragments 0 (length - view_size view)
  end.

Definition GetSubviewList (p : PacketView) (b e : nat) : option (list View) :=
  if (b <=? e)%nat && (e <=? length_ p)%nat then Some (subview_loop (fragments_ p) b (e - b)) else None.

(** [GetLittleEndianSubview] and [GetBigEndianSubview]; the endianness is that of
    the iterators. *)
Definition GetSubview (p : PacketView) (b e : nat) : option PacketView :=
  packet_of_fragments <$> GetSubviewList p b e.

(** The [while] of [Append]: the insertion point. *)
Fixpoint insertion_loop (fuel : nat) (fragments : list View) (insertion_point remaining_length : nat)
    : option nat :=
  match fuel with
  | O => None
  | S fuel =>
      if (remaining_length =? 0)%nat then Some insertion_point
      else
        fragment ← fragments !! insertion_point;
        let remaining_length := (remaining_length - view_size fragment)%nat in
        insertion_loop fuel fragments
          (if (remaining_length =? 0)%nat then insertion_point else S insertion_point) remaining_length
  end.

(** [insert_after], then the increment of the insertion point. *)
Fixpoint insert_all (to_add fragments : list View) (insertion_point : nat) : list View :=
  match to_add with
  | [] => fragments
  | fragment :: to_add =>
      insert_all to_add
        (take (S insertion_point) fragments ++ fragment :: drop (S insertion_point) fragments)
        (S insertion_point)
  end.

Definition Append (p to_add : PacketView) : option PacketView :=
  insertion_point ← insertion_loop (length (fragments_ p) + 2) (fragments_ p) 0 (length_ p);
  if (insertion_point =? length (fragments_ p))%nat then None
  else Some {| fragments_ := insert_all (fragments_ to_add) (fragments_ p) insertion_point;
               length_ := (length_ p + length_ to_add)%nat |}.

(** ** Iterator

    The indices are [size_t]; an [int] offset is converted to it. *)

Record Iterator := { it_data : list View; index_ : Z; it_begin : Z; it_end : Z }.

Definition size_t (x : Z) : Z := wrap 64 x.

Definition make_iterator (data : list View) (offset : nat) : Iterator := {|
  it_data := data; index_ := Z.of_nat offset; it_begin := 0; it_end := Z.of_nat (sizes data) |}.

(** [Iterator(shared_ptr<vector>)]. *)
Definition iterator_of_vector (data : list Z) : Iterator :=
  let v := make_view data 0 (length data) in
  {| it_data := [v]; index_ := 0; it_begin := 0; it_end := Z.of_nat (view_size v) |}.

Definition set_index (i : Z) (it : Iterator) : Iterator :=
  {| it_data := it_data it; index_ := i; it_begin := it_begin it; it_end := it_end it |}.

(** [operator+=], [operator-=], [operator++], [operator--]. *)
Definition it_add (offset : Z) (it : Iterator) : Iterator := set_index (size_t (index_ it + offset)) it.
Definition it_sub (offset : Z) (it : Iterator) : Iterator := set_index (size_t (index_ it - offset)) it.
Definition it_next (it : Iterator) : Iterator := set_index (size_t (index_ it + 1)) it.
Definition it_prev (it : Iterator) : Iterator :=
  if index_ it =? 0 then it else set_index (index_ it - 1) it.

(** [operator==], [operator<] and the difference, an [int]. *)
Definition it_eqb (a b : Iterator) : bool := index_ a =? index_ b.
Definition it_ltb (a b : Iterator) : bool := index_ a <? index_ b.
Definition it_diff (a b : Iterator) : Z :=
  let d := wrap 32 (index_ a - index_ b) in if d <? 2 ^ 31 then d else d - 2 ^ 32.

Definition NumBytesRemaining (it : Iterator) : Z :=
  if (index_ it <? it_end it) && (it_begin it <=? index_ it) then it_end it - index_ it else 0.

(** [operator*]. *)
Definition deref (it : Iterator) : option Z :=
  if 0 <? NumBytesRemaining it then get_loop (it_data it) (Z.to_nat (index_ it)) else None.

Definition Subrange (it : Iterator) (index length : Z) : Iterator :=
  if index <? NumBytesRemaining it then
    let i := size_t (index_ it + index) in
    let r := {| it_data := it_data it; index_ := i; it_begin := i; it_end := it_end it |} in
    if length <=? NumBytesRemaining r
    then {| it_data := it_data it; index_ := i; it_begin := i; it_end := size_t (i + length) |}
    else r
  else {| it_data := it_data it; index_ := index_ it; it_begin := it_begin it; it_end := 0 |}.

(** The bytes read by [extract] with [i] from [i] to [len - 1], stored in
    [value_ptr]. *)
Fixpoint extract_loop (little_endian : bool) (n i len : nat) (value_ptr : list Z) (it : Iterator)
    : option (list Z * Iterator) :=
  match n with
  | O => Some (value_ptr, it)
  | S n =>
      b ← deref it;
      let index := if little_endian then i else (len - i - 1)%nat in
      extract_loop little_endian n (S i) len (value_ptr.[index <- b]) (it_next it)
  end.

(** The object representation of an unsigned integer, least significant byte
    first, and back. *)
Fixpoint le_bytes (n : nat) (v : Z) : list Z :=
  match n with O => [] | S n => v mod 256 :: le_bytes n (v / 256) end.
Fixpoint le_val (l : list Z) : Z := match l with [] => 0 | b :: l => b + 256 * le_val l end.

(** [extract<T>(len)] with [size] the size of [T]; [T{}] is zero. *)
Definition extract (little_endian : bool) (size len : nat) (it : Iterator) : option (Z * Iterator) :=
  '(value, it) ← extract_loop little_endian len 0 len (replicate size 0) it;
  Some (le_val value, it).

(** [extract<T>()] of a custom field of [len] bytes: its [data()]. *)
Definition extract_custom (little_endian : bool) (len : nat) (it : Iterator)
    : option (list Z * Iterator) :=
  extract_loop little_endian len 0 len (replicate len 0) it.

Definition packet_begin (p : PacketView) : Iterator := make_iterator (fragments_ p) 0.
Definition packet_end (p : PacketView) : Iterator := make_iterator (fragments_ p) (length_ p).

(** ** The bytes a view stands for *)

Definition view_ok (v : View) : Prop := (begin_ v <= end_ v <= length (data_ v))%nat.
Definition view_bytes (v : View) : list Z := take (view_size v) (drop (begin_ v) (data_ v)).

Definition flat (l : list View) : list Z := l ≫= view_bytes.

Definition packet_ok (p : PacketView) : Prop :=
  Forall view_ok (fragments_ p) /\ length_ p = sizes (fragments_ p).
Definition packet_bytes (p : PacketView) : list Z := flat (fragments_ p).

Lemma make_view_ok data b e : (b <= e)%nat -> view_ok (make_view data b e).
Proof.
  intros H. unfold view_ok, make_view. cbn [begin_ end_ data_].
  destruct (Nat.ltb_spec b (length data)), (Nat.ltb_spec e (length data)); lia.
Qed.

Lemma sub_view_ok v b e : view_ok v -> (b <= e)%nat -> view_ok (sub_view v b e).
Proof.
  unfold view_ok, sub_view, view_size. cbn [begin_ end_ data_]. intros H Hbe.
  destruct (Nat.ltb_spec b (end_ v - begin_ v)), (Nat.ltb_spec e (end_ v - begin_ v)); lia.
Qed.

Lemma length_view_bytes v : view_ok v -> length (view_bytes v) = view_size v.
Proof. unfold view_ok, view_bytes, view_size. intros H. rewrite length_take, length_drop. lia. Qed.

Lemma view_get_bytes v i : view_ok v -> view_get v i = view_bytes v !! i.
Proof.
  unfold view_ok, view_get, view_bytes, view_size. intros H.
  destruct (Nat.ltb_spec (i + begin_ v) (end_ v)) as [Hi|Hi].
  - rewrite lookup_take_lt, lookup_drop by lia. f_equal. lia.
  - by rewrite lookup_take_ge by lia.
Qed.

Lemma make_view_bytes data b e : (b <= e)%nat -> view_bytes (make_view data b e) = take (e - b) (drop b data).
Proof.
  intros H. unfold view_bytes, make_view, view_size. cbn [begin_ end_ data_].
  destruct (Nat.ltb_spec b (length data)), (Nat.ltb_spec e (length data)); try lia; [done| |].
  - by rewrite !take_ge by (rewrite length_drop; lia).
  - by rewrite !drop_ge, !take_nil by lia.
Qed.

Lemma sub_view_bytes v b e : view_ok v -> (b <= e)%nat ->
  view_bytes (sub_view v b e) = take (e - b) (drop b (view_bytes v)).
Proof.
  unfold view_ok. intros H Hbe. unfold view_bytes at 2. rewrite skipn_firstn_comm, take_take, drop_drop.
  unfold view_bytes, sub_view. cbn [begin_ end_ data_]. unfold view_size. cbn [begin_ end_ data_].
  destruct (Nat.ltb_spec b (end_ v - begin_ v)) as [Hb|Hb], (Nat.ltb_spec e (end_ v - begin_ v)) as [He|He]; try lia.
  - rewrite (Nat.add_comm b). f_equal. lia.
  - rewrite (Nat.add_comm b). f_equal. lia.
  - replace (_ - _)%nat with 0%nat by lia.
    by replace (_ `min` _)%nat with 0%nat by lia.
Qed.

Lemma flat_app a b : flat (a ++ b) = flat a ++ flat b.
Proof. apply bind_app. Qed.

Lemma flat_cons v l : flat (v :: l) = view_bytes v ++ flat l.
Proof. done. Qed.

Lemma length_flat l : Forall view_ok l -> length (flat l) = sizes l.
Proof.
  induction 1 as [|v l Hv _ IH]; [done|]. rewrite flat_cons, length_app, IH, length_view_bytes by done.
  done.
Qed.

Lemma length_packet_bytes p : packet_ok p -> length (packet_bytes p) = length_ p.
Proof. intros [H1 H2]. unfold packet_bytes. by rewrite length_flat. Qed.

Lemma get_loop_flat l i : Forall view_ok l -> get_loop l i = flat l !! i.
Proof.
  intros F. revert i. induction F as [|v l Hv _ IH]; intros i; [done|]. cbn [get_loop].
  rewrite flat_cons. destruct (Nat.ltb_spec i (view_size v)) as [H|H].
  - rewrite view_get_bytes, lookup_app_l by (done || by rewrite length_view_bytes). done.
  - rewrite IH, lookup_app_r by (by rewrite length_view_bytes). by rewrite length_view_bytes.
Qed.

Lemma sub_view_size v b n : view_ok v -> (b < view_size v)%nat ->
  view_size (sub_view v b (b + Nat.min n (view_size v - b))) = Nat.min n (view_size v - b).
Proof.
  intros Hv Hb. rewrite <- length_view_bytes by (apply sub_view_ok; [done|lia]).
  rewrite sub_view_bytes by (done || lia). rewrite length_take, length_drop, length_view_bytes by done. lia.
Qed.

Lemma subview_loop_ok l b n : Forall view_ok l -> Forall view_ok (subview_loop l b n).
Proof.
  intros F. revert b n. induction F as [|v l Hv _ IH]; intros b n; cbn [subview_loop]; [constructor|].
  destruct (Nat.leb_spec (view_size v) b); [apply IH|]. constructor; [apply sub_view_ok; [done|lia]|apply IH].
Qed.

Lemma subview_loop_flat l b n : Forall view_ok l ->
  flat (subview_loop l b n) = take n (drop b (flat l)).
Proof.
  intros F. revert b n. induction F as [|v l Hv _ IH]; intros b n; cbn [subview_loop].
  { change (flat []) with (@nil Z). by rewrite drop_nil, take_nil. }
  rewrite flat_cons. destruct (Nat.leb_spec (view_size v) b) as [H|H].
  - rewrite IH, drop_app_ge by (by rewrite length_view_bytes). by rewrite length_view_bytes.
  - rewrite flat_cons, IH, drop_0, sub_view_size by done.
    rewrite sub_view_bytes, drop_app_le by (done || lia || (rewrite length_view_bytes by done; lia)).
    rewrite take_app, length_drop, length_view_bytes by done. f_equal; [|f_equal; lia].
    destruct (decide (n <= view_size v - b)%nat); [f_equal; lia|].
    rewrite !take_ge by (rewrite length_drop, length_view_bytes by done; lia). done.
Qed.

(** ** Append *)

(** The insertion point is the last fragment reached by [remaining_length] bytes:
    what follows it is empty. *)
Lemma insertion_loop_spec l : Forall view_ok l -> forall pre fuel,
  (length l + 1 < fuel)%nat -> (pre ++ l <> []) ->
  exists i, insertion_loop fuel (pre ++ l) (length pre) (sizes l) = Some i /\
    (length pre <= i <= length (pre ++ l))%nat /\
    (l <> [] -> (i < length (pre ++ l))%nat) /\
    flat (drop (S i) (pre ++ l)) = [].
Proof.
  induction 1 as [|v l Hv F IH]; intros pre fuel Hf Hne; (destruct fuel as [|fuel]; [lia|]);
    cbn [insertion_loop].
  { exists (length pre). rewrite app_nil_r. split_and!; [done|lia|lia|done|].
    by rewrite drop_ge by lia. }
  change (sizes (v :: l)) with (view_size v + sizes l)%nat.
  destruct (Nat.eqb_spec (view_size v + sizes l) 0) as [E|E].
  { exists (length pre). rewrite length_app. cbn [length]. split_and!; [done|lia|lia|lia|].
    rewrite <- Nat.add_1_r, drop_app_add. cbn [drop]. rewrite drop_0.
    apply nil_length_inv. rewrite length_flat by done. lia. }
  rewrite list_lookup_middle by done. cbn [mbind option_bind].
  replace (view_size v + sizes l - view_size v)%nat with (sizes l) by lia.
  destruct (Nat.eqb_spec (sizes l) 0) as [E'|E'].
  - exists (length pre). rewrite E'. destruct fuel as [|fuel]; [cbn in Hf; lia|]. cbn [insertion_loop Nat.eqb].
    rewrite length_app. cbn [length]. split_and!; [done|lia|lia|lia|].
    rewrite <- Nat.add_1_r, drop_app_add. cbn [drop]. rewrite drop_0.
    apply nil_length_inv. by rewrite length_flat.
  - destruct (IH (pre ++ [v]) fuel) as (i & Hi & Hr & Hlt & Hd); [cbn in Hf; lia|by destruct pre|].
    assert (E1 : length (pre ++ [v]) = S (length pre)) by (rewrite length_app; cbn; lia).
    rewrite <- app_assoc in *. cbn [app] in *. rewrite E1 in *.
    exists i. split_and!; [done|lia|lia| |done]. intros _. apply Hlt. by intros ->.
Qed.

Lemma insert_all_spec ta l i : (i < length l)%nat ->
  insert_all ta l i = take (S i) l ++ ta ++ drop (S i) l.
Proof.
  revert l i. induction ta as [|v ta IH]; intros l i Hi; cbn [insert_all].
  { change ([] ++ ?x) with x. by rewrite take_drop. }
  assert (Hl : length (take (S i) l) = S i) by (rewrite length_take; lia).
  rewrite IH by (rewrite length_app, Hl; cbn [length]; lia).
  rewrite <- Hl at 1 4. rewrite <- (Nat.add_1_r (length (take (S i) l))).
  rewrite take_app_add, drop_app_add. cbn. by rewrite take_0, drop_0, <- app_assoc.
Qed.

(** Appending concatenates the bytes, and fails exactly when there is no fragment
    to append to. *)
Lemma Append_spec p q : packet_ok p -> packet_ok q ->
  match Append p q with
  | Some r => fragments_ p <> [] /\ packet_ok r /\ packet_bytes r = packet_bytes p ++ packet_bytes q
  | None => fragments_ p = []
  end.
Proof.
  intros [F1 L1] [F2 L2]. unfold Append.
  destruct (decide (fragments_ p = [])) as [E|E]; [by rewrite L1, E|].
  destruct (insertion_loop_spec (fragments_ p) F1 [] (length (fragments_ p) + 2)) as (i & Hi & Hr & Hlt & Hd);
    [lia|done|].
  cbn [app length] in *. rewrite L1, Hi. cbn [mbind option_bind]. specialize (Hlt E).
  rewrite (proj2 (Nat.eqb_neq _ _)) by lia. split; [done|].
  rewrite insert_all_spec by done. unfold packet_ok, packet_bytes. cbn [fragments_ length_].
  split; [split|].
  - apply Forall_app_2; [by apply Forall_take|apply Forall_app_2; [done|by apply Forall_drop]].
  - rewrite L2, <- (take_drop (S i) (fragments_ p)) at 1. unfold sizes. rewrite !sum_list_with_app. lia.
  - rewrite !flat_app, Hd, app_nil_r. f_equal.
    rewrite <- (take_drop (S i) (fragments_ p)) at 2. by rewrite flat_app, Hd, app_nil_r.
Qed.

(** ** Reading through an iterator *)

(** An iterator over [l] that has the bytes [bs] before it, and [n] bytes in all. *)
Definition iterator_at (l : list View) (i : nat) (it : Iterator) : Prop :=
  it_data it = l /\ index_ it = Z.of_nat i /\ it_begin it = 0 /\ it_end it = Z.of_nat (sizes l).

Lemma deref_at l i it : Forall view_ok l -> iterator_at l i it -> deref it = flat l !! i.
Proof.
  intros F (Hl & Hi & Hb & He). unfold deref, NumBytesRemaining. rewrite Hl, Hi, Hb, He, Nat2Z.id.
  rewrite get_loop_flat by done.
  destruct (Z.ltb_spec (Z.of_nat i) (Z.of_nat (sizes l))) as [H|H]; cbn [andb].
  - by rewrite (proj2 (Z.leb_le _ _)), (proj2 (Z.ltb_lt _ _)) by lia.
  - symmetry. apply lookup_ge_None_2. rewrite length_flat by done. lia.
Qed.

Lemma next_at l i it : Z.of_nat (sizes l) < 2 ^ 64 -> (i < sizes l)%nat -> iterator_at l i it ->
  iterator_at l (S i) (it_next it).
Proof.
  intros Hs Hi (Hl & Hx & Hb & He). unfold it_next, set_index.
  split_and!; cbn [it_data index_ it_begin it_end]; [done| |done|done].
  rewrite Hx. unfold size_t. rewrite wrap_small by (unfold in_range; lia). lia.
Qed.

(** The order in which the bytes of a value are read. *)
Definition endian (little_endian : bool) (l : list Z) : list Z := if little_endian then l else rev l.

(** The next byte, and the iterator after it. *)
Lemma read_byte l pre b rest it : Forall view_ok l -> Z.of_nat (sizes l) < 2 ^ 64 ->
  flat l = pre ++ b :: rest -> iterator_at l (length pre) it ->
  deref it = Some b /\ iterator_at l (length (pre ++ [b])) (it_next it).
Proof.
  intros F Hs Hfl Hit. split.
  - by rewrite (deref_at l _ _ F Hit), Hfl, list_lookup_middle.
  - rewrite length_app. cbn. rewrite Nat.add_1_r. apply next_at; [done| |done].
    rewrite <- length_flat, Hfl, length_app by done. cbn. lia.
Qed.

Lemma extract_loop_little l len : Forall view_ok l -> Z.of_nat (sizes l) < 2 ^ 64 ->
  forall bs pre rest it dn tl, flat l = pre ++ bs ++ rest -> iterator_at l (length pre) it ->
  (length bs <= length tl)%nat ->
  exists it', extract_loop true (length bs) (length dn) len (dn ++ tl) it =
      Some (dn ++ bs ++ drop (length bs) tl, it') /\ iterator_at l (length (pre ++ bs)) it'.
Proof.
  intros F Hs bs. induction bs as [|b bs IH]; intros pre rest it dn tl Hfl Hit Ht.
  { exists it. by rewrite app_nil_r. }
  destruct tl as [|x tl]; [cbn in Ht; lia|]. cbn in Ht. cbn [extract_loop length].
  destruct (read_byte l pre b (bs ++ rest) it F Hs Hfl Hit) as [-> Hit2]. cbn [mbind option_bind].
  destruct (IH (pre ++ [b]) rest (it_next it) (dn ++ [b]) tl) as (it' & E & Hit');
    [by rewrite <- app_assoc|done|lia|].
  exists it'. split; [|by rewrite <- app_assoc in Hit'].
  rewrite insert_app_r_alt, Nat.sub_diag by lia. cbn [drop app].
  rewrite length_app, Nat.add_1_r, <- !app_assoc in E. exact E.
Qed.

Lemma extract_loop_big l : Forall view_ok l -> Z.of_nat (sizes l) < 2 ^ 64 ->
  forall bs pre rest it hd dn tl, flat l = pre ++ bs ++ rest -> iterator_at l (length pre) it ->
  length hd = length bs ->
  exists it', extract_loop false (length bs) (length dn) (length bs + length dn) (hd ++ dn ++ tl) it =
      Some (rev bs ++ dn ++ tl, it') /\ iterator_at l (length (pre ++ bs)) it'.
Proof.
  intros F Hs bs. induction bs as [|b bs IH]; intros pre rest it hd dn tl Hfl Hit Hh.
  { apply nil_length_inv in Hh as ->. exists it. by rewrite app_nil_r. }
  destruct hd as [|x hd _] using rev_ind; [done|].
  rewrite length_app in Hh. cbn in Hh. cbn [extract_loop length].
  destruct (read_byte l pre b (bs ++ rest) it F Hs Hfl Hit) as [-> Hit2]. cbn [mbind option_bind].
  destruct (IH (pre ++ [b]) rest (it_next it) hd (b :: dn) tl) as (it' & E & Hit');
    [by rewrite <- app_assoc|done|lia|].
  exists it'. rewrite <- app_assoc in Hit'. cbn [app length rev] in *. split; [|done].
  rewrite <- !app_assoc. cbn [app]. rewrite <- E, Nat.add_succ_r.
  replace (S (length bs) + length dn - length dn - 1)%nat with (length hd) by lia.
  by rewrite insert_app_r_alt, Nat.sub_diag by lia.
Qed.

Lemma extract_loop_spec e l pre bs rest it size : Forall view_ok l -> Z.of_nat (sizes l) < 2 ^ 64 ->
  flat l = pre ++ bs ++ rest -> iterator_at l (length pre) it -> (length bs <= size)%nat ->
  exists it', extract_loop e (length bs) 0 (length bs) (replicate size 0) it =
      Some (endian e bs ++ replicate (size - length bs) 0, it') /\ iterator_at l (length (pre ++ bs)) it'.
Proof.
  intros F Hs Hfl Hit Hn. destruct e; cbn [endian].
  - destruct (extract_loop_little l (length bs) F Hs bs pre rest it [] (replicate size 0) Hfl Hit)
      as (it' & E & H); [by rewrite length_replicate|].
    exists it'. split; [|done]. cbn [app length] in E. by rewrite E, drop_replicate.
  - destruct (extract_loop_big l F Hs bs pre rest it (replicate (length bs) 0) []
      (replicate (size - length bs) 0) Hfl Hit) as (it' & E & H); [by rewrite length_replicate|].
    exists it'. split; [|done]. cbn [app length] in E. rewrite <- replicate_add, Nat.add_0_r in E.
    by replace (length bs + (size - length bs))%nat with size in E by lia.
Qed.

Lemma le_val_zeros l n : le_val (l ++ replicate n 0) = le_val l.
Proof.
  induction l as [|b l IH]; cbn [app le_val]; [|by rewrite IH].
  induction n as [|n IH]; [done|]. cbn [replicate le_val]. rewrite IH. done.
Qed.

Lemma le_bytes_val n l : length l = n -> Forall byte l -> le_bytes n (le_val l) = l.
Proof.
  revert l. induction n as [|n IH]; intros l Hl F; [by apply nil_length_inv in Hl as ->|].
  destruct l as [|b l]; [done|]. apply Forall_cons_1 in F as [Hb F]. cbn in Hl. cbn [le_bytes le_val].
  assert (Hb' : 0 <= b < 256) by exact Hb.
  f_equal; [dmlia|]. rewrite <- (IH l) at 2 by (done || lia). f_equal. dmlia.
Qed.

Lemma le_val_bytes n v : 0 <= v < 256 ^ Z.of_nat n -> le_val (le_bytes n v) = v.
Proof.
  revert v. induction n as [|n IH]; intros v Hv; [cbn in *; lia|]. cbn [le_bytes le_val].
  rewrite IH; [pose proof (Z.div_mod v 256); lia|].
  rewrite Nat2Z.inj_succ, Z.pow_succ_r in Hv by lia.
  split; [apply Z.div_pos; lia|apply Z.div_lt_upper_bound; lia].
Qed.

Lemma length_le_bytes n v : length (le_bytes n v) = n.
Proof. revert v. induction n as [|n IH]; intros v; [done|]. cbn. by rewrite IH. Qed.

Lemma le_bytes_bytes n v : Forall byte (le_bytes n v).
Proof.
  revert v. induction n as [|n IH]; intros v; cbn; constructor; [|done].
  unfold in_range. change (2 ^ 8) with 256. apply Z.mod_pos_bound. lia.
Qed.

(** The subview of the empty range at the end of a packet has no fragment. *)
Lemma empty_subview (v : list Z) :
  GetSubview (packet_of_vector v) (length v) (length v) = Some (packet_of_fragments []).
Proof.
  unfold GetSubview, GetSubviewList. cbn [packet_of_vector length_ fragments_ subview_loop].
  rewrite !Nat.leb_refl. cbn [andb fmap option_fmap option_map].
  assert (view_size (make_view v 0 (length v)) = length v) as ->.
  { rewrite <- length_view_bytes, make_view_bytes by (lia || (apply make_view_ok; lia)).
    by rewrite Nat.sub_0_r, drop_0, take_ge. }
  by rewrite Nat.leb_refl.
Qed.

(** ** Properties *)

(** C38: a packet view behaves as the concatenation of the bytes of its fragments:
    its size is their number, [at] reads them (and fails only outside), a subview
    holds the bytes of its range, and [Append] concatenates.  The one failure of
    [Append] is on a view without fragments. *)
Theorem packet_view_refines_bytes p : packet_ok p ->
  length (packet_bytes p) = length_ p /\
  (forall i, at_ p i = packet_bytes p !! i) /\
  (forall b e, (b <= e <= length_ p)%nat -> exists q,
     GetSubview p b e = Some q /\ packet_ok q /\
     packet_bytes q = take (e - b) (drop b (packet_bytes p))) /\
  (forall q, packet_ok q ->
     match Append p q with
     | Some r => fragments_ p <> [] /\ packet_ok r /\ packet_bytes r = packet_bytes p ++ packet_bytes q
     | None => fragments_ p = []
     end).
Proof.
  intros Hp. pose proof (length_packet_bytes p Hp) as Hl. split_and!; [done| | |].
  - intros i. unfold at_. destruct (Nat.ltb_spec i (length_ p)) as [H|H].
    + by apply get_loop_flat, Hp.
    + symmetry. apply lookup_ge_None_2. lia.
  - intros b e [H1 H2]. unfold GetSubview, GetSubviewList.
    rewrite (proj2 (Nat.leb_le _ _) H1), (proj2 (Nat.leb_le _ _) H2). cbn [andb fmap option_fmap option_map].
    eexists. split; [done|]. split; [split; [by apply subview_loop_ok, Hp|done]|].
    by apply subview_loop_flat, Hp.
  - intros q Hq. by apply Append_spec.
Qed.

Definition two_views : PacketView :=
  packet_of_fragments [make_view [1; 2; 3; 4] 1 3; make_view [5; 6] 0 2].

Lemma packet_view_refines_bytes_witness :
  at_ two_views 2 = Some 5 /\ length (packet_bytes two_views) = 4%nat.
Proof.
  destruct (packet_view_refines_bytes two_views) as (H1 & H2 & _).
  - split; [by_decide|reflexivity].
  - split; [rewrite H2; reflexivity|exact H1].
Defined.
