(* ===== verification/BitInserter.v ===== *)
(** * Packet builders

    Model of the write side of [src/system/gd/packet]: [ByteObserver],
    [ByteInserter], [BitInserter], [RawBuilder], [FragmentingInserter] and
    [EndianInserter].  The virtual method [insert_bits], which the builders call,
    is the class [BitSink]; both inserters are instances of it, and the builders
    are verified against its laws. *)

From stdpp Require Import base list option.
From Stdlib Require Import ZArith Lia.
From S2P Require Import Prelude PacketView.

Open Scope Z_scope.

(** ** ByteObserver

    The two functions of an observer are closures over a shared state, which is
    determined by the bytes observed so far. *)

Record ByteObserver := { seen : list Z; get_value_ : list Z -> Z }.

Definition OnByte (byte : Z) (o : ByteObserver) : ByteObserver :=
  {| seen := seen o ++ [byte]; get_value_ := get_value_ o |}.
Definition GetValue (o : ByteObserver) : Z := get_value_ o (seen o).

(** ** BitInserter

    [container] is the vector of the [back_insert_iterator]. *)

Record BitInserter := {
  container : list Z;
  registered_observers_ : list ByteObserver;
  num_saved_bits_ : Z;
  saved_bits_ : Z;
}.

Definition new_inserter (vector : list Z) : BitInserter :=
  {| container := vector; registered_observers_ := []; num_saved_bits_ := 0; saved_bits_ := 0 |}.

Definition set_observers (l : list ByteObserver) (s : BitInserter) : BitInserter :=
  {| container := container s; registered_observers_ := l; num_saved_bits_ := num_saved_bits_ s;
     saved_bits_ := saved_bits_ s |}.

Definition RegisterObserver (o : ByteObserver) (s : BitInserter) : BitInserter :=
  set_observers (registered_observers_ s ++ [o]) s.

(** [back] of an empty vector is undefined. *)
Definition UnregisterObserver (s : BitInserter) : option (ByteObserver * BitInserter) :=
  o ← registered_observers_ s !! (length (registered_observers_ s) - 1)%nat;
  Some (o, set_observers (take (length (registered_observers_ s) - 1) (registered_observers_ s)) s).

Definition on_byte (byte : Z) (s : BitInserter) : BitInserter :=
  set_observers (OnByte byte <$> registered_observers_ s) s.

(** [ByteInserter::insert_byte]. *)
Definition byte_inserter_insert (byte : Z) (s : BitInserter) : BitInserter :=
  let s := on_byte byte s in
  {| container := container s ++ [byte]; registered_observers_ := registered_observers_ s;
     num_saved_bits_ := num_saved_bits_ s; saved_bits_ := saved_bits_ s |}.

Definition set_saved (num saved : Z) (s : BitInserter) : BitInserter :=
  {| container := container s; registered_observers_ := registered_observers_ s;
     num_saved_bits_ := num; saved_bits_ := saved |}.

Definition bit_inserter_insert_bits (byte num_bits : Z) (s : BitInserter) : BitInserter :=
  let total_bits := num_bits + num_saved_bits_ s in
  let new_value := u16 (Z.lor (saved_bits_ s) (Z.shiftl byte (num_saved_bits_ s))) in
  let '(s, total_bits, new_value) :=
    if 8 <=? total_bits
    then (byte_inserter_insert (u8 new_value) s, total_bits - 8, Z.shiftr new_value 8)
    else (s, total_bits, new_value) in
  let mask := u8 (Z.shiftr 0xff (8 - total_bits)) in
  set_saved total_bits (Z.land (u8 new_value) mask) s.

(** ** RawBuilder *)

Record RawBuilder := { payload_ : list Z; max_bytes_ : nat }.

Definition raw_builder (max_bytes : nat) : RawBuilder := {| payload_ := []; max_bytes_ := max_bytes |}.
Definition raw_builder_of (vec : list Z) : RawBuilder :=
  {| payload_ := vec; max_bytes_ := Z.to_nat 0xffff |}.

Definition AddOctets (octets : nat) (bytes : list Z) (b : RawBuilder) : bool * RawBuilder :=
  if (max_bytes_ b <? length (payload_ b) + octets)%nat then (false, b)
  else if (octets =? length bytes)%nat
  then (true, {| payload_ := payload_ b ++ bytes; max_bytes_ := max_bytes_ b |})
  else (false, b).

(** The loop of [AddOctets(size_t, uint64_t)]: the bytes and what is left. *)
Fixpoint octets_loop (octets : nat) (v : Z) : list Z * Z :=
  match octets with
  | O => ([], v)
  | S octets => let '(l, v') := octets_loop octets (Z.shiftr v 8) in (Z.land v 0xff :: l, v')
  end.

Definition AddOctets_value (octets : nat) (value : Z) (b : RawBuilder) : bool * RawBuilder :=
  if (8 <? octets)%nat then (false, b)
  else
    let '(val_vector, v) := octets_loop octets value in
    if v =? 0 then AddOctets octets val_vector b else (false, b).

Definition AddOctets1 (value : Z) : RawBuilder -> bool * RawBuilder := AddOctets_value 1 value.
Definition AddOctets2 (value : Z) : RawBuilder -> bool * RawBuilder := AddOctets_value 2 value.
Definition AddOctets3 (value : Z) : RawBuilder -> bool * RawBuilder := AddOctets_value 3 value.
Definition AddOctets4 (value : Z) : RawBuilder -> bool * RawBuilder := AddOctets_value 4 value.
Definition AddOctets6 (value : Z) : RawBuilder -> bool * RawBuilder := AddOctets_value 6 value.
Definition AddOctets8 (value : Z) : RawBuilder -> bool * RawBuilder := AddOctets_value 8 value.

Definition CanAddOctets (num_bytes : nat) (b : RawBuilder) : bool :=
  (length (payload_ b) + num_bytes <=? max_bytes_ b)%nat.

Definition raw_size (b : RawBuilder) : nat := length (payload_ b).

(** ** FragmentingInserter

    [fi_base] is the inherited part; [emitted] is the vector behind [iterator_];
    [curr_packet_] is null after [finalize]. *)

Record FragmentingInserter := {
  fi_base : BitInserter;
  mtu_ : nat;
  curr_packet_ : option RawBuilder;
  emitted : list RawBuilder;
}.

Definition fragmenting_inserter (mtu : nat) : FragmentingInserter :=
  {| fi_base := new_inserter []; mtu_ := mtu; curr_packet_ := Some (raw_builder mtu); emitted := [] |}.

Definition fragmenting_insert_bits (byte num_bits : Z) (s : FragmentingInserter)
    : option FragmentingInserter :=
  curr ← curr_packet_ s;
  let base := fi_base s in
  let total_bits := num_bits + num_saved_bits_ base in
  let new_value := u16 (Z.lor (saved_bits_ base) (Z.shiftl byte (num_saved_bits_ base))) in
  let '(base, curr, out, total_bits, new_value) :=
    if 8 <=? total_bits then
      let new_byte := u8 new_value in
      let base := on_byte new_byte base in
      let curr := (AddOctets1 new_byte curr).2 in
      let '(curr, out) :=
        if (mtu_ s <=? raw_size curr)%nat then (raw_builder (mtu_ s), emitted s ++ [curr])
        else (curr, emitted s) in
      (base, curr, out, total_bits - 8, Z.shiftr new_value 8)
    else (base, curr, emitted s, total_bits, new_value) in
  let mask := u8 (Z.shiftr 0xff (8 - total_bits)) in
  Some {| fi_base := set_saved total_bits (Z.land (u8 new_value) mask) base; mtu_ := mtu_ s;
          curr_packet_ := Some curr; emitted := out |}.

(** Undefined (a null dereference) when called twice. *)
Definition finalize (s : FragmentingInserter) : option FragmentingInserter :=
  curr ← curr_packet_ s;
  Some {| fi_base := fi_base s; mtu_ := mtu_ s; curr_packet_ := None;
          emitted := if (raw_size curr =? 0)%nat then emitted s else emitted s ++ [curr] |}.

(** ** The interface of an inserter *)

Class BitSink (I : Type) := {
  insert_bits : Z -> Z -> I -> option I;
  (* the complete bytes written, and the bits saved *)
  sink_bytes : I -> list Z;
  sink_num : I -> Z;
  sink_saved : I -> Z;
  sink_ok : I -> Prop;
}.

#[export] Instance bit_inserter_sink : BitSink BitInserter := {|
  insert_bits byte num_bits s := Some (bit_inserter_insert_bits byte num_bits s);
  sink_bytes := container;
  sink_num := num_saved_bits_;
  sink_saved := saved_bits_;
  sink_ok _ := True;
|}.

(** All the bytes given to the fragments. *)
Definition fragment_bytes (s : FragmentingInserter) : list Z :=
  mjoin (payload_ <$> emitted s) ++ from_option payload_ [] (curr_packet_ s).

(** The fragments emitted are full; the current one is not. *)
Definition fragmenting_ok (s : FragmentingInserter) : Prop :=
  (0 < mtu_ s)%nat /\ Forall (fun b => length (payload_ b) = mtu_ s) (emitted s) /\
  exists curr, curr_packet_ s = Some curr /\ max_bytes_ curr = mtu_ s /\
    (length (payload_ curr) < mtu_ s)%nat.

#[export] Instance fragmenting_inserter_sink : BitSink FragmentingInserter := {|
  insert_bits := fragmenting_insert_bits;
  sink_bytes := fragment_bytes;
  sink_num s := num_saved_bits_ (fi_base s);
  sink_saved s := saved_bits_ (fi_base s);
  sink_ok := fragmenting_ok;
|}.

(** What the builders rely on: the bits go, least significant first, after those
    already there. *)
Definition pack_step (byte num_bits : Z) (st : list Z * Z * Z) : list Z * Z * Z :=
  let '(bs, num, saved) := st in
  let total := num_bits + num in
  let v := u16 (Z.lor saved (Z.shiftl byte num)) in
  if 8 <=? total then (bs ++ [u8 v], total - 8, Z.land (u8 (Z.shiftr v 8)) (u8 (Z.shiftr 0xff (16 - total))))
  else (bs, total, Z.land (u8 v) (u8 (Z.shiftr 0xff (8 - total)))).

Definition sink_state {I} `{BitSink I} (s : I) : list Z * Z * Z :=
  (sink_bytes s, sink_num s, sink_saved s).

Class BitSinkLaws (I : Type) `{BitSink I} := {
  insert_bits_law : forall byte num_bits s, sink_ok s -> exists s',
    insert_bits byte num_bits s = Some s' /\ sink_ok s' /\
    sink_state s' = pack_step byte num_bits (sink_state s);
}.

#[export] Instance bit_inserter_laws : BitSinkLaws BitInserter.
Proof.
  constructor. intros b n s _. eexists. split_and!; [done|done|].
  unfold sink_state, pack_step, bit_inserter_insert_bits. cbn [sink_bytes sink_num sink_saved bit_inserter_sink].
  destruct (8 <=? n + num_saved_bits_ s) eqn:E; [|done].
  cbn. replace (8 - (n + num_saved_bits_ s - 8)) with (16 - (n + num_saved_bits_ s)) by lia. done.
Qed.

Lemma AddOctets1_fits v b : byte v -> (length (payload_ b) < max_bytes_ b)%nat ->
  AddOctets1 v b = (true, {| payload_ := payload_ b ++ [v]; max_bytes_ := max_bytes_ b |}).
Proof.
  intros Hv Hl. unfold AddOctets1, AddOctets_value, AddOctets. change (8 <? 1)%nat with false.
  cbn [octets_loop].
  assert (Hv' : 0 <= v < 256) by exact Hv.
  rewrite Z.shiftr_div_pow2, (Z.div_small v) by lia. cbn [Z.eqb].
  rewrite (proj2 (Nat.ltb_ge _ _)) by lia. cbn [length Nat.eqb].
  change 0xff with (Z.ones 8). rewrite Z.land_ones, Z.mod_small by lia. done.
Qed.

#[export] Instance fragmenting_inserter_laws : BitSinkLaws FragmentingInserter.
Proof.
  constructor. intros b n s (Hm & Fe & curr & Hc & Hmax & Hlen).
  unfold insert_bits, fragmenting_inserter_sink, fragmenting_insert_bits. rewrite Hc. cbn [mbind option_bind].
  unfold sink_state, pack_step. cbn [sink_bytes sink_num sink_saved fragmenting_inserter_sink].
  set (v := u16 _). destruct (8 <=? n + num_saved_bits_ (fi_base s)) eqn:E.
  2:{ eexists. split_and!; [done| |].
      - split_and!; [done|done|]. by exists curr.
      - unfold fragment_bytes. cbn. by rewrite Hc. }
  rewrite AddOctets1_fits by (by apply wrap_range || lia). unfold raw_size. cbn [snd payload_].
  assert (Hs : 8 - (n + num_saved_bits_ (fi_base s) - 8) = 16 - (n + num_saved_bits_ (fi_base s))) by lia.
  destruct (Nat.leb_spec (mtu_ s) (length (payload_ curr ++ [u8 v]))) as [H|H];
    rewrite length_app in H; cbn in H.
  - eexists. split_and!; [done| |].
    + split_and!; [done| |].
      * cbn. apply Forall_app_2; [done|]. constructor; [|constructor]. cbn. rewrite length_app. cbn. lia.
      * exists (raw_builder (mtu_ s)). split_and!; [done|done|]. cbn. lia.
    + unfold fragment_bytes. cbn. rewrite Hc, Hs, fmap_app, join_app. cbn. by rewrite !app_nil_r, app_assoc.
  - eexists. split_and!; [done| |].
    + split_and!; [done|done|]. eexists. split_and!; [done|done|]. cbn. rewrite length_app. cbn. lia.
    + unfold fragment_bytes. cbn. by rewrite Hc, Hs, app_assoc.
Qed.

(** ** The arithmetic of packing *)

Definition st_count (st : list Z * Z * Z) : Z := 8 * Z.of_nat (length st.1.1) + st.1.2.
Definition st_value (st : list Z * Z * Z) : Z :=
  le_val st.1.1 + 256 ^ Z.of_nat (length st.1.1) * st.2.
Definition st_ok (st : list Z * Z * Z) : Prop :=
  Forall byte st.1.1 /\ 0 <= st.1.2 < 8 /\ 0 <= st.2 < 2 ^ st.1.2.

Lemma mask_ones t : 0 <= t < 8 -> u8 (Z.shiftr 0xff (8 - t)) = Z.ones t.
Proof.
  intros Ht. assert (t = 0 \/ t = 1 \/ t = 2 \/ t = 3 \/ t = 4 \/ t = 5 \/ t = 6 \/ t = 7) as H by lia.
  by destruct H as [->|[->|[->|[->|[->|[->|[->| ->]]]]]]].
Qed.

Lemma le_val_app a b : le_val (a ++ b) = le_val a + 256 ^ Z.of_nat (length a) * le_val b.
Proof.
  induction a as [|x a IH]; [cbn; lia|]. cbn [app le_val length]. rewrite IH, Nat2Z.inj_succ.
  rewrite Z.pow_succ_r by lia. lia.
Qed.

Lemma pow_256 n : 0 <= n -> 256 ^ n = 2 ^ (8 * n).
Proof. intros H. change 256 with (2 ^ 8). by rewrite <- Z.pow_mul_r by lia. Qed.

(** The new bits above the saved ones. *)
Lemma combine_bits saved b num n : 0 <= saved < 2 ^ num -> 0 <= num < 8 -> 0 <= b < 256 -> 0 <= n ->
  let v := u16 (Z.lor saved (Z.shiftl b num)) in
  0 <= v < 2 ^ 15 /\ v mod 2 ^ (n + num) = saved + 2 ^ num * (b mod 2 ^ n).
Proof.
  intros Hs Hn Hb Hn'. cbv zeta.
  assert (E : Z.lor saved (Z.shiftl b num) = saved + b * 2 ^ num).
  { rewrite lor_add; [by rewrite Z.shiftl_mul_pow2 by lia|].
    apply Z.bits_inj'. intros i Hi. rewrite Z.land_spec, Z.bits_0.
    destruct (decide (i < num)).
    - rewrite Z.shiftl_spec_low by lia. apply andb_false_r.
    - rewrite <- (Z.mod_small saved (2 ^ num)) by lia. rewrite Z.mod_pow2_bits_high by lia. done. }
  assert (Hp : 0 < 2 ^ num <= 128).
  { split; [lia|]. change 128 with (2 ^ 7). apply Z.pow_le_mono_r; lia. }
  assert (Hv : 0 <= saved + b * 2 ^ num < 2 ^ 15) by (change (2 ^ 15) with 32768; nia).
  rewrite E, wrap_small by (unfold in_range; change (2 ^ 16) with 65536; change (2 ^ 15) with 32768 in Hv; lia).
  split; [done|]. rewrite Z.pow_add_r, (Z.mul_comm (2 ^ n)) by lia.
  rewrite Z.rem_mul_r by lia.
  rewrite Z_mod_plus_full, (Z.mod_small saved), Z.div_add, (Z.div_small saved) by lia. done.
Qed.

Lemma pack_step_value b n st : byte b -> 0 <= n <= 8 -> st_ok st ->
  st_ok (pack_step b n st) /\ st_count (pack_step b n st) = st_count st + n /\
  st_value (pack_step b n st) = st_value st + 2 ^ st_count st * (b mod 2 ^ n).
Proof.
  destruct st as [[bs num] saved]. unfold st_ok, st_count, st_value. cbn [fst snd].
  intros Hb Hn (Fb & Hnum & Hs). assert (Hb' : 0 <= b < 256) by exact Hb.
  destruct (combine_bits saved b num n Hs Hnum Hb' ltac:(lia)) as [Hv Hm].
  unfold pack_step. set (v := u16 _) in *. rewrite Z.pow_add_r, <- pow_256 by lia.
  destruct (Z.leb_spec 8 (n + num)) as [Ht|Ht]; cbn [fst snd].
  - rewrite length_app, Nat2Z.inj_add, le_val_app. cbn [length le_val].
    replace (16 - (n + num)) with (8 - (n + num - 8)) by lia.
    rewrite mask_ones, Z.land_ones, Z.shiftr_div_pow2 by lia. change (2 ^ 8) with 256.
    rewrite (wrap_small 8 (v / 256)).
    2:{ unfold in_range. change (2 ^ 8) with 256. change (2 ^ 15) with 32768 in Hv.
        split; [apply Z.div_pos; lia|apply Z.div_lt_upper_bound; lia]. }
    split_and!; try (apply Z.mod_pos_bound; lia).
    + apply Forall_app_2; [done|]. constructor; [by apply wrap_range|constructor].
    + lia.
    + lia.
    + lia.
    + replace (2 ^ (n + num)) with (256 * 2 ^ (n + num - 8)) in Hm.
      2:{ change 256 with (2 ^ 8). rewrite <- Z.pow_add_r by lia. f_equal. lia. }
      rewrite Z.rem_mul_r in Hm by lia.
      unfold wrap. change (2 ^ 8) with 256. rewrite Z.pow_add_r by lia. change (256 ^ Z.of_nat 1) with 256.
      set (P := 256 ^ Z.of_nat (length bs)) in *.
      transitivity (le_val bs + P * (v mod 256 + 256 * ((v / 256) mod 2 ^ (n + num - 8)))); [lia|].
      rewrite Hm. lia.
  - rewrite mask_ones, Z.land_ones by lia.
    assert (H8 : 2 ^ (n + num) <= 128) by (change 128 with (2 ^ 7); apply Z.pow_le_mono_r; lia).
    assert (E : u8 v mod 2 ^ (n + num) = v mod 2 ^ (n + num)).
    { unfold wrap. replace (2 ^ 8) with (2 ^ (n + num) * 2 ^ (8 - (n + num))).
      2:{ rewrite <- Z.pow_add_r by lia. f_equal. lia. }
      rewrite Z.rem_mul_r, Z.mul_comm, Z_mod_plus_full, Z.mod_mod by lia. done. }
    rewrite E. split_and!; [done|lia|lia|apply Z.mod_pos_bound; lia|apply Z.mod_pos_bound; lia|lia|].
    rewrite Hm. lia.
Qed.

(** ** EndianInserter, on any inserter *)

Section endian_inserter.
Context {I : Type} `{BitSink I}.

(** A sequence of calls of [insert_bits]. *)
Fixpoint insert_calls (calls : list (Z * Z)) (it : I) : option I :=
  match calls with
  | [] => Some it
  | (byte, num_bits) :: calls => it ← insert_bits byte num_bits it; insert_calls calls it
  end.

(** [BitInserter::insert_byte]. *)
Definition insert_byte (byte : Z) (it : I) : option I := insert_bits byte 8 it.

(** [insert(T value)] with [sizeof(T) = size], and of a custom field with the bytes
    [raw_bytes]. *)
Definition insert_custom (little_endian : bool) (raw_bytes : list Z) (it : I) : option I :=
  insert_calls
    ((fun i : nat => (rd raw_bytes (if little_endian then i else (length raw_bytes - i - 1)%nat), 8))
       <$> seq 0 (length raw_bytes)) it.
Definition insert_value (little_endian : bool) (size : nat) (value : Z) (it : I) : option I :=
  insert_custom little_endian (le_bytes size value) it.

(** [insert(T value, num_bits)]: the calls made. *)
Definition field_calls (little_endian : bool) (value : Z) (num_bits : nat) : list (Z * Z) :=
  ((fun i => (u8 (Z.shiftr value (Z.of_nat (if little_endian then i * 8 else (num_bits / 8 - i - 1) * 8)%nat)), 8))
     <$> seq 0 (num_bits / 8)) ++
  if (num_bits mod 8 =? 0)%nat then []
  else [(u8 (Z.shiftr value (Z.of_nat (num_bits / 8 * 8)%nat)), Z.of_nat (num_bits mod 8))].
Definition insert_field (little_endian : bool) (value : Z) (num_bits : nat) (it : I) : option I :=
  insert_calls (field_calls little_endian value num_bits) it.

Definition insert_vector (little_endian : bool) (size : nat) (vec : list Z) (it : I) : option I :=
  foldl (fun it v => it ≫= insert_value little_endian size v) (Some it) vec.

(** [RawBuilder::Serialize]. *)
Definition Serialize (b : RawBuilder) (it : I) : option I := insert_vector true 1 (payload_ b) it.

(** *** Laws *)

Context `{!BitSinkLaws I}.

(** The number the calls contribute, least significant bits first. *)
Fixpoint calls_value (calls : list (Z * Z)) : Z :=
  match calls with [] => 0 | (b, n) :: calls => b mod 2 ^ n + 2 ^ n * calls_value calls end.
Fixpoint calls_bits (calls : list (Z * Z)) : Z :=
  match calls with [] => 0 | (_, n) :: calls => n + calls_bits calls end.

Definition call_ok (c : Z * Z) : Prop := byte c.1 /\ 0 <= c.2 <= 8.

Lemma calls_bits_nonneg calls : Forall call_ok calls -> 0 <= calls_bits calls.
Proof. induction 1 as [|[b n] l [_ Hn] _ IH]; cbn in *; lia. Qed.

Lemma insert_calls_app a b it : insert_calls (a ++ b) it = insert_calls a it ≫= insert_calls b.
Proof.
  revert it. induction a as [|[x n] a IH]; intros it; [done|]. cbn [app insert_calls].
  destruct (insert_bits x n it); [apply IH|done].
Qed.

Lemma insert_calls_spec calls it : Forall call_ok calls -> sink_ok it -> st_ok (sink_state it) ->
  exists it', insert_calls calls it = Some it' /\ sink_ok it' /\ st_ok (sink_state it') /\
    st_count (sink_state it') = st_count (sink_state it) + calls_bits calls /\
    st_value (sink_state it') =
      st_value (sink_state it) + 2 ^ st_count (sink_state it) * calls_value calls.
Proof.
  intros F. revert it. induction F as [|[b n] calls [Hb Hn] F IH]; intros it Hok Hst.
  { exists it. cbn. split_and!; [done|done|done|lia|lia]. }
  cbn [insert_calls calls_bits calls_value fst snd] in *.
  destruct (insert_bits_law b n it Hok) as (it1 & -> & Hok1 & E). cbn [mbind option_bind].
  destruct (pack_step_value b n (sink_state it) Hb Hn Hst) as (Hst1 & Hc & Hv). rewrite <- E in *.
  destruct (IH it1 Hok1 Hst1) as (it2 & -> & Hok2 & Hst2 & Hc2 & Hv2).
  exists it2. split_and!; [done|done|done|lia|]. rewrite Hv2, Hv, Hc.
  assert (0 <= st_count (sink_state it)) by (destruct Hst as (_ & ? & _); unfold st_count; lia).
  rewrite Z.pow_add_r by lia. lia.
Qed.

(** Whole bytes come out as they are when no bits are saved. *)
Lemma le_val_inj a b : length a = length b -> Forall byte a -> Forall byte b -> le_val a = le_val b -> a = b.
Proof.
  intros Hl Ha Hb E. rewrite <- (le_bytes_val (length a) a), <- (le_bytes_val (length a) b) by done.
  by rewrite E.
Qed.

Lemma st_aligned st : st_ok st -> st_count st mod 8 = 0 -> st.1.2 = 0 /\ st.2 = 0.
Proof.
  destruct st as [[bs num] saved]. unfold st_ok, st_count. cbn. intros (_ & Hn & Hs) Hm.
  assert (num = 0) as -> by dmlia. cbn in Hs. split; [done|]. change (2 ^ 0) with 1 in Hs. lia.
Qed.

Definition aligned (it : I) : Prop := sink_num it = 0.

Lemma le_val_bound l : Forall byte l -> 0 <= le_val l < 256 ^ Z.of_nat (length l).
Proof.
  induction 1 as [|b l Hb _ IH]; [cbn; lia|]. assert (Hb' : 0 <= b < 256) by exact Hb.
  cbn [le_val length]. rewrite Nat2Z.inj_succ, Z.pow_succ_r by lia. lia.
Qed.

(** From an aligned state, calls that make whole bytes append these bytes. *)
Lemma insert_calls_bytes calls bs it : Forall call_ok calls -> sink_ok it -> st_ok (sink_state it) ->
  aligned it -> Forall byte bs -> calls_bits calls = 8 * Z.of_nat (length bs) ->
  calls_value calls = le_val bs ->
  exists it', insert_calls calls it = Some it' /\ sink_ok it' /\ st_ok (sink_state it') /\
    aligned it' /\ sink_bytes it' = sink_bytes it ++ bs.
Proof.
  intros F Hok Hst Hal Fb Hbits Hval. unfold aligned in *.
  destruct (insert_calls_spec calls it F Hok Hst) as (it' & E & Hok' & Hst' & Hc & Hv).
  exists it'. pose proof Hst as (Fb0 & _ & Hs0). pose proof Hst' as (Fb1 & _ & _).
  unfold st_count, st_value, sink_state in Hc, Hv, Fb0, Hs0, Fb1. cbn [fst snd] in *.
  rewrite Hal in *. change (2 ^ 0) with 1 in Hs0. assert (Hz : sink_saved it = 0) by lia.
  destruct (st_aligned _ Hst') as [Hn1 Hs1].
  { unfold st_count, sink_state. cbn [fst snd]. rewrite Hc, Hbits. dmlia. }
  unfold sink_state in Hn1, Hs1. cbn [fst snd] in Hn1, Hs1. rewrite Hz, Hs1, Hn1, Hbits in *.
  split_and!; [done|done|done|done|]. apply le_val_inj.
  - rewrite length_app. lia.
  - done.
  - by apply Forall_app_2.
  - rewrite le_val_app, pow_256 by lia. rewrite Hval in Hv. rewrite Z.add_0_r in Hv. lia.
Qed.

Lemma bytes_calls l : Forall byte l -> Forall call_ok ((fun b => (b, 8)) <$> l) /\
  calls_bits ((fun b => (b, 8)) <$> l) = 8 * Z.of_nat (length l) /\
  calls_value ((fun b => (b, 8)) <$> l) = le_val l.
Proof.
  induction 1 as [|b l Hb _ (IH1 & IH2 & IH3)]; [split_and!; [constructor|done|done]|].
  cbn [fmap list_fmap calls_bits calls_value le_val length]. split_and!.
  - constructor; [split; [done|cbn; lia]|done].
  - change (list_fmap _ _ ?f l) with (f <$> l). lia.
  - change (list_fmap _ _ ?f l) with (f <$> l). rewrite IH3. change (2 ^ 8) with 256.
    rewrite Z.mod_small by exact Hb. done.
Qed.

Lemma custom_calls (e : bool) (raw : list Z) :
  ((fun i : nat => (rd raw (if e then i else (length raw - i - 1)%nat), 8)) <$> seq 0 (length raw)) =
  ((fun b : Z => (b, 8)) <$> endian e raw).
Proof.
  apply list_eq. intros i. rewrite !list_lookup_fmap.
  destruct (decide (i < length raw)%nat) as [Hi|Hi].
  - rewrite lookup_seq_lt by done. cbn [fmap option_fmap option_map Nat.add].
    assert (forall j, (j < length raw)%nat -> raw !! j = Some (rd raw j)) as Hrd.
    { intros j Hj. destruct (lookup_lt_is_Some_2 raw j Hj) as [x Hx]. rewrite Hx. f_equal.
      unfold rd. symmetry. by apply nth_lookup_Some. }
    destruct e; cbn [endian].
    + by rewrite Hrd.
    + rewrite rev_alt. change (rev_append raw []) with (reverse raw). rewrite reverse_lookup by done.
      replace (length raw - S i)%nat with (length raw - i - 1)%nat by lia. by rewrite Hrd by lia.
  - rewrite !lookup_ge_None_2; [done| |rewrite length_seq; lia].
    destruct e; cbn [endian]; [lia|]. rewrite length_rev. lia.
Qed.

Lemma endian_bytes e l : Forall byte l -> Forall byte (endian e l).
Proof. destruct e; [done|]. apply Forall_rev. Qed.
Lemma length_endian e l : length (endian e l) = length l.
Proof. destruct e; [done|apply length_rev]. Qed.

(** Inserting the bytes of a field or of a value, in the order of the endianness. *)
Lemma insert_custom_bytes e raw it : Forall byte raw -> sink_ok it -> st_ok (sink_state it) -> aligned it ->
  exists it', insert_custom e raw it = Some it' /\ sink_ok it' /\ st_ok (sink_state it') /\
    aligned it' /\ sink_bytes it' = sink_bytes it ++ endian e raw.
Proof.
  intros F Hok Hst Hal. unfold insert_custom. rewrite custom_calls.
  destruct (bytes_calls (endian e raw) (endian_bytes e raw F)) as (H1 & H2 & H3).
  apply insert_calls_bytes; try done. by apply endian_bytes.
Qed.

Lemma Serialize_bytes b it : Forall byte (payload_ b) -> sink_ok it -> st_ok (sink_state it) -> aligned it ->
  exists it', Serialize b it = Some it' /\ sink_ok it' /\ st_ok (sink_state it') /\
    aligned it' /\ sink_bytes it' = sink_bytes it ++ payload_ b.
Proof.
  unfold Serialize, insert_vector. intros F. revert it.
  induction F as [|x l Hx F IH]; intros it Hok Hst Hal; cbn [foldl].
  { exists it. by rewrite app_nil_r. }
  destruct (insert_custom_bytes true [x] it) as (it1 & E1 & Hok1 & Hst1 & Hal1 & B1); [by constructor|done..|].
  cbn [mbind option_bind].
  assert (insert_value true 1 x it = Some it1) as ->.
  { unfold insert_value. cbn [le_bytes]. rewrite Z.mod_small by exact Hx. exact E1. }
  destruct (IH it1 Hok1 Hst1 Hal1) as (it2 & E2 & Hok2 & Hst2 & Hal2 & B2).
  exists it2. split_and!; [done..|]. rewrite B2, B1. cbn. by rewrite <- app_assoc.
Qed.

End endian_inserter.

(** ** Bit fields *)

Lemma calls_value_app a b : Forall call_ok a ->
  calls_value (a ++ b) = calls_value a + 2 ^ calls_bits a * calls_value b.
Proof.
  induction 1 as [|[x n] a [_ Hn] F IH]; cbn [app calls_value calls_bits]; [change (2 ^ 0) with 1; lia|].
  cbn in Hn. rewrite IH, Z.pow_add_r by (lia || by apply calls_bits_nonneg). lia.
Qed.

Lemma calls_bits_app a b : calls_bits (a ++ b) = calls_bits a + calls_bits b.
Proof. induction a as [|[x n] a IH]; cbn [app calls_bits]; [lia|]. rewrite IH. lia. Qed.

(** The whole bytes of a field. *)
Lemma field_bytes_calls v k q : 0 <= v ->
  let calls := (fun i => (u8 (Z.shiftr v (Z.of_nat (i * 8))), 8)) <$> seq k q in
  Forall call_ok calls /\ calls_bits calls = 8 * Z.of_nat q /\
  calls_value calls = (v / 2 ^ (8 * Z.of_nat k)) mod 2 ^ (8 * Z.of_nat q).
Proof.
  intros Hv. cbv zeta. revert k. induction q as [|q IH]; intros k.
  { split_and!; [constructor|done|]. change (2 ^ (8 * Z.of_nat 0)) with 1. by rewrite Z.mod_1_r. }
  cbn [seq fmap list_fmap]. change (list_fmap _ _ ?f ?l) with (f <$> l).
  destruct (IH (S k)) as (F & Hb & Hval). cbn [calls_bits calls_value]. split_and!.
  - constructor; [|done]. split; [by apply wrap_range|cbn; lia].
  - lia.
  - rewrite Hval. unfold wrap. rewrite Z.mod_mod, Z.shiftr_div_pow2 by lia.
    replace (Z.of_nat (k * 8)) with (8 * Z.of_nat k) by lia.
    replace (8 * Z.of_nat (S k)) with (8 * Z.of_nat k + 8) by lia.
    replace (8 * Z.of_nat (S q)) with (8 + 8 * Z.of_nat q) by lia.
    rewrite !Z.pow_add_r, <- Z.div_div by lia. by rewrite <- Z.rem_mul_r by lia.
Qed.

Lemma field_calls_spec v nb : 0 <= v ->
  Forall call_ok (field_calls true v nb) /\ calls_bits (field_calls true v nb) = Z.of_nat nb /\
  calls_value (field_calls true v nb) = v mod 2 ^ Z.of_nat nb.
Proof.
  intros Hv. unfold field_calls.
  destruct (field_bytes_calls v 0 (nb / 8) Hv) as (F & Hb & Hval). cbv zeta in *.
  rewrite calls_value_app, calls_bits_app, Hb, Hval by done.
  change (2 ^ (8 * Z.of_nat 0)) with 1. rewrite Z.div_1_r.
  pose proof (Nat.div_mod_eq nb 8) as E. pose proof (Nat.mod_upper_bound nb 8 ltac:(lia)) as Hm.
  destruct (Nat.eqb_spec (nb mod 8) 0) as [H0|H0]; cbn [calls_bits calls_value].
  - rewrite app_nil_r. split_and!; [done|lia|]. rewrite Z.mul_0_r, Z.add_0_r. f_equal. f_equal. lia.
  - split_and!; [|lia|].
    + apply Forall_app_2; [done|]. constructor; [|constructor]. split; [by apply wrap_range|cbn; lia].
    + rewrite Z.mul_0_r, Z.add_0_r, Z.shiftr_div_pow2 by lia.
      replace (Z.of_nat (nb / 8 * 8)) with (8 * Z.of_nat (nb / 8)) by lia.
      set (Q := 8 * Z.of_nat (nb / 8)). set (R := Z.of_nat (nb mod 8)).
      assert (E2 : u8 (v / 2 ^ Q) mod 2 ^ R = (v / 2 ^ Q) mod 2 ^ R).
      { unfold wrap. replace 8 with (R + (8 - R)) by lia. rewrite Z.pow_add_r by lia.
        rewrite Z.rem_mul_r, Z.mul_comm, Z_mod_plus_full, Z.mod_mod by lia. done. }
      rewrite E2, <- Z.rem_mul_r, <- Z.pow_add_r by lia. f_equal. f_equal. lia.
Qed.

(** The number made of the fields, the first in the least significant bits. *)
Fixpoint pack (fs : list (Z * nat)) : Z :=
  match fs with [] => 0 | (v, nb) :: fs => v mod 2 ^ Z.of_nat nb + 2 ^ Z.of_nat nb * pack fs end.
Definition pack_bits (fs : list (Z * nat)) : nat := sum_list_with snd fs.

Section fields.
Context {I : Type} `{BitSink I, !BitSinkLaws I}.

Fixpoint insert_fields (fs : list (Z * nat)) (it : I) : option I :=
  match fs with
  | [] => Some it
  | (v, nb) :: fs => it ← insert_field true v nb it; insert_fields fs it
  end.

Lemma insert_fields_calls fs it :
  insert_fields fs it = insert_calls (fs ≫= fun '(v, nb) => field_calls true v nb) it.
Proof.
  revert it. induction fs as [|[v nb] fs IH]; intros it; [done|]. cbn [insert_fields].
  rewrite bind_cons, insert_calls_app. unfold insert_field.
  destruct (insert_calls (field_calls true v nb) it); [apply IH|done].
Qed.

Lemma fields_calls_spec fs : Forall (fun f => 0 <= f.1) fs ->
  let calls := fs ≫= fun '(v, nb) => field_calls true v nb in
  Forall call_ok calls /\ calls_bits calls = Z.of_nat (pack_bits fs) /\ calls_value calls = pack fs.
Proof.
  cbv zeta. induction 1 as [|[v nb] fs Hv _ (F & Hb & Hval)]; [by split_and!|].
  rewrite bind_cons. destruct (field_calls_spec v nb Hv) as (F1 & Hb1 & Hval1). split_and!.
  - by apply Forall_app_2.
  - rewrite calls_bits_app, Hb1, Hb. unfold pack_bits. cbn [sum_list_with snd]. lia.
  - rewrite calls_value_app, Hb1, Hval1, Hval by done. done.
Qed.

Lemma pack_bound fs : 0 <= pack fs < 2 ^ Z.of_nat (pack_bits fs).
Proof.
  induction fs as [|[v nb] fs IH]; [cbn; lia|]. cbn [pack].
  change (pack_bits ((v, nb) :: fs)) with (nb + pack_bits fs)%nat.
  rewrite Nat2Z.inj_add, Z.pow_add_r by lia.
  pose proof (Z.mod_pos_bound v (2 ^ Z.of_nat nb) ltac:(lia)). nia.
Qed.

(** C24: whatever the inserter, inserting bit fields whose widths sum to whole bytes
    appends the bytes of the packed number, the first field in the least significant
    bits, whether or not a field crosses a byte boundary; no bits stay saved, so the
    assertion of the destructor holds. *)
Theorem bit_fields_packed (fs : list (Z * nat)) (it : I) :
  Forall (fun f => 0 <= f.1) fs -> (pack_bits fs mod 8)%nat = 0%nat ->
  sink_ok it -> st_ok (sink_state it) -> sink_num it = 0 ->
  exists it', insert_fields fs it = Some it' /\ sink_ok it' /\ sink_num it' = 0 /\ sink_saved it' = 0 /\
    sink_bytes it' = sink_bytes it ++ le_bytes (pack_bits fs / 8) (pack fs).
Proof.
  intros Fv Hm Hok Hst Hal. rewrite insert_fields_calls.
  destruct (fields_calls_spec fs Fv) as (F & Hb & Hval).
  assert (E : (pack_bits fs = 8 * (pack_bits fs / 8))%nat) by (rewrite (Nat.div_mod_eq (pack_bits fs) 8) at 1; lia).
  destruct (insert_calls_bytes _ (le_bytes (pack_bits fs / 8) (pack fs)) it F Hok Hst Hal)
    as (it' & Ei & Hok' & Hst' & Hal' & Hby).
  - apply le_bytes_bytes.
  - rewrite Hb, length_le_bytes. lia.
  - rewrite Hval, le_val_bytes; [done|]. rewrite pow_256 by lia.
    replace (8 * Z.of_nat (pack_bits fs / 8)) with (Z.of_nat (pack_bits fs)) by lia. apply pack_bound.
  - exists it'. split_and!; [done|done|done| |done].
    destruct Hst' as (_ & _ & Hs). unfold sink_state in Hs. cbn [fst snd] in Hs.
    unfold aligned in Hal'. rewrite Hal' in Hs. change (2 ^ 0) with 1 in Hs. lia.
Qed.

(** A value written by an [EndianInserter], in either byte order and through any
    inserter, is read back by [Iterator::extract] of the same byte order, from any
    split of the bytes into the fragments of a packet. *)
Theorem insert_extract_roundtrip (e : bool) (size : nat) (v : Z) (it : I) :
  0 <= v < 256 ^ Z.of_nat size -> sink_ok it -> st_ok (sink_state it) -> sink_num it = 0 ->
  exists it', insert_value e size v it = Some it' /\
    forall l rest, Forall view_ok l -> Z.of_nat (sizes l) < 2 ^ 64 -> flat l = sink_bytes it' ++ rest ->
    exists i, extract e size size (make_iterator l (length (sink_bytes it))) = Some (v, i) /\
      iterator_at l (length (sink_bytes it')) i.
Proof.
  intros Hv Hok Hst Hal.
  destruct (insert_custom_bytes e (le_bytes size v) it) as (it' & E & _ & _ & _ & B);
    [apply le_bytes_bytes|done|done|done|].
  exists it'. split; [done|]. intros l rest F Hs Hfl. rewrite B, <- app_assoc in Hfl.
  destruct (extract_loop_spec e l _ _ rest (make_iterator l (length (sink_bytes it))) size F Hs Hfl)
    as (i & Ei & Hi); [done|by rewrite length_endian, length_le_bytes|].
  exists i. rewrite <- B in Hi. split; [|done]. unfold extract.
  rewrite length_endian, length_le_bytes, Nat.sub_diag in Ei. rewrite Ei. cbn [mbind option_bind].
  rewrite app_nil_r. destruct e; cbn [endian]; [|rewrite rev_involutive]; by rewrite le_val_bytes.
Qed.
End fields.

(** The header of an ACL packet: a 12-bit handle, two 2-bit flags, a 16-bit length. *)
Definition acl_header : list (Z * nat) := [(0xabc, 12%nat); (2, 2%nat); (0, 2%nat); (0x1234, 16%nat)].

Lemma bit_fields_packed_witness :
  exists it', insert_fields acl_header (new_inserter []) = Some it' /\
    container it' = [0xbc; 0x2a; 0x34; 0x12].
Proof.
  destruct (bit_fields_packed acl_header (new_inserter [])) as (it' & H1 & _ & _ & _ & H2).
  - by_decide.
  - reflexivity.
  - exact I.
  - by_decide.
  - reflexivity.
  - exists it'. split; [exact H1|]. exact H2.
Defined.

Lemma insert_extract_roundtrip_witness :
  exists it', insert_value false 2 0x1234 (new_inserter [9]) = Some it' /\
    exists i, extract false 2 2 (make_iterator [make_view [9; 0x12] 0 2; make_view [0x34; 7] 0 2] 1) =
      Some (0x1234, i).
Proof.
  destruct (insert_extract_roundtrip false 2 0x1234 (new_inserter [9])) as (it' & H1 & H2).
  - split; [discriminate|reflexivity].
  - exact I.
  - by_decide.
  - reflexivity.
  - exists it'. split; [exact H1|].
    destruct (H2 [make_view [9; 0x12] 0 2; make_view [0x34; 7] 0 2] [7]) as (i & Hi & _).
    + by_decide.
    + reflexivity.
    + vm_compute in H1. injection H1 as <-. reflexivity.
    + exists i. exact Hi.
Defined.
