(* ===== verification/AclAssembler.v ===== *)
(** * ACL fragmentation and recombination

    Model of [AclFragmenter] (acl_fragmenter.cc) and of [assembler] (assembler.h),
    under [src/system/gd/hci/acl_manager].  The first splits the packet of a
    builder into fragments no longer than the size of the buffers of the controller,
    the second recombines the fragments received into L2CAP PDUs.  A failed
    assertion and undefined behaviour are [None]. *)

From stdpp Require Import base list option.
From Stdlib Require Import ZArith Lia.
From S2P Require Import Prelude PacketView BitInserter.

Open Scope Z_scope.

(** ** AclFragmenter

    A builder is known by what its virtual methods do: the calls of [insert_bits]
    that [Serialize] makes, its [size], and its flushable flag. *)

Record BasePacketBuilder := {
  serialize_calls : list (Z * Z);
  builder_size : nat;
  is_flushable_ : bool;
}.

Definition GetFragments (mtu : nat) (packet : BasePacketBuilder) : option (list RawBuilder) :=
  it ← insert_calls (serialize_calls packet) (fragmenting_inserter mtu);
  it ← finalize it;
  Some (emitted it).

(** ** assembler *)

Definition kMaxQueuedPacketsPerConnection : nat := 10.
Definition kL2capBasicFrameHeaderSize : nat := 4.

Inductive PacketBoundaryFlag :=
| FIRST_NON_AUTOMATICALLY_FLUSHABLE
| CONTINUING_FRAGMENT
| FIRST_AUTOMATICALLY_FLUSHABLE
| OTHER_BOUNDARY.                     (* the remaining value of the two-bit field *)

Inductive BroadcastFlag := POINT_TO_POINT | ACTIVE_PERIPHERAL_BROADCAST | OTHER_BROADCAST.

Record AclView := {
  payload : PacketView;
  broadcast_flag : BroadcastFlag;
  packet_boundary_flag : PacketBoundaryFlag;
}.

(** [PacketViewForRecombination] adds [received_first_] to a packet view. *)
Record assembler := {
  recombination_stage_ : PacketView;
  received_first_ : bool;
  enqueue_registered_ : bool;
  incoming_queue_ : list PacketView;
}.

Definition initial : assembler := {|
  recombination_stage_ := packet_of_vector []; received_first_ := false;
  enqueue_registered_ := false; incoming_queue_ := [] |}.

Definition set_stage (p : PacketView) (first : bool) (s : assembler) : assembler :=
  {| recombination_stage_ := p; received_first_ := first;
     enqueue_registered_ := enqueue_registered_ s; incoming_queue_ := incoming_queue_ s |}.

(** [recombination_stage_ = PacketViewForRecombination()]. *)
Definition reset_stage (s : assembler) : assembler := set_stage (packet_of_vector []) false s.

Definition GetL2capPduSize (pdu : PacketView) : option nat :=
  if (length_ pdu <? 2)%nat then Some kL2capBasicFrameHeaderSize
  else
    b1 ← at_ pdu 1;
    b0 ← at_ pdu 0;
    Some (Z.to_nat (Z.shiftl b1 8 + b0)).

(** [on_data_ready]: the packet given to the queue; [front] of an empty queue is
    undefined. *)
Definition on_data_ready (s : assembler) : option (PacketView * assembler) :=
  match incoming_queue_ s with
  | [] => None
  | packet :: rest =>
      Some (packet, {| recombination_stage_ := recombination_stage_ s;
                       received_first_ := received_first_ s;
                       enqueue_registered_ :=
                         if (length rest =? 0)%nat then false else enqueue_registered_ s;
                       incoming_queue_ := rest |})
  end.

(** The part after the stage has been updated. *)
Definition check_size (s : assembler) : option assembler :=
  pdu_size ← GetL2capPduSize (recombination_stage_ s);
  let expected_size := (pdu_size + kL2capBasicFrameHeaderSize)%nat in
  let size := length_ (recombination_stage_ s) in
  if (expected_size <? size)%nat then Some (reset_stage s)
  else if (size <? expected_size)%nat then Some s
  else if (kMaxQueuedPacketsPerConnection <? length (incoming_queue_ s))%nat then Some (reset_stage s)
  else
    Some (reset_stage {| recombination_stage_ := recombination_stage_ s;
                         received_first_ := received_first_ s; enqueue_registered_ := true;
                         incoming_queue_ := incoming_queue_ s ++ [recombination_stage_ s] |}).

Definition on_incoming_packet (packet : AclView) (s : assembler) : option assembler :=
  match broadcast_flag packet with
  | ACTIVE_PERIPHERAL_BROADCAST => Some s
  | _ =>
      match packet_boundary_flag packet with
      | FIRST_NON_AUTOMATICALLY_FLUSHABLE => Some s
      | CONTINUING_FRAGMENT =>
          if received_first_ s then
            p ← Append (recombination_stage_ s) (payload packet);
            check_size (set_stage p true s)
          else Some s
      | FIRST_AUTOMATICALLY_FLUSHABLE => check_size (set_stage (payload packet) true s)
      | OTHER_BOUNDARY => check_size s
      end
  end.

(** ** Fragments *)

(** A builder whose [Serialize] makes whole bytes, as many as its [size]. *)
Definition builder_ok (p : BasePacketBuilder) : Prop :=
  Forall call_ok (serialize_calls p) /\ calls_bits (serialize_calls p) = 8 * Z.of_nat (builder_size p).

Definition builder_bytes (p : BasePacketBuilder) : list Z :=
  le_bytes (builder_size p) (calls_value (serialize_calls p)).

Lemma calls_value_bound calls : Forall call_ok calls -> 0 <= calls_value calls < 2 ^ calls_bits calls.
Proof.
  induction 1 as [|[b n] calls [_ Hn] F IH]; cbn [calls_value calls_bits]; [change (2 ^ 0) with 1; lia|].
  cbn in Hn. pose proof (calls_bits_nonneg _ F). rewrite Z.pow_add_r by lia.
  pose proof (Z.mod_pos_bound b (2 ^ n) ltac:(lia)). nia.
Qed.

Lemma builder_value p : builder_ok p -> le_val (builder_bytes p) = calls_value (serialize_calls p).
Proof.
  intros [F Hb]. apply le_val_bytes. rewrite pow_256, <- Hb by lia. by apply calls_value_bound.
Qed.

Definition frag_sizes_ok (mtu : nat) (fs : list RawBuilder) : Prop :=
  Forall (fun f => (0 < length (payload_ f) <= mtu)%nat) fs /\
  forall fs' f, fs = fs' ++ [f] -> Forall (fun g => length (payload_ g) = mtu) fs'.

Lemma GetFragments_spec mtu p : (0 < mtu)%nat -> builder_ok p ->
  exists fs, GetFragments mtu p = Some fs /\ mjoin (payload_ <$> fs) = builder_bytes p /\
    frag_sizes_ok mtu fs.
Proof.
  intros Hm [F Hb]. unfold GetFragments.
  assert (Hok : sink_ok (fragmenting_inserter mtu)).
  { split_and!; [done|constructor|]. exists (raw_builder mtu). split_and!; [done..|cbn; lia]. }
  destruct (insert_calls_bytes (serialize_calls p) (builder_bytes p) (fragmenting_inserter mtu))
    as (it & E & Hok' & Hst & Hal & Hby); [done|done| |done|apply le_bytes_bytes| | |].
  - split_and!; cbn; [constructor|lia|lia|lia|lia].
  - unfold builder_bytes. by rewrite length_le_bytes.
  - by rewrite builder_value.
  - rewrite E. cbn [mbind option_bind]. destruct Hok' as (Hm' & Fe & curr & Hc & _ & Hl).
    assert (Emtu : mtu_ it = mtu).
    { revert E. clear. generalize (serialize_calls p). intros calls.
      assert (Hgen : forall s, insert_calls calls s = Some it -> mtu_ it = mtu_ s).
      { induction calls as [|[b n] calls IH]; intros s; cbn [insert_calls]; [by intros [= ->]|].
        cbn [insert_bits fragmenting_inserter_sink]. unfold fragmenting_insert_bits.
        destruct (curr_packet_ s) as [c|]; [|done]. cbn [mbind option_bind].
        destruct (8 <=? _); [destruct (_ <=? _)%nat|]; cbn [mbind option_bind]; intros H%IH; exact H. }
      intros H. by rewrite (Hgen _ H). }
    unfold finalize. rewrite Hc. cbn [mbind option_bind emitted]. rewrite Emtu in *.
    cbn [sink_bytes fragmenting_inserter_sink] in Hby. unfold fragment_bytes in Hby. rewrite Hc in Hby.
    cbn in Hby. unfold raw_size. eexists. split; [done|].
    assert (Fe' : Forall (fun f => (0 < length (payload_ f) <= mtu)%nat) (emitted it)).
    { eapply Forall_impl; [|exact Fe]. cbn. intros f Hf. lia. }
    destruct (Nat.eqb_spec (length (payload_ curr)) 0) as [H0|H0].
    + apply nil_length_inv in H0. rewrite H0, app_nil_r in Hby. split; [done|]. split; [done|].
      intros fs' f Ef. rewrite Ef in Fe. by apply Forall_app in Fe as [? _].
    + split; [by rewrite fmap_app, join_app; cbn; rewrite app_nil_r|]. split.
      * apply Forall_app_2; [done|]. constructor; [lia|constructor].
      * intros fs' f Ef. apply app_inj_tail in Ef as [<- _]. done.
Qed.

(** ** The invariant of the assembler *)

(** A payload that has a fragment: every payload that is not empty. *)
Definition payload_ok (p : PacketView) : Prop := packet_ok p /\ fragments_ p <> [].

Definition assembler_ok (s : assembler) : Prop :=
  payload_ok (recombination_stage_ s) /\ Forall packet_ok (incoming_queue_ s) /\
  (length (incoming_queue_ s) <= kMaxQueuedPacketsPerConnection + 1)%nat /\
  (enqueue_registered_ s = true <-> incoming_queue_ s <> []).

Lemma empty_payload_ok : payload_ok (packet_of_vector []).
Proof. split; [|done]. split; [|done]. constructor; [apply make_view_ok; cbn; lia|constructor]. Qed.

Lemma nonempty_payload_ok p : packet_ok p -> packet_bytes p <> [] -> payload_ok p.
Proof. intros Hp Hn. split; [done|]. intros E. apply Hn. unfold packet_bytes. by rewrite E. Qed.

Lemma at_bytes p i : packet_ok p -> at_ p i = packet_bytes p !! i.
Proof.
  intros Hp. unfold at_. destruct (Nat.ltb_spec i (length_ p)) as [H|H].
  - by apply get_loop_flat, Hp.
  - symmetry. apply lookup_ge_None_2. rewrite length_packet_bytes by done. lia.
Qed.

(** The size in the header of the bytes [l]. *)
Definition l2cap_size (l : list Z) : nat :=
  match l with b0 :: b1 :: _ => Z.to_nat (Z.shiftl b1 8 + b0) | _ => kL2capBasicFrameHeaderSize end.

Lemma GetL2capPduSize_spec p : packet_ok p -> GetL2capPduSize p = Some (l2cap_size (packet_bytes p)).
Proof.
  intros Hp. unfold GetL2capPduSize. rewrite !at_bytes, <- length_packet_bytes by done.
  by destruct (packet_bytes p) as [|b0 [|b1 l]].
Qed.

Lemma check_size_ok s : assembler_ok s -> exists s', check_size s = Some s' /\ assembler_ok s'.
Proof.
  intros (Hst & Fq & Hq & He). unfold check_size. rewrite GetL2capPduSize_spec by apply Hst.
  cbn [mbind option_bind].
  assert (Hr : assembler_ok (reset_stage s)) by (split; [apply empty_payload_ok|done]).
  destruct (_ <? _)%nat; [by eexists|]. destruct (_ <? _)%nat; [by eexists|].
  destruct (Nat.ltb_spec kMaxQueuedPacketsPerConnection (length (incoming_queue_ s))) as [H|H]; [by eexists|].
  eexists. split; [done|]. split; [apply empty_payload_ok|].
  cbn [reset_stage set_stage incoming_queue_ enqueue_registered_]. split_and!; [| |split; [|done]].
  - apply Forall_app_2; [done|]. constructor; [apply Hst|constructor].
  - rewrite length_app. cbn. unfold kMaxQueuedPacketsPerConnection in *. lia.
  - intros _. by destruct (incoming_queue_ s).
Qed.

Lemma set_stage_ok p b s : payload_ok p -> assembler_ok s -> assembler_ok (set_stage p b s).
Proof. intros Hp [_ H]. by split. Qed.

Lemma Append_payload_ok p q : payload_ok p -> packet_ok q ->
  exists r, Append p q = Some r /\ payload_ok r /\ packet_bytes r = packet_bytes p ++ packet_bytes q.
Proof.
  intros [Hp Hf] Hq. pose proof (Append_spec p q Hp Hq) as H. unfold Append in *.
  destruct (insertion_loop _ _ _ _) as [i|]; [|done]. cbn [mbind option_bind] in *.
  destruct (_ =? _)%nat; [done|]. destruct H as (_ & Hr & Hb). eexists. split; [done|].
  split; [|done]. split; [done|]. cbn. clear -Hf.
  revert i Hf. generalize (fragments_ p). induction (fragments_ q) as [|v l IH]; intros fs i Hf; cbn; [done|].
  apply IH. by destruct fs.
Qed.

Lemma on_incoming_ok packet s : assembler_ok s -> payload_ok (payload packet) ->
  exists s', on_incoming_packet packet s = Some s' /\ assembler_ok s'.
Proof.
  intros Hs Hp. unfold on_incoming_packet.
  destruct (broadcast_flag packet); try by eexists.
  all: destruct (packet_boundary_flag packet); [by eexists| | |by apply check_size_ok].
  all: try (by apply check_size_ok, set_stage_ok).
  all: destruct (received_first_ s); [|by eexists].
  all: destruct (Append_payload_ok (recombination_stage_ s) (payload packet)) as (r & -> & Hr & _);
    [apply Hs|apply Hp|]; cbn [mbind option_bind]; by apply check_size_ok, set_stage_ok.
Qed.

Lemma on_data_ready_ok s : assembler_ok s -> incoming_queue_ s <> [] ->
  exists p s', on_data_ready s = Some (p, s') /\ packet_ok p /\ assembler_ok s' /\
    incoming_queue_ s = p :: incoming_queue_ s'.
Proof.
  intros (Hst & Fq & Hq & He) Hn. unfold on_data_ready.
  destruct (incoming_queue_ s) as [|p rest] eqn:Eq; [done|]. apply Forall_cons_1 in Fq as [Hp Fr].
  eexists _, _. split; [done|]. split; [done|]. split; [|done]. split; [done|]. cbn [incoming_queue_ enqueue_registered_].
  split_and!; [done|cbn in *; lia|]. destruct rest; [done|]. cbn. split; [done|]. intros _. by apply He.
Qed.

(** ** Recombination *)

Fixpoint deliver (l : list AclView) (s : assembler) : option assembler :=
  match l with [] => Some s | v :: l => s ← on_incoming_packet v s; deliver l s end.

Definition first_fragment (p : PacketView) : AclView :=
  {| payload := p; broadcast_flag := POINT_TO_POINT; packet_boundary_flag := FIRST_AUTOMATICALLY_FLUSHABLE |}.
Definition next_fragment (p : PacketView) : AclView :=
  {| payload := p; broadcast_flag := POINT_TO_POINT; packet_boundary_flag := CONTINUING_FRAGMENT |}.

(** The ACL packets that carry the fragments of one PDU. *)
Definition acl_packets (views : list PacketView) : list AclView :=
  match views with [] => [] | v :: vs => first_fragment v :: (next_fragment <$> vs) end.

(** An L2CAP basic frame: the header gives the length. *)
Definition is_frame (l : list Z) : Prop := length l = (l2cap_size l + kL2capBasicFrameHeaderSize)%nat.

#[export] Instance is_frame_dec l : Decision (is_frame l).
Proof. unfold is_frame. apply _. Defined.

(** A proper prefix of a frame waits for more. *)
Lemma prefix_waits pre suf : is_frame (pre ++ suf) -> suf <> [] ->
  (length pre < l2cap_size pre + kL2capBasicFrameHeaderSize)%nat.
Proof.
  unfold is_frame, kL2capBasicFrameHeaderSize. intros H Hs.
  assert (0 < length suf)%nat by (destruct suf; [done|cbn; lia]). rewrite length_app in H.
  destruct pre as [|b0 [|b1 pre]]; cbn in *; lia.
Qed.

(** The state after a frame [F] has been queued. *)
Definition queued (F : list Z) (s s' : assembler) : Prop :=
  assembler_ok s' /\ received_first_ s' = false /\ enqueue_registered_ s' = true /\
  packet_bytes <$> incoming_queue_ s' = (packet_bytes <$> incoming_queue_ s) ++ [F].

Lemma check_size_wait s suf : packet_ok (recombination_stage_ s) ->
  is_frame (packet_bytes (recombination_stage_ s) ++ suf) -> suf <> [] -> check_size s = Some s.
Proof.
  intros Hp HF Hs. unfold check_size. rewrite GetL2capPduSize_spec by done. cbn [mbind option_bind].
  pose proof (prefix_waits _ _ HF Hs) as H. rewrite <- (length_packet_bytes _ Hp).
  rewrite (proj2 (Nat.ltb_ge _ _)) by lia. by rewrite (proj2 (Nat.ltb_lt _ _)) by lia.
Qed.

Lemma check_size_queue s F : assembler_ok s -> is_frame F ->
  packet_bytes (recombination_stage_ s) = F ->
  (length (incoming_queue_ s) <= kMaxQueuedPacketsPerConnection)%nat ->
  exists s', check_size s = Some s' /\ queued F s s'.
Proof.
  intros Hok HF HB Hq. destruct (check_size_ok s Hok) as (s' & E & Hok'). exists s'. split; [done|].
  split; [done|]. unfold check_size in E. rewrite GetL2capPduSize_spec in E by apply Hok.
  cbn [mbind option_bind] in E. rewrite <- (length_packet_bytes (recombination_stage_ s)) in E by apply Hok.
  rewrite HB in E. unfold is_frame in HF. rewrite <- HF, Nat.ltb_irrefl in E.
  rewrite (proj2 (Nat.ltb_ge _ _)) in E by done. injection E as <-. cbn.
  split_and!; [done|done|]. change (list_fmap _ _ ?f ?l) with (f <$> l).
  rewrite fmap_app. cbn. by rewrite HB.
Qed.

Lemma deliver_next F vs : is_frame F -> forall s, assembler_ok s ->
  received_first_ s = true -> vs <> [] ->
  Forall (fun v => packet_ok v /\ packet_bytes v <> []) vs ->
  packet_bytes (recombination_stage_ s) ++ mjoin (packet_bytes <$> vs) = F ->
  (length (incoming_queue_ s) <= kMaxQueuedPacketsPerConnection)%nat ->
  exists s', deliver (next_fragment <$> vs) s = Some s' /\ queued F s s'.
Proof.
  intros HF. induction vs as [|v vs IH]; intros s Hok Hr Hne Fv HB Hq; [done|].
  apply Forall_cons_1 in Fv as [[Hv Hvn] Fv]. cbn [fmap list_fmap deliver].
  change (list_fmap _ _ ?f ?l) with (f <$> l).
  unfold on_incoming_packet. cbn [broadcast_flag packet_boundary_flag payload next_fragment]. rewrite Hr.
  destruct (Append_payload_ok (recombination_stage_ s) v) as (r & -> & Hrok & Hrb); [apply Hok|done|].
  cbn [mbind option_bind].
  assert (HB' : packet_bytes r ++ mjoin (packet_bytes <$> vs) = F) by (by rewrite Hrb, <- app_assoc).
  destruct (decide (vs = [])) as [->|Hvs].
  - destruct (check_size_queue (set_stage r true s) F) as (s' & -> & Hs'); [by apply set_stage_ok|done| |done|].
    + cbn. by rewrite <- HB', app_nil_r.
    + by exists s'.
  - rewrite (check_size_wait _ (mjoin (packet_bytes <$> vs))); [|apply Hrok|by cbn; rewrite HB'|].
    + cbn [mbind option_bind].
      destruct (IH (set_stage r true s)) as (s' & E & Hs'); try done; [by apply set_stage_ok|].
      by exists s'.
    + destruct vs as [|w vs]; [done|]. apply Forall_cons_1 in Fv as [[_ Hw] _]. cbn.
      intros [? _]%app_eq_nil. done.
Qed.

Lemma deliver_frame F vs s : is_frame F -> assembler_ok s -> vs <> [] ->
  Forall (fun v => packet_ok v /\ packet_bytes v <> []) vs ->
  mjoin (packet_bytes <$> vs) = F ->
  (length (incoming_queue_ s) <= kMaxQueuedPacketsPerConnection)%nat ->
  exists s', deliver (acl_packets vs) s = Some s' /\ queued F s s'.
Proof.
  intros HF Hok Hne Fv HB Hq. destruct vs as [|v vs]; [done|].
  apply Forall_cons_1 in Fv as [[Hv Hvn] Fv]. cbn [acl_packets deliver].
  unfold on_incoming_packet at 1. cbn [broadcast_flag packet_boundary_flag payload first_fragment].
  assert (Hok1 : assembler_ok (set_stage v true s)) by (apply set_stage_ok; [by apply nonempty_payload_ok|done]).
  destruct (decide (vs = [])) as [->|Hvs].
  - destruct (check_size_queue (set_stage v true s) F Hok1 HF) as (s' & -> & Hs'); [|done|by exists s'].
    cbn in HB |- *. by rewrite app_nil_r in HB.
  - rewrite (check_size_wait _ (mjoin (packet_bytes <$> vs))); [|done| |].
    + cbn [mbind option_bind]. destruct (deliver_next F vs HF (set_stage v true s)) as (s' & E & Hs'); try done.
      by exists s'.
    + change (packet_bytes v ++ mjoin (packet_bytes <$> vs) = F) in HB. rewrite <- HB in HF. exact HF.
    + destruct vs as [|w vs]; [done|]. apply Forall_cons_1 in Fv as [[_ Hw] _]. cbn.
      intros [? _]%app_eq_nil. done.
Qed.

(** ** Sequences of packets *)

Inductive event := EvPacket (v : AclView) | EvDataReady.

(** The payloads the controller sends are not empty; [on_data_ready] is called only
    while it is registered. *)
Definition event_ok (ev : event) (s : assembler) : Prop :=
  match ev with
  | EvPacket v => packet_ok (payload v) /\ packet_bytes (payload v) <> []
  | EvDataReady => enqueue_registered_ s = true
  end.

Definition run (ev : event) (s : assembler) : option assembler :=
  match ev with
  | EvPacket v => on_incoming_packet v s
  | EvDataReady => snd <$> on_data_ready s
  end.

Inductive reachable : assembler -> Prop :=
| reach_init : reachable initial
| reach_step s ev s' : reachable s -> event_ok ev s -> run ev s = Some s' -> reachable s'.

Lemma assembler_run_ok ev s : assembler_ok s -> event_ok ev s -> exists s', run ev s = Some s' /\ assembler_ok s'.
Proof.
  intros Hs He. destruct ev as [v|]; cbn in *.
  - destruct He. by apply on_incoming_ok, nonempty_payload_ok.
  - destruct (on_data_ready_ok s Hs) as (p & s' & -> & _ & H & _); [by apply Hs|]. by exists s'.
Qed.

Lemma assembler_reachable_ok s : reachable s -> assembler_ok s.
Proof.
  induction 1 as [|s ev s' _ IH He Hr].
  - split; [apply empty_payload_ok|]. split_and!; [constructor|cbn; lia|done].
  - destruct (assembler_run_ok ev s IH He) as (s2 & E & H). rewrite Hr in E. by injection E as ->.
Qed.

(** ** Properties *)

(** The fragments of a packet are its bytes, in order, cut at every multiple of
    the buffer size: none is empty or too long, and all but the last are full. *)
Theorem acl_fragments_partition mtu p : (0 < mtu)%nat -> builder_ok p ->
  exists fs, GetFragments mtu p = Some fs /\ mjoin (payload_ <$> fs) = builder_bytes p /\
    Forall (fun f => (0 < length (payload_ f) <= mtu)%nat) fs /\
    forall fs' f, fs = fs' ++ [f] -> Forall (fun g => length (payload_ g) = mtu) fs'.
Proof.
  intros Hm Hp. destruct (GetFragments_spec mtu p Hm Hp) as (fs & E & B & S1 & S2). by exists fs.
Qed.

Definition frame_builder (l : list Z) : BasePacketBuilder :=
  {| serialize_calls := (fun b => (b, 8)) <$> l; builder_size := length l; is_flushable_ := false |}.

Lemma frame_builder_ok l : Forall byte l -> builder_ok (frame_builder l).
Proof. intros F. destruct (bytes_calls l F) as (H1 & H2 & _). by split. Qed.

Lemma acl_fragments_partition_witness :
  exists fs, GetFragments 3 (frame_builder [1; 2; 3; 4; 5; 6; 7]) = Some fs /\
    payload_ <$> fs = [[1; 2; 3]; [4; 5; 6]; [7]] /\
    Forall (fun f => (0 < length (payload_ f) <= 3)%nat) fs.
Proof.
  destruct (acl_fragments_partition 3 (frame_builder [1; 2; 3; 4; 5; 6; 7])) as (fs & H1 & _ & H2 & _).
  - apply Nat.lt_0_succ.
  - apply frame_builder_ok. by_decide.
  - exists fs. split; [exact H1|]. split; [|exact H2]. vm_compute in H1. injection H1 as <-. reflexivity.
Defined.

(** C7: what [AclFragmenter] cuts, [assembler] puts together again: when the ACL
    packets carrying the fragments of an L2CAP frame are received, and the queue is
    not congested, exactly that frame is queued, once, after what was queued before,
    and the recombination stage is empty again, whatever it held before. *)
Theorem fragment_recombine_roundtrip mtu p fs views s : (0 < mtu)%nat -> builder_ok p ->
  is_frame (builder_bytes p) -> GetFragments mtu p = Some fs ->
  Forall2 (fun v f => packet_ok v /\ packet_bytes v = payload_ f) views fs ->
  reachable s -> (length (incoming_queue_ s) <= kMaxQueuedPacketsPerConnection)%nat ->
  exists s', deliver (acl_packets views) s = Some s' /\
    packet_bytes <$> incoming_queue_ s' = (packet_bytes <$> incoming_queue_ s) ++ [builder_bytes p] /\
    received_first_ s' = false /\ enqueue_registered_ s' = true.
Proof.
  intros Hm Hp HF Hfs Hv Hs%assembler_reachable_ok Hq.
  destruct (GetFragments_spec mtu p Hm Hp) as (fs' & E & B & S1 & _). rewrite Hfs in E. injection E as <-.
  assert (Eb : packet_bytes <$> views = payload_ <$> fs).
  { clear -Hv. induction Hv as [|v f views fs [_ Hvf] _ IH]; [done|]. cbn. by rewrite Hvf, IH. }
  destruct (deliver_frame (builder_bytes p) views s HF Hs) as (s' & Hd & _ & H1 & H2 & H3).
  - intros ->. inversion Hv; subst. rewrite <- B in HF. by vm_compute in HF.
  - clear -Hv S1. induction Hv as [|v f views fs [Hv1 Hv2] _ IH]; [constructor|].
    apply Forall_cons_1 in S1 as [Hf S1]. constructor; [|by apply IH]. split; [done|].
    rewrite Hv2. destruct (payload_ f); [cbn in Hf; lia|done].
  - by rewrite Eb.
  - done.
  - by exists s'.
Qed.

Lemma fragment_recombine_roundtrip_witness :
  exists s', deliver (acl_packets [packet_of_vector [3; 0; 4]; packet_of_vector [0; 7; 8]; packet_of_vector [9]])
      initial = Some s' /\
    packet_bytes <$> incoming_queue_ s' = [[3; 0; 4; 0; 7; 8; 9]].
Proof.
  destruct (fragment_recombine_roundtrip 3 (frame_builder [3; 0; 4; 0; 7; 8; 9])
    [{| payload_ := [3; 0; 4]; max_bytes_ := 3 |}; {| payload_ := [0; 7; 8]; max_bytes_ := 3 |};
     {| payload_ := [9]; max_bytes_ := 3 |}]
    [packet_of_vector [3; 0; 4]; packet_of_vector [0; 7; 8]; packet_of_vector [9]] initial)
    as (s' & H1 & H2 & _).
  - apply Nat.lt_0_succ.
  - apply frame_builder_ok. by_decide.
  - by_decide.
  - reflexivity.
  - repeat constructor; by_decide.
  - apply reach_init.
  - apply Nat.le_0_l.
  - exists s'. split; [exact H1|exact H2].
Defined.

(** C39: on payloads that are not empty, no sequence of packets and of calls of
    [on_data_ready] makes the assembler fail; its queue holds at most eleven packets,
    and the enqueue callback is registered exactly while the queue is not empty. *)
Theorem assembler_safe s ev : reachable s -> event_ok ev s ->
  (exists s', run ev s = Some s') /\
  (length (incoming_queue_ s) <= kMaxQueuedPacketsPerConnection + 1)%nat /\
  (enqueue_registered_ s = true <-> incoming_queue_ s <> []).
Proof.
  intros Hs%assembler_reachable_ok He. destruct (assembler_run_ok ev s Hs He) as (s' & E & _).
  destruct Hs as (_ & _ & H1 & H2). split; [by exists s'|done].
Qed.

Lemma assembler_safe_witness :
  exists s', run (EvPacket (next_fragment (packet_of_vector [1]))) initial = Some s'.
Proof.
  destruct (assembler_safe initial (EvPacket (next_fragment (packet_of_vector [1])))) as [H _].
  - apply reach_init.
  - split; [split; [by_decide|reflexivity]|discriminate].
  - exact H.
Defined.

(** A first fragment whose payload is the empty rest of its packet, as
    [GetPayload] returns it, is kept; the continuing fragment after it then ends the
    process in the failed assertion of [Append]. *)
Theorem empty_first_fragment_aborts (header : list Z) (p : PacketView) :
  exists e, GetSubview (packet_of_vector header) (length header) (length header) = Some e /\
    deliver (acl_packets [e; p]) initial = None.
Proof.
  exists (packet_of_fragments []). split; [apply empty_subview|reflexivity].
Qed.
