(* ===== verification/MultiPriorityQueue.v ===== *)
(** * Multi-priority queue

    Model of [common::MultiPriorityQueue] with two priorities
    ([src/system/gd/common/multi_priority_queue.h]): a queue per priority, and a
    [std::priority_queue] of the priorities of the items, a bag of integers of which
    the greatest is read and removed.  [front] and [pop] of an empty queue are
    undefined, [None]. *)

From stdpp Require Import base list option.
From Stdlib Require Import ZArith Lia.
From S2P Require Import Prelude.

Open Scope nat_scope.

Section mpq.
Context {T : Type}.

(** [low] and [high] are [queues_[0]] and [queues_[1]]. *)
Record MultiPriorityQueue := { low : list T; high : list T; next_to_dequeue_ : list nat }.

Definition empty_queue : MultiPriorityQueue := {| low := []; high := []; next_to_dequeue_ := [] |}.

(** [std::priority_queue]: the greatest element, and the bag without it. *)
Definition top (l : list nat) : option nat := match l with [] => None | x :: l => Some (foldr Nat.max x l) end.
Fixpoint remove_one (x : nat) (l : list nat) : list nat :=
  match l with [] => [] | y :: l => if (x =? y)%nat then l else y :: remove_one x l end.

(** [queues_[priority]]; a priority beyond the array is undefined. *)
Definition queue_at (priority : nat) (q : MultiPriorityQueue) : option (list T) :=
  match priority with 0 => Some (low q) | 1 => Some (high q) | _ => None end.
Definition set_queue (priority : nat) (l : list T) (q : MultiPriorityQueue) : MultiPriorityQueue :=
  match priority with
  | 0 => {| low := l; high := high q; next_to_dequeue_ := next_to_dequeue_ q |}
  | _ => {| low := low q; high := l; next_to_dequeue_ := next_to_dequeue_ q |}
  end.
Definition set_next (l : list nat) (q : MultiPriorityQueue) : MultiPriorityQueue :=
  {| low := low q; high := high q; next_to_dequeue_ := l |}.

Definition front (q : MultiPriorityQueue) : option T :=
  p ← top (next_to_dequeue_ q); l ← queue_at p q; l !! 0%nat.

Definition empty (q : MultiPriorityQueue) : bool :=
  match next_to_dequeue_ q with [] => true | _ => false end.

Definition size (q : MultiPriorityQueue) : nat := length (next_to_dequeue_ q).

Definition push (t : T) (priority : nat) (q : MultiPriorityQueue) : option MultiPriorityQueue :=
  l ← queue_at priority q;
  Some (set_next (priority :: next_to_dequeue_ q) (set_queue priority (l ++ [t]) q)).

Definition pop (q : MultiPriorityQueue) : option MultiPriorityQueue :=
  p ← top (next_to_dequeue_ q);
  l ← queue_at p q;
  match l with
  | [] => None
  | _ :: l => Some (set_next (remove_one p (next_to_dequeue_ q)) (set_queue p l q))
  end.

(** [a.swap(b)]. *)
Definition swap (a b : MultiPriorityQueue) : MultiPriorityQueue * MultiPriorityQueue := (b, a).

(** ** The list it stands for *)

(** The items in the order they are dequeued. *)
Definition items (q : MultiPriorityQueue) : list T := high q ++ low q.

(** The bag holds the priority of every item. *)
Definition queue_ok (q : MultiPriorityQueue) : Prop :=
  next_to_dequeue_ q ≡ₚ replicate (length (high q)) 1 ++ replicate (length (low q)) 0.

Lemma empty_ok : queue_ok empty_queue.
Proof. constructor. Qed.

Lemma top_max l x : top l = Some x -> x ∈ l /\ forall y, y ∈ l -> y <= x.
Proof.
  destruct l as [|z l]; [done|]. cbn. intros [= <-].
  assert (H : foldr Nat.max z l ∈ z :: l /\ forall y, y ∈ z :: l -> y <= foldr Nat.max z l).
  { induction l as [|w l [IH1 IH2]]; cbn.
    - split; [left|]. intros y ->%list_elem_of_singleton. done.
    - split.
      + destruct (Nat.max_spec w (foldr Nat.max z l)) as [[_ ->]|[_ ->]]; [|right; left].
        apply elem_of_cons in IH1 as [IH1|IH1]; [rewrite IH1; left|right; by right].
      + intros y Hy. apply elem_of_cons in Hy as [->|Hy]; [specialize (IH2 z ltac:(left)); lia|].
        apply elem_of_cons in Hy as [->|Hy]; [lia|]. specialize (IH2 y ltac:(by right)). lia. }
  exact H.
Qed.

Lemma remove_one_perm x l : x ∈ l -> l ≡ₚ x :: remove_one x l.
Proof.
  induction l as [|y l IH]; intros Hx; [by apply elem_of_nil in Hx|]. cbn.
  destruct (Nat.eqb_spec x y) as [->|Hn]; [done|].
  apply elem_of_cons in Hx as [->|Hx]; [done|]. rewrite (IH Hx) at 1. apply Permutation_swap.
Qed.

Lemma top_spec q : queue_ok q ->
  top (next_to_dequeue_ q) = match high q, low q with [], [] => None | [], _ => Some 0 | _, _ => Some 1 end.
Proof.
  unfold queue_ok. intros H. destruct (next_to_dequeue_ q) as [|x l] eqn:E.
  - apply Permutation_length in H. rewrite length_app, !length_replicate in H. cbn in H.
    destruct (high q), (low q); cbn in H; try lia. done.
  - destruct (top (x :: l)) as [t|] eqn:Et; [|done]. destruct (top_max _ _ Et) as [H1 H2].
    rewrite H in H1. setoid_rewrite H in H2. apply elem_of_app in H1 as [H1|H1];
      apply elem_of_replicate in H1 as [-> H1].
    + by destruct (high q).
    + destruct (high q); [by destruct (low q)|]. specialize (H2 1 ltac:(left)). lia.
Qed.

Lemma front_spec q : queue_ok q -> front q = head (items q).
Proof.
  intros Hq. unfold front, items. rewrite top_spec by done. destruct (high q) eqn:Eh, (low q) eqn:El; try done; cbn; by rewrite ?Eh, ?El.
Qed.

Lemma size_spec q : queue_ok q -> size q = length (items q).
Proof.
  unfold queue_ok, size, items. intros H. apply Permutation_length in H. rewrite H.
  by rewrite !length_app, !length_replicate.
Qed.

Lemma empty_spec q : queue_ok q -> empty q = true <-> items q = [].
Proof.
  intros Hq. pose proof (size_spec q Hq) as H. unfold size, empty in *.
  destruct (next_to_dequeue_ q), (items q); done.
Qed.

Lemma push_spec t p q : p <= 1 -> queue_ok q -> exists q', push t p q = Some q' /\ queue_ok q' /\
  items q' = match p with 0 => items q ++ [t] | _ => high q ++ t :: low q end.
Proof.
  unfold queue_ok, push, items. intros Hp H.
  destruct p as [|[|p]]; [| |lia]; cbn; eexists; (split; [done|]); cbn.
  - split; [|by rewrite app_assoc]. rewrite length_app, H. cbn. rewrite Nat.add_1_r. cbn.
    apply Permutation_middle.
  - split; [|by rewrite <- app_assoc]. rewrite length_app, H. cbn. by rewrite Nat.add_1_r.
Qed.

Lemma pop_spec q x l : queue_ok q -> items q = x :: l ->
  exists q', pop q = Some q' /\ queue_ok q' /\ items q' = l.
Proof.
  intros Hq Hi. unfold pop. rewrite top_spec by done. unfold queue_ok, items in *.
  destruct (high q) as [|h hs] eqn:Eh.
  - destruct (low q) as [|y ls] eqn:El; [done|]. cbn in *. rewrite El. injection Hi as -> ->.
    eexists. split; [done|]. cbn. rewrite Eh. split; [|done]. apply (Permutation_cons_inv (a := 0)).
    rewrite <- remove_one_perm; [exact Hq|]. rewrite Hq. left.
  - cbn in *. rewrite Eh. injection Hi as -> <-.
    eexists. split; [done|]. cbn. split; [|done]. apply (Permutation_cons_inv (a := 1)).
    rewrite <- remove_one_perm; [exact Hq|]. rewrite Hq. left.
Qed.

(** Items pushed with one priority on an empty queue come out in order. *)
Fixpoint push_all (ts : list T) (p : nat) (q : MultiPriorityQueue) : option MultiPriorityQueue :=
  match ts with [] => Some q | t :: ts => q ← push t p q; push_all ts p q end.

Lemma push_all_spec ts p q : p <= 1 -> queue_ok q -> (p = 1 -> low q = []) ->
  exists q', push_all ts p q = Some q' /\ queue_ok q' /\ items q' = items q ++ ts /\
    (p = 1 -> low q' = []).
Proof.
  intros Hp. revert q. induction ts as [|t ts IH]; intros q Hq Hl.
  { exists q. by rewrite app_nil_r. }
  destruct (push_spec t p q Hp Hq) as (q1 & E & Hq1 & Hi). cbn [push_all]. rewrite E. cbn [mbind option_bind].
  destruct (IH q1 Hq1) as (q2 & -> & Hq2 & Hi2 & Hl2).
  { intros ->. unfold push in E. cbn in E. injection E as <-. by apply Hl. }
  exists q2. split; [done|]. split; [done|]. split; [|done]. rewrite Hi2, Hi.
  destruct p as [|p]; [by rewrite <- app_assoc|]. assert (p = 0) as -> by lia.
  unfold items. rewrite Hl by done. by rewrite app_nil_r, <- app_assoc.
Qed.

End mpq.

Arguments MultiPriorityQueue : clear implicits.
