(* ===== verification/RoundRobin.v ===== *)
(** * Round-robin scheduler of ACL packets

    Model of [RoundRobinScheduler]
    ([src/system/gd/hci/acl_manager/round_robin_scheduler.cc] and [.h]).  The queue
    of a connection is the list of the packets its upper end has enqueued; the
    callbacks registered on the queues and on the handler are part of the state
    ([dequeue_is_registered_], [enqueue_registered_], [posted]), and their
    invocations are events.  A failed assertion and undefined behaviour are [None].

    The map from handles is ordered by handle; its iterator [starting_point_] is the
    handle it points to, [None] at the end. *)

From stdpp Require Import base list option gmap sorting.
From Stdlib Require Import ZArith Lia.
From S2P Require Import Prelude PacketView BitInserter AclAssembler MultiPriorityQueue.

Open Scope Z_scope.

(** ** State *)

Inductive ConnectionType := CLASSIC | LE.

#[export] Instance ConnectionType_eq_dec : EqDecision ConnectionType.
Proof. solve_decision. Defined.

Record acl_queue_handler := {
  connection_type_ : ConnectionType;
  queue_ : list BasePacketBuilder;
  dequeue_is_registered_ : bool;
  number_of_sent_packets_ : Z;
  high_priority_ : bool;
}.

(** What [AclBuilder::Create] is given: the payload is known by its bytes. *)
Record AclBuilder := {
  ab_handle : Z;
  ab_boundary : PacketBoundaryFlag;
  ab_broadcast : BroadcastFlag;
  ab_payload : list Z;
}.

Record packet_fragment := {
  pf_type : ConnectionType;
  pf_handle : Z;
  pf_priority : nat;
  pf_packet : AclBuilder;
}.

Record scheduler := {
  acl_queue_handlers_ : gmap Z acl_queue_handler;
  fragments_to_send_ : MultiPriorityQueue packet_fragment;
  max_acl_packet_credits_ : Z;
  acl_packet_credits_ : Z;
  le_max_acl_packet_credits_ : Z;
  le_acl_packet_credits_ : Z;
  hci_mtu_ : nat;
  le_hci_mtu_ : nat;
  enqueue_registered_ : bool;
  starting_point_ : option Z;
  posted : nat;                       (* [start_round_robin] tasks posted to the handler *)
}.

Definition set_handlers (m : gmap Z acl_queue_handler) (s : scheduler) : scheduler := {|
  acl_queue_handlers_ := m; fragments_to_send_ := fragments_to_send_ s;
  max_acl_packet_credits_ := max_acl_packet_credits_ s; acl_packet_credits_ := acl_packet_credits_ s;
  le_max_acl_packet_credits_ := le_max_acl_packet_credits_ s;
  le_acl_packet_credits_ := le_acl_packet_credits_ s; hci_mtu_ := hci_mtu_ s; le_hci_mtu_ := le_hci_mtu_ s;
  enqueue_registered_ := enqueue_registered_ s; starting_point_ := starting_point_ s; posted := posted s |}.
Definition set_fragments (q : MultiPriorityQueue packet_fragment) (s : scheduler) : scheduler := {|
  acl_queue_handlers_ := acl_queue_handlers_ s; fragments_to_send_ := q;
  max_acl_packet_credits_ := max_acl_packet_credits_ s; acl_packet_credits_ := acl_packet_credits_ s;
  le_max_acl_packet_credits_ := le_max_acl_packet_credits_ s;
  le_acl_packet_credits_ := le_acl_packet_credits_ s; hci_mtu_ := hci_mtu_ s; le_hci_mtu_ := le_hci_mtu_ s;
  enqueue_registered_ := enqueue_registered_ s; starting_point_ := starting_point_ s; posted := posted s |}.
Definition set_enqueue (b : bool) (s : scheduler) : scheduler := {|
  acl_queue_handlers_ := acl_queue_handlers_ s; fragments_to_send_ := fragments_to_send_ s;
  max_acl_packet_credits_ := max_acl_packet_credits_ s; acl_packet_credits_ := acl_packet_credits_ s;
  le_max_acl_packet_credits_ := le_max_acl_packet_credits_ s;
  le_acl_packet_credits_ := le_acl_packet_credits_ s; hci_mtu_ := hci_mtu_ s; le_hci_mtu_ := le_hci_mtu_ s;
  enqueue_registered_ := b; starting_point_ := starting_point_ s; posted := posted s |}.
Definition set_start (p : option Z) (s : scheduler) : scheduler := {|
  acl_queue_handlers_ := acl_queue_handlers_ s; fragments_to_send_ := fragments_to_send_ s;
  max_acl_packet_credits_ := max_acl_packet_credits_ s; acl_packet_credits_ := acl_packet_credits_ s;
  le_max_acl_packet_credits_ := le_max_acl_packet_credits_ s;
  le_acl_packet_credits_ := le_acl_packet_credits_ s; hci_mtu_ := hci_mtu_ s; le_hci_mtu_ := le_hci_mtu_ s;
  enqueue_registered_ := enqueue_registered_ s; starting_point_ := p; posted := posted s |}.
Definition set_posted (n : nat) (s : scheduler) : scheduler := {|
  acl_queue_handlers_ := acl_queue_handlers_ s; fragments_to_send_ := fragments_to_send_ s;
  max_acl_packet_credits_ := max_acl_packet_credits_ s; acl_packet_credits_ := acl_packet_credits_ s;
  le_max_acl_packet_credits_ := le_max_acl_packet_credits_ s;
  le_acl_packet_credits_ := le_acl_packet_credits_ s; hci_mtu_ := hci_mtu_ s; le_hci_mtu_ := le_hci_mtu_ s;
  enqueue_registered_ := enqueue_registered_ s; starting_point_ := starting_point_ s; posted := n |}.

(** The credits of a type of connection. *)
Definition credits (t : ConnectionType) (s : scheduler) : Z :=
  match t with CLASSIC => acl_packet_credits_ s | LE => le_acl_packet_credits_ s end.
Definition max_credits (t : ConnectionType) (s : scheduler) : Z :=
  match t with CLASSIC => max_acl_packet_credits_ s | LE => le_max_acl_packet_credits_ s end.
Definition set_credits (t : ConnectionType) (c : Z) (s : scheduler) : scheduler := {|
  acl_queue_handlers_ := acl_queue_handlers_ s; fragments_to_send_ := fragments_to_send_ s;
  max_acl_packet_credits_ := max_acl_packet_credits_ s;
  acl_packet_credits_ := match t with CLASSIC => c | LE => acl_packet_credits_ s end;
  le_max_acl_packet_credits_ := le_max_acl_packet_credits_ s;
  le_acl_packet_credits_ := match t with CLASSIC => le_acl_packet_credits_ s | LE => c end;
  hci_mtu_ := hci_mtu_ s; le_hci_mtu_ := le_hci_mtu_ s;
  enqueue_registered_ := enqueue_registered_ s; starting_point_ := starting_point_ s; posted := posted s |}.

Definition set_registered (b : bool) (h : acl_queue_handler) : acl_queue_handler := {|
  connection_type_ := connection_type_ h; queue_ := queue_ h; dequeue_is_registered_ := b;
  number_of_sent_packets_ := number_of_sent_packets_ h; high_priority_ := high_priority_ h |}.
Definition set_sent (n : Z) (h : acl_queue_handler) : acl_queue_handler := {|
  connection_type_ := connection_type_ h; queue_ := queue_ h;
  dequeue_is_registered_ := dequeue_is_registered_ h;
  number_of_sent_packets_ := n; high_priority_ := high_priority_ h |}.
Definition set_priority (b : bool) (h : acl_queue_handler) : acl_queue_handler := {|
  connection_type_ := connection_type_ h; queue_ := queue_ h;
  dequeue_is_registered_ := dequeue_is_registered_ h;
  number_of_sent_packets_ := number_of_sent_packets_ h; high_priority_ := b |}.
Definition set_queue_packets (l : list BasePacketBuilder) (h : acl_queue_handler) : acl_queue_handler := {|
  connection_type_ := connection_type_ h; queue_ := l;
  dequeue_is_registered_ := dequeue_is_registered_ h;
  number_of_sent_packets_ := number_of_sent_packets_ h; high_priority_ := high_priority_ h |}.

(** The constructor: the sizes are those the controller reports. *)
Definition RoundRobinScheduler (num_acl_buffers num_le_buffers : Z) (acl_length le_length : nat)
    : scheduler := {|
  acl_queue_handlers_ := ∅; fragments_to_send_ := empty_queue;
  max_acl_packet_credits_ := num_acl_buffers; acl_packet_credits_ := num_acl_buffers;
  le_max_acl_packet_credits_ := num_le_buffers; le_acl_packet_credits_ := num_le_buffers;
  hci_mtu_ := acl_length; le_hci_mtu_ := le_length; enqueue_registered_ := false;
  starting_point_ := None; posted := 0 |}.

(** ** Operations *)

Definition IsRegistered (handle : Z) (s : scheduler) : bool :=
  bool_decide (is_Some (acl_queue_handlers_ s !! handle)).

Definition SetLinkPriority (handle : Z) (high_priority : bool) (s : scheduler) : scheduler :=
  set_handlers (alter (set_priority high_priority) handle (acl_queue_handlers_ s)) s.

Definition GetCredits (s : scheduler) : Z := acl_packet_credits_ s.
Definition GetLeCredits (s : scheduler) : Z := le_acl_packet_credits_ s.

Definition buffer_full (t : ConnectionType) (s : scheduler) : bool := credits t s =? 0.

Definition send_next_fragment (s : scheduler) : scheduler := set_enqueue true s.

(** The handles in the order of the map, and those visited from [starting_point_]
    on, around the end. *)
Definition handles (s : scheduler) : list Z := merge_sort Z.le (map_to_list (acl_queue_handlers_ s)).*1.
Definition visited (start : Z) (l : list Z) : list Z :=
  filter (fun h => start <= h) l ++ filter (fun h => h < start) l.
(** [std::next]. *)
Definition next_handle (h : Z) (l : list Z) : option Z := head (filter (fun x => h < x) l).

(** The body of the loop of [start_round_robin]. *)
Definition register_dequeue (s : scheduler) (h : acl_queue_handler) : acl_queue_handler :=
  if negb (dequeue_is_registered_ h) && negb (buffer_full (connection_type_ h) s)
  then set_registered true h else h.

Definition start_round_robin (s : scheduler) : option scheduler :=
  if buffer_full CLASSIC s && buffer_full LE s then Some s
  else if negb (empty (fragments_to_send_ s)) then
    f ← front (fragments_to_send_ s);
    if buffer_full (pf_type f) s then Some s else Some (send_next_fragment s)
  else
    match handles s with
    | [] => Some s
    | (first :: _) as l =>
        let start :=
          match starting_point_ s with
          | Some p => if (length l =? 1)%nat then first else p
          | None => first
          end in
        let m := foldl (fun m h => alter (register_dequeue s) h m) (acl_queue_handlers_ s)
                   (visited start l) in
        Some (set_start (next_handle start l) (set_handlers m s))
    end.

Definition Register (connection_type : ConnectionType) (handle : Z) (queue : list BasePacketBuilder)
    (s : scheduler) : option scheduler :=
  if IsRegistered handle s then None
  else
    let s := set_handlers (<[handle := {| connection_type_ := connection_type; queue_ := queue;
                                          dequeue_is_registered_ := false; number_of_sent_packets_ := 0;
                                          high_priority_ := false |}]> (acl_queue_handlers_ s)) s in
    if (size (fragments_to_send_ s) =? 0)%nat then start_round_robin s else Some s.

(** The loop of [drop_packet_fragments]: the queue left, the new one and the
    counter of the handler. *)
Fixpoint drop_loop (fuel : nat) (acl_handle : Z) (q new : MultiPriorityQueue packet_fragment) (sent : Z)
    : option (MultiPriorityQueue packet_fragment * Z) :=
  match fuel with
  | O => None
  | S fuel =>
      if empty q then Some (new, sent)
      else
        fragment ← front q;
        q' ← pop q;
        if pf_handle fragment =? acl_handle then drop_loop fuel acl_handle q' new (u16 (sent - 1))
        else new' ← push fragment (pf_priority fragment) new; drop_loop fuel acl_handle q' new' sent
  end.

(** One iteration per fragment. *)
Definition drop_packet_fragments (acl_handle : Z) (s : scheduler) : option scheduler :=
  if empty (fragments_to_send_ s) then Some s
  else
    h ← acl_queue_handlers_ s !! acl_handle;
    '(new, sent) ← drop_loop (S (size (fragments_to_send_ s))) acl_handle (fragments_to_send_ s)
      empty_queue (number_of_sent_packets_ h);
    let s := set_handlers (<[acl_handle := set_sent sent h]> (acl_queue_handlers_ s)) s in
    let s := if empty new then set_enqueue false s else s in
    Some (set_fragments new s).

Definition Unregister (handle : Z) (s : scheduler) : option scheduler :=
  if IsRegistered handle s then
    s ← drop_packet_fragments handle s;
    h ← acl_queue_handlers_ s !! handle;
    let t := connection_type_ h in
    let sent := number_of_sent_packets_ h in
    let credits_reclaimed_from_zero := (0 <? sent) && (credits t s =? 0) in
    let s := set_credits t (u16 (credits t s + sent)) s in
    let s := set_handlers (delete handle (acl_queue_handlers_ s)) s in
    let s := set_start (head (handles s)) s in
    if credits_reclaimed_from_zero then start_round_robin s else Some s
  else None.

Definition unregister_all_connections (s : scheduler) : scheduler :=
  set_handlers (set_registered false <$> acl_queue_handlers_ s) s.

(** The fragments of a packet of [handle]. *)
Definition packet_fragments (connection_type : ConnectionType) (handle : Z) (acl_priority mtu : nat)
    (packet : BasePacketBuilder) : option (list packet_fragment) :=
  let packet_boundary_flag :=
    if is_flushable_ packet then FIRST_AUTOMATICALLY_FLUSHABLE else FIRST_NON_AUTOMATICALLY_FLUSHABLE in
  let fragment flag bytes := {|
    pf_type := connection_type; pf_handle := handle; pf_priority := acl_priority;
    pf_packet := {| ab_handle := handle; ab_boundary := flag; ab_broadcast := POINT_TO_POINT;
                    ab_payload := bytes |} |} in
  if (builder_size packet <=? mtu)%nat then Some [fragment packet_boundary_flag (builder_bytes packet)]
  else
    fragments ← GetFragments mtu packet;
    Some (imap (fun i f =>
      fragment (if (i =? 0)%nat then packet_boundary_flag else CONTINUING_FRAGMENT) (payload_ f)) fragments).

Definition mtu_of (t : ConnectionType) (s : scheduler) : nat :=
  match t with CLASSIC => hci_mtu_ s | LE => le_hci_mtu_ s end.

Definition buffer_packet (acl_handle : Z) (s : scheduler) : option scheduler :=
  match acl_queue_handlers_ s !! acl_handle with
  | None => Some s
  | Some h =>
      match queue_ h with
      | [] => None
      | packet :: rest =>
          let s := set_handlers (<[acl_handle := set_queue_packets rest h]> (acl_queue_handlers_ s)) s in
          let t := connection_type_ h in
          let acl_priority := if high_priority_ h then 1%nat else 0%nat in
          fragments ← packet_fragments t acl_handle acl_priority (mtu_of t s) packet;
          q ← push_all fragments acl_priority (fragments_to_send_ s);
          if (size q =? 0)%nat then None
          else
            let s := unregister_all_connections (set_fragments q s) in
            let s := set_handlers
              (alter (fun h => set_sent (u16 (number_of_sent_packets_ h + Z.of_nat (size q))) h)
                 acl_handle (acl_queue_handlers_ s)) s in
            Some (send_next_fragment s)
      end
  end.

(** The packet given to the queue of the HCI layer. *)
Definition handle_enqueue_next_fragment (s : scheduler) : option (AclBuilder * scheduler) :=
  f ← front (fragments_to_send_ s);
  let t := pf_type f in
  if 0 <? credits t s then
    let s := set_credits t (credits t s - 1) s in
    q ← pop (fragments_to_send_ s);
    let s := set_fragments q s in
    if empty q then Some (pf_packet f, set_posted (S (posted s)) (set_enqueue false s))
    else
      next ← front q;
      Some (pf_packet f, if buffer_full (pf_type next) s then set_enqueue false s else s)
  else None.

Definition incoming_acl_credits (handle : Z) (n : Z) (s : scheduler) : option scheduler :=
  match acl_queue_handlers_ s !! handle with
  | None => Some s
  | Some h =>
      let t := connection_type_ h in
      let h := set_sent (if n <=? number_of_sent_packets_ h then number_of_sent_packets_ h - n else 0) h in
      let s := set_handlers (<[handle := h]> (acl_queue_handlers_ s)) s in
      let credit_was_zero := credits t s =? 0 in
      let c := u16 (credits t s + n) in
      let s := set_credits t (if max_credits t s <? c then max_credits t s else c) s in
      if credit_was_zero then start_round_robin s else Some s
  end.

(** ** Sums over the connections *)

Section msum.
Context {A : Type}.
Implicit Types (f g : Z -> A -> Z) (m : gmap Z A).

Definition msum f m : Z := map_fold (fun k a acc => f k a + acc) 0 m.

Lemma msum_insert f m k a : m !! k = None -> msum f (<[k := a]> m) = f k a + msum f m.
Proof. intros H. unfold msum. rewrite map_fold_insert_L; [done| |done]. intros. lia. Qed.

Lemma msum_delete f m k a : m !! k = Some a -> msum f m = f k a + msum f (delete k m).
Proof.
  intros H. rewrite <- (insert_delete_id m k a) at 1 by done. apply msum_insert, lookup_delete_eq.
Qed.

Lemma msum_replace f m k a b : m !! k = Some a -> msum f (<[k := b]> m) = msum f m - f k a + f k b.
Proof.
  intros H. rewrite (msum_delete f m k a H), <- (insert_delete_eq m k b), msum_insert by apply lookup_delete_eq.
  lia.
Qed.

Lemma msum_ext f g m : (forall k a, m !! k = Some a -> f k a = g k a) -> msum f m = msum g m.
Proof.
  induction m as [|k a m Hk IH] using map_ind; intros H; [done|].
  rewrite !msum_insert by done. rewrite H by apply lookup_insert_eq. rewrite IH; [done|].
  intros k' a' Hk'. apply H. rewrite lookup_insert_ne; [done|]. intros ->. congruence.
Qed.

Lemma msum_nonneg f m : (forall k a, m !! k = Some a -> 0 <= f k a) -> 0 <= msum f m.
Proof.
  induction m as [|k a m Hk IH] using map_ind; intros H; [done|].
  rewrite msum_insert by done. pose proof (H k a ltac:(apply lookup_insert_eq)).
  assert (0 <= msum f m); [|lia]. apply IH. intros k' a' Hk'. apply H.
  rewrite lookup_insert_ne; [done|]. intros ->. congruence.
Qed.

Lemma msum_fmap (h : A -> A) f m : msum f (h <$> m) = msum (fun k a => f k (h a)) m.
Proof.
  induction m as [|k a m Hk IH] using map_ind; [done|].
  rewrite fmap_insert, !msum_insert; [by rewrite IH|done|]. by rewrite lookup_fmap, Hk.
Qed.
End msum.

(** ** The invariant *)

(** The fragments to send, in order. *)
Definition pending (s : scheduler) : list packet_fragment := items (fragments_to_send_ s).

Definition queued (h : Z) (l : list packet_fragment) : Z :=
  Z.of_nat (length (filter (fun f => pf_handle f = h) l)).

(** The packets of a connection that the controller holds. *)
Definition outstanding (l : list packet_fragment) (h : Z) (hd : acl_queue_handler) : Z :=
  number_of_sent_packets_ hd - queued h l.

Definition outstanding_of (t : ConnectionType) (l : list packet_fragment) (h : Z)
    (hd : acl_queue_handler) : Z :=
  if decide (connection_type_ hd = t) then outstanding l h hd else 0.

Definition total (t : ConnectionType) (s : scheduler) : Z :=
  msum (outstanding_of t (pending s)) (acl_queue_handlers_ s).

Record core (s : scheduler) : Prop := {
  core_queue : queue_ok (fragments_to_send_ s);
  core_fragment : forall f, f ∈ pending s -> (pf_priority f <= 1)%nat /\
    exists hd, acl_queue_handlers_ s !! pf_handle f = Some hd /\ connection_type_ hd = pf_type f;
  core_one : forall f g, f ∈ pending s -> g ∈ pending s ->
    pf_handle f = pf_handle g /\ pf_priority f = pf_priority g;
  core_sent : forall h hd, acl_queue_handlers_ s !! h = Some hd ->
    queued h (pending s) <= number_of_sent_packets_ hd < 2 ^ 16;
  core_credits : forall t, 0 <= credits t s /\ credits t s + total t s = max_credits t s;
  core_max : forall t, max_credits t s < 2 ^ 16;
  core_dequeue : forall h hd, acl_queue_handlers_ s !! h = Some hd -> dequeue_is_registered_ hd = true ->
    pending s = [] /\ 0 < credits (connection_type_ hd) s;
}.

(** The enqueue callback is registered only, or exactly, when a fragment can be
    sent. *)
Definition can_send (s : scheduler) : bool :=
  match pending s with [] => false | f :: _ => negb (buffer_full (pf_type f) s) end.
Definition enq_only (s : scheduler) : Prop := enqueue_registered_ s = true -> can_send s = true.
Definition enq_exactly (s : scheduler) : Prop := enqueue_registered_ s = can_send s.

Definition inv (s : scheduler) : Prop := core s /\ enq_exactly s.

Lemma queued_app h a b : queued h (a ++ b) = queued h a + queued h b.
Proof. unfold queued. rewrite filter_app, length_app. lia. Qed.

Lemma queued_nonneg h l : 0 <= queued h l.
Proof. unfold queued. lia. Qed.

Lemma queued_all h l : (forall f, f ∈ l -> pf_handle f = h) -> queued h l = Z.of_nat (length l).
Proof.
  intros H. unfold queued. do 2 f_equal. induction l as [|f l IH]; [done|].
  rewrite filter_cons_True by (apply H; left). f_equal. apply IH. intros g Hg. apply H. by right.
Qed.

Lemma queued_none h l : (forall f, f ∈ l -> pf_handle f <> h) -> queued h l = 0.
Proof.
  intros H. unfold queued. induction l as [|f l IH]; [done|].
  rewrite filter_cons_False by (apply H; left). apply IH. intros g Hg. apply H. by right.
Qed.

Lemma buffer_full_spec t s : 0 <= credits t s -> buffer_full t s = false <-> 0 < credits t s.
Proof. unfold buffer_full. intros H. rewrite Z.eqb_neq. lia. Qed.

Lemma outstanding_nonneg s t : core s -> 0 <= total t s.
Proof.
  intros Hc. apply msum_nonneg. intros h hd Hh. unfold outstanding_of.
  destruct (decide _); [|done]. unfold outstanding. pose proof (core_sent s Hc h hd Hh). lia.
Qed.

(** ** start_round_robin *)

Lemma handles_elem s h : h ∈ handles s <-> is_Some (acl_queue_handlers_ s !! h).
Proof.
  unfold handles. rewrite merge_sort_Permutation, list_elem_of_fmap. split.
  - intros ([k hd] & -> & H%elem_of_map_to_list). by eexists.
  - intros [hd H]. exists (h, hd). split; [done|]. by apply elem_of_map_to_list.
Qed.

Lemma visited_elem start l h : h ∈ visited start l <-> h ∈ l.
Proof.
  unfold visited. rewrite elem_of_app, !list_elem_of_filter.
  destruct (Z.le_gt_cases start h); intuition lia.
Qed.

Lemma foldl_alter_lookup (f : acl_queue_handler -> acl_queue_handler) (l : list Z)
    (m : gmap Z acl_queue_handler) (k : Z) :
  (forall x, f (f x) = f x) ->
  foldl (fun m h => alter f h m) m l !! k = if decide (k ∈ l) then f <$> m !! k else m !! k.
Proof.
  intros Hf. revert m. induction l as [|h l IH]; intros m; cbn [foldl].
  { by rewrite decide_False by apply not_elem_of_nil. }
  rewrite IH. destruct (decide (k = h)) as [->|Hk].
  - rewrite lookup_alter_eq, (decide_True (P := h ∈ h :: l)) by left.
    destruct (decide (h ∈ l)); [|done]. destruct (m !! h); cbn; [by rewrite Hf|done].
  - rewrite lookup_alter_ne by done.
    destruct (decide (k ∈ l)) as [Hi|Hi]; [by rewrite decide_True by (by right)|].
    rewrite decide_False; [done|]. intros [?|?]%elem_of_cons; done.
Qed.

Lemma register_idemp s h : register_dequeue s (register_dequeue s h) = register_dequeue s h.
Proof.
  unfold register_dequeue. destruct h as [t q [] n p]; cbn; [done|].
  destruct (buffer_full t s) eqn:E; cbn; by rewrite ?E.
Qed.

Lemma register_type s h : connection_type_ (register_dequeue s h) = connection_type_ h.
Proof. unfold register_dequeue. by destruct (_ && _). Qed.
Lemma register_sent s h : number_of_sent_packets_ (register_dequeue s h) = number_of_sent_packets_ h.
Proof. unfold register_dequeue. by destruct (_ && _). Qed.
Lemma register_queue s h : queue_ (register_dequeue s h) = queue_ h.
Proof. unfold register_dequeue. by destruct (_ && _). Qed.
Lemma register_flag s h : dequeue_is_registered_ (register_dequeue s h) = true ->
  dequeue_is_registered_ h = true \/ buffer_full (connection_type_ h) s = false.
Proof.
  unfold register_dequeue. destruct (dequeue_is_registered_ h) eqn:E; [by left|]. cbn.
  destruct (buffer_full _ s); [|by right]. cbn. by rewrite E.
Qed.

(** What [start_round_robin] does. *)
Inductive started (s : scheduler) : scheduler -> Prop :=
| started_not : (pending s <> [] -> can_send s = false) -> started s s
| started_send : can_send s = true -> started s (send_next_fragment s)
| started_register p : pending s = [] ->
    started s (set_start p (set_handlers (register_dequeue s <$> acl_queue_handlers_ s) s)).

Lemma start_spec s : queue_ok (fragments_to_send_ s) -> exists s', start_round_robin s = Some s' /\ started s s'.
Proof.
  intros Hq. unfold start_round_robin. destruct (buffer_full CLASSIC s && buffer_full LE s) eqn:Ef.
  { apply andb_true_iff in Ef as [E1 E2]. exists s. split; [done|]. constructor. unfold can_send.
    intros _. destruct (pending s) as [|f l]; [done|]. by destruct (pf_type f); rewrite ?E1, ?E2. }
  destruct (empty (fragments_to_send_ s)) eqn:Ee; cbn [negb].
  - apply empty_spec in Ee; [|done].
    destruct (handles s) as [|first l] eqn:El.
    { exists s. split; [done|]. constructor. done. }
    eexists. split; [done|]. match goal with |- context [visited ?x _] => set (start := x) end.
    assert (foldl (fun m h => alter (register_dequeue s) h m) (acl_queue_handlers_ s) (visited start (first :: l)) =
      register_dequeue s <$> acl_queue_handlers_ s) as ->.
    { apply map_eq. intros k. rewrite foldl_alter_lookup by apply register_idemp. rewrite lookup_fmap.
      destruct (decide (k ∈ visited start (first :: l))) as [H|H]; [done|].
      rewrite visited_elem, <- El, handles_elem in H. destruct (acl_queue_handlers_ s !! k); [|done].
      exfalso. apply H. by eexists. }
    by apply started_register.
  - rewrite front_spec by done. fold (pending s).
    assert (Hp : pending s <> []).
    { intros E. apply empty_spec in E; [|done]. congruence. }
    destruct (pending s) as [|f l] eqn:Ep; [done|]. cbn [head mbind option_bind].
    destruct (buffer_full (pf_type f) s) eqn:Eb; eexists; (split; [done|]); constructor;
      unfold can_send; rewrite Ep, Eb; done.
Qed.

(** The invariant does not depend on the callbacks. *)
Definition agree (s s' : scheduler) : Prop :=
  acl_queue_handlers_ s' = acl_queue_handlers_ s /\ fragments_to_send_ s' = fragments_to_send_ s /\
  (forall t, credits t s' = credits t s) /\ (forall t, max_credits t s' = max_credits t s).

Lemma core_agree s s' : agree s s' -> core s -> core s'.
Proof.
  intros (Hh & Hf & Hc & Hm) [H1 H2 H3 H4 H5 H6 H7].
  assert (Hp : pending s' = pending s) by (unfold pending; by rewrite Hf).
  constructor.
  - by rewrite Hf.
  - by rewrite Hp, Hh.
  - by rewrite Hp.
  - by rewrite Hp, Hh.
  - intros t. rewrite Hc, Hm. unfold total. rewrite Hp, Hh. apply H5.
  - intros t. by rewrite Hm.
  - intros h hd. rewrite Hp, Hh, Hc. apply H7.
Qed.

Lemma can_send_agree s s' : agree s s' -> can_send s' = can_send s.
Proof.
  intros (Hh & Hf & Hc & Hm). unfold can_send, pending, buffer_full. rewrite Hf.
  destruct (items _); [done|]. by rewrite Hc.
Qed.

Lemma agree_enqueue b s : agree s (set_enqueue b s).
Proof. repeat split. Qed.
Lemma agree_start p s : agree s (set_start p s).
Proof. repeat split. Qed.
Lemma agree_posted n s : agree s (set_posted n s).
Proof. repeat split. Qed.

Lemma core_register s p : core s -> pending s = [] ->
  core (set_start p (set_handlers (register_dequeue s <$> acl_queue_handlers_ s) s)).
Proof.
  intros Hcore Hp. pose proof Hcore as [H1 H2 H3 H4 H5 H6 H7].
  set (s' := set_start p _). assert (Hp' : pending s' = pending s) by done.
  assert (Hl : forall h hd', acl_queue_handlers_ s' !! h = Some hd' ->
    exists hd, acl_queue_handlers_ s !! h = Some hd /\ hd' = register_dequeue s hd).
  { intros h hd'. cbn. rewrite lookup_fmap. intros (hd & -> & ->)%fmap_Some. by exists hd. }
  constructor; try done.
  - intros f Hf. rewrite Hp', Hp in Hf. by apply elem_of_nil in Hf.
  - intros h hd' (hd & Hh & ->)%Hl. rewrite register_sent. by apply H4.
  - intros t. destruct (H5 t) as [A B]. split; [done|]. change (max_credits t s') with (max_credits t s).
    rewrite <- B. change (credits t s') with (credits t s). f_equal. unfold total. rewrite Hp'. cbn.
    rewrite msum_fmap. apply msum_ext. intros h hd _. unfold outstanding_of, outstanding.
    by rewrite register_type, register_sent.
  - intros h hd' (hd & Hh & ->)%Hl Hd. rewrite Hp', register_type. split; [done|].
    apply register_flag in Hd as [Hd|Hd]; [by apply (H7 h hd)|].
    by apply buffer_full_spec in Hd; [|apply H5].
Qed.

Lemma start_ok s s' : core s -> enq_only s -> started s s' -> inv s'.
Proof.
  intros Hc He Hs. destruct Hs as [Hn|Hs|p Hp].
  - split; [done|]. unfold enq_exactly, enq_only in *.
    destruct (enqueue_registered_ s) eqn:Ee; [by rewrite He|].
    destruct (can_send s) eqn:E; [|done].
    assert (Hne : pending s <> []) by (unfold can_send in E; by intros H; rewrite H in E).
    apply Hn in Hne. congruence.
  - split; [by apply (core_agree s), Hc; apply agree_enqueue|]. unfold enq_exactly.
    rewrite (can_send_agree s) by apply agree_enqueue. by rewrite Hs.
  - split; [by apply core_register|]. unfold enq_exactly, enq_only, can_send in *.
    change (pending (set_start p _)) with (pending s). rewrite Hp in *. cbn.
    destruct (enqueue_registered_ s); [by specialize (He eq_refl)|done].
Qed.

(** The state after a change, and [start_round_robin]. *)
Lemma restart_ok s : core s -> enq_only s -> exists s', start_round_robin s = Some s' /\ inv s'.
Proof.
  intros Hc He. destruct (start_spec s (core_queue s Hc)) as (s' & E & Hs). exists s'. split; [done|].
  by eapply start_ok.
Qed.

(** ** Register and SetLinkPriority *)

Lemma queued_unregistered s h : core s -> acl_queue_handlers_ s !! h = None -> queued h (pending s) = 0.
Proof.
  intros Hc Hh. apply queued_none. intros f Hf E. destruct (core_fragment s Hc f Hf) as [_ (hd & H & _)].
  rewrite E in H. congruence.
Qed.

Definition fresh_handler (t : ConnectionType) (queue : list BasePacketBuilder) : acl_queue_handler := {|
  connection_type_ := t; queue_ := queue; dequeue_is_registered_ := false; number_of_sent_packets_ := 0;
  high_priority_ := false |}.

Lemma core_insert s h t queue : core s -> acl_queue_handlers_ s !! h = None ->
  core (set_handlers (<[h := fresh_handler t queue]> (acl_queue_handlers_ s)) s).
Proof.
  intros Hcore Hh. pose proof Hcore as [H1 H2 H3 H4 H5 H6 H7].
  set (s' := set_handlers _ s). assert (Hp : pending s' = pending s) by done.
  assert (Hq : queued h (pending s) = 0) by (by apply queued_unregistered).
  constructor; try done.
  - intros f Hf. destruct (H2 f Hf) as [Hpr (hd & Hhd & Ht)]. split; [done|]. exists hd. split; [|done].
    cbn. rewrite lookup_insert_ne; [done|]. intros E. rewrite E in Hh. congruence.
  - intros k hd. cbn. destruct (decide (k = h)) as [->|Hk].
    + rewrite lookup_insert_eq. intros [= <-]. rewrite Hp, Hq. cbn. lia.
    + rewrite lookup_insert_ne by done. rewrite Hp. apply H4.
  - intros u. destruct (H5 u) as [A B]. split; [done|]. change (max_credits u s') with (max_credits u s).
    rewrite <- B. change (credits u s') with (credits u s). f_equal. unfold total. rewrite Hp. cbn.
    rewrite msum_insert by done. unfold outstanding_of at 1, outstanding. rewrite Hq. cbn.
    by destruct (decide (t = u)).
  - intros k hd. cbn. destruct (decide (k = h)) as [->|Hk]; [rewrite lookup_insert_eq; by intros [= <-]|].
    rewrite lookup_insert_ne by done. apply H7.
Qed.

Lemma Register_ok t h queue s : inv s -> acl_queue_handlers_ s !! h = None ->
  exists s', Register t h queue s = Some s' /\ inv s'.
Proof.
  intros [Hc He] Hh. unfold Register, IsRegistered. rewrite bool_decide_eq_false_2 by (rewrite Hh; by intros [? ?]).
  pose proof (core_insert s h t queue Hc Hh) as Hc'. fold (fresh_handler t queue). cbv zeta.
  set (s1 := set_handlers _ s) in *.
  assert (He1 : enq_exactly s1) by exact He.
  destruct (_ =? _)%nat; [|by exists s1]. apply restart_ok; [done|].
  unfold enq_only. by rewrite He1.
Qed.

Lemma alter_as_insert (g : acl_queue_handler -> acl_queue_handler) (m : gmap Z acl_queue_handler) k x :
  m !! k = Some x -> alter g k m = <[k := g x]> m.
Proof.
  intros H. apply map_eq. intros j. destruct (decide (j = k)) as [->|Hj].
  - by rewrite lookup_alter_eq, lookup_insert_eq, H.
  - by rewrite lookup_alter_ne, lookup_insert_ne.
Qed.

(** A change of a handler that leaves its type, its counter and its registration. *)
Lemma core_alter s h (g : acl_queue_handler -> acl_queue_handler) : core s ->
  (forall x, connection_type_ (g x) = connection_type_ x /\
     number_of_sent_packets_ (g x) = number_of_sent_packets_ x /\
     dequeue_is_registered_ (g x) = dequeue_is_registered_ x) ->
  core (set_handlers (alter g h (acl_queue_handlers_ s)) s).
Proof.
  intros Hcore Hg. pose proof Hcore as [H1 H2 H3 H4 H5 H6 H7].
  set (s' := set_handlers _ s). assert (Hp : pending s' = pending s) by done.
  assert (Hl : forall k hd', acl_queue_handlers_ s' !! k = Some hd' ->
    exists hd, acl_queue_handlers_ s !! k = Some hd /\ connection_type_ hd' = connection_type_ hd /\
      number_of_sent_packets_ hd' = number_of_sent_packets_ hd /\
      dequeue_is_registered_ hd' = dequeue_is_registered_ hd).
  { intros k hd'. cbn. destruct (decide (k = h)) as [->|Hk].
    - rewrite lookup_alter_eq. intros (hd & -> & ->)%fmap_Some. exists hd. split; [done|]. apply Hg.
    - rewrite lookup_alter_ne by done. intros H. by exists hd'. }
  constructor; try done.
  - intros f Hf. destruct (H2 f Hf) as [Hpr (hd & Hhd & Ht)]. split; [done|]. cbn.
    destruct (decide (pf_handle f = h)) as [E|E].
    + exists (g hd). rewrite E, lookup_alter_eq. rewrite <- E, Hhd. split; [done|]. by rewrite (proj1 (Hg hd)).
    + exists hd. by rewrite lookup_alter_ne.
  - intros k hd' (hd & Hh & _ & -> & _)%Hl. by apply H4.
  - intros u. destruct (H5 u) as [A B]. split; [done|]. change (max_credits u s') with (max_credits u s).
    rewrite <- B. change (credits u s') with (credits u s). f_equal. unfold total. rewrite Hp. cbn.
    destruct (acl_queue_handlers_ s !! h) as [hd|] eqn:E.
    + rewrite (alter_as_insert _ _ _ _ E), (msum_replace _ _ _ _ _ E).
      unfold outstanding_of, outstanding. destruct (Hg hd) as (-> & -> & _). lia.
    + rewrite alter_id; [done|]. intros x Hx. congruence.
  - intros k hd' (hd & Hh & -> & _ & ->)%Hl. by apply (H7 k hd).
Qed.

Lemma SetLinkPriority_ok h b s : inv s -> inv (SetLinkPriority h b s).
Proof. intros [Hc He]. split; [by apply core_alter|exact He]. Qed.

(** ** The queues of the connections *)

(** An operation that leaves the pending fragments, the configuration, and the type
    and the packets of every connection that remains. *)
Definition config (s s' : scheduler) : Prop :=
  (forall t, max_credits t s' = max_credits t s) /\ (forall t, mtu_of t s' = mtu_of t s).

(** The type and the packets of a connection. *)
Definition conn (s : scheduler) (h : Z) : option (ConnectionType * list BasePacketBuilder) :=
  (fun hd => (connection_type_ hd, queue_ hd)) <$> acl_queue_handlers_ s !! h.

Definition derived (s s' : scheduler) : Prop := config s s' /\ forall h, conn s' h = conn s h.

Lemma derived_refl s : derived s s.
Proof. done. Qed.

Lemma derived_trans s1 s2 s3 : derived s1 s2 -> derived s2 s3 -> derived s1 s3.
Proof.
  intros [[A1 A2] A3] [[B1 B2] B3]. split; [split; intros t; by rewrite ?B1, ?B2|].
  intros h. by rewrite B3.
Qed.

Lemma conn_insert s h hd k : conn (set_handlers (<[h := hd]> (acl_queue_handlers_ s)) s) k =
  if decide (k = h) then Some (connection_type_ hd, queue_ hd) else conn s k.
Proof.
  unfold conn. cbn. destruct (decide (k = h)) as [->|Hk]; [by rewrite lookup_insert_eq|].
  by rewrite lookup_insert_ne.
Qed.

Lemma started_derived s s' : started s s' -> derived s s' /\ pending s' = pending s.
Proof.
  intros [Hn|Hs|p Hp]; (split; [|done]); [apply derived_refl|done|].
  split; [done|]. intros h. unfold conn. cbn. rewrite lookup_fmap.
  destruct (acl_queue_handlers_ s !! h); [|done]. cbn. by rewrite register_type, register_queue.
Qed.

(** A packet that makes few enough fragments for the sixteen-bit counter. *)
Definition packet_fits (t : ConnectionType) (s : scheduler) (p : BasePacketBuilder) : Prop :=
  builder_ok p /\
  Z.of_nat (builder_size p) < Z.of_nat (mtu_of t s) * (2 ^ 16 - 1 - max_credits t s).

Definition packets_ok (s : scheduler) : Prop :=
  (forall t, (0 < mtu_of t s)%nat /\ max_credits t s < 2 ^ 16 - 1) /\
  forall h t q, conn s h = Some (t, q) -> Forall (packet_fits t s) q.

Lemma packet_fits_config s s' t p : config s s' -> packet_fits t s p -> packet_fits t s' p.
Proof. unfold packet_fits. intros [-> ->]. done. Qed.

(** The queues of [s'] hold packets that fit in [s]. *)
Lemma packets_ok_config s s' : config s s' -> packets_ok s ->
  (forall h t q, conn s' h = Some (t, q) -> Forall (packet_fits t s) q) -> packets_ok s'.
Proof.
  intros Hcf [H1 _] Hq. pose proof Hcf as [Hm Hmtu]. split; [intros t; rewrite Hm, Hmtu; apply H1|].
  intros h t q H. specialize (Hq h t q H). clear H.
  induction Hq; [constructor|]. constructor; [by apply (packet_fits_config s)|done].
Qed.

Lemma packets_ok_derived s s' : derived s s' -> packets_ok s -> packets_ok s'.
Proof.
  intros [Hcf Hd] Hp. apply (packets_ok_config s); [done|done|]. intros h t q. rewrite Hd. apply Hp.
Qed.

(** ** The fragments of a packet *)

Lemma packet_fragments_spec t h pr mtu p : (0 < mtu)%nat -> builder_ok p ->
  exists fs, packet_fragments t h pr mtu p = Some fs /\ fs <> [] /\
    (forall f, f ∈ fs -> pf_type f = t /\ pf_handle f = h /\ pf_priority f = pr /\
       ab_handle (pf_packet f) = h /\ (length (ab_payload (pf_packet f)) <= mtu)%nat) /\
    mjoin ((fun f => ab_payload (pf_packet f)) <$> fs) = builder_bytes p /\
    (length fs <= 1 \/ (length fs - 1) * mtu < builder_size p)%nat.
Proof.
  intros Hm Hp. unfold packet_fragments. destruct (Nat.leb_spec (builder_size p) mtu) as [Hs|Hs].
  { eexists. split; [done|]. split; [done|]. split_and!; [|cbn; by rewrite app_nil_r|left; done].
    intros f ->%list_elem_of_singleton. cbn. split_and!; try done. unfold builder_bytes. by rewrite length_le_bytes. }
  destruct (GetFragments_spec mtu p Hm Hp) as (fs & -> & B & S1 & S2). cbn [mbind option_bind].
  eexists. split; [done|].
  assert (Hj : forall (F : nat -> RawBuilder -> packet_fragment) l,
    (forall i f, ab_payload (pf_packet (F i f)) = payload_ f) ->
    mjoin ((fun f => ab_payload (pf_packet f)) <$> imap F l) = mjoin (payload_ <$> l)).
  { intros F l HF. f_equal. revert F HF. induction l as [|x l IH]; intros F HF; [done|].
    rewrite imap_cons. cbn. rewrite HF. f_equal. apply IH. intros i f. apply HF. }
  assert (Hb : length (builder_bytes p) = builder_size p) by apply length_le_bytes.
  assert (Hne : fs <> []) by (intros ->; rewrite <- B in Hb; cbn in Hb; lia).
  split_and!.
  - destruct fs; [done|]. by rewrite imap_cons.
  - intros f (i & Hf)%list_elem_of_lookup. rewrite list_lookup_imap in Hf.
    apply fmap_Some in Hf as (x & Hx & ->). cbn. split_and!; try done.
    rewrite Forall_forall in S1. apply (S1 x). by eapply list_elem_of_lookup_2.
  - rewrite Hj by done. exact B.
  - right. rewrite length_imap. destruct fs as [|f fs' _] using rev_ind; [done|].
    specialize (S2 fs' f eq_refl). apply Forall_app in S1 as [_ S1]. apply Forall_cons_1 in S1 as [S1 _].
    rewrite <- Hb, <- B, fmap_app, join_app, !length_app. cbn [length fmap list_fmap mjoin list_join].
    rewrite app_nil_r.
    assert (length (mjoin (payload_ <$> fs')) = length fs' * mtu)%nat as ->.
    { clear -S2. induction S2 as [|g l Hg _ IH]; [done|]. cbn. rewrite length_app, Hg. by rewrite <- IH. }
    lia.
Qed.

Lemma total_nil t s : pending s = [] ->
  total t s = msum (fun _ hd => if decide (connection_type_ hd = t) then number_of_sent_packets_ hd else 0)
                (acl_queue_handlers_ s).
Proof.
  intros Hp. unfold total. rewrite Hp. apply msum_ext. intros h hd _. unfold outstanding_of, outstanding.
  destruct (decide _); [|done]. change (queued h []) with 0. lia.
Qed.

(** A connection holds no more packets than the credits that are missing. *)
Lemma outstanding_bound s h hd : core s -> acl_queue_handlers_ s !! h = Some hd ->
  outstanding (pending s) h hd <= max_credits (connection_type_ hd) s - credits (connection_type_ hd) s.
Proof.
  intros Hc Hh. destruct (core_credits s Hc (connection_type_ hd)) as [_ B]. rewrite <- B.
  unfold total. rewrite (msum_delete _ _ h hd Hh). unfold outstanding_of at 1. rewrite decide_True by done.
  assert (0 <= msum (outstanding_of (connection_type_ hd) (pending s)) (delete h (acl_queue_handlers_ s))); [|lia].
  apply msum_nonneg. intros k x Hk. unfold outstanding_of, outstanding. destruct (decide _); [|done].
  apply lookup_delete_Some in Hk as [_ Hk]. pose proof (core_sent s Hc k x Hk). lia.
Qed.

(** The state after a packet of [h] has been cut into the fragments of [q]. *)
Lemma core_buffered s h hd hd' q fs t : core s -> acl_queue_handlers_ s !! h = Some hd ->
  pending s = [] -> queue_ok q -> items q = fs -> t = connection_type_ hd ->
  (forall f, f ∈ fs -> pf_type f = t /\ pf_handle f = h /\ (pf_priority f <= 1)%nat) ->
  (forall f g, f ∈ fs -> g ∈ fs -> pf_priority f = pf_priority g) ->
  connection_type_ hd' = t -> dequeue_is_registered_ hd' = false ->
  number_of_sent_packets_ hd' = number_of_sent_packets_ hd + Z.of_nat (length fs) ->
  number_of_sent_packets_ hd' < 2 ^ 16 ->
  core (set_handlers (<[h := hd']> (set_registered false <$> acl_queue_handlers_ s)) (set_fragments q s)).
Proof.
  intros Hcore Hh Hp Hq Hi Ht Hf Hpr Htp Hdq Hsent Hlt. pose proof Hcore as [H1 H2 H3 H4 H5 H6 H7].
  set (s' := set_handlers _ _). assert (Hp' : pending s' = fs) by exact Hi.
  assert (Hqh : queued h fs = Z.of_nat (length fs)) by (apply queued_all; intros f Hff; by apply Hf).
  assert (Hqk : forall k, k <> h -> queued k fs = 0).
  { intros k Hk. apply queued_none. intros f Hff E. destruct (Hf f Hff) as (_ & E2 & _). congruence. }
  constructor; try done.
  - intros f Hff. rewrite Hp' in Hff. destruct (Hf f Hff) as (A & B & C). split; [done|]. exists hd'.
    rewrite B. cbn. by rewrite lookup_insert_eq, A.
  - intros f g Hff Hg. rewrite Hp' in Hff, Hg. split; [|by apply Hpr].
    destruct (Hf f Hff) as (_ & -> & _). by destruct (Hf g Hg) as (_ & -> & _).
  - intros k x. rewrite Hp'. cbn. destruct (decide (k = h)) as [->|Hk].
    + rewrite lookup_insert_eq. intros [= <-]. rewrite Hqh. pose proof (H4 h hd Hh) as B. rewrite Hp in B.
      change (queued h []) with 0 in B. lia.
    + rewrite lookup_insert_ne, lookup_fmap by done. intros (y & Hy & ->)%fmap_Some. rewrite Hqk by done.
      pose proof (H4 k y Hy) as B. rewrite Hp in B. exact B.
  - intros u. destruct (H5 u) as [A B]. split; [done|]. change (max_credits u s') with (max_credits u s).
    rewrite <- B. change (credits u s') with (credits u s). f_equal. rewrite (total_nil u s Hp).
    unfold total. rewrite Hp'. cbn.
    rewrite (msum_replace _ _ h (set_registered false hd)) by (by rewrite lookup_fmap, Hh).
    rewrite msum_fmap, (msum_delete _ _ h hd Hh), (msum_delete _ _ h hd Hh).
    unfold outstanding_of at 1 3 4, outstanding. cbn [set_registered connection_type_ number_of_sent_packets_].
    rewrite Htp, Hsent, Hqh, Ht.
    rewrite (msum_ext _ (fun _ hd => if decide (connection_type_ hd = u) then number_of_sent_packets_ hd else 0)).
    + destruct (decide _); lia.
    + intros k x Hk. apply lookup_delete_Some in Hk as [Hk _]. unfold outstanding_of, outstanding. cbn.
      rewrite Hqk by done. destruct (decide _); lia.
  - intros k x. cbn. destruct (decide (k = h)) as [->|Hk].
    + rewrite lookup_insert_eq. intros [= <-]. congruence.
    + rewrite lookup_insert_ne, lookup_fmap by done. intros (y & Hy & ->)%fmap_Some. done.
Qed.

Lemma buffer_packet_ok h hd p rest s : inv s -> packets_ok s -> acl_queue_handlers_ s !! h = Some hd ->
  dequeue_is_registered_ hd = true -> queue_ hd = p :: rest ->
  exists s' fs, buffer_packet h s = Some s' /\ inv s' /\ packets_ok s' /\
    packet_fragments (connection_type_ hd) h (if high_priority_ hd then 1 else 0)%nat
      (mtu_of (connection_type_ hd) s) p = Some fs /\
    pending s = [] /\ pending s' = fs /\ config s s' /\
    forall k, conn s' k = if decide (k = h) then Some (connection_type_ hd, rest) else conn s k.
Proof.
  intros [Hc He] [Hm Hpk] Hh Hd Hq. set (t := connection_type_ hd) in *.
  destruct (core_dequeue s Hc h hd Hh Hd) as [Hp Hcr].
  assert (Hcn : conn s h = Some (t, queue_ hd)) by (unfold conn; by rewrite Hh).
  pose proof (Hpk h _ _ Hcn) as Fq. rewrite Hq in Fq. apply Forall_cons_1 in Fq as [[Hbo Hsz] Fr].
  set (pr := (if high_priority_ hd then 1 else 0)%nat).
  destruct (packet_fragments_spec t h pr (mtu_of t s) p) as (fs & Efs & Hne & Hf & _ & Hlen); [apply Hm|done|].
  assert (Hpr : (pr <= 1)%nat) by (unfold pr; destruct (high_priority_ hd); lia).
  destruct (push_all_spec fs pr (fragments_to_send_ s) Hpr (core_queue s Hc)) as (q & Eq & Hqok & Hi & _).
  { intros _. unfold pending, items in Hp. by apply app_eq_nil in Hp as [_ ?]. }
  assert (Hi' : items q = fs) by (rewrite Hi; fold (pending s); by rewrite Hp).
  assert (Hsz' : size q = length fs) by (rewrite size_spec by done; by rewrite Hi').
  set (hd' := set_sent (u16 (number_of_sent_packets_ hd + Z.of_nat (length fs)))
                (set_registered false (set_queue_packets rest hd))).
  set (s' := send_next_fragment (set_handlers (<[h := hd']> (set_registered false <$> acl_queue_handlers_ s))
               (set_fragments q s))).
  exists s', fs.
  assert (Hlf : Z.of_nat (length fs) + max_credits t s < 2 ^ 16).
  { destruct (Hm t) as [Hm1 Hm2]. destruct Hlen as [Hlen|Hlen]; [lia|].
    assert (Z.of_nat (length fs - 1) * Z.of_nat (mtu_of t s) < Z.of_nat (mtu_of t s) * (2 ^ 16 - 1 - max_credits t s))
      by (apply inj_lt in Hlen; rewrite Nat2Z.inj_mul in Hlen; fold t in Hsz; lia).
    assert (Z.of_nat (length fs - 1) < 2 ^ 16 - 1 - max_credits t s) by nia. lia. }
  pose proof (outstanding_bound s h hd Hc Hh) as Hob. unfold outstanding in Hob. rewrite Hp in Hob.
  change (queued h []) with 0 in Hob.
  pose proof (core_sent s Hc h hd Hh) as Hsent. rewrite Hp in Hsent. change (queued h []) with 0 in Hsent.
  assert (Hw : u16 (number_of_sent_packets_ hd + Z.of_nat (length fs)) =
    number_of_sent_packets_ hd + Z.of_nat (length fs)).
  { apply wrap_small. unfold in_range. fold t in Hob, Hcr. lia. }
  assert (Htk : forall k, conn s' k = if decide (k = h) then Some (t, rest) else conn s k).
  { intros k. unfold conn. cbn. destruct (decide (k = h)) as [->|Hk]; [by rewrite lookup_insert_eq|].
    rewrite lookup_insert_ne, lookup_fmap by done. by destruct (acl_queue_handlers_ s !! k). }
  assert (Hpk' : packets_ok s').
  { apply (packets_ok_config s); [done|done|]. intros k u l. rewrite Htk.
    destruct (decide (k = h)); [by intros [= <- <-]|apply Hpk]. }
  split; [|split; [split|by split_and!]].
  - unfold buffer_packet. rewrite Hh, Hq. cbv zeta.
    change (mtu_of (connection_type_ hd) (set_handlers _ s)) with (mtu_of t s). fold t. fold pr.
    rewrite Efs. cbn [mbind option_bind]. change (fragments_to_send_ (set_handlers _ s)) with (fragments_to_send_ s).
    rewrite Eq. cbn [mbind option_bind]. rewrite Hsz'. destruct (Nat.eqb_spec (length fs) 0) as [E0|_].
    { by apply nil_length_inv in E0. }
    unfold s', unregister_all_connections. cbn. do 2 f_equal. unfold set_handlers. cbn. f_equal.
    rewrite fmap_insert. rewrite (alter_as_insert _ _ _ (set_registered false (set_queue_packets rest hd)))
      by apply lookup_insert_eq.
    by rewrite insert_insert_eq.
  - assert (Hcore : core (set_handlers (<[h := hd']> (set_registered false <$> acl_queue_handlers_ s)) (set_fragments q s))).
    { eapply core_buffered; try done.
      - intros f Hff. destruct (Hf f Hff) as (A & B & C & _). split_and!; [done|done|by rewrite C].
      - intros f g Hff Hg. destruct (Hf f Hff) as (_ & _ & -> & _). by destruct (Hf g Hg) as (_ & _ & -> & _).
      - apply (wrap_range 16). lia. }
    eapply core_agree; [apply agree_enqueue|exact Hcore].
  - unfold enq_exactly. change (enqueue_registered_ s') with true. unfold can_send.
    change (pending s') with (items q). rewrite Hi'. destruct fs as [|f fs]; [done|].
    destruct (Hf f ltac:(left)) as (-> & _). symmetry. apply negb_true_iff.
    by apply buffer_full_spec; [apply (core_credits s Hc)|].
Qed.

(** ** Sending a fragment *)

Lemma total_pop t s f l hd : acl_queue_handlers_ s !! pf_handle f = Some hd ->
  msum (outstanding_of t l) (acl_queue_handlers_ s) =
  msum (outstanding_of t (f :: l)) (acl_queue_handlers_ s) + if decide (connection_type_ hd = t) then 1 else 0.
Proof.
  intros Hh. rewrite !(msum_delete _ _ _ _ Hh).
  rewrite (msum_ext (outstanding_of t l) (outstanding_of t (f :: l))).
  - unfold outstanding_of at 1 3, outstanding. unfold queued. rewrite filter_cons_True by done.
    cbn [length]. destruct (decide _); lia.
  - intros k x [Hk _]%lookup_delete_Some. unfold outstanding_of, outstanding, queued.
    by rewrite filter_cons_False by congruence.
Qed.

Lemma core_sent_one s q f l : core s -> pending s = f :: l -> queue_ok q -> items q = l ->
  0 < credits (pf_type f) s ->
  core (set_fragments q (set_credits (pf_type f) (credits (pf_type f) s - 1) s)).
Proof.
  intros Hcore Hp Hq Hi Hcr. pose proof Hcore as [H1 H2 H3 H4 H5 H6 H7].
  destruct (H2 f) as [_ (hd & Hh & Ht)]; [rewrite Hp; left|].
  set (s' := set_fragments q _). assert (Hp' : pending s' = l) by exact Hi.
  assert (Hsub : forall g, g ∈ l -> g ∈ pending s) by (intros g Hg; rewrite Hp; by right).
  constructor; try done.
  - intros g Hg. rewrite Hp' in Hg. by apply H2, Hsub.
  - intros g1 g2 Hg1 Hg2. rewrite Hp' in *. by apply H3; apply Hsub.
  - intros k x Hk. rewrite Hp'. pose proof (H4 k x Hk) as B. rewrite Hp in B. unfold queued in *.
    rewrite filter_cons in B. destruct (decide _); cbn [length] in B; lia.
  - intros u. destruct (H5 u) as [A B]. change (max_credits u s') with (max_credits u s).
    unfold total. rewrite Hp'. change (acl_queue_handlers_ s') with (acl_queue_handlers_ s).
    rewrite (total_pop u s f l hd Hh). unfold total in B. rewrite Hp in B. rewrite Ht.
    destruct (decide (pf_type f = u)) as [<-|Hu].
    + assert (credits (pf_type f) s' = credits (pf_type f) s - 1) as -> by (by destruct (pf_type f)). lia.
    + assert (credits u s' = credits u s) as -> by (by destruct (pf_type f), u). lia.
  - intros k x Hk Hd. destruct (H7 k x Hk Hd) as [E _]. by rewrite Hp in E.
Qed.

Lemma handle_enqueue_ok s : inv s -> enqueue_registered_ s = true ->
  exists f l s', handle_enqueue_next_fragment s = Some (pf_packet f, s') /\ pending s = f :: l /\
    pending s' = l /\ inv s' /\ derived s s' /\ acl_queue_handlers_ s' = acl_queue_handlers_ s.
Proof.
  intros [Hc He] Hen. unfold enq_exactly in He. rewrite Hen in He. unfold can_send in He.
  destruct (pending s) as [|f l] eqn:Ep; [done|]. symmetry in He. apply negb_true_iff in He.
  apply buffer_full_spec in He; [|apply Hc].
  destruct (pop_spec (fragments_to_send_ s) f l (core_queue s Hc) Ep) as (q & Epop & Hq & Hi).
  pose proof (core_sent_one s q f l Hc Ep Hq Hi He) as Hc1.
  set (s1 := set_fragments q (set_credits (pf_type f) (credits (pf_type f) s - 1) s)) in *.
  unfold handle_enqueue_next_fragment. rewrite front_spec by apply Hc. fold (pending s). rewrite Ep.
  cbn [head mbind option_bind]. rewrite (proj2 (Z.ltb_lt _ _) He).
  change (fragments_to_send_ (set_credits _ _ s)) with (fragments_to_send_ s). rewrite Epop.
  cbn [mbind option_bind]. fold s1.
  assert (Hd : derived s s1) by done.
  destruct (empty q) eqn:Ee.
  - apply empty_spec in Ee; [|done]. eexists f, l, _. split; [done|]. split; [done|]. split; [exact Hi|].
    split; [split|by split].
    + eapply core_agree; [apply agree_posted|]. eapply core_agree; [apply agree_enqueue|done].
    + unfold enq_exactly, can_send. change (pending (set_posted _ _)) with (items q). by rewrite Ee.
  - destruct l as [|g l]; [by apply (empty_spec q Hq) in Hi; congruence|].
    rewrite front_spec, Hi by done. cbn [head mbind option_bind].
    assert (Hcs : can_send s1 = negb (buffer_full (pf_type g) s1)).
    { unfold can_send. change (pending s1) with (items q). by rewrite Hi. }
    destruct (buffer_full (pf_type g) s1) eqn:Eb; eexists f, (g :: l), _; (split; [done|]);
      (split; [done|]); (split; [exact Hi|]); (split; [split|by split]).
    + eapply core_agree; [apply agree_enqueue|done].
    + unfold enq_exactly. rewrite (can_send_agree s1) by apply agree_enqueue. by rewrite Hcs.
    + done.
    + unfold enq_exactly. rewrite Hcs. exact Hen.
Qed.

(** ** Credits from the controller *)

Lemma credits_set t u c s : credits u (set_credits t c s) = if decide (u = t) then c else credits u s.
Proof. by destruct t, u. Qed.

Lemma core_returned s h hd n : core s -> acl_queue_handlers_ s !! h = Some hd ->
  0 <= n <= outstanding (pending s) h hd -> let t := connection_type_ hd in
  core (set_credits t (credits t s + n)
    (set_handlers (<[h := set_sent (number_of_sent_packets_ hd - n) hd]> (acl_queue_handlers_ s)) s)).
Proof.
  intros Hcore Hh Hn t. pose proof Hcore as [H1 H2 H3 H4 H5 H6 H7].
  set (s' := set_credits _ _ _). assert (Hp : pending s' = pending s) by done. unfold outstanding in Hn.
  assert (Hl : forall k x', acl_queue_handlers_ s' !! k = Some x' ->
    exists x, acl_queue_handlers_ s !! k = Some x /\ connection_type_ x' = connection_type_ x /\
      dequeue_is_registered_ x' = dequeue_is_registered_ x /\
      queued k (pending s) <= number_of_sent_packets_ x' < 2 ^ 16).
  { intros k x'. cbn. destruct (decide (k = h)) as [->|Hk].
    - rewrite lookup_insert_eq. intros [= <-]. exists hd. do 3 (split; [done|]).
      cbn [set_sent number_of_sent_packets_]. pose proof (H4 h hd Hh). lia.
    - rewrite lookup_insert_ne by done. intros H. exists x'. do 3 (split; [done|]). by apply H4. }
  constructor; try done.
  - intros f Hf. destruct (H2 f Hf) as [A (x & Hx & B)]. split; [done|]. cbn.
    destruct (decide (pf_handle f = h)) as [E|E].
    + rewrite E, lookup_insert_eq. eexists. split; [done|]. rewrite E, Hh in Hx. by injection Hx as <-.
    + rewrite lookup_insert_ne by done. by exists x.
  - intros k x' (x & _ & _ & _ & H)%Hl. exact H.
  - intros u. destruct (H5 u) as [A B]. change (max_credits u s') with (max_credits u s).
    unfold total in *. rewrite Hp. cbn [s' set_credits set_handlers acl_queue_handlers_].
    rewrite (msum_replace _ _ _ _ _ Hh). unfold outstanding_of at 2 3, outstanding.
    cbn [set_sent connection_type_ number_of_sent_packets_].
    unfold s'. rewrite credits_set. change (credits u (set_handlers _ s)) with (credits u s). fold t.
    destruct (decide (t = u)) as [->|Hu]; [rewrite decide_True by done|rewrite decide_False by done]; lia.
  - intros k x' (x & Hx & Et & Ed & _)%Hl Hd. rewrite Ed in Hd. rewrite Et.
    destruct (H7 k x Hx Hd) as [A B]. split; [done|]. unfold s'. rewrite credits_set.
    change (credits (connection_type_ x) (set_handlers _ s)) with (credits (connection_type_ x) s).
    destruct (decide _) as [E|]; [rewrite E in B; lia|done].
Qed.

(** More credits keep a fragment sendable. *)
Lemma can_send_more s s' : pending s' = pending s -> (forall t, 0 <= credits t s <= credits t s') ->
  can_send s = true -> can_send s' = true.
Proof.
  unfold can_send. intros -> Hc. destruct (pending s) as [|f l]; [done|]. unfold buffer_full.
  rewrite !negb_true_iff, !Z.eqb_neq. specialize (Hc (pf_type f)). lia.
Qed.

(** Without a change from zero, what can be sent does not change. *)
Lemma can_send_same s s' : pending s' = pending s ->
  (forall t, credits t s = 0 <-> credits t s' = 0) -> can_send s' = can_send s.
Proof.
  unfold can_send. intros -> Hc. destruct (pending s) as [|f l]; [done|]. unfold buffer_full.
  specialize (Hc (pf_type f)). zcmp; try done; lia.
Qed.

(** A change, and the restart that may follow it. *)
Lemma maybe_restart_ok s1 (restart : bool) : core s1 -> enq_only s1 -> (restart = false -> enq_exactly s1) ->
  exists s', (if restart then start_round_robin s1 else Some s1) = Some s' /\ inv s' /\
    derived s1 s' /\ pending s' = pending s1.
Proof.
  intros Hc He Hx. destruct restart.
  - destruct (start_spec s1 (core_queue s1 Hc)) as (s' & E & Hs). exists s'. split; [done|].
    split; [by eapply start_ok|]. by apply started_derived.
  - exists s1. split; [done|]. split; [split; [done|by apply Hx]|]. split; [apply derived_refl|done].
Qed.

(** The restart that follows an increase of the credits of type [t]. *)
Lemma reclaim_ok s s1 t (restart : bool) : inv s -> core s1 -> pending s1 = pending s ->
  enqueue_registered_ s1 = enqueue_registered_ s ->
  (forall u, u <> t -> credits u s1 = credits u s) -> credits t s <= credits t s1 ->
  (restart = false -> credits t s = 0 -> credits t s1 = 0) ->
  exists s', (if restart then start_round_robin s1 else Some s1) = Some s' /\ inv s' /\
    derived s1 s' /\ pending s' = pending s1.
Proof.
  intros [Hc He] Hc1 Hp Hen Hcu Hct Hr. unfold enq_exactly in He.
  assert (Hmore : forall u, 0 <= credits u s <= credits u s1).
  { intros u. pose proof (core_credits s Hc u). destruct (decide (u = t)) as [->|Hu]; [lia|]. rewrite Hcu by done. lia. }
  apply maybe_restart_ok; [done| |].
  - unfold enq_only. rewrite Hen, He. by apply can_send_more.
  - intros Hf. unfold enq_exactly. rewrite Hen, He. symmetry. apply can_send_same; [done|].
    intros u. specialize (Hmore u).
    destruct (decide (u = t)) as [->|Hu]; [split; [by apply Hr|lia]|]. by rewrite Hcu.
Qed.

Lemma incoming_credits_ok h n s : inv s ->
  (forall hd, acl_queue_handlers_ s !! h = Some hd -> 0 <= n <= outstanding (pending s) h hd) ->
  exists s', incoming_acl_credits h n s = Some s' /\ inv s' /\ derived s s' /\ pending s' = pending s.
Proof.
  intros Hinv Hn. pose proof Hinv as [Hc _]. unfold incoming_acl_credits.
  destruct (acl_queue_handlers_ s !! h) as [hd|] eqn:Hh.
  2:{ exists s. split; [done|]. split; [done|]. split; [apply derived_refl|done]. }
  specialize (Hn hd eq_refl). pose proof (core_returned s h hd n Hc Hh Hn) as Hc1. cbv zeta in Hc1 |- *.
  set (t := connection_type_ hd) in *.
  pose proof (outstanding_bound s h hd Hc Hh) as Hb. fold t in Hb.
  assert (Hle : n <= number_of_sent_packets_ hd).
  { unfold outstanding in Hn. pose proof (queued_nonneg h (pending s)). lia. }
  rewrite (proj2 (Z.leb_le _ _) Hle).
  set (s0 := set_handlers _ s) in *. change (credits t s0) with (credits t s). change (max_credits t s0) with (max_credits t s).
  pose proof (core_max s Hc t) as Hmax. pose proof (core_credits s Hc t) as [Hc0 _].
  rewrite (wrap_small 16) by (unfold in_range; lia). rewrite (proj2 (Z.ltb_ge _ _)) by lia.
  set (s1 := set_credits t (credits t s + n) s0) in *.
  assert (Hd1 : derived s s1).
  { split; [done|]. intros k. change (conn s1 k) with (conn s0 k). unfold s0. rewrite conn_insert.
    destruct (decide (k = h)) as [->|]; [|done]. unfold conn. by rewrite Hh. }
  destruct (reclaim_ok s s1 t (credits t s =? 0)) as (s' & E & Hi & Hs); try done.
  - intros u Hu. unfold s1. rewrite credits_set, decide_False by done. done.
  - unfold s1. rewrite credits_set, decide_True by done. lia.
  - intros Hz%Z.eqb_neq ?. lia.
  - exists s'. split; [done|]. split; [done|]. destruct Hs as [Hs Hp].
    split; [by eapply derived_trans|done].
Qed.

(** ** Unregister *)

Lemma drop_all h l : forall fuel q new sent, queue_ok q -> items q = l -> (length l < fuel)%nat ->
  (forall f, f ∈ l -> pf_handle f = h) -> Z.of_nat (length l) <= sent < 2 ^ 16 ->
  drop_loop fuel h q new sent = Some (new, sent - Z.of_nat (length l)).
Proof.
  induction l as [|f l IH]; intros fuel q new sent Hq Hi Hf Hh Hs;
    (destruct fuel as [|fuel]; [lia|]); cbn [drop_loop].
  - rewrite (proj2 (empty_spec q Hq) Hi). do 2 f_equal. cbn. lia.
  - destruct (empty q) eqn:Ee; [apply empty_spec in Ee; [congruence|done]|].
    rewrite front_spec, Hi by done. cbn [head mbind option_bind].
    destruct (pop_spec q f l Hq Hi) as (q' & -> & Hq' & Hi'). cbn [mbind option_bind].
    rewrite (proj2 (Z.eqb_eq _ _)) by (apply Hh; left). cbn [length] in *.
    rewrite (wrap_small 16) by (unfold in_range; lia).
    rewrite (IH fuel q' new (sent - 1)); [do 2 f_equal; lia|done|done|lia| |lia].
    intros g Hg. apply Hh. by right.
Qed.

Lemma drop_none h l pr : (pr <= 1)%nat -> forall fuel q new sent, queue_ok q -> items q = l ->
  (length l < fuel)%nat -> (forall f, f ∈ l -> pf_handle f <> h /\ pf_priority f = pr) ->
  queue_ok new -> (pr = 1%nat -> low new = []) ->
  exists new', drop_loop fuel h q new sent = Some (new', sent) /\ queue_ok new' /\ items new' = items new ++ l.
Proof.
  intros Hpr. induction l as [|f l IH]; intros fuel q new sent Hq Hi Hf Hh Hn Hl;
    (destruct fuel as [|fuel]; [lia|]); cbn [drop_loop].
  - rewrite (proj2 (empty_spec q Hq) Hi). exists new. by rewrite app_nil_r.
  - destruct (empty q) eqn:Ee; [apply empty_spec in Ee; [congruence|done]|].
    rewrite front_spec, Hi by done. cbn [head mbind option_bind].
    destruct (pop_spec q f l Hq Hi) as (q' & -> & Hq' & Hi'). cbn [mbind option_bind].
    destruct (Hh f ltac:(left)) as [Hfh ->]. rewrite (proj2 (Z.eqb_neq _ _)) by done.
    destruct (push_all_spec [f] pr new Hpr Hn Hl) as (new1 & E & Hn1 & Hi1 & Hl1).
    cbn [push_all] in E. destruct (push f pr new) as [n1|]; [|done]. cbn [mbind option_bind] in *.
    injection E as ->. cbn [length] in Hf.
    destruct (IH fuel q' new1 sent Hq' Hi') as (new' & E & Hn' & Hi2); [lia| |done|done|].
    + intros g Hg. apply Hh. by right.
    + exists new'. split; [done|]. split; [done|]. by rewrite Hi2, Hi1, <- app_assoc.
Qed.

(** The fragments of [h] are dropped, and its counter is what the controller holds. *)
Lemma drop_ok h hd s : core s -> acl_queue_handlers_ s !! h = Some hd ->
  exists q, queue_ok q /\ items q = filter (fun f => pf_handle f <> h) (pending s) /\
    drop_packet_fragments h s = Some (set_fragments q
      (set_enqueue (if decide (items q = []) then if decide (pending s = []) then enqueue_registered_ s else false
                    else enqueue_registered_ s)
        (set_handlers (<[h := set_sent (outstanding (pending s) h hd) hd]> (acl_queue_handlers_ s)) s))).
Proof.
  intros Hc Hh. unfold drop_packet_fragments. pose proof (core_queue s Hc) as Hq.
  pose proof (core_sent s Hc h hd Hh) as Hs. unfold outstanding.
  destruct (pending s) as [|f l] eqn:Ep.
  { exists (fragments_to_send_ s). rewrite (proj2 (empty_spec _ Hq) Ep). split; [done|].
    split; [exact Ep|]. fold (pending s). rewrite Ep. cbn [decide]. rewrite !decide_True by done.
    change (queued h []) with 0. rewrite Z.sub_0_r.
    replace (set_sent (number_of_sent_packets_ hd) hd) with hd by (by destruct hd).
    rewrite insert_id by done. by destruct s. }
  destruct (empty (fragments_to_send_ s)) eqn:Ee.
  { apply empty_spec in Ee; [|done]. unfold pending in Ep. congruence. }
  rewrite Hh. cbn [mbind option_bind]. rewrite size_spec by done. fold (pending s).
  rewrite (decide_False (P := f :: l = [])) by done.
  destruct (core_fragment s Hc f) as [Hpr _]; [rewrite Ep; left|].
  assert (Hone : forall g, g ∈ pending s -> pf_handle g = pf_handle f /\ pf_priority g = pf_priority f).
  { intros g Hg. apply (core_one s Hc); [done|]. rewrite Ep. left. }
  destruct (decide (pf_handle f = h)) as [Efh|Efh].
  - assert (Hall : forall g, g ∈ pending s -> pf_handle g = h) by (intros g Hg; by rewrite (proj1 (Hone g Hg))).
    rewrite <- Ep in Hs |- *. rewrite (queued_all h (pending s) Hall) in Hs |- *.
    exists empty_queue. split; [apply empty_ok|]. split.
    { symmetry. clear -Hall. induction (pending s) as [|g k IH]; [done|].
      rewrite filter_cons_False by (intros H; apply H, Hall; left). apply IH. intros x Hx. apply Hall. by right. }
    rewrite (drop_all h (pending s)); [|done|done|lia|done|lia]. cbn [mbind option_bind].
    rewrite decide_True by done. done.
  - assert (Hall : forall g, g ∈ pending s -> pf_handle g <> h /\ pf_priority g = pf_priority f).
    { intros g Hg. destruct (Hone g Hg) as [-> ->]. done. }
    destruct (drop_none h (pending s) (pf_priority f) Hpr (S (length (pending s))) (fragments_to_send_ s)
      empty_queue (number_of_sent_packets_ hd) Hq eq_refl ltac:(lia) Hall empty_ok) as (q & E & Hq' & Hi); [done|].
    exists q. split; [done|]. rewrite <- Ep.
    assert (Hfil : filter (fun g => pf_handle g <> h) (pending s) = pending s).
    { clear -Hall. induction (pending s) as [|g k IH]; [done|].
      rewrite filter_cons_True by (apply Hall; left). f_equal. apply IH. intros x Hx. apply Hall. by right. }
    rewrite Hfil. split; [exact Hi|]. rewrite Ep in E |- *. rewrite <- Ep in E |- *. rewrite E. cbn [mbind option_bind].
    assert (Hne : items q <> []) by (rewrite Hi; unfold items at 1; cbn; by rewrite Ep).
    rewrite (decide_False (P := items q = [])) by done.
    destruct (empty q) eqn:Eq; [by apply empty_spec in Eq|].
    rewrite queued_none by (intros g Hg; by apply Hall). by rewrite Z.sub_0_r.
Qed.

Lemma core_unregistered s h hd q : core s -> acl_queue_handlers_ s !! h = Some hd ->
  queue_ok q -> items q = filter (fun f => pf_handle f <> h) (pending s) ->
  let t := connection_type_ hd in
  core (set_credits t (credits t s + outstanding (pending s) h hd)
    (set_handlers (delete h (acl_queue_handlers_ s)) (set_fragments q s))).
Proof.
  intros Hcore Hh Hq Hi t. pose proof Hcore as [H1 H2 H3 H4 H5 H6 H7].
  set (s' := set_credits _ _ _). assert (Hp : pending s' = filter (fun f => pf_handle f <> h) (pending s)) by exact Hi.
  assert (Hk : forall k, h <> k -> queued k (pending s') = queued k (pending s)).
  { intros k Hkh. rewrite Hp. unfold queued. rewrite list_filter_filter. do 2 f_equal.
    apply list_filter_iff. intros x. split; [tauto|]. intros <-. by split. }
  assert (Hl : forall k x, acl_queue_handlers_ s' !! k = Some x -> h <> k /\ acl_queue_handlers_ s !! k = Some x).
  { intros k x. apply lookup_delete_Some. }
  assert (Ho : 0 <= outstanding (pending s) h hd).
  { unfold outstanding. pose proof (H4 h hd Hh). lia. }
  constructor; try done.
  - intros f Hf. rewrite Hp in Hf. apply list_elem_of_filter in Hf as [Hfh Hf].
    destruct (H2 f Hf) as [A (x & Hx & B)]. split; [done|]. exists x. cbn. by rewrite lookup_delete_ne.
  - intros f g Hf Hg. rewrite Hp in Hf, Hg. apply list_elem_of_filter in Hf as [_ Hf], Hg as [_ Hg]. by apply H3.
  - intros k x [Hkh Hx]%Hl. rewrite Hk by done. by apply H4.
  - intros u. destruct (H5 u) as [A B]. change (max_credits u s') with (max_credits u s).
    unfold total in *. rewrite (msum_delete _ _ h hd Hh) in B. unfold outstanding_of at 1 in B.
    cbn [s' set_credits set_handlers acl_queue_handlers_].
    rewrite (msum_ext (outstanding_of u (pending s')) (outstanding_of u (pending s))).
    2:{ intros k x [Hkh _]%lookup_delete_Some. unfold outstanding_of, outstanding. by rewrite Hk. }
    unfold s'. rewrite credits_set. change (credits u (set_handlers _ _)) with (credits u s). fold t in B.
    destruct (decide (t = u)) as [<-|Hu]; [rewrite decide_True by done|rewrite decide_False by done]; lia.
  - intros k x [Hkh Hx]%Hl Hd. destruct (H7 k x Hx Hd) as [A B]. rewrite Hp, A. split; [done|].
    unfold s'. rewrite credits_set. change (credits _ (set_handlers _ _)) with (credits (connection_type_ x) s).
    destruct (decide _) as [E|]; [rewrite E in B; lia|done].
Qed.

Lemma Unregister_ok h hd s : inv s -> acl_queue_handlers_ s !! h = Some hd ->
  exists s', Unregister h s = Some s' /\ inv s' /\ config s s' /\
    (forall k, conn s' k = if decide (k = h) then None else conn s k) /\
    pending s' = filter (fun f => pf_handle f <> h) (pending s).
Proof.
  intros [Hc He] Hh. unfold Unregister, IsRegistered. rewrite bool_decide_eq_true_2 by (rewrite Hh; by eexists).
  destruct (drop_ok h hd s Hc Hh) as (q & Hq & Hi & ->). cbn [mbind option_bind].
  set (en := if decide (items q = []) then _ else _).
  cbn [set_fragments set_enqueue set_handlers acl_queue_handlers_]. rewrite lookup_insert_eq.
  cbn [mbind option_bind set_sent connection_type_ number_of_sent_packets_].
  set (t := connection_type_ hd). set (o := outstanding (pending s) h hd).
  pose proof (outstanding_bound s h hd Hc Hh) as Hb. fold t o in Hb.
  pose proof (core_max s Hc t) as Hmax. pose proof (core_credits s Hc t) as [Hc0 _].
  assert (Ho : 0 <= o) by (unfold o, outstanding; pose proof (core_sent s Hc h hd Hh); lia).
  match goal with |- context [u16 (credits t ?x + o)] => change (credits t x) with (credits t s) end.
  pose proof (core_unregistered s h hd q Hc Hh Hq Hi) as Hc1. cbv zeta in Hc1. fold t o in Hc1.
  set (s1 := set_credits t (credits t s + o) _) in Hc1.
  match goal with |- context [set_start ?p ?x] => set (p0 := p); replace x with (set_enqueue en s1) end.
  2:{ rewrite (wrap_small 16 (credits t s + o)) by (unfold in_range; lia). unfold s1, set_handlers, set_enqueue, set_credits. cbn.
      f_equal. symmetry. apply delete_insert_eq. }
  set (s2 := set_start p0 (set_enqueue en s1)).
  assert (Hc2 : core s2) by (eapply core_agree; [apply agree_start|]; eapply core_agree; [apply agree_enqueue|done]).
  assert (Hd : forall k, conn s2 k = if decide (k = h) then None else conn s k).
  { intros k. unfold conn. change (acl_queue_handlers_ s2) with (delete h (acl_queue_handlers_ s)).
    destruct (decide (k = h)) as [->|]; [by rewrite lookup_delete_eq|by rewrite lookup_delete_ne]. }
  assert (Hgoal : exists s', (if (0 <? o) && (credits t s =? 0) then start_round_robin s2 else Some s2) = Some s' /\
    inv s' /\ derived s2 s' /\ pending s' = pending s2).
  { destruct (decide (items q = [])) as [E0|E0].
    - assert (Hex : enq_exactly s2).
      { unfold enq_exactly, can_send. change (pending s2) with (items q). rewrite E0.
        change (enqueue_registered_ s2) with en. unfold en. destruct (decide (pending s = [])) as [Ep|]; [|done].
        unfold enq_exactly, can_send in He. by rewrite Ep in He. }
      apply maybe_restart_ok; [done| |done]. unfold enq_only. by rewrite Hex.
    - assert (Ep : items q = pending s).
      { rewrite Hi. destruct (filter _ (pending s)) as [|f l] eqn:Ef; [congruence|].
        assert (Hf : f ∈ pending s /\ pf_handle f <> h).
        { assert (f ∈ f :: l) as H by left. rewrite <- Ef in H. by apply list_elem_of_filter in H as [? ?]. }
        rewrite <- Ef. assert (Hall : forall g, g ∈ pending s -> pf_handle g <> h).
        { intros g Hg. rewrite (proj1 (core_one s Hc g f Hg (proj1 Hf))). apply Hf. }
        clear -Hall. induction (pending s) as [|g k IH]; [done|]. rewrite filter_cons_True by (apply Hall; left).
        f_equal. apply IH. intros x Hx. apply Hall. by right. }
      apply (reclaim_ok s s2 t); [by split|done|exact Ep|done| | |].
      + intros u Hu. change (credits u s2) with (credits u s1). unfold s1. by rewrite credits_set, decide_False.
      + change (credits t s2) with (credits t s1). unfold s1. rewrite credits_set, decide_True by done. lia.
      + intros Hf Hz. change (credits t s2) with (credits t s1). unfold s1. rewrite credits_set, decide_True by done.
        rewrite Hz in Hf. apply andb_false_iff in Hf as [Hf|Hf]; [apply Z.ltb_ge in Hf; lia|done]. }
  destruct Hgoal as (s' & E & Hinv & Hds & Hps). exists s'. split; [exact E|]. split; [done|].
  destruct Hds as [[Hm1 Hm2] Hds].
  split; [split; intros u; by rewrite ?Hm1, ?Hm2|]. split; [|rewrite Hps; exact Hi].
  intros k. by rewrite Hds.
Qed.

(** ** The scheduler as a transition system *)

Inductive event :=
| EvRegister (t : ConnectionType) (h : Z) (queue : list BasePacketBuilder)
| EvUnregister (h : Z)
| EvSetPriority (h : Z) (b : bool)
| EvPacket (h : Z) (p : BasePacketBuilder)    (* the upper end of the queue enqueues *)
| EvDequeue (h : Z)                           (* the callback on the queue of [h] *)
| EvEnqueue                                   (* the callback on the queue of the HCI layer *)
| EvCredits (h : Z) (n : Z)                   (* the controller has sent [n] packets *)
| EvPosted.                                   (* the posted task *)

Definition upper_enqueue (h : Z) (p : BasePacketBuilder) (s : scheduler) : scheduler :=
  set_handlers (alter (fun hd => set_queue_packets (queue_ hd ++ [p]) hd) h (acl_queue_handlers_ s)) s.

Definition run (ev : event) (s : scheduler) : option (scheduler * list AclBuilder) :=
  match ev with
  | EvRegister t h queue => s ← Register t h queue s; Some (s, [])
  | EvUnregister h => s ← Unregister h s; Some (s, [])
  | EvSetPriority h b => Some (SetLinkPriority h b s, [])
  | EvPacket h p => Some (upper_enqueue h p s, [])
  | EvDequeue h => s ← buffer_packet h s; Some (s, [])
  | EvEnqueue => '(packet, s) ← handle_enqueue_next_fragment s; Some (s, [packet])
  | EvCredits h n => s ← incoming_acl_credits h n s; Some (s, [])
  | EvPosted => s ← start_round_robin (set_posted (posted s - 1) s); Some (s, [])
  end.

(** What the environment guarantees: a handle is registered once, callbacks are
    called only while registered and on a queue that has a packet, the controller
    returns only credits for packets it holds, and the packets make few enough
    fragments for the counter. *)
Definition event_ok (ev : event) (s : scheduler) : Prop :=
  match ev with
  | EvRegister t h queue => acl_queue_handlers_ s !! h = None /\ Forall (packet_fits t s) queue
  | EvUnregister h => is_Some (acl_queue_handlers_ s !! h)
  | EvSetPriority _ _ => True
  | EvPacket h p =>
      match acl_queue_handlers_ s !! h with Some hd => packet_fits (connection_type_ hd) s p | None => True end
  | EvDequeue h =>
      match acl_queue_handlers_ s !! h with
      | Some hd => dequeue_is_registered_ hd = true /\ queue_ hd <> []
      | None => False
      end
  | EvEnqueue => enqueue_registered_ s = true
  | EvCredits h n =>
      match acl_queue_handlers_ s !! h with
      | Some hd => 0 <= n <= outstanding (pending s) h hd
      | None => True
      end
  | EvPosted => (0 < posted s)%nat
  end.

#[export] Instance call_ok_dec c : Decision (call_ok c).
Proof. unfold call_ok. apply _. Defined.
#[export] Instance packet_fits_dec t s p : Decision (packet_fits t s p).
Proof. unfold packet_fits, builder_ok. apply _. Defined.
#[export] Instance event_ok_dec ev s : Decision (event_ok ev s).
Proof.
  destruct ev as [t h q|h|h b|h p|h| |h n|]; cbn [event_ok]; try apply _;
    destruct (acl_queue_handlers_ s !! h); try apply _.
Defined.

(** The sizes the controller may report. *)
Definition controller_ok (acl le : Z) (acl_length le_length : nat) : Prop :=
  0 <= acl < 2 ^ 16 - 1 /\ 0 <= le < 2 ^ 16 - 1 /\ (0 < acl_length)%nat /\ (0 < le_length)%nat.

Inductive reachable : scheduler -> Prop :=
| reach_init acl le al ll : controller_ok acl le al ll -> reachable (RoundRobinScheduler acl le al ll)
| reach_step s ev s' out : reachable s -> event_ok ev s -> run ev s = Some (s', out) -> reachable s'.

(** The packets of the pending fragments are addressed to their connection. *)
Definition labelled (s : scheduler) : Prop :=
  forall f, f ∈ pending s -> ab_handle (pf_packet f) = pf_handle f.

Definition all_inv (s : scheduler) : Prop := inv s /\ packets_ok s /\ labelled s.

Lemma initial_ok acl le al ll : controller_ok acl le al ll -> all_inv (RoundRobinScheduler acl le al ll).
Proof.
  intros (H1 & H2 & H3 & H4). split; [|split].
  - split; [|done]. constructor.
    + apply empty_ok.
    + intros f Hf. by apply elem_of_nil in Hf.
    + intros f g Hf. by apply elem_of_nil in Hf.
    + intros h hd H. cbn in H. by rewrite lookup_empty in H.
    + intros [|]; cbn; unfold total, msum; cbn; rewrite map_fold_empty; lia.
    + intros [|]; cbn; lia.
    + intros h hd H. cbn in H. by rewrite lookup_empty in H.
  - split; [intros [|]; cbn; lia|]. intros h t q. unfold conn. cbn. by rewrite lookup_empty.
  - intros f Hf. by apply elem_of_nil in Hf.
Qed.

(** How the packets of one connection move: [sub] from the upper layer, [out] to
    the HCI layer. *)
Definition flows (s s' : scheduler) (out : list AclBuilder) (k : Z) (sub : list BasePacketBuilder) : Prop :=
  config s s' /\
  ((exists f, out = [pf_packet f] /\ ab_handle (pf_packet f) = pf_handle f /\ sub = [] /\
      pending s = f :: pending s' /\ conn s' k = conn s k) \/
   out = [] /\
   ((filter (fun f => pf_handle f = k) (pending s') = filter (fun f => pf_handle f = k) (pending s) /\
     conn s' k = (fun '(t, q) => (t, q ++ sub)) <$> conn s k) \/
    (exists t p rest fs pr, sub = [] /\ conn s k = Some (t, p :: rest) /\ conn s' k = Some (t, rest) /\
       pending s = [] /\ pending s' = fs /\ packet_fragments t k pr (mtu_of t s) p = Some fs))).

Definition submits (k : Z) (ev : event) : list BasePacketBuilder :=
  match ev with EvPacket h p => if decide (h = k) then [p] else [] | _ => [] end.

(** The events that do not register or unregister [k]. *)
Definition keeps_conn (k : Z) (ev : event) : Prop :=
  match ev with EvRegister _ h _ | EvUnregister h => h <> k | _ => True end.

Lemma derived_flows s s' k : derived s s' -> pending s' = pending s -> flows s s' [] k [].
Proof.
  intros [Hcf Hd] Hp. split; [done|]. right. split; [done|]. left. rewrite Hp, Hd. split; [done|].
  destruct (conn s k) as [[t q]|]; [|done]. cbn. by rewrite app_nil_r.
Qed.

Lemma labelled_pending s s' : pending s' = pending s -> labelled s -> labelled s'.
Proof. unfold labelled. by intros ->. Qed.

Lemma register_run t h queue s : all_inv s -> event_ok (EvRegister t h queue) s ->
  exists s', Register t h queue s = Some s' /\ all_inv s' /\ pending s' = pending s /\ config s s' /\
    forall k, conn s' k = if decide (k = h) then Some (t, queue) else conn s k.
Proof.
  intros (Hinv & Hpk & Hlb) [Hh Hq].
  set (s1 := set_handlers (<[h := fresh_handler t queue]> (acl_queue_handlers_ s)) s).
  assert (Hc1 : core s1) by (apply core_insert; [apply Hinv|done]).
  assert (He1 : enq_exactly s1) by apply Hinv.
  destruct (maybe_restart_ok s1 (size (fragments_to_send_ s1) =? 0)%nat Hc1) as (s' & E & Hi & Hd & Hp).
  { unfold enq_only. by rewrite He1. }
  { done. }
  assert (Hcn : forall k, conn s' k = if decide (k = h) then Some (t, queue) else conn s k).
  { intros k. destruct Hd as [_ ->]. unfold s1. by rewrite conn_insert. }
  assert (Hcf : config s s') by apply Hd.
  exists s'. split.
  { unfold Register, IsRegistered. rewrite bool_decide_eq_false_2 by (rewrite Hh; by intros [? ?]). exact E. }
  split; [|by split_and!]. split; [done|]. split; [|by apply (labelled_pending s)].
  apply (packets_ok_config s); [done|done|]. intros k u q. rewrite Hcn.
  destruct (decide (k = h)); [by intros [= <- <-]|apply Hpk].
Qed.

Lemma unregister_run h s : all_inv s -> event_ok (EvUnregister h) s ->
  exists s', Unregister h s = Some s' /\ all_inv s' /\ config s s' /\
    (forall k, conn s' k = if decide (k = h) then None else conn s k) /\
    pending s' = filter (fun f => pf_handle f <> h) (pending s).
Proof.
  intros (Hinv & Hpk & Hlb) [hd Hh]. destruct (Unregister_ok h hd s Hinv Hh) as (s' & E & Hi & Hcf & Hcn & Hp).
  exists s'. split; [done|]. split; [|done]. split; [done|]. split.
  - apply (packets_ok_config s); [done|done|]. intros k u q. rewrite Hcn.
    destruct (decide (k = h)); [done|apply Hpk].
  - intros f Hf. rewrite Hp in Hf. apply list_elem_of_filter in Hf as [_ Hf]. by apply Hlb.
Qed.

Lemma run_ok ev s : all_inv s -> event_ok ev s ->
  exists s' out, run ev s = Some (s', out) /\ all_inv s' /\
    forall k, keeps_conn k ev -> flows s s' out k (submits k ev).
Proof.
  intros Hall Hev. pose proof Hall as (Hinv & Hpk & Hlb). destruct ev as [t h queue|h|h b|h p|h| |h n|]; cbn [run].
  - destruct (register_run t h queue s Hall Hev) as (s' & -> & Ha & Hp & Hcf & Hcn). exists s', [].
    split; [done|]. split; [done|]. intros k Hk. cbn in Hk. split; [done|]. right. split; [done|]. left.
    rewrite Hp, Hcn, decide_False by done. split; [done|]. destruct (conn s k) as [[? ?]|]; [|done]. cbn. by rewrite app_nil_r.
  - destruct (unregister_run h s Hall Hev) as (s' & -> & Ha & Hcf & Hcn & Hp). exists s', [].
    split; [done|]. split; [done|]. intros k Hk. cbn in Hk. split; [done|]. right. split; [done|]. left.
    rewrite Hp, Hcn, decide_False by done. split.
    + rewrite list_filter_filter. apply list_filter_iff. intros x. split; [tauto|]. intros <-. by split.
    + destruct (conn s k) as [[? ?]|]; [|done]. cbn. by rewrite app_nil_r.
  - exists (SetLinkPriority h b s), []. split; [done|].
    assert (Hd : derived s (SetLinkPriority h b s)).
    { split; [done|]. intros k. unfold conn. cbn. destruct (decide (k = h)) as [->|Hk].
      - rewrite lookup_alter_eq. by destruct (acl_queue_handlers_ s !! h).
      - by rewrite lookup_alter_ne. }
    split; [|intros k _; by apply derived_flows].
    split; [by apply SetLinkPriority_ok|]. split; [by apply (packets_ok_derived s)|exact Hlb].
  - exists (upper_enqueue h p s), []. split; [done|]. destruct Hinv as [Hc He].
    assert (Hcn : forall k, conn (upper_enqueue h p s) k =
      (fun '(t, q) => (t, q ++ submits k (EvPacket h p))) <$> conn s k).
    { intros k. unfold conn. cbn. destruct (decide (h = k)) as [<-|Hk].
      - rewrite lookup_alter_eq. by destruct (acl_queue_handlers_ s !! h).
      - rewrite lookup_alter_ne by done. destruct (acl_queue_handlers_ s !! k); [|done]. cbn. by rewrite app_nil_r. }
    split; [split; [split; [by apply core_alter|exact He]|split; [|exact Hlb]]|].
    + apply (packets_ok_config s); [done|done|]. intros k t q. rewrite Hcn.
      intros ([t' q'] & Hk & [= -> ->])%fmap_Some. apply Forall_app_2; [by apply (proj2 Hpk k)|].
      cbn. destruct (decide (h = k)) as [->|]; [|constructor]. constructor; [|constructor].
      unfold conn in Hk. apply fmap_Some in Hk as (hd & Hhd & [= -> _]).
      cbn [event_ok] in Hev. by rewrite Hhd in Hev.
    + intros k _. split; [done|]. right. split; [done|]. left. split; [done|]. apply Hcn.
  - cbn [event_ok] in Hev. destruct (acl_queue_handlers_ s !! h) as [hd|] eqn:Hh; [|done].
    destruct Hev as [Hd Hq]. destruct (queue_ hd) as [|p rest] eqn:Eq; [done|].
    destruct (buffer_packet_ok h hd p rest s Hinv Hpk Hh Hd Eq) as (s' & fs & -> & Hi & Hp' & Hfs & Hp0 & Hp1 & Hcf & Hcn).
    exists s', []. split; [done|].
    destruct (packet_fragments_spec (connection_type_ hd) h (if high_priority_ hd then 1 else 0)%nat
      (mtu_of (connection_type_ hd) s) p) as (fs' & Efs & _ & Hf & _); [apply Hpk| |].
    { assert (Hc : conn s h = Some (connection_type_ hd, p :: rest)) by (unfold conn; by rewrite Hh; cbn; rewrite Eq).
      destruct Hpk as [_ Hpk]. specialize (Hpk h _ _ Hc). by apply Forall_cons_1 in Hpk as [[? _] _]. }
    rewrite Hfs in Efs. injection Efs as <-.
    split; [split; [done|split; [done|]]|].
    + intros f Hff. rewrite Hp1 in Hff. destruct (Hf f Hff) as (_ & -> & _ & -> & _). done.
    + intros k _. split; [done|]. right. split; [done|]. destruct (decide (k = h)) as [->|Hk].
      * right. eexists _, p, rest, fs, _. split; [done|]. rewrite Hcn, decide_True by done.
        split; [unfold conn; by rewrite Hh; cbn; rewrite Eq|]. done.
      * left. rewrite Hcn, decide_False by done. split.
        -- rewrite Hp0, Hp1. cbn. clear -Hf Hk. induction fs as [|f fs IH]; [done|].
           destruct (Hf f ltac:(left)) as (_ & Hfh & _). rewrite filter_cons_False by congruence.
           apply IH. intros g Hg. apply Hf. by right.
        -- destruct (conn s k) as [[? ?]|]; [|done]. cbn. by rewrite app_nil_r.
  - destruct (handle_enqueue_ok s Hinv Hev) as (f & l & s' & -> & Hp & Hp' & Hi & Hd & _). cbn [mbind option_bind].
    exists s', [pf_packet f]. split; [done|].
    split; [split; [done|split; [by apply (packets_ok_derived s)|]]|].
    + intros g Hg. rewrite Hp' in Hg. apply Hlb. rewrite Hp. by right.
    + intros k _. split; [apply Hd|]. left. exists f. split; [done|]. split; [apply Hlb; rewrite Hp; left|].
      split; [done|]. rewrite Hp'. split; [done|apply Hd].
  - assert (Hev' : forall hd, acl_queue_handlers_ s !! h = Some hd -> 0 <= n <= outstanding (pending s) h hd).
    { intros hd Hh. cbn [event_ok] in Hev. by rewrite Hh in Hev. }
    destruct (incoming_credits_ok h n s Hinv Hev') as (s' & -> & Hi & Hd & Hp). exists s', []. split; [done|].
    split; [|intros k _; by apply derived_flows]. split; [done|].
    split; [by apply (packets_ok_derived s)|by apply (labelled_pending s)].
  - destruct Hinv as [Hc He]. set (s1 := set_posted (posted s - 1) s).
    destruct (maybe_restart_ok s1 true) as (s' & E & Hi & Hd & Hp);
      [by apply (core_agree s); [apply agree_posted|]| |done|].
    { unfold enq_only, enq_exactly in *. rewrite (can_send_agree s) by apply agree_posted.
      change (enqueue_registered_ s1) with (enqueue_registered_ s). by rewrite He. }
    rewrite E. exists s', []. split; [done|].
    split; [|intros k _; by apply derived_flows]. split; [done|].
    split; [by apply (packets_ok_derived s)|by apply (labelled_pending s)].
Qed.

Lemma reachable_inv s : reachable s -> all_inv s.
Proof.
  induction 1 as [acl le al ll H|s ev s' out _ IH Hev Hr]; [by apply initial_ok|].
  destruct (run_ok ev s IH Hev) as (s1 & out1 & E & H & _). rewrite Hr in E. by injection E as -> ->.
Qed.

(** A sequence of events, each allowed where it occurs, and the packets sent. *)
Fixpoint run_checked (evs : list event) (s : scheduler) : option (scheduler * list AclBuilder) :=
  match evs with
  | [] => Some (s, [])
  | ev :: evs =>
      if decide (event_ok ev s) then
        '(s, out) ← run ev s;
        '(s, out') ← run_checked evs s;
        Some (s, out ++ out')
      else None
  end.

Lemma run_checked_reachable evs s s' out : reachable s -> run_checked evs s = Some (s', out) -> reachable s'.
Proof.
  revert s out. induction evs as [|ev evs IH]; intros s out Hs; cbn [run_checked]; [by intros [= <- _]|].
  destruct (decide (event_ok ev s)) as [Hev|]; [|done].
  destruct (run ev s) as [[s1 o1]|] eqn:E1; [|done]. cbn [mbind option_bind].
  destruct (run_checked evs s1) as [[s2 o2]|] eqn:E2; [|done]. cbn [mbind option_bind]. intros [= <- _].
  eapply IH; [|exact E2]. by eapply reach_step.
Qed.

(** ** The stream of one connection *)

Inductive stream (k : Z) (t : ConnectionType) : list BasePacketBuilder -> list AclBuilder -> scheduler -> Prop :=
| stream_register s q s' out : reachable s -> event_ok (EvRegister t k q) s ->
    run (EvRegister t k q) s = Some (s', out) -> stream k t q [] s'
| stream_step sub sent s ev s' out : stream k t sub sent s -> event_ok ev s -> keeps_conn k ev ->
    run ev s = Some (s', out) ->
    stream k t (sub ++ submits k ev) (sent ++ filter (fun b => ab_handle b = k) out) s'.

(** The ACL packets of a packet. *)
Definition acl_of (t : ConnectionType) (k : Z) (mtu : nat) (p : BasePacketBuilder) : list AclBuilder :=
  pf_packet <$> default [] (packet_fragments t k 0 mtu p).

Lemma acl_of_priority t k pr mtu p fs : packet_fragments t k pr mtu p = Some fs ->
  pf_packet <$> fs = acl_of t k mtu p.
Proof.
  unfold acl_of, packet_fragments. destruct (_ <=? _)%nat; [by intros [= <-]|].
  destruct (GetFragments mtu p) as [l|]; [|done]. cbn [mbind option_bind]. intros [= <-].
  cbn [default from_option id]. by rewrite !fmap_imap.
Qed.

Lemma stream_reachable k t sub sent s : stream k t sub sent s -> reachable s.
Proof. induction 1; by eapply reach_step. Qed.

Definition in_flight (k : Z) (s : scheduler) : list AclBuilder :=
  pf_packet <$> filter (fun f => pf_handle f = k) (pending s).

Lemma filter_handle_all k (l : list packet_fragment) : (forall f, f ∈ l -> pf_handle f = k) ->
  filter (fun f => pf_handle f = k) l = l.
Proof.
  intros H. induction l as [|f l IH]; [done|]. rewrite filter_cons_True by (apply H; left).
  f_equal. apply IH. intros g Hg. apply H. by right.
Qed.

(** One event keeps the account of a connection. *)
Lemma flows_account k s s' out sub t q sent : flows s s' out k sub -> packets_ok s ->
  conn s k = Some (t, q) ->
  exists q', conn s' k = Some (t, q') /\
    sent ++ in_flight k s ++ ((q ++ sub) ≫= acl_of t k (mtu_of t s)) =
    (sent ++ filter (fun b => ab_handle b = k) out) ++ in_flight k s' ++ (q' ≫= acl_of t k (mtu_of t s')).
Proof.
  intros [[_ Hmtu] Hf] Hpk Hc. rewrite Hmtu. unfold in_flight.
  destruct Hf as [(f & -> & Hl & -> & Hp & Hc')|[-> [[Hp Hc']|(t' & p & rest & fs & pr & -> & Hc1 & Hc' & Hp & Hp' & Hfs)]]].
  - exists q. rewrite Hc', app_nil_r, Hp. split; [done|]. destruct (decide (pf_handle f = k)) as [E|E].
    + rewrite !filter_cons_True by congruence. cbn. by rewrite <- !app_assoc.
    + rewrite !filter_cons_False by congruence. cbn. by rewrite app_nil_r.
  - exists (q ++ sub). rewrite Hc', Hc, Hp. cbn. by rewrite app_nil_r.
  - rewrite Hc in Hc1. injection Hc1 as <- ->. exists rest. split; [done|].
    rewrite Hp, Hp', !app_nil_r, bind_cons. cbn [filter list_filter fmap list_fmap app].
    rewrite filter_handle_all, (acl_of_priority _ _ _ _ _ _ Hfs); [done|].
    destruct Hpk as [Hm Hpk]. specialize (Hpk k t (p :: rest) Hc). apply Forall_cons_1 in Hpk as [[Hb _] _].
    destruct (packet_fragments_spec t k pr (mtu_of t s) p) as (fs' & E & _ & H & _); [apply Hm|done|].
    rewrite Hfs in E. injection E as <-. intros f Hff. by apply H.
Qed.

Lemma stream_account k t sub sent s : stream k t sub sent s -> exists q, conn s k = Some (t, q) /\
  (sub ≫= acl_of t k (mtu_of t s)) = sent ++ in_flight k s ++ (q ≫= acl_of t k (mtu_of t s)).
Proof.
  induction 1 as [s q s' out Hs Hev Hr|sub sent s ev s' out Hst (q & Hc & IH) Hev Hk Hr].
  - pose proof (reachable_inv s Hs) as Ha. destruct (register_run t k q s Ha Hev) as (s1 & E & _ & Hp & Hcf & Hcn).
    cbn [run] in Hr. rewrite E in Hr. injection Hr as <- <-. exists q. rewrite Hcn, decide_True by done.
    split; [done|]. unfold in_flight. rewrite Hp.
    assert (filter (fun f => pf_handle f = k) (pending s) = []) as ->; [|done].
    destruct Hev as [Hn _]. pose proof (queued_unregistered s k (proj1 (proj1 Ha)) Hn) as H0.
    unfold queued in H0. apply nil_length_inv. lia.
  - pose proof (reachable_inv s (stream_reachable _ _ _ _ _ Hst)) as Ha.
    destruct (run_ok ev s Ha Hev) as (s1 & out1 & E & _ & Hfl). rewrite Hr in E. injection E as <- <-.
    specialize (Hfl k Hk). destruct Ha as (_ & Hpk & _).
    destruct (flows_account k s s' out (submits k ev) t q sent Hfl Hpk Hc) as (q' & Hc' & E).
    exists q'. split; [done|]. rewrite <- E, bind_app, bind_app. pose proof Hfl as [[_ Hmtu] _]. rewrite Hmtu, IH.
    by rewrite <- !app_assoc.
Qed.

(** ** A stalled scheduler

    Nothing is pending, no callback is registered and no task is posted, although
    there are credits; and the controller holds no packet, so that it will return
    none. *)

Definition stalled (s : scheduler) : Prop :=
  pending s = [] /\ enqueue_registered_ s = false /\ posted s = 0%nat /\
  (forall t, 0 < credits t s) /\
  forall h hd, acl_queue_handlers_ s !! h = Some hd ->
    dequeue_is_registered_ hd = false /\ number_of_sent_packets_ hd = 0.

Definition not_register (ev : event) : Prop := match ev with EvRegister _ _ _ => False | _ => True end.

Lemma stalled_alter s h (g : acl_queue_handler -> acl_queue_handler) : stalled s ->
  (forall x, dequeue_is_registered_ (g x) = dequeue_is_registered_ x /\
     number_of_sent_packets_ (g x) = number_of_sent_packets_ x) ->
  stalled (set_handlers (alter g h (acl_queue_handlers_ s)) s).
Proof.
  intros (H1 & H2 & H3 & H4 & H5) Hg. split_and!; [done|done|done|done|].
  intros k x. cbn. destruct (decide (k = h)) as [->|Hk].
  - rewrite lookup_alter_eq. intros (y & Hy & ->)%fmap_Some. destruct (Hg y) as [-> ->]. by apply (H5 h).
  - rewrite lookup_alter_ne by done. by apply H5.
Qed.

Lemma stalled_unregister s h s' : reachable s -> stalled s -> event_ok (EvUnregister h) s ->
  Unregister h s = Some s' -> stalled s'.
Proof.
  intros Hr (H1 & H2 & H3 & H4 & H5) [hd Hh] E. pose proof (reachable_inv s Hr) as ([Hc _] & _).
  destruct (H5 h hd Hh) as [_ Hs]. unfold Unregister, IsRegistered, drop_packet_fragments in E.
  rewrite bool_decide_eq_true_2 in E by (rewrite Hh; by eexists).
  rewrite (proj2 (empty_spec _ (core_queue s Hc)) H1) in E. cbn [mbind option_bind] in E.
  rewrite Hh in E. cbn [mbind option_bind] in E. rewrite Hs, Z.add_0_r in E. cbn [Z.ltb Z.compare andb] in E.
  injection E as <-. pose proof (core_credits s Hc (connection_type_ hd)) as [Hc0 Hct].
  pose proof (core_max s Hc (connection_type_ hd)) as Hm. pose proof (outstanding_nonneg s (connection_type_ hd) Hc) as Ho.
  rewrite wrap_small by (unfold in_range; lia). split_and!; [done|done|done| |].
  - intros t. specialize (H4 t). change (0 < credits t (set_credits (connection_type_ hd) (credits (connection_type_ hd) s) s)).
    rewrite credits_set. destruct (decide _) as [->|]; done.
  - intros k x Hx. change (delete h (acl_queue_handlers_ s) !! k = Some x) in Hx.
    apply lookup_delete_Some in Hx as [_ Hx]. by apply (H5 k).
Qed.

Lemma stalled_step ev s s' out : reachable s -> stalled s -> event_ok ev s -> not_register ev ->
  run ev s = Some (s', out) -> stalled s' /\ out = [].
Proof.
  intros Hr Hst Hev Hn E. pose proof Hst as (H1 & H2 & H3 & H4 & H5).
  destruct ev as [t h q|h|h b|h p|h| |h n|]; cbn [run event_ok] in *; [done| | | | | | |].
  - destruct (Unregister h s) as [s1|] eqn:E1; [|done]. injection E as <- <-. split; [|done].
    by eapply stalled_unregister.
  - injection E as <- <-. split; [by apply stalled_alter|done].
  - injection E as <- <-. split; [by apply stalled_alter|done].
  - destruct (acl_queue_handlers_ s !! h) as [hd|] eqn:Hh; [|done]. destruct (H5 h hd Hh), Hev. congruence.
  - congruence.
  - unfold incoming_acl_credits in E. destruct (acl_queue_handlers_ s !! h) as [hd|] eqn:Hh.
    2:{ cbn in E. by injection E as <- <-. }
    destruct (H5 h hd Hh) as [Hd Hs]. unfold outstanding in Hev. rewrite H1, Hs in Hev.
    change (queued h []) with 0 in Hev. assert (n = 0) as -> by lia. rewrite Hs in E. cbn [Z.leb Z.compare Z.sub Z.add Z.opp] in E.
    pose proof (reachable_inv s Hr) as ([Hc _] & _). set (t := connection_type_ hd) in *.
    pose proof (core_credits s Hc t) as [Hc0 Hct]. pose proof (core_max s Hc t) as Hm.
    pose proof (outstanding_nonneg s t Hc) as Ho. cbv zeta in E.
    match type of E with context [u16 (credits t ?x + 0)] =>
      change (credits t x) with (credits t s) in E; change (max_credits t x) with (max_credits t s) in E end.
    rewrite Z.add_0_r, wrap_small in E by (unfold in_range; lia).
    rewrite (proj2 (Z.ltb_ge _ _)) in E by lia.
    specialize (H4 t) as Ht. rewrite (proj2 (Z.eqb_neq _ _)) in E by lia. cbn in E. injection E as <- <-.
    split; [|done]. split_and!; [done|done|done| |].
    + intros u. specialize (H4 u). by destruct t, u.
    + intros k x. cbn. destruct (decide (k = h)) as [->|Hk].
      * rewrite lookup_insert_eq. intros [= <-]. done.
      * rewrite lookup_insert_ne by done. apply H5.
  - lia.
Qed.

Lemma stalled_run evs s s' out : reachable s -> stalled s -> Forall not_register evs ->
  run_checked evs s = Some (s', out) -> stalled s' /\ out = [].
Proof.
  intros Hr Hst F. revert s out Hr Hst. induction F as [|ev evs Hn F IH]; intros s out Hr Hst; cbn [run_checked].
  { by intros [= <- <-]. }
  destruct (decide (event_ok ev s)) as [Hev|]; [|done].
  destruct (run ev s) as [[s1 o1]|] eqn:E1; [|done]. cbn [mbind option_bind].
  destruct (run_checked evs s1) as [[s2 o2]|] eqn:E2; [|done]. cbn [mbind option_bind]. intros [= <- <-].
  destruct (stalled_step ev s s1 o1 Hr Hst Hev Hn E1) as [Hst1 ->].
  eapply IH; [|exact Hst1|exact E2]. by eapply reach_step.
Qed.

(** ** Properties *)

(** C2: in every reachable state the credits of each type of connection and the
    packets of these connections that the controller holds add up to the number of
    its buffers, so that it is never sent more than it can hold; the enqueue callback
    is registered exactly when the next fragment can be sent; and no assertion of the
    scheduler fails on any event the environment may produce. *)
Theorem round_robin_credits s : reachable s ->
  (forall t, 0 <= credits t s <= max_credits t s /\ 0 <= total t s /\
     credits t s + total t s = max_credits t s) /\
  enqueue_registered_ s = can_send s /\
  (forall ev, event_ok ev s -> is_Some (run ev s)).
Proof.
  intros Hr. pose proof (reachable_inv s Hr) as Ha. pose proof Ha as ([Hc He] & _).
  split; [|split; [done|]].
  - intros t. destruct (core_credits s Hc t) as [A B]. pose proof (outstanding_nonneg s t Hc). lia.
  - intros ev Hev. destruct (run_ok ev s Ha Hev) as (s' & out & E & _). rewrite E. by eexists.
Qed.

(** Two connections, each with a packet of five bytes in buffers of three. *)
Definition five : BasePacketBuilder := frame_builder [1; 0; 64; 0; 7].
Definition start_state : scheduler := RoundRobinScheduler 3 2 3 3.
Definition two_connections : list event :=
  [EvRegister CLASSIC 1 []; EvRegister CLASSIC 2 []; EvPacket 1 five; EvPacket 2 five; EvDequeue 1].

Lemma start_reachable : reachable start_state.
Proof. constructor. split_and!; by_decide. Qed.

Lemma round_robin_credits_witness :
  exists s, run_checked (two_connections ++ [EvEnqueue]) start_state = Some (s,
      [{| ab_handle := 1; ab_boundary := FIRST_NON_AUTOMATICALLY_FLUSHABLE;
          ab_broadcast := POINT_TO_POINT; ab_payload := [1; 0; 64] |}]) /\
    credits CLASSIC s = 2 /\ credits CLASSIC s + total CLASSIC s = max_credits CLASSIC s.
Proof.
  eexists. split; [vm_compute; reflexivity|]. split; [reflexivity|].
  eapply round_robin_credits. eapply run_checked_reachable; [apply start_reachable|].
  instantiate (2 := two_connections ++ [EvEnqueue]). vm_compute. reflexivity.
Defined.

(** C1: while a connection stays registered, the ACL packets sent for it, followed by
    those of its fragments still to be sent and those of the packets in its queue,
    are exactly the fragments of the packets enqueued for it, in order: nothing is
    lost, repeated or reordered, whatever the other connections, the priorities and
    the credits do. *)
Theorem round_robin_stream k t sub sent s : stream k t sub sent s ->
  exists q, conn s k = Some (t, q) /\
    (sub ≫= acl_of t k (mtu_of t s)) = sent ++ in_flight k s ++ (q ≫= acl_of t k (mtu_of t s)).
Proof. apply stream_account. Qed.

Lemma round_robin_stream_witness :
  exists s q, stream 1 CLASSIC [five] [] s /\ conn s 1 = Some (CLASSIC, q) /\
    ([five] ≫= acl_of CLASSIC 1 (mtu_of CLASSIC s)) =
    [] ++ in_flight 1 s ++ (q ≫= acl_of CLASSIC 1 (mtu_of CLASSIC s)).
Proof.
  destruct (run (EvRegister CLASSIC 1 [five]) start_state) as [[s out]|] eqn:E.
  - assert (H : stream 1 CLASSIC [five] [] s).
    { eapply stream_register; [apply start_reachable| |exact E]. split; [reflexivity|by_decide]. }
    destruct (round_robin_stream 1 CLASSIC [five] [] s H) as (q & H1 & H2).
    exists s, q. split; [exact H|]. split; [exact H1|exact H2].
  - vm_compute in E. discriminate E.
Defined.

(** Unregistering a connection whose fragments wait to be sent can stop the
    others: the pending fragments are dropped, the dequeue callbacks of the other
    connections stay unregistered, and the round robin is restarted only if the
    credits were exhausted.  Here a packet of connection 2 is queued and all the
    credits are there, and yet nothing is sent by any sequence of events until
    another connection is registered. *)
Theorem unregister_stalls_others :
  exists s, run_checked (two_connections ++ [EvUnregister 1]) start_state = Some (s, []) /\
    conn s 2 = Some (CLASSIC, [five]) /\ credits CLASSIC s = max_credits CLASSIC s /\
    forall evs s' out, Forall not_register evs -> run_checked evs s = Some (s', out) -> out = [].
Proof.
  eexists. split; [vm_compute; reflexivity|]. split; [reflexivity|]. split; [reflexivity|].
  intros evs s' out F E. eapply stalled_run; [| |exact F|exact E].
  - eapply run_checked_reachable; [apply start_reachable|].
    instantiate (2 := two_connections ++ [EvUnregister 1]). vm_compute. reflexivity.
  - split_and!; [reflexivity|reflexivity|reflexivity|intros [|]; reflexivity|].
    intros h hd Hh. apply elem_of_map_to_list in Hh. vm_compute in Hh.
    apply list_elem_of_singleton in Hh. by injection Hh as _ ->.
Qed.
