(* ===== verification/AddressWithType.v ===== *)
(** * Typed device addresses

    Model of [AddressWithType] ([src/system/gd/hci/address_with_type.h]) over the
    addresses of [src/system/pdl/hci/include/hci/address.h]: the
    comparison operators, which order the keys of maps, the conversions to the
    address types of commands, and the resolution of private addresses.  An address
    is the list of its six octets, least significant first. *)

From stdpp Require Import base list.
From Stdlib Require Import ZArith Lia.
From S2P Require Import Prelude Aes AesRound AesSpec CryptoToolbox.

Open Scope Z_scope.

(** ** Data *)

Abbreviation Address := (list Z) (only parsing).

(** [Address::kEmpty]. *)
Definition kEmpty : Address := replicate 6 0.

Inductive AddressType :=
| PUBLIC_DEVICE_ADDRESS
| RANDOM_DEVICE_ADDRESS
| PUBLIC_IDENTITY_ADDRESS
| RANDOM_IDENTITY_ADDRESS.

Inductive FilterAcceptListAddressType := PUBLIC | RANDOM | ANONYMOUS_ADVERTISERS.

Inductive PeerAddressType :=
| PUBLIC_DEVICE_OR_IDENTITY_ADDRESS
| RANDOM_DEVICE_OR_IDENTITY_ADDRESS.

#[export] Instance AddressType_eq_dec : EqDecision AddressType.
Proof. solve_decision. Defined.
#[export] Instance FilterAcceptListAddressType_eq_dec : EqDecision FilterAcceptListAddressType.
Proof. solve_decision. Defined.
#[export] Instance PeerAddressType_eq_dec : EqDecision PeerAddressType.
Proof. solve_decision. Defined.

(** The values of the enumeration, as [operator<] compares them. *)
Definition AddressType_value (t : AddressType) : Z :=
  match t with
  | PUBLIC_DEVICE_ADDRESS => 0
  | RANDOM_DEVICE_ADDRESS => 1
  | PUBLIC_IDENTITY_ADDRESS => 2
  | RANDOM_IDENTITY_ADDRESS => 3
  end.

Record AddressWithType := { address_ : Address; address_type_ : AddressType }.

#[export] Instance AddressWithType_eq_dec : EqDecision AddressWithType.
Proof. solve_decision. Defined.

(** [AddressWithType()]. *)
Definition empty_address : AddressWithType :=
  {| address_ := kEmpty; address_type_ := PUBLIC_DEVICE_ADDRESS |}.

(** ** Operations *)

(** [operator<] of [std::array]: lexicographic. *)
Fixpoint array_lt (a b : list Z) : bool :=
  match a, b with
  | _, [] => false
  | [], _ :: _ => true
  | x :: a, y :: b => if x <? y then true else if y <? x then false else array_lt a b
  end.

Definition operator_lt (a b : AddressWithType) : bool :=
  if decide (address_ a <> address_ b) then array_lt (address_ a) (address_ b)
  else AddressType_value (address_type_ a) <? AddressType_value (address_type_ b).

Definition operator_eq (a b : AddressWithType) : bool :=
  bool_decide (address_ a = address_ b) && bool_decide (address_type_ a = address_type_ b).

Definition ToFilterAcceptListAddressType (a : AddressWithType) : FilterAcceptListAddressType :=
  match address_type_ a with
  | PUBLIC_DEVICE_ADDRESS | PUBLIC_IDENTITY_ADDRESS => PUBLIC
  | RANDOM_DEVICE_ADDRESS | RANDOM_IDENTITY_ADDRESS => RANDOM
  end.

Definition ToPeerAddressType (a : AddressWithType) : PeerAddressType :=
  match address_type_ a with
  | PUBLIC_DEVICE_ADDRESS | PUBLIC_IDENTITY_ADDRESS => PUBLIC_DEVICE_OR_IDENTITY_ADDRESS
  | RANDOM_DEVICE_ADDRESS | RANDOM_IDENTITY_ADDRESS => RANDOM_DEVICE_OR_IDENTITY_ADDRESS
  end.

Definition IsRpa (a : AddressWithType) : bool :=
  bool_decide (address_type_ a = RANDOM_DEVICE_ADDRESS) &&
  (Z.land (address_ a).[5] 0xc0 =? 0x40).

Definition IsRpaThatMatchesIrk (a : AddressWithType) (irk : list Z) : bool :=
  if negb (IsRpa a) then false
  else
    let prand := replicate 16 0 in
    let prand := prand.[0 <- (address_ a).[3]] in
    let prand := prand.[1 <- (address_ a).[4]] in
    let prand := prand.[2 <- (address_ a).[5]] in
    let computed_hash := aes_128 irk prand in
    let hash := [(address_ a).[0]; (address_ a).[1]; (address_ a).[2]] in
    bool_decide (take 3 computed_hash = hash).

(** ** [operator<] is a strict total order on the addresses *)

Lemma array_lt_irrefl a : array_lt a a = false.
Proof. induction a as [|x a IH]; cbn; [done|]. by rewrite Z.ltb_irrefl. Qed.

Lemma array_lt_trans a b c : array_lt a b = true -> array_lt b c = true -> array_lt a c = true.
Proof.
  revert b c. induction a as [|x a IH]; intros [|y b] [|z c]; cbn; try done.
  zcmp; try done; try lia. apply IH.
Qed.

Lemma array_lt_total a b : length a = length b -> a <> b -> array_lt a b = negb (array_lt b a).
Proof.
  revert b. induction a as [|x a IH]; intros [|y b] L N; cbn in *; try done.
  zcmp; try done; try lia. assert (x = y) as -> by lia. apply IH; [lia|congruence].
Qed.

Lemma operator_lt_type a b : address_ a = address_ b ->
  operator_lt a b = (AddressType_value (address_type_ a) <? AddressType_value (address_type_ b)).
Proof. intros E. unfold operator_lt. by rewrite decide_False by (intros N; done). Qed.

Lemma operator_lt_array a b : address_ a <> address_ b ->
  operator_lt a b = array_lt (address_ a) (address_ b).
Proof. intros N. unfold operator_lt. by rewrite decide_True by done. Qed.

Lemma AddressType_value_inj t u : AddressType_value t = AddressType_value u -> t = u.
Proof. by destruct t, u. Qed.

(** Typed addresses are a key type: [operator<] is irreflexive, transitive, and
    total on addresses of the same length, with [operator==] for its equality. *)
Theorem operator_lt_strict_order (a b c : AddressWithType) :
  operator_lt a a = false /\
  (operator_lt a b = true -> operator_lt b c = true -> operator_lt a c = true) /\
  (length (address_ a) = length (address_ b) -> operator_lt a b = false ->
   operator_lt b a = false -> operator_eq a b = true).
Proof.
  split; [by rewrite operator_lt_type, Z.ltb_irrefl by done|]. split.
  - destruct (decide (address_ a = address_ b)) as [E1|E1], (decide (address_ b = address_ c)) as [E2|E2].
    + rewrite !operator_lt_type by congruence. rewrite !Z.ltb_lt. lia.
    + rewrite operator_lt_type, !operator_lt_array by congruence. by rewrite E1.
    + rewrite (operator_lt_array a b), (operator_lt_type b c), operator_lt_array by congruence.
      by rewrite E2.
    + rewrite !(operator_lt_array _ _ E1), !(operator_lt_array _ _ E2). intros H1 H2.
      destruct (decide (address_ a = address_ c)) as [E|E].
      * rewrite E in H1. pose proof (array_lt_trans _ _ _ H1 H2) as H.
        by rewrite array_lt_irrefl in H.
      * rewrite operator_lt_array by done. by eapply array_lt_trans.
  - intros L. unfold operator_eq. destruct (decide (address_ a = address_ b)) as [E|E].
    + rewrite !operator_lt_type, !Z.ltb_ge by done. intros H1 H2.
      rewrite !bool_decide_true; [done| |done]. apply AddressType_value_inj. lia.
    + rewrite !operator_lt_array by congruence. rewrite (array_lt_total _ _ L E).
      by destruct (array_lt (address_ b) (address_ a)).
Qed.
