(* ===== verification/LeAddressManager.v ===== *)
(** * LE address manager

    Model of [LeAddressManager] ([src/system/gd/hci/le_address_manager.cc] and
    [.h]): the initiator address and its rotation, and the queue of the commands
    that change the random address, the filter accept list and the resolving list,
    which the controller only takes while nothing scans, advertises or connects.
    The clients that do are told to pause, and a command is sent when every one has
    acknowledged.

    A client is the address of its callback object, by which [std::map] orders the
    clients.  The public methods post their work to the handler: [posted] is its
    queue of tasks.  The calls to the clients and the commands sent to the HCI layer
    are outputs.  A client answers through the posted methods, so that no operation
    is reentered.  A failed assertion, [log::fatal] and undefined behaviour are
    [None].  The random bytes of [RAND_bytes] are a stream, and [random_] counts the
    ones drawn. *)

From stdpp Require Import base list option.
From Stdlib Require Import ZArith Lia.
From S2P Require Import Prelude Aes AesRound AesSpec CryptoToolbox AddressWithType.

Open Scope Z_scope.

(** ** Data *)

Abbreviation LeAddressManagerCallback := Z (only parsing).
Abbreviation milliseconds := Z (only parsing).
Abbreviation time_point := Z (only parsing).

Inductive ClientState := WAITING_FOR_PAUSE | PAUSED | WAITING_FOR_RESUME | RESUMED.

Inductive AddressPolicy :=
| POLICY_NOT_SET
| USE_PUBLIC_ADDRESS
| USE_STATIC_ADDRESS
| USE_NON_RESOLVABLE_ADDRESS
| USE_RESOLVABLE_ADDRESS.

#[export] Instance ClientState_eq_dec : EqDecision ClientState.
Proof. solve_decision. Defined.
#[export] Instance AddressPolicy_eq_dec : EqDecision AddressPolicy.
Proof. solve_decision. Defined.

(** The commands of the HCI layer the manager builds. *)
Inductive CommandBuilder :=
| LeSetRandomAddress (address : Address)
| LeSetResolvablePrivateAddressTimeoutV2 (min_seconds max_seconds : Z)
| LeAddDeviceToFilterAcceptList (t : FilterAcceptListAddressType) (address : Address)
| LeRemoveDeviceFromFilterAcceptList (t : FilterAcceptListAddressType) (address : Address)
| LeClearFilterAcceptList
| LeAddDeviceToResolvingList (t : PeerAddressType) (address : Address) (peer_irk local_irk : list Z)
| LeRemoveDeviceFromResolvingList (t : PeerAddressType) (address : Address)
| LeClearResolvingList
| LeSetPrivacyMode (t : PeerAddressType) (address : Address)
| LeSetAddressResolutionEnable (enable : bool).

#[export] Instance CommandBuilder_eq_dec : EqDecision CommandBuilder.
Proof. solve_decision. Defined.

Inductive CommandType :=
| ROTATE_RANDOM_ADDRESS
| ADD_DEVICE_TO_ACCEPT_LIST
| REMOVE_DEVICE_FROM_ACCEPT_LIST
| CLEAR_ACCEPT_LIST
| ADD_DEVICE_TO_RESOLVING_LIST
| REMOVE_DEVICE_FROM_RESOLVING_LIST
| CLEAR_RESOLVING_LIST
| SET_ADDRESS_RESOLUTION_ENABLE
| LE_SET_PRIVACY_MODE
| UPDATE_IRK.

Inductive Contents :=
| RotateRandomAddressCommand
| UpdateIRKCommand (irk : list Z) (min_time max_time : milliseconds)
| HCICommand (command : CommandBuilder).

Record Command := { command_type : CommandType; contents : Contents }.

(** What is posted to the handler. *)
Inductive Task :=
| Tregister_client (callback : LeAddressManagerCallback)
| Tunregister_client (callback : LeAddressManagerCallback)
| Tset_promise
| Tack_pause (callback : LeAddressManagerCallback)
| Tack_resume (callback : LeAddressManagerCallback)
| Tpush_command (command : Command)
| Tprepare_to_update_irk (irk : list Z) (min_time max_time : milliseconds)
| Thandle_next_command
| Tpause_registered_clients
| Tresume_registered_clients
| Tcheck_cached_commands
| Tenqueue_command (command : CommandBuilder).

Inductive Output :=
| OnPause (client : LeAddressManagerCallback)
| OnResume (client : LeAddressManagerCallback)
| NotifyOnIRKChange (client : LeAddressManagerCallback)
| Enqueue (command : CommandBuilder)
| WarnRotationInterval.     (* the warning of a rotation outside its interval *)

(** An [os::Alarm] that is not the null pointer: the delay it is scheduled with. *)
Abbreviation Alarm := (option milliseconds) (only parsing).

(** The fields of the address and of its rotation. *)
Record Rotation := {
  minimum_rotation_time_ : milliseconds;
  maximum_rotation_time_ : milliseconds;
  le_address_ : AddressWithType;
  cached_address_ : AddressWithType;
  rotation_irk_ : list Z;
  address_rotation_wake_alarm_ : option Alarm;
  address_rotation_non_wake_alarm_ : option Alarm;
  address_rotation_interval_min : option time_point;
  address_rotation_interval_max : option time_point;
  now : time_point;     (* [system_clock::now()] *)
  random_ : nat;
}.

Record LeAddressManager := {
  address_policy_ : AddressPolicy;
  supports_ble_privacy_ : bool;
  registered_clients_ : list (LeAddressManagerCallback * ClientState);
  cached_commands_ : list Command;
  rotation : Rotation;
  posted : list Task;
  outputs : list Output;
}.

Definition set_policy (p : AddressPolicy) (b : bool) (s : LeAddressManager) : LeAddressManager :=
  {| address_policy_ := p; supports_ble_privacy_ := b;
     registered_clients_ := registered_clients_ s; cached_commands_ := cached_commands_ s;
     rotation := rotation s; posted := posted s; outputs := outputs s |}.
Definition set_clients (c : list (LeAddressManagerCallback * ClientState)) (s : LeAddressManager) :=
  {| address_policy_ := address_policy_ s; supports_ble_privacy_ := supports_ble_privacy_ s;
     registered_clients_ := c; cached_commands_ := cached_commands_ s;
     rotation := rotation s; posted := posted s; outputs := outputs s |}.
Definition set_cached (c : list Command) (s : LeAddressManager) :=
  {| address_policy_ := address_policy_ s; supports_ble_privacy_ := supports_ble_privacy_ s;
     registered_clients_ := registered_clients_ s; cached_commands_ := c;
     rotation := rotation s; posted := posted s; outputs := outputs s |}.
Definition set_rotation (r : Rotation) (s : LeAddressManager) :=
  {| address_policy_ := address_policy_ s; supports_ble_privacy_ := supports_ble_privacy_ s;
     registered_clients_ := registered_clients_ s; cached_commands_ := cached_commands_ s;
     rotation := r; posted := posted s; outputs := outputs s |}.
Definition set_posted (t : list Task) (s : LeAddressManager) :=
  {| address_policy_ := address_policy_ s; supports_ble_privacy_ := supports_ble_privacy_ s;
     registered_clients_ := registered_clients_ s; cached_commands_ := cached_commands_ s;
     rotation := rotation s; posted := t; outputs := outputs s |}.
Definition set_outputs (o : list Output) (s : LeAddressManager) :=
  {| address_policy_ := address_policy_ s; supports_ble_privacy_ := supports_ble_privacy_ s;
     registered_clients_ := registered_clients_ s; cached_commands_ := cached_commands_ s;
     rotation := rotation s; posted := posted s; outputs := o |}.

Definition post (t : Task) (s : LeAddressManager) := set_posted (posted s ++ [t]) s.
Definition output (o : list Output) (s : LeAddressManager) := set_outputs (outputs s ++ o) s.
Definition cache (c : Command) (s : LeAddressManager) := set_cached (cached_commands_ s ++ [c]) s.

Definition set_times (min_time max_time : milliseconds) (r : Rotation) : Rotation :=
  {| minimum_rotation_time_ := min_time; maximum_rotation_time_ := max_time;
     le_address_ := le_address_ r; cached_address_ := cached_address_ r;
     rotation_irk_ := rotation_irk_ r;
     address_rotation_wake_alarm_ := address_rotation_wake_alarm_ r;
     address_rotation_non_wake_alarm_ := address_rotation_non_wake_alarm_ r;
     address_rotation_interval_min := address_rotation_interval_min r;
     address_rotation_interval_max := address_rotation_interval_max r;
     now := now r; random_ := random_ r |}.
Definition set_addresses (le cached : AddressWithType) (irk : list Z) (r : Rotation) : Rotation :=
  {| minimum_rotation_time_ := minimum_rotation_time_ r;
     maximum_rotation_time_ := maximum_rotation_time_ r;
     le_address_ := le; cached_address_ := cached; rotation_irk_ := irk;
     address_rotation_wake_alarm_ := address_rotation_wake_alarm_ r;
     address_rotation_non_wake_alarm_ := address_rotation_non_wake_alarm_ r;
     address_rotation_interval_min := address_rotation_interval_min r;
     address_rotation_interval_max := address_rotation_interval_max r;
     now := now r; random_ := random_ r |}.
Definition set_alarms (wake non_wake : option Alarm) (r : Rotation) : Rotation :=
  {| minimum_rotation_time_ := minimum_rotation_time_ r;
     maximum_rotation_time_ := maximum_rotation_time_ r;
     le_address_ := le_address_ r; cached_address_ := cached_address_ r;
     rotation_irk_ := rotation_irk_ r;
     address_rotation_wake_alarm_ := wake; address_rotation_non_wake_alarm_ := non_wake;
     address_rotation_interval_min := address_rotation_interval_min r;
     address_rotation_interval_max := address_rotation_interval_max r;
     now := now r; random_ := random_ r |}.
Definition set_interval (min_time max_time : option time_point) (r : Rotation) : Rotation :=
  {| minimum_rotation_time_ := minimum_rotation_time_ r;
     maximum_rotation_time_ := maximum_rotation_time_ r;
     le_address_ := le_address_ r; cached_address_ := cached_address_ r;
     rotation_irk_ := rotation_irk_ r;
     address_rotation_wake_alarm_ := address_rotation_wake_alarm_ r;
     address_rotation_non_wake_alarm_ := address_rotation_non_wake_alarm_ r;
     address_rotation_interval_min := min_time; address_rotation_interval_max := max_time;
     now := now r; random_ := random_ r |}.
Definition set_clock (t : time_point) (n : nat) (r : Rotation) : Rotation :=
  {| minimum_rotation_time_ := minimum_rotation_time_ r;
     maximum_rotation_time_ := maximum_rotation_time_ r;
     le_address_ := le_address_ r; cached_address_ := cached_address_ r;
     rotation_irk_ := rotation_irk_ r;
     address_rotation_wake_alarm_ := address_rotation_wake_alarm_ r;
     address_rotation_non_wake_alarm_ := address_rotation_non_wake_alarm_ r;
     address_rotation_interval_min := address_rotation_interval_min r;
     address_rotation_interval_max := address_rotation_interval_max r;
     now := t; random_ := n |}.

(** ** The map of the clients *)

(** [registered_clients_.insert]: nothing changes when the key is present. *)
Fixpoint insert_client (c : LeAddressManagerCallback) (st : ClientState)
    (l : list (LeAddressManagerCallback * ClientState)) :=
  match l with
  | [] => [(c, st)]
  | (k, v) :: rest =>
      if c <? k then (c, st) :: l
      else if c =? k then l
      else (k, v) :: insert_client c st rest
  end.

Definition find_client (c : LeAddressManagerCallback)
    (l : list (LeAddressManagerCallback * ClientState)) : option ClientState :=
  snd <$> List.find (fun x => fst x =? c) l.

(** [registered_clients_.find(callback)->second = st]. *)
Definition set_client (c : LeAddressManagerCallback) (st : ClientState)
    (l : list (LeAddressManagerCallback * ClientState)) :=
  map (fun x => if fst x =? c then (fst x, st) else x) l.

Definition erase_client (c : LeAddressManagerCallback)
    (l : list (LeAddressManagerCallback * ClientState)) :=
  List.filter (fun x => negb (fst x =? c)) l.

Definition is_paused (st : ClientState) : bool := match st with PAUSED => true | _ => false end.

Definition all_paused (s : LeAddressManager) : bool :=
  forallb (fun x => is_paused (snd x)) (registered_clients_ s).

Definition is_nil {A} (l : list A) : bool := match l with [] => true | _ => false end.

Definition BLE_ADDR_MASK : Z := 0xc0.
Definition BLE_RESOLVE_ADDR_MSB : Z := 0x40.

Section manager.
Context (RAND_bytes : nat -> Z) (fuel : nat).
Context (public_address_ : Address) (accept_list_size_ resolving_list_size_ : Z).
Context (IsRpaGenerationSupported nrpa_non_connectable_adv : bool).

(** ** Random numbers (os/rand.h) *)

Definition GenerateRandom (n : nat) (r : Rotation) : list Z * Rotation :=
  (map RAND_bytes (seq (random_ r) n), set_clock (now r) (random_ r + n) r).

Definition GenerateRandom32 (r : Rotation) : Z * Rotation :=
  let '(bytes, r) := GenerateRandom 4 r in (le32 bytes, r).

(** [(uint8_t)(os::GenerateRandom() % 0xFE + 1)]. *)
Definition random_octet (r : Rotation) : Z * Rotation :=
  let '(x, r) := GenerateRandom32 r in (u8 (x mod 0xFE + 1), r).

(** ** Addresses *)

Definition generate_rpa (r : Rotation) : Address * Rotation :=
  let '(prand, r) := GenerateRandom 3 r in
  let prand := prand.[2 <- Z.land prand.[2] (Z.lnot BLE_ADDR_MASK)] in
  let '(prand, r) :=
    if ((prand.[0] =? 0x00) && (prand.[1] =? 0x00) && (prand.[2] =? 0x00)) ||
       ((prand.[0] =? 0xFF) && (prand.[1] =? 0xFF) && (prand.[2] =? 0x3F))
    then let '(x, r) := random_octet r in (prand.[0 <- x], r)
    else (prand, r) in
  let prand := prand.[2 <- Z.lor prand.[2] BLE_RESOLVE_ADDR_MSB] in
  let rand := replicate 16 0 in
  let rand := rand.[0 <- prand.[0]] in
  let rand := rand.[1 <- prand.[1]] in
  let rand := rand.[2 <- prand.[2]] in
  let p := aes_128 (rotation_irk_ r) rand in
  ([p.[0]; p.[1]; p.[2]; prand.[0]; prand.[1]; prand.[2]], r).

(** [while (address == public_address_) address.address[0] = ...]. *)
Fixpoint nrpa_loop (fuel : nat) (address : Address) (r : Rotation) : option (Address * Rotation) :=
  match fuel with
  | O => None
  | S fuel =>
      if decide (address = public_address_) then
        let '(x, r) := random_octet r in nrpa_loop fuel (address.[0 <- x]) r
      else Some (address, r)
  end.

Definition generate_nrpa (r : Rotation) : option (Address * Rotation) :=
  let '(random, r) := GenerateRandom 6 r in
  let random := random.[5 <- Z.land random.[5] (Z.lnot BLE_ADDR_MASK)] in
  let '(random, r) :=
    if ((random.[0] =? 0x00) && (random.[1] =? 0x00) && (random.[2] =? 0x00) &&
        (random.[3] =? 0x00) && (random.[4] =? 0x00) && (random.[5] =? 0x00)) ||
       ((random.[0] =? 0xFF) && (random.[1] =? 0xFF) && (random.[2] =? 0xFF) &&
        (random.[3] =? 0xFF) && (random.[4] =? 0xFF) && (random.[5] =? 0x3F))
    then let '(x, r) := random_octet r in (random.[0 <- x], r)
    else (random, r) in
  nrpa_loop fuel random r.

(** The remainder of a division by zero is undefined. *)
Definition GetNextPrivateAddressIntervalMs (r : Rotation) : option (milliseconds * Rotation) :=
  let interval_random_part_wake_delay := maximum_rotation_time_ r - minimum_rotation_time_ r in
  let '(x, r) := GenerateRandom32 r in
  if interval_random_part_wake_delay =? 0 then None
  else Some (minimum_rotation_time_ r + Z.rem x interval_random_part_wake_delay, r).

(** The delays of the non-wake and of the wake alarm. *)
Definition GetNextPrivateAddressIntervalRange (r : Rotation)
    : (milliseconds * milliseconds) * Rotation :=
  let random_part_max_length := 2 * 60 * 1000 in
  let '(x, r) := GenerateRandom32 r in
  let nonwake_delay := minimum_rotation_time_ r + Z.rem x random_part_max_length in
  let nonwake_delay := Z.min nonwake_delay (maximum_rotation_time_ r) in
  let '(y, r) := GenerateRandom32 r in
  let wake_delay := maximum_rotation_time_ r - Z.rem y random_part_max_length in
  let wake_delay := Z.max nonwake_delay (Z.max wake_delay (minimum_rotation_time_ r)) in
  ((nonwake_delay, wake_delay), r).

Definition CheckAddressRotationHappenedInExpectedTimeInterval
    (interval_min interval_max event_time : time_point) : list Output :=
  let lower_limit_tolerance := 2 * 1000 in
  let upper_limit_tolerance := 5 * 1000 in
  if (event_time <? interval_min - lower_limit_tolerance) ||
     (event_time >? interval_max + upper_limit_tolerance)
  then [WarnRotationInterval] else [].

Definition schedule_rotate_random_address (s : LeAddressManager) : option LeAddressManager :=
  let '((min_delay, max_delay), r) := GetNextPrivateAddressIntervalRange (rotation s) in
  match address_rotation_wake_alarm_ r, address_rotation_non_wake_alarm_ r with
  | Some _, Some _ =>
      let r := set_alarms (Some (Some max_delay)) (Some (Some min_delay)) r in
      let warning :=
        match address_rotation_interval_min r, address_rotation_interval_max r with
        | Some imin, Some imax =>
            CheckAddressRotationHappenedInExpectedTimeInterval imin imax (now r)
        | _, _ => []
        end in
      let r := set_interval (Some (now r + min_delay)) (Some (now r + max_delay)) r in
      Some (output warning (set_rotation r s))
  | _, _ => None
  end.

Definition RotatingAddress (s : LeAddressManager) : bool :=
  match address_policy_ s with
  | USE_RESOLVABLE_ADDRESS | USE_NON_RESOLVABLE_ADDRESS => true
  | _ => false
  end.

Definition set_random_address (s : LeAddressManager) : option LeAddressManager :=
  if negb (RotatingAddress s) then None
  else
    '(address, r) ←
      (if decide (address_policy_ s = USE_RESOLVABLE_ADDRESS) then Some (generate_rpa (rotation s))
       else generate_nrpa (rotation s));
    let s := output [Enqueue (LeSetRandomAddress address)] (set_rotation r s) in
    Some (set_rotation (set_addresses (le_address_ r)
            {| address_ := address; address_type_ := RANDOM_DEVICE_ADDRESS |} (rotation_irk_ r) r) s).

Definition rotate_random_address (s : LeAddressManager) : option LeAddressManager :=
  if negb (RotatingAddress s) then None
  else s ← schedule_rotate_random_address s; set_random_address s.

Definition update_irk (irk : list Z) (min_time max_time : milliseconds) (s : LeAddressManager)
    : option LeAddressManager :=
  let r := rotation s in
  let r := set_addresses (le_address_ r) (cached_address_ r) irk r in
  let r := set_times min_time max_time r in
  s ← set_random_address (set_rotation r s);
  Some (output (map (fun x => NotifyOnIRKChange (fst x)) (registered_clients_ s)) s).

Definition GetAddressPolicy (s : LeAddressManager) : AddressPolicy := address_policy_ s.

Definition GetInitiatorAddress (s : LeAddressManager) : option AddressWithType :=
  if decide (address_policy_ s = POLICY_NOT_SET) then None else Some (le_address_ (rotation s)).

Definition NewResolvableAddress (s : LeAddressManager) : option (AddressWithType * LeAddressManager) :=
  if negb (RotatingAddress s) then None
  else
    let '(address, r) := generate_rpa (rotation s) in
    Some ({| address_ := address; address_type_ := RANDOM_DEVICE_ADDRESS |}, set_rotation r s).

Definition NewNonResolvableAddress (s : LeAddressManager)
    : option (AddressWithType * LeAddressManager) :=
  if negb nrpa_non_connectable_adv && negb (RotatingAddress s) then None
  else
    '(address, r) ← generate_nrpa (rotation s);
    Some ({| address_ := address; address_type_ := RANDOM_DEVICE_ADDRESS |}, set_rotation r s).

Definition GetFilterAcceptListSize : Z := accept_list_size_.
Definition GetResolvingListSize : Z := resolving_list_size_.

(** ** Pausing and resuming the clients, sending the commands *)

(** The body of the loop of [pause_registered_clients], for one client. *)
Definition pause_client (x : LeAddressManagerCallback * ClientState)
    : (LeAddressManagerCallback * ClientState) * list Output :=
  match snd x with
  | PAUSED | WAITING_FOR_PAUSE => (x, [])
  | WAITING_FOR_RESUME | RESUMED => ((fst x, WAITING_FOR_PAUSE), [OnPause (fst x)])
  end.

Definition pause_registered_clients (s : LeAddressManager) : LeAddressManager :=
  output (mjoin (map (snd ∘ pause_client) (registered_clients_ s)))
    (set_clients (map (fst ∘ pause_client) (registered_clients_ s)) s).

Definition push_command (command : Command) (s : LeAddressManager) : LeAddressManager :=
  cache command (pause_registered_clients s).

(** [std::visit] of the contents of a command. *)
Definition visit_command (c : Contents) (s : LeAddressManager) : option LeAddressManager :=
  match c with
  | UpdateIRKCommand irk min_time max_time => update_irk irk min_time max_time s
  | RotateRandomAddressCommand => rotate_random_address s
  | HCICommand command => Some (output [Enqueue command] s)
  end.

Definition handle_next_command (s : LeAddressManager) : option LeAddressManager :=
  if negb (all_paused s) then Some s
  else
    match cached_commands_ s with
    | [] => None
    | command :: rest => visit_command (contents command) (set_cached rest s)
    end.

Definition resume_registered_clients (s : LeAddressManager) : option LeAddressManager :=
  if negb (is_nil (cached_commands_ s)) then handle_next_command s
  else
    Some (output (map (fun x => OnResume (fst x)) (registered_clients_ s))
            (set_clients (map (fun x => (fst x, WAITING_FOR_RESUME)) (registered_clients_ s)) s)).

Definition check_cached_commands (s : LeAddressManager) : option LeAddressManager :=
  if negb (all_paused s) && negb (is_nil (cached_commands_ s)) then
    Some (pause_registered_clients s)
  else if is_nil (cached_commands_ s) then resume_registered_clients s
  else handle_next_command s.

(** The loop of [ack_pause]: [None] when every client is paused, otherwise the
    clients and the calls when it returns. *)
Fixpoint ack_pause_loop (l : list (LeAddressManagerCallback * ClientState))
    : option (list (LeAddressManagerCallback * ClientState) * list Output) :=
  match l with
  | [] => None
  | (c, st) :: rest =>
      match st with
      | PAUSED => '(rest, o) ← ack_pause_loop rest; Some ((c, st) :: rest, o)
      | WAITING_FOR_PAUSE => Some (l, [])
      | WAITING_FOR_RESUME | RESUMED => Some ((c, WAITING_FOR_PAUSE) :: rest, [OnPause c])
      end
  end.

Definition ack_pause (callback : LeAddressManagerCallback) (s : LeAddressManager)
    : option LeAddressManager :=
  match find_client callback (registered_clients_ s) with
  | None => Some s
  | Some _ =>
      let s := set_clients (set_client callback PAUSED (registered_clients_ s)) s in
      match ack_pause_loop (registered_clients_ s) with
      | Some (l, o) => Some (output o (set_clients l s))
      | None =>
          if decide (address_policy_ s <> POLICY_NOT_SET) then check_cached_commands s else Some s
      end
  end.

Definition ack_resume (callback : LeAddressManagerCallback) (s : LeAddressManager)
    : LeAddressManager :=
  match find_client callback (registered_clients_ s) with
  | Some _ => set_clients (set_client callback RESUMED (registered_clients_ s)) s
  | None => s
  end.

Definition prepare_to_rotate (s : LeAddressManager) : LeAddressManager :=
  let command := {| command_type := ROTATE_RANDOM_ADDRESS; contents := RotateRandomAddressCommand |} in
  pause_registered_clients (cache command s).

Definition prepare_to_update_irk (irk : list Z) (min_time max_time : milliseconds)
    (s : LeAddressManager) : option LeAddressManager :=
  let command := {| command_type := UPDATE_IRK; contents := UpdateIRKCommand irk min_time max_time |} in
  let s := cache command s in
  if is_nil (registered_clients_ s) then handle_next_command s
  else Some (pause_registered_clients s).

Definition register_client (callback : LeAddressManagerCallback) (s : LeAddressManager)
    : option LeAddressManager :=
  let s := set_clients (insert_client callback RESUMED (registered_clients_ s)) s in
  if decide (address_policy_ s = POLICY_NOT_SET) then Some (pause_registered_clients s)
  else if RotatingAddress s then
    if (length (registered_clients_ s) =? 1)%nat then
      if negb IsRpaGenerationSupported then schedule_rotate_random_address s else Some s
    else Some s
  else Some s.

(** [Cancel] of an alarm that is not null. *)
Definition cancel (a : option Alarm) : option Alarm :=
  match a with Some _ => Some None | None => None end.

Definition unregister_client (callback : LeAddressManagerCallback) (s : LeAddressManager)
    : option LeAddressManager :=
  s ← (match find_client callback (registered_clients_ s) with
       | None => Some s
       | Some st =>
           s ← (match st with
                | WAITING_FOR_PAUSE => ack_pause callback s
                | WAITING_FOR_RESUME => Some (ack_resume callback s)
                | _ => Some s
                end);
           Some (set_clients (erase_client callback (registered_clients_ s)) s)
       end);
  if is_nil (registered_clients_ s) then
    let r := rotation s in
    let r := set_alarms (cancel (address_rotation_wake_alarm_ r))
               (cancel (address_rotation_non_wake_alarm_ r)) r in
    Some (set_rotation (set_interval None None r) s)
  else Some s.

(** ** Public methods *)

(** The checks of a static address: [false] where the code aborts. *)
Definition static_address_ok (address : Address) : bool :=
  (Z.land address.[5] BLE_ADDR_MASK =? BLE_ADDR_MASK) &&
  negb (((address.[0] =? 0x00) && (address.[1] =? 0x00) && (address.[2] =? 0x00) &&
         (address.[3] =? 0x00) && (address.[4] =? 0x00) && (address.[5] =? BLE_ADDR_MASK)) ||
        ((address.[0] =? 0xFF) && (address.[1] =? 0xFF) && (address.[2] =? 0xFF) &&
         (address.[3] =? 0xFF) && (address.[4] =? 0xFF) && (address.[5] =? 0xFF))).

(** [duration_cast<seconds>], as an argument of 16 bits. *)
Definition to_seconds (t : milliseconds) : Z := u16 (Z.quot t 1000).

(** The timeouts of an address the controller rotates, or the alarms of one the
    manager rotates. *)
Definition start_rotation (s : LeAddressManager) : LeAddressManager :=
  let r := rotation s in
  if IsRpaGenerationSupported then
    output [Enqueue (LeSetResolvablePrivateAddressTimeoutV2
                       (to_seconds (minimum_rotation_time_ r))
                       (to_seconds (maximum_rotation_time_ r)))] s
  else set_rotation (set_alarms (Some None) (Some None) r) s.

Definition SetPrivacyPolicyForInitiatorAddress (policy : AddressPolicy)
    (fixed_address : AddressWithType) (irk : list Z) (supports : bool)
    (min_time max_time : milliseconds) (s : LeAddressManager) : option LeAddressManager :=
  if decide (address_policy_ s <> POLICY_NOT_SET) then
    Some (if supports then post (Tprepare_to_update_irk irk min_time max_time) s else s)
  else if decide (policy = POLICY_NOT_SET) then None
  else if negb (is_nil (registered_clients_ s)) then None
  else
    let s := set_policy policy supports s in
    let s :=
      if nrpa_non_connectable_adv then set_rotation (set_times min_time max_time (rotation s)) s
      else s in
    let r := rotation s in
    match policy with
    | USE_PUBLIC_ADDRESS =>
        let a := {| address_ := public_address_; address_type_ := PUBLIC_DEVICE_ADDRESS |} in
        let s := set_rotation (set_addresses a (cached_address_ r) (rotation_irk_ r) r) s in
        Some (post Tresume_registered_clients s)
    | USE_STATIC_ADDRESS =>
        if negb (static_address_ok (address_ fixed_address)) then None
        else
          let s := set_rotation (set_addresses fixed_address (cached_address_ r) (rotation_irk_ r) r) s in
          Some (post (Tenqueue_command (LeSetRandomAddress (address_ fixed_address))) s)
    | USE_NON_RESOLVABLE_ADDRESS | USE_RESOLVABLE_ADDRESS =>
        let s := set_rotation (set_addresses fixed_address (cached_address_ r) irk r) s in
        let s :=
          if negb nrpa_non_connectable_adv then
            set_rotation (set_times min_time max_time (rotation s)) s
          else s in
        set_random_address (start_rotation s)
    | POLICY_NOT_SET => None
    end.

Definition SetPrivacyPolicyForInitiatorAddressForTest (policy : AddressPolicy)
    (fixed_address : AddressWithType) (irk : list Z) (min_time max_time : milliseconds)
    (s : LeAddressManager) : option LeAddressManager :=
  if decide (policy = POLICY_NOT_SET) then None
  else if negb (is_nil (registered_clients_ s)) then None
  else
    let s := set_policy policy (supports_ble_privacy_ s) s in
    let r := rotation s in
    match policy with
    | USE_PUBLIC_ADDRESS =>
        Some (set_rotation (set_addresses fixed_address (cached_address_ r) (rotation_irk_ r) r) s)
    | USE_STATIC_ADDRESS =>
        if negb (static_address_ok (address_ fixed_address)) then None
        else
          let s := set_rotation (set_addresses fixed_address (cached_address_ r) (rotation_irk_ r) r) s in
          Some (post (Tenqueue_command (LeSetRandomAddress (address_ fixed_address))) s)
    | USE_NON_RESOLVABLE_ADDRESS | USE_RESOLVABLE_ADDRESS =>
        let r := set_addresses (le_address_ r) (cached_address_ r) irk r in
        let s := set_rotation (set_times min_time max_time r) s in
        let s := start_rotation s in
        if IsRpaGenerationSupported then Some s else set_random_address s
    | POLICY_NOT_SET => None
    end.

Definition Register (callback : LeAddressManagerCallback) (s : LeAddressManager)
    : AddressPolicy * LeAddressManager :=
  (address_policy_ s, post (Tregister_client callback) s).
Definition Unregister (callback : LeAddressManagerCallback) (s : LeAddressManager) :=
  post (Tunregister_client callback) s.
(** The answer, whether the promise is set within the timeout, is not modelled. *)
Definition UnregisterSync (callback : LeAddressManagerCallback) (s : LeAddressManager) :=
  post Tset_promise (post (Tunregister_client callback) s).
Definition AckPause (callback : LeAddressManagerCallback) (s : LeAddressManager) :=
  post (Tack_pause callback) s.
Definition AckResume (callback : LeAddressManagerCallback) (s : LeAddressManager) :=
  post (Tack_resume callback) s.

Definition hci (t : CommandType) (c : CommandBuilder) : Command :=
  {| command_type := t; contents := HCICommand c |}.

Definition AddDeviceToFilterAcceptList (t : FilterAcceptListAddressType) (address : Address)
    (s : LeAddressManager) : LeAddressManager :=
  post (Tpush_command (hci ADD_DEVICE_TO_ACCEPT_LIST (LeAddDeviceToFilterAcceptList t address))) s.

Definition RemoveDeviceFromFilterAcceptList (t : FilterAcceptListAddressType) (address : Address)
    (s : LeAddressManager) : LeAddressManager :=
  post (Tpush_command
          (hci REMOVE_DEVICE_FROM_ACCEPT_LIST (LeRemoveDeviceFromFilterAcceptList t address))) s.

Definition ClearFilterAcceptList (s : LeAddressManager) : LeAddressManager :=
  post (Tpush_command (hci CLEAR_ACCEPT_LIST LeClearFilterAcceptList)) s.

(** What the methods on the resolving list post when they have cached commands. *)
Definition post_next (s : LeAddressManager) : LeAddressManager :=
  if is_nil (registered_clients_ s) then post Thandle_next_command s
  else post Tpause_registered_clients s.

Definition AddDeviceToResolvingList (t : PeerAddressType) (address : Address)
    (peer_irk local_irk : list Z) (s : LeAddressManager) : LeAddressManager :=
  if negb (supports_ble_privacy_ s) then s
  else
    let s := cache (hci SET_ADDRESS_RESOLUTION_ENABLE (LeSetAddressResolutionEnable false)) s in
    let s := cache (hci ADD_DEVICE_TO_RESOLVING_LIST
                      (LeAddDeviceToResolvingList t address peer_irk local_irk)) s in
    let s :=
      if supports_ble_privacy_ s then cache (hci LE_SET_PRIVACY_MODE (LeSetPrivacyMode t address)) s
      else s in
    let s := cache (hci SET_ADDRESS_RESOLUTION_ENABLE (LeSetAddressResolutionEnable true)) s in
    post_next s.

Definition RemoveDeviceFromResolvingList (t : PeerAddressType) (address : Address)
    (s : LeAddressManager) : LeAddressManager :=
  if negb (supports_ble_privacy_ s) then s
  else
    let s := cache (hci SET_ADDRESS_RESOLUTION_ENABLE (LeSetAddressResolutionEnable false)) s in
    let s := cache (hci REMOVE_DEVICE_FROM_RESOLVING_LIST
                      (LeRemoveDeviceFromResolvingList t address)) s in
    let s := cache (hci SET_ADDRESS_RESOLUTION_ENABLE (LeSetAddressResolutionEnable true)) s in
    post_next s.

Definition ClearResolvingList (s : LeAddressManager) : LeAddressManager :=
  if negb (supports_ble_privacy_ s) then s
  else
    let s := cache (hci SET_ADDRESS_RESOLUTION_ENABLE (LeSetAddressResolutionEnable false)) s in
    let s := cache (hci CLEAR_RESOLVING_LIST LeClearResolvingList) s in
    let s := cache (hci SET_ADDRESS_RESOLUTION_ENABLE (LeSetAddressResolutionEnable true)) s in
    post Tpause_registered_clients s.

Definition is_set_random_address (c : CommandBuilder) : bool :=
  match c with LeSetRandomAddress _ => true | _ => false end.

(** [OnCommandComplete] of a valid event for [command]: [success] says that its
    parameters are valid and its status is [SUCCESS].  For the other commands the
    status is only logged. *)
Definition OnCommandComplete (command : CommandBuilder) (success : bool) (s : LeAddressManager)
    : LeAddressManager :=
  if is_set_random_address command && bool_decide (address_policy_ s = USE_STATIC_ADDRESS) then s
  else
    let s :=
      if is_set_random_address command && success then
        let r := rotation s in
        set_rotation (set_addresses (cached_address_ r) (cached_address_ r) (rotation_irk_ r) r) s
      else s in
    post Tcheck_cached_commands s.

(** The handler runs a task. *)
Definition run_task (t : Task) (s : LeAddressManager) : option LeAddressManager :=
  match t with
  | Tregister_client callback => register_client callback s
  | Tunregister_client callback => unregister_client callback s
  | Tset_promise => Some s
  | Tack_pause callback => ack_pause callback s
  | Tack_resume callback => Some (ack_resume callback s)
  | Tpush_command command => Some (push_command command s)
  | Tprepare_to_update_irk irk min_time max_time => prepare_to_update_irk irk min_time max_time s
  | Thandle_next_command => handle_next_command s
  | Tpause_registered_clients => Some (pause_registered_clients s)
  | Tresume_registered_clients => resume_registered_clients s
  | Tcheck_cached_commands => check_cached_commands s
  | Tenqueue_command command => Some (output [Enqueue command] s)
  end.

End manager.
