(* ===== verification/LeAddressManagerSpec.v ===== *)
(** * LE address manager: properties

    The addresses it generates, and the queue of its commands in a world of clients
    that acknowledge and a controller that completes commands: the commands are sent
    in the order of the requests, none is lost, and only while every client is
    paused.  That nothing aborts and no request is forgotten while a client stays
    registered is in [LeAddressManagerProgress.v]. *)

From stdpp Require Import base list option.
From Stdlib Require Import ZArith Lia.
From S2P Require Import Prelude Aes AesRound AesSpec CryptoToolbox CmacSpec AddressWithType.
From S2P Require Import LeAddressManager.

Open Scope Z_scope.

(** ** Addresses *)

Section addresses.
Context (RAND_bytes : nat -> Z) (fuel : nat) (public_address_ : Address).

Abbreviation GenerateRandom := (GenerateRandom RAND_bytes).
Abbreviation generate_rpa := (generate_rpa RAND_bytes).
Abbreviation generate_nrpa := (generate_nrpa RAND_bytes fuel public_address_).

Hypothesis RAND_byte : forall n, byte (RAND_bytes n).

(** The most significant octet without and with the marker of a resolvable address. *)
Lemma top_octet x : byte x ->
  let y := Z.land x (Z.lnot BLE_ADDR_MASK) in
  0 <= y <= 0x3F /\ Z.lor y BLE_RESOLVE_ADDR_MSB = y + 0x40.
Proof.
  intros Hx.
  pose proof (forall_byte (fun x => let y := Z.land x (Z.lnot BLE_ADDR_MASK) in
    (0 <=? y) && (y <=? 0x3F) && (Z.lor y BLE_RESOLVE_ADDR_MSB =? y + 0x40))
    ltac:(vm_compute; reflexivity) x Hx) as H. cbn beta in H.
  apply andb_prop in H as [H H3]. apply andb_prop in H as [H1 H2].
  cbv zeta. lia.
Qed.

Lemma random_octet_range r : 1 <= fst (random_octet RAND_bytes r) <= 0xFE.
Proof.
  unfold random_octet. destruct (GenerateRandom32 RAND_bytes r) as [x r']. cbn [fst].
  rewrite wrap_small; unfold in_range; change (2 ^ 8) with 256;
    pose proof (Z.mod_pos_bound x 0xFE); lia.
Qed.

Lemma random_octet_irk r : rotation_irk_ (snd (random_octet RAND_bytes r)) = rotation_irk_ r.
Proof. done. Qed.

(** The random part of the address, three octets without the marker, is neither all
    zeros nor all ones. *)
Definition prand_ok (a : Address) : Prop :=
  0 < a.[3] + 2 ^ 8 * a.[4] + 2 ^ 16 * (a.[5] - 0x40) < 2 ^ 22 - 1.

(** The hash of the Core Specification: the 24 least significant bits of the
    encryption of the random part, padded with zeros.  Most significant octet
    first. *)
Definition ah (irk prand : list Z) : list Z := drop 13 (AES128 irk (replicate 13 0 ++ prand)).

Lemma resolves_iff (a : AddressWithType) irk : block 16 irk -> block 6 (address_ a) ->
  IsRpaThatMatchesIrk a irk = true <->
  IsRpa a = true /\ rev (take 3 (address_ a)) = ah (rev irk) (rev (drop 3 (address_ a))).
Proof.
  intros Hi [L F]. unfold IsRpaThatMatchesIrk. destruct (IsRpa a); cbn [negb]; [|naive_solver].
  destruct a as [a t]. cbn [address_] in *. expose a. unfold rd. cbn [nth replicate].
  change (<[2%nat:=?z]> (<[1%nat:=?y]> (<[0%nat:=?x]> (0 :: 0 :: 0 :: ?l)))) with (x :: y :: z :: l).
  cbv zeta. rewrite bool_decide_eq_true.
  match goal with |- context [aes_128 irk ?m] => set (msg := m) end.
  assert (Bm : block 16 msg).
  { split; [done|]. decompose_Forall_hyps. unfold msg. repeat (constructor; [done|]). by constructor. }
  destruct (aes_128_spec irk msg Hi Bm) as [E B]. rewrite E.
  unfold ah. change (replicate 13 0 ++ rev _) with (rev msg).
  cbn [take]. set (c := AES128 _ _). assert (Lc : length c = 16%nat).
  { rewrite <- (proj1 B), E. by rewrite length_rev. }
  clearbody c. rewrite firstn_rev, Lc. change (16 - 3)%nat with 13%nat.
  split.
  - intros H. split; [done|]. by rewrite <- H, rev_involutive.
  - intros [_ H]. by rewrite <- H, rev_involutive.
Qed.

Lemma GenerateRandom_block n r : block n (fst (GenerateRandom n r)).
Proof.
  split; [cbn; by rewrite length_map, length_seq|]. cbn. generalize (random_ r).
  induction n; intros m; cbn; constructor; auto.
Qed.

(** The random part of a resolvable address. *)
Lemma generate_rpa_prand r : exists p0 p1 p2 r',
  let rand := p0 :: p1 :: p2 :: replicate 13 0 in
  let p := aes_128 (rotation_irk_ r) rand in
  generate_rpa r = ([p.[0]; p.[1]; p.[2]; p0; p1; p2], r') /\
  byte p0 /\ byte p1 /\ 0x40 <= p2 <= 0x7F /\ prand_ok [0; 0; 0; p0; p1; p2].
Proof.
  unfold LeAddressManager.generate_rpa.
  pose proof (GenerateRandom_block 3 r) as [L F].
  destruct (GenerateRandom 3 r) as [prand r1] eqn:E. cbn [fst] in L, F.
  assert (rotation_irk_ r1 = rotation_irk_ r) as <- by (unfold GenerateRandom in E; by simplify_eq).
  expose prand. decompose_Forall_hyps. unfold rd at 1 2 3 4 5 6 7. cbn [nth].
  change (<[2%nat:=?z]> [b; b0; b1]) with [b; b0; z]. cbn [nth].
  destruct (top_octet b1) as [Hy Ho]; [done|]. set (y := Z.land b1 _) in *.
  match goal with |- context [if ?c then _ else _] => destruct c eqn:C end.
  - pose proof (random_octet_range r1) as Hx.
    exists (fst (random_octet RAND_bytes r1)), b0, (Z.lor y BLE_RESOLVE_ADDR_MSB),
      (snd (random_octet RAND_bytes r1)).
    split; [reflexivity|]. rewrite Ho. set (x := fst _) in *. clearbody x.
    unfold prand_ok, in_range, rd in *. cbn [nth]. lia.
  - exists b, b0, (Z.lor y BLE_RESOLVE_ADDR_MSB), r1. split; [reflexivity|]. rewrite Ho.
    unfold prand_ok, in_range, rd in *. cbn [nth] in *.
    apply orb_false_elim in C as [C1 C2].
    rewrite !andb_false_iff, !Z.eqb_neq in C1, C2. lia.
Qed.

(** C27: the resolvable private addresses the manager generates are resolved by
    [IsRpaThatMatchesIrk] with the key they were generated with; the hash is the
    function [ah] of the Core Specification, and the random part is neither all
    zeros nor all ones, as that requires. *)
Theorem rpa_resolves (r : Rotation) :
  block 16 (rotation_irk_ r) ->
  let a := fst (generate_rpa r) in
  block 6 a /\ prand_ok a /\
  IsRpaThatMatchesIrk {| address_ := a; address_type_ := RANDOM_DEVICE_ADDRESS |}
    (rotation_irk_ r) = true /\
  rev (take 3 a) = ah (rev (rotation_irk_ r)) (rev (drop 3 a)).
Proof.
  intros Hi. destruct (generate_rpa_prand r) as (p0 & p1 & p2 & r' & E & H0 & H1 & H2 & Hp).
  cbv zeta in *. rewrite E. cbn [fst]. set (rand := p0 :: _) in *.
  assert (Br : block 16 rand).
  { split; [done|]. unfold rand, in_range in *. repeat (constructor; [lia|]). by_decide. }
  destruct (aes_128_spec _ _ Hi Br) as [_ [Lb Fb]]. set (p := aes_128 _ _) in *.
  assert (Ba : block 6 [p.[0]; p.[1]; p.[2]; p0; p1; p2]).
  { clearbody p. expose p. decompose_Forall_hyps. unfold rd, in_range in *. cbn [nth].
    split; [done|]. repeat (constructor; [unfold in_range; lia|]). by constructor. }
  assert (R : IsRpaThatMatchesIrk
    {| address_ := [p.[0]; p.[1]; p.[2]; p0; p1; p2]; address_type_ := RANDOM_DEVICE_ADDRESS |}
    (rotation_irk_ r) = true).
  { unfold IsRpaThatMatchesIrk, IsRpa. cbn [address_ address_type_]. unfold rd at 1. cbn [nth].
    assert ((Z.land p2 0xc0 =? 0x40) = true) as ->.
    { replace p2 with (0x40 + (p2 - 0x40)) by lia.
      pose proof (forall_byte (fun x => negb (x <=? 0x3F) || (Z.land (0x40 + x) 0xc0 =? 0x40))
        ltac:(vm_compute; reflexivity) (p2 - 0x40) ltac:(unfold in_range; lia)) as H.
      cbn beta in H. destruct (Z.leb_spec (p2 - 0x40) 0x3F); [exact H|lia]. }
    rewrite bool_decide_true by done. cbn [andb negb]. apply bool_decide_eq_true.
    change (take 3 p = [p.[0]; p.[1]; p.[2]]). clearbody p. expose p. reflexivity. }
  split; [done|]. split; [exact Hp|]. split; [exact R|].
  by apply (resolves_iff {| address_ := _; address_type_ := _ |} _ Hi Ba) in R as [_ ?].
Qed.

(** The octets that the loop of [generate_nrpa] draws from position [n] on: one of
    them is not the first octet of the public address. *)
Definition random_varies (n : nat) : Prop :=
  exists k, (S k < fuel)%nat /\
    u8 (le32 (map RAND_bytes (seq (n + 4 * k) 4)) mod 0xFE + 1) <> public_address_.[0].

(** Neither all zeros nor all ones in the 46 random bits. *)
Definition nrpa_ok (a : Address) : Prop :=
  block 6 a /\ 0 <= a.[5] <= 0x3F /\
  a <> [0; 0; 0; 0; 0; 0] /\ a <> [0xFF; 0xFF; 0xFF; 0xFF; 0xFF; 0x3F].

Lemma nrpa_ok_first x b1 b2 b3 b4 b5 :
  1 <= x <= 0xFE -> byte b1 -> byte b2 -> byte b3 -> byte b4 -> 0 <= b5 <= 0x3F ->
  nrpa_ok [x; b1; b2; b3; b4; b5].
Proof.
  intros. unfold nrpa_ok, rd. cbn [nth]. repeat split; try lia; try (intros [=]; lia).
  repeat (constructor; [unfold in_range in *; lia|]). by constructor.
Qed.

Lemma nrpa_ok_update a x : nrpa_ok a -> 1 <= x <= 0xFE -> nrpa_ok (a.[0 <- x]).
Proof.
  intros ([L F] & T & _) Hx. expose a. decompose_Forall_hyps. unfold rd in T. cbn [nth] in T.
  by apply nrpa_ok_first.
Qed.

Lemma update_first_neq (a : list Z) x : length a = 6%nat -> x <> a.[0] -> a.[0 <- x] <> a.
Proof. intros L N E. expose a. cbn in E. by injection E. Qed.

(** Each turn of the loop draws four bytes. *)
Lemma nrpa_loop_spec k : forall f a r, (S k < f)%nat -> nrpa_ok a ->
  u8 (le32 (map RAND_bytes (seq (random_ r + 4 * k) 4)) mod 0xFE + 1) <> public_address_.[0] ->
  exists a' r', nrpa_loop RAND_bytes public_address_ f a r = Some (a', r') /\
    nrpa_ok a' /\ a' <> public_address_.
Proof.
  induction k as [|k IH]; intros [|f] a r Hf Ha Hk; try lia; cbn [nrpa_loop];
    (destruct (decide (a = public_address_)) as [->|N]; [|by eauto]);
    pose proof (random_octet_range r) as Hx; pose proof (nrpa_ok_update _ _ Ha Hx) as Ha'.
  - rewrite Nat.add_0_r in Hk. change (u8 _) with (fst (random_octet RAND_bytes r)) in Hk.
    destruct (random_octet RAND_bytes r) as [x r1]. cbn [fst] in *.
    destruct f as [|f]; [lia|]. cbn [nrpa_loop].
    rewrite decide_False by (apply update_first_neq; [apply Ha|done]). eexists _, _.
    split; [done|]. split; [done|]. apply update_first_neq; [apply Ha|done].
  - destruct (random_octet RAND_bytes r) as [x r1] eqn:E. cbn [fst] in *.
    apply IH; [lia|done|]. assert (random_ r1 = (random_ r + 4)%nat) as -> by (by injection E as _ <-).
    by replace (random_ r + 4 + 4 * k)%nat with (random_ r + 4 * S k)%nat by lia.
Qed.

(** A non-resolvable private address is found when the random source does not repeat
    the first octet of the public address for ever; its two most significant bits
    are zero, its random bits are neither all zeros nor all ones, and it is not the
    public address. *)
Theorem nrpa_valid (r : Rotation) :
  random_varies (random_ r + 6) -> random_varies (random_ r + 10) ->
  exists a r', generate_nrpa r = Some (a, r') /\ nrpa_ok a /\ a <> public_address_.
Proof.
  intros (k1 & F1 & K1) (k2 & F2 & K2). unfold LeAddressManager.generate_nrpa.
  pose proof (GenerateRandom_block 6 r) as [L F].
  destruct (GenerateRandom 6 r) as [random r1] eqn:E. cbn [fst] in L, F.
  assert (random_ r1 = (random_ r + 6)%nat) as R1 by (by injection E as _ <-).
  expose random. decompose_Forall_hyps. unfold rd. cbn [nth].
  change (<[5%nat:=?z]> [b; b0; b1; b2; b3; b4]) with [b; b0; b1; b2; b3; z]. cbn [nth].
  destruct (top_octet b4) as [Hy _]; [done|]. set (y := Z.land b4 _) in *. clearbody y.
  match goal with |- context [if ?c then _ else _] => destruct c eqn:C end.
  - pose proof (random_octet_range r1) as Hx.
    apply (nrpa_loop_spec k2); [done| |].
    + by apply (nrpa_ok_first (fst (random_octet RAND_bytes r1)) b0 b1 b2 b3 y).
    + replace (random_ _) with (random_ r + 10)%nat by (cbn; lia). done.
  - apply (nrpa_loop_spec k1); [done| |by rewrite R1].
    apply orb_false_elim in C as [C1 C2]. rewrite !andb_false_iff, !Z.eqb_neq in C1, C2.
    unfold rd in C1, C2. cbn [nth] in C1, C2. unfold nrpa_ok, rd. cbn [nth].
    repeat split; try lia; try (intros [=]; lia).
    unfold in_range in *. repeat (constructor; [unfold in_range; lia|]). by constructor.
Qed.

Lemma le32_bytes l : Forall byte l -> length l = 4%nat -> 0 <= le32 l < 2 ^ 32.
Proof.
  intros F L. expose l. decompose_Forall_hyps. unfold le32, rd, in_range in *. cbn [nth]. lia.
Qed.

Lemma GenerateRandom32_range r : 0 <= fst (GenerateRandom32 RAND_bytes r) < 2 ^ 32.
Proof.
  destruct (GenerateRandom_block 4 r) as [L F]. unfold GenerateRandom32.
  destruct (LeAddressManager.GenerateRandom RAND_bytes 4 r). cbn [fst] in *. by apply le32_bytes.
Qed.

(** The alarms of a rotation are within the configured bounds, the one that wakes
    the device not before the other; each is at most two minutes from its bound, or
    at the other bound when they are closer. *)
Theorem rotation_delays_bounded (r : Rotation) :
  minimum_rotation_time_ r <= maximum_rotation_time_ r ->
  let '((nonwake, wake), _) := GetNextPrivateAddressIntervalRange RAND_bytes r in
  minimum_rotation_time_ r <= nonwake <= wake /\ wake <= maximum_rotation_time_ r /\
  nonwake < minimum_rotation_time_ r + 120000 /\ maximum_rotation_time_ r - 120000 < wake.
Proof.
  intros Hm. unfold GetNextPrivateAddressIntervalRange.
  pose proof (GenerateRandom32_range r) as H1.
  destruct (GenerateRandom32 RAND_bytes r) as [x r1] eqn:E1.
  pose proof (GenerateRandom32_range r1) as H2.
  assert (minimum_rotation_time_ r1 = minimum_rotation_time_ r /\
          maximum_rotation_time_ r1 = maximum_rotation_time_ r) as [Em EM]
    by (unfold GenerateRandom32, GenerateRandom in E1; by injection E1 as _ <-).
  destruct (GenerateRandom32 RAND_bytes r1) as [y r2] eqn:E2.
  assert (minimum_rotation_time_ r2 = minimum_rotation_time_ r1 /\
          maximum_rotation_time_ r2 = maximum_rotation_time_ r1) as [-> ->]
    by (unfold GenerateRandom32, GenerateRandom in E2; by injection E2 as _ <-).
  rewrite Em, EM. cbn [fst] in *. rewrite !Z.rem_mod_nonneg by lia.
  pose proof (Z.mod_pos_bound x (2 * 60 * 1000)). pose proof (Z.mod_pos_bound y (2 * 60 * 1000)). lia.
Qed.
End addresses.

(** ** The world of the manager

    The clients owe an acknowledgement for every call of [OnPause] and [OnResume],
    and give those they owe in order; the controller completes the commands in
    order.  [outputs] of the manager are those of the last step. *)

Inductive Ack := AckedPause | AckedResume.

Record World := {
  manager : LeAddressManager;
  owed : list (LeAddressManagerCallback * Ack);
  in_flight : list CommandBuilder;
}.

Inductive Event :=
| ERegister (c : LeAddressManagerCallback)
| EUnregister (c : LeAddressManagerCallback)
| EUnregisterSync (c : LeAddressManagerCallback)
| EAck (c : LeAddressManagerCallback)
| EAddDeviceToFilterAcceptList (t : FilterAcceptListAddressType) (a : Address)
| ERemoveDeviceFromFilterAcceptList (t : FilterAcceptListAddressType) (a : Address)
| EClearFilterAcceptList
| EAddDeviceToResolvingList (t : PeerAddressType) (a : Address) (peer_irk local_irk : list Z)
| ERemoveDeviceFromResolvingList (t : PeerAddressType) (a : Address)
| EClearResolvingList
| ESetPrivacyPolicy (p : AddressPolicy) (fixed : AddressWithType) (irk : list Z) (supports : bool)
    (min_time max_time : milliseconds)
| ENewResolvableAddress
| ENewNonResolvableAddress
| ERun                          (* the handler runs its oldest task *)
| EComplete (success : bool)    (* the oldest command in flight completes *)
| EWakeAlarm
| ENonWakeAlarm
| ETime (t : time_point).

(** The acknowledgement an output asks for, the command it sends. *)
Definition asks (o : Output) : list (LeAddressManagerCallback * Ack) :=
  match o with
  | OnPause c => [(c, AckedPause)]
  | OnResume c => [(c, AckedResume)]
  | _ => []
  end.
Definition sends (o : Output) : list CommandBuilder :=
  match o with Enqueue c => [c] | _ => [] end.
Definition sent (o : list Output) : list CommandBuilder := o ≫= sends.

(** The oldest acknowledgement a client owes, and the others. *)
Fixpoint take_ack (c : LeAddressManagerCallback) (l : list (LeAddressManagerCallback * Ack))
    : option (Ack * list (LeAddressManagerCallback * Ack)) :=
  match l with
  | [] => None
  | (k, a) :: rest =>
      if k =? c then Some (a, rest)
      else '(b, rest) ← take_ack c rest; Some (b, (k, a) :: rest)
  end.

Section world.
Context (RAND_bytes : nat -> Z) (fuel : nat).
Context (public_address_ : Address) (accept_list_size_ resolving_list_size_ : Z).
Context (IsRpaGenerationSupported nrpa_non_connectable_adv : bool).

Abbreviation run_task := (run_task RAND_bytes fuel public_address_ IsRpaGenerationSupported).

(** An alarm that rings is not scheduled any more. *)
Definition non_wake_alarm (s : LeAddressManager) : LeAddressManager :=
  let r := rotation s in
  match address_rotation_non_wake_alarm_ r with
  | Some (Some _) =>
      prepare_to_rotate (set_rotation (set_alarms (address_rotation_wake_alarm_ r) (Some None) r) s)
  | _ => s
  end.
Definition wake_alarm (s : LeAddressManager) : LeAddressManager :=
  let r := rotation s in
  match address_rotation_wake_alarm_ r with
  | Some (Some _) =>
      set_rotation (set_alarms (Some None) (address_rotation_non_wake_alarm_ r) r) s
  | _ => s
  end.

Definition call (e : Event) (s : LeAddressManager) : option LeAddressManager :=
  match e with
  | ERegister c => Some (snd (Register c s))
  | EUnregister c => Some (Unregister c s)
  | EUnregisterSync c => Some (UnregisterSync c s)
  | EAddDeviceToFilterAcceptList t a => Some (AddDeviceToFilterAcceptList t a s)
  | ERemoveDeviceFromFilterAcceptList t a => Some (RemoveDeviceFromFilterAcceptList t a s)
  | EClearFilterAcceptList => Some (ClearFilterAcceptList s)
  | EAddDeviceToResolvingList t a k l => Some (AddDeviceToResolvingList t a k l s)
  | ERemoveDeviceFromResolvingList t a => Some (RemoveDeviceFromResolvingList t a s)
  | EClearResolvingList => Some (ClearResolvingList s)
  | ESetPrivacyPolicy p f k b tmin tmax =>
      SetPrivacyPolicyForInitiatorAddress RAND_bytes fuel public_address_ IsRpaGenerationSupported
        nrpa_non_connectable_adv p f k b tmin tmax s
  | ENewResolvableAddress => snd <$> NewResolvableAddress RAND_bytes s
  | ENewNonResolvableAddress =>
      snd <$> NewNonResolvableAddress RAND_bytes fuel public_address_ nrpa_non_connectable_adv s
  | ERun =>
      match posted s with
      | [] => Some s
      | t :: rest => run_task t (set_posted rest s)
      end
  | EWakeAlarm => Some (wake_alarm s)
  | ENonWakeAlarm => Some (non_wake_alarm s)
  | ETime t => Some (set_rotation (set_clock t (random_ (rotation s)) (rotation s)) s)
  | EAck _ | EComplete _ => Some s
  end.

Definition step (e : Event) (w : World) : option World :=
  let s := set_outputs [] (manager w) in
  match e with
  | EAck c =>
      match take_ack c (owed w) with
      | None => Some {| manager := s; owed := owed w; in_flight := in_flight w |}
      | Some (AckedPause, rest) =>
          Some {| manager := AckPause c s; owed := rest; in_flight := in_flight w |}
      | Some (AckedResume, rest) =>
          Some {| manager := AckResume c s; owed := rest; in_flight := in_flight w |}
      end
  | EComplete success =>
      match in_flight w with
      | [] => Some {| manager := s; owed := owed w; in_flight := [] |}
      | c :: rest =>
          Some {| manager := OnCommandComplete c success s; owed := owed w; in_flight := rest |}
      end
  | _ =>
      s ← call e s;
      Some {| manager := s; owed := owed w ++ (outputs s ≫= asks);
              in_flight := in_flight w ++ sent (outputs s) |}
  end.

(** A run: the world at its end and the commands sent. *)
Fixpoint run (es : list Event) (w : World) : option (World * list CommandBuilder) :=
  match es with
  | [] => Some (w, [])
  | e :: es =>
      w ← step e w;
      '(w', l) ← run es w;
      Some (w', sent (outputs (manager w)) ++ l)
  end.

(** The commands a step caches. *)
Definition resolving_batch (l : list (CommandType * CommandBuilder)) : list Command :=
  [hci SET_ADDRESS_RESOLUTION_ENABLE (LeSetAddressResolutionEnable false)] ++
  map (fun x => hci (fst x) (snd x)) l ++
  [hci SET_ADDRESS_RESOLUTION_ENABLE (LeSetAddressResolutionEnable true)].

Definition requested (e : Event) (s : LeAddressManager) : list Command :=
  match e with
  | EAddDeviceToResolvingList t a k l =>
      if supports_ble_privacy_ s then
        resolving_batch [(ADD_DEVICE_TO_RESOLVING_LIST, LeAddDeviceToResolvingList t a k l);
                         (LE_SET_PRIVACY_MODE, LeSetPrivacyMode t a)]
      else []
  | ERemoveDeviceFromResolvingList t a =>
      if supports_ble_privacy_ s then
        resolving_batch [(REMOVE_DEVICE_FROM_RESOLVING_LIST, LeRemoveDeviceFromResolvingList t a)]
      else []
  | EClearResolvingList =>
      if supports_ble_privacy_ s then
        resolving_batch [(CLEAR_RESOLVING_LIST, LeClearResolvingList)]
      else []
  | ENonWakeAlarm =>
      match address_rotation_non_wake_alarm_ (rotation s) with
      | Some (Some _) =>
          [{| command_type := ROTATE_RANDOM_ADDRESS; contents := RotateRandomAddressCommand |}]
      | _ => []
      end
  | ERun =>
      match posted s with
      | Tpush_command c :: _ => [c]
      | Tprepare_to_update_irk k tmin tmax :: _ =>
          [{| command_type := UPDATE_IRK; contents := UpdateIRKCommand k tmin tmax |}]
      | _ => []
      end
  | _ => []
  end.

Fixpoint requests (es : list Event) (w : World) : list Command :=
  match es with
  | [] => []
  | e :: es =>
      requested e (manager w) ++
      match step e w with Some w => requests es w | None => [] end
  end.

(** The command sent for a cached one. *)
Definition realises (c : Command) (b : CommandBuilder) : Prop :=
  match contents c with
  | HCICommand b' => b = b'
  | _ => exists a, b = LeSetRandomAddress a
  end.

(** *** What the operations do to the queue *)

(** Whether the alarms exist. *)
Definition alarms (r : Rotation) : bool * bool :=
  (bool_decide (is_Some (address_rotation_wake_alarm_ r)),
   bool_decide (is_Some (address_rotation_non_wake_alarm_ r))).

Lemma sent_app o1 o2 : sent (o1 ++ o2) = sent o1 ++ sent o2.
Proof. unfold sent. by rewrite bind_app. Qed.

Lemma asks_app o1 o2 : (o1 ++ o2) ≫= asks = (o1 ≫= asks) ++ (o2 ≫= asks).
Proof. by rewrite bind_app. Qed.

(** [s'] is [s] with other addresses and some more outputs. *)
Definition talks (o : list Output) (s s' : LeAddressManager) : Prop :=
  exists r, s' = output o (set_rotation r s) /\ alarms r = alarms (rotation s).

Lemma talks_trans o1 o2 s1 s2 s3 : talks o1 s1 s2 -> talks o2 s2 s3 -> talks (o1 ++ o2) s1 s3.
Proof.
  intros (r1 & -> & A1) (r2 & -> & A2). exists r2. split; [|by rewrite A2].
  unfold output, set_rotation, set_outputs. cbn. by rewrite app_assoc.
Qed.

Lemma schedule_talks s s' : schedule_rotate_random_address RAND_bytes s = Some s' ->
  exists o, talks o s s' /\ sent o = [] /\ o ≫= asks = [].
Proof.
  unfold schedule_rotate_random_address. cbn.
  destruct (address_rotation_wake_alarm_ _) eqn:E1; [|done].
  destruct (address_rotation_non_wake_alarm_ _) eqn:E2; [|done]. intros [= <-].
  match goal with |- context [output ?o (set_rotation ?r s)] => exists o; split; [exists r; split; [done|]|] end.
  - unfold alarms. rewrite E1, E2. done.
  - unfold CheckAddressRotationHappenedInExpectedTimeInterval. by repeat case_match.
Qed.

Lemma generate_rpa_alarms r : alarms (snd (generate_rpa RAND_bytes r)) = alarms r.
Proof. unfold generate_rpa. cbn. by destruct (_ || _). Qed.

Lemma generate_nrpa_alarms r a r' :
  generate_nrpa RAND_bytes fuel public_address_ r = Some (a, r') -> alarms r' = alarms r.
Proof.
  unfold generate_nrpa. cbn.
  assert (L : forall f x y, nrpa_loop RAND_bytes public_address_ f x y = Some (a, r') ->
    alarms r' = alarms y).
  { induction f as [|f IH]; intros x y; cbn; [done|].
    destruct (decide _); [|by intros [= <- <-]]. intros H. by rewrite (IH _ _ H). }
  destruct (_ || _); intros H; by rewrite (L _ _ _ H).
Qed.

Lemma set_random_address_talks s s' :
  set_random_address RAND_bytes fuel public_address_ s = Some s' ->
  exists a, talks [Enqueue (LeSetRandomAddress a)] s s'.
Proof.
  unfold set_random_address. destruct (negb _); [done|]. intros H.
  apply bind_Some in H as ([a r] & G & [= <-]).
  assert (alarms r = alarms (rotation s)).
  { destruct (decide _); [|by eapply generate_nrpa_alarms]. injection G as G.
    pose proof (generate_rpa_alarms (rotation s)) as E. by rewrite G in E. }
  exists a. eexists. split; [reflexivity|]. done.
Qed.

Lemma visit_talks c s s' :
  visit_command RAND_bytes fuel public_address_ (contents c) s = Some s' ->
  exists o b, talks o s s' /\ sent o = [b] /\ realises c b /\ o ≫= asks = [].
Proof.
  unfold realises. destruct (contents c) as [|irk tmin tmax|b]; cbn [visit_command].
  - unfold rotate_random_address. destruct (negb _); [done|]. intros H.
    apply bind_Some in H as (s1 & H1 & H2).
    apply schedule_talks in H1 as (o & T1 & S1 & A1). apply set_random_address_talks in H2 as (a & T2).
    exists (o ++ [Enqueue (LeSetRandomAddress a)]), (LeSetRandomAddress a).
    rewrite sent_app, asks_app, S1, A1. split; [by eapply talks_trans|]. eauto.
  - unfold update_irk. intros H. apply bind_Some in H as (s1 & H1 & [= <-]).
    apply set_random_address_talks in H1 as (a & r & -> & A).
    eexists ([Enqueue (LeSetRandomAddress a)] ++ map _ _), (LeSetRandomAddress a).
    split; [exists r; split; [|exact A]|].
    { unfold output, set_rotation, set_outputs. cbn. by rewrite <- app_assoc. }
    rewrite sent_app, asks_app. cbn.
    set (l := registered_clients_ _). split_and!; [|by eauto|]; clear; induction l; cbn; auto.
  - intros [= <-]. exists [Enqueue b], b. split; [|done]. exists (rotation s). by destruct s.
Qed.

(** From [s] to [s'] the commands [new] are cached, and those that are sent are the
    oldest ones; at the end every client is paused if any is sent. *)
Definition processes (new : list Command) (s s' : LeAddressManager) : Prop :=
  exists d o, cached_commands_ s ++ new = d ++ cached_commands_ s' /\
    outputs s' = outputs s ++ o /\ Forall2 realises d (sent o) /\
    (d = [] \/ all_paused s' = true) /\
    address_policy_ s' = address_policy_ s /\ supports_ble_privacy_ s' = supports_ble_privacy_ s /\
    posted s' = posted s.

Lemma processes_quiet o new s s' :
  cached_commands_ s' = cached_commands_ s ++ new -> outputs s' = outputs s ++ o -> sent o = [] ->
  address_policy_ s' = address_policy_ s -> supports_ble_privacy_ s' = supports_ble_privacy_ s ->
  posted s' = posted s -> processes new s s'.
Proof.
  intros Hc Ho Hs. exists [], o. rewrite Hs. split; [done|]. split; [done|].
  split; [by constructor|]. by split; [left|].
Qed.

Lemma processes_trans new s1 s2 s3 :
  processes new s1 s2 -> processes [] s2 s3 -> (all_paused s2 = true -> all_paused s3 = true) ->
  processes new s1 s3.
Proof.
  intros (d1 & o1 & C1 & O1 & F1 & P1 & ? & ? & ?) (d2 & o2 & C2 & O2 & F2 & P2 & ? & ? & ?) HP.
  exists (d1 ++ d2), (o1 ++ o2). rewrite app_nil_r in C2. split_and!.
  - by rewrite C1, C2, app_assoc.
  - by rewrite O2, O1, app_assoc.
  - rewrite sent_app. by apply Forall2_app.
  - destruct P2 as [->|P2]; [|by right]. rewrite app_nil_r. destruct P1; auto.
  - congruence.
  - congruence.
  - congruence.
Qed.

(** A step without commands. *)
Ltac quiet := apply (processes_quiet []); cbn; by rewrite ?app_nil_r.

Lemma sent_pauses l : sent (mjoin (map (snd ∘ pause_client) l)) = [].
Proof.
  induction l as [|[c []] l IH]; cbn; [done|..]; rewrite ?sent_app; try exact IH.
Qed.

Lemma pause_processes s : processes [] s (pause_registered_clients s).
Proof.
  eapply processes_quiet; [by rewrite app_nil_r|reflexivity|apply sent_pauses|done..].
Qed.

Lemma cache_processes c s : processes [c] s (cache c s).
Proof. apply (processes_quiet []); try done. cbn. by rewrite app_nil_r. Qed.

Lemma handle_next_processes s s' :
  handle_next_command RAND_bytes fuel public_address_ s = Some s' -> processes [] s s'.
Proof.
  unfold handle_next_command. destruct (all_paused s) eqn:P; cbn [negb].
  2: { intros [= <-]. quiet. }
  destruct (cached_commands_ s) as [|c rest] eqn:C; [done|]. intros H.
  apply visit_talks in H as (o & b & (r & -> & _) & S & R & _).
  exists [c], o. rewrite C, app_nil_r, S. split; [done|]. split; [done|].
  split; [by repeat constructor|]. by split; [right|].
Qed.

Lemma resume_processes s s' :
  resume_registered_clients RAND_bytes fuel public_address_ s = Some s' -> processes [] s s'.
Proof.
  unfold resume_registered_clients. destruct (negb _); [apply handle_next_processes|].
  intros [= <-]. eapply processes_quiet; [by rewrite app_nil_r|reflexivity| |done..].
  clear. induction (registered_clients_ s) as [|x l IH]; cbn; [done|exact IH].
Qed.

Lemma check_processes s s' :
  check_cached_commands RAND_bytes fuel public_address_ s = Some s' -> processes [] s s'.
Proof.
  unfold check_cached_commands. destruct (_ && _); [intros [= <-]; apply pause_processes|].
  destruct (is_nil _); [apply resume_processes|apply handle_next_processes].
Qed.

Lemma ack_pause_loop_sent l l' o : ack_pause_loop l = Some (l', o) -> sent o = [].
Proof.
  revert l'. induction l as [|[c []] l IH]; intros l'; cbn; try (by intros [= <- <-]).
  intros H. apply bind_Some in H as ([l1 o1] & H & [= <- <-]). by eapply IH.
Qed.

Lemma ack_pause_processes c s s' :
  ack_pause RAND_bytes fuel public_address_ c s = Some s' -> processes [] s s'.
Proof.
  unfold ack_pause. destruct (find_client c _);
    [|intros [= <-]; quiet].
  set (s1 := set_clients _ s).
  assert (H1 : processes [] s s1) by (quiet).
  destruct (ack_pause_loop _) as [[l o]|] eqn:L.
  - intros [= <-]. apply ack_pause_loop_sent in L.
    apply (processes_quiet o); cbn; by rewrite ?app_nil_r.
  - destruct (decide _); [|by intros [= <-]]. intros H. apply check_processes in H.
    destruct H1 as (d & o & _). destruct H as (d2 & o2 & H). exists d2, o2. exact H.
Qed.

Lemma ack_resume_processes c s : processes [] s (ack_resume c s).
Proof.
  unfold ack_resume. destruct (find_client c _); quiet.
Qed.

Lemma all_paused_erase c s : all_paused s = true ->
  all_paused (set_clients (erase_client c (registered_clients_ s)) s) = true.
Proof.
  unfold all_paused. cbn. induction (registered_clients_ s) as [|x l IH]; cbn; [done|].
  intros [H1 H2]%andb_prop. destruct (negb _); cbn; [rewrite H1|]; by apply IH.
Qed.

Lemma unregister_processes c s s' :
  unregister_client RAND_bytes fuel public_address_ c s = Some s' -> processes [] s s'.
Proof.
  unfold unregister_client. intros H. apply bind_Some in H as (s2 & H1 & H2).
  assert (processes [] s s2 /\ processes [] s2 s' /\ (all_paused s2 = true -> all_paused s' = true))
    as (? & ? & ?); [|by eapply processes_trans].
  split; [|destruct (is_nil _); injection H2 as <-; (split; [|done]);
           quiet].
  destruct (find_client c _) as [st|];
    [|injection H1 as <-; quiet].
  apply bind_Some in H1 as (s1 & H1 & [= <-]).
  apply (processes_trans [] s s1); [|quiet|].
  - destruct st; try (injection H1 as <-);
      eauto using ack_pause_processes, ack_resume_processes;
      quiet.
  - apply all_paused_erase.
Qed.

Lemma register_processes c s s' :
  register_client RAND_bytes IsRpaGenerationSupported c s = Some s' -> processes [] s s'.
Proof.
  unfold register_client. set (s1 := set_clients _ s).
  assert (Q : processes [] s s1) by quiet.
  destruct (decide _).
  { intros [= <-]. eapply processes_quiet;
      [by rewrite app_nil_r|reflexivity|apply sent_pauses|done..]. }
  destruct (RotatingAddress s1); [|by intros [= <-]].
  destruct (_ =? _)%nat; [|by intros [= <-]].
  destruct (negb _); [|by intros [= <-]]. intros H.
  apply schedule_talks in H as (o & (r & -> & _) & S & _).
  apply (processes_quiet o); cbn; by rewrite ?app_nil_r.
Qed.

(** The commands a task caches. *)
Definition pushed (t : Task) : list Command :=
  match t with
  | Tpush_command c => [c]
  | Tprepare_to_update_irk k tmin tmax =>
      [{| command_type := UPDATE_IRK; contents := UpdateIRKCommand k tmin tmax |}]
  | _ => []
  end.

Definition is_enqueue (t : Task) : bool :=
  match t with Tenqueue_command _ => true | _ => false end.

Lemma pause_cache_processes c s :
  processes [c] s (pause_registered_clients (cache c s)).
Proof. eapply processes_quiet; [reflexivity|reflexivity|apply sent_pauses|done..]. Qed.

Lemma run_task_processes t s s' :
  is_enqueue t = false -> run_task t s = Some s' -> processes (pushed t) s s'.
Proof.
  destruct t; cbn [is_enqueue run_task LeAddressManager.run_task pushed]; intros E H; try done;
    eauto using register_processes, unregister_processes, ack_pause_processes,
      handle_next_processes, resume_processes, check_processes;
    try (injection H as <-); eauto using ack_resume_processes, pause_processes; try quiet.
  - eapply processes_quiet; [reflexivity|reflexivity|apply sent_pauses|done..].
  - unfold prepare_to_update_irk in H. destruct (is_nil _).
    + set (c := {| command_type := _; contents := _ |}) in *.
      apply handle_next_processes in H as (d & o & H). exists d, o.
      cbn [cache set_cached cached_commands_] in H. rewrite app_nil_r in H. exact H.
    + injection H as <-. apply pause_cache_processes.
Qed.

(** A manager whose policy is set, with nothing but the cache to send from. *)
Definition ready (s : LeAddressManager) : Prop :=
  address_policy_ s <> POLICY_NOT_SET /\ Forall (fun t => is_enqueue t = false) (posted s).

Lemma ready_processes new s s' : ready s -> processes new s s' -> ready s'.
Proof. intros [Hp Hq] (d & o & _ & _ & _ & _ & E1 & _ & E2). split; congruence || by rewrite E2. Qed.

Lemma ready_post t s : is_enqueue t = false -> ready s -> ready (post t s).
Proof. intros Ht [Hp Hq]. split; [done|]. cbn. apply Forall_app. by repeat constructor. Qed.

(** A step of a ready manager. *)
Definition advances (new : list Command) (s s' : LeAddressManager) : Prop :=
  exists d, cached_commands_ s ++ new = d ++ cached_commands_ s' /\
    Forall2 realises d (sent (outputs s')) /\ (d = [] \/ all_paused s' = true) /\ ready s'.

Lemma processes_advances new s s' :
  ready s -> outputs s = [] -> processes new s s' -> advances new s s'.
Proof.
  intros R O H. pose proof (ready_processes _ _ _ R H) as R'.
  destruct H as (d & o & C & Eo & F & P & _). rewrite O in Eo. cbn in Eo. exists d. by rewrite Eo.
Qed.

Lemma still_advances new s s' :
  cached_commands_ s' = cached_commands_ s ++ new -> outputs s' = [] -> ready s' ->
  advances new s s'.
Proof. intros C O R. exists []. rewrite O. split; [done|]. split; [constructor|]. auto. Qed.

Lemma call_advances e s s' : ready s -> outputs s = [] -> call e s = Some s' ->
  advances (requested e s) s s'.
Proof.
  intros R O. pose proof R as [Hp Hq].
  assert (still : forall s', cached_commands_ s' = cached_commands_ s -> outputs s' = [] ->
    ready s' -> advances [] s s') by (intros; apply still_advances; by rewrite ?app_nil_r).
  destruct e; cbn [call requested]; intros H; try (injection H as <-);
    try (by apply still; try done; repeat apply ready_post).
  - unfold AddDeviceToResolvingList. destruct (supports_ble_privacy_ s) eqn:B; cbn [negb]; [|by auto].
    cbn [supports_ble_privacy_ cache set_cached]. rewrite B.
    apply still_advances; [|by unfold post_next; case_match|by unfold post_next; case_match; apply ready_post].
    unfold post_next. case_match; cbn; by rewrite <- !app_assoc.
  - unfold RemoveDeviceFromResolvingList. destruct (supports_ble_privacy_ s) eqn:B; cbn [negb]; [|by auto].
    apply still_advances; [|by unfold post_next; case_match|by unfold post_next; case_match; apply ready_post].
    unfold post_next. case_match; cbn; by rewrite <- !app_assoc.
  - unfold ClearResolvingList. destruct (supports_ble_privacy_ s) eqn:B; cbn [negb]; [|by auto].
    apply still_advances; [cbn; by rewrite <- !app_assoc|done|by apply ready_post].
  - unfold SetPrivacyPolicyForInitiatorAddress in H. rewrite decide_True in H by done.
    injection H as <-. apply still; destruct supports; try done. by apply ready_post.
  - apply fmap_Some in H as ([a s1] & H & ->). cbn [snd]. unfold NewResolvableAddress in H.
    destruct (negb _); [done|]. destruct (generate_rpa _ _) as [x r]. injection H as _ <-. by apply still.
  - apply fmap_Some in H as ([a s1] & H & ->). cbn [snd]. unfold NewNonResolvableAddress in H.
    destruct (_ && _); [done|]. apply bind_Some in H as ([x r] & _ & [= _ <-]). by apply still.
  - destruct (posted s) as [|t rest] eqn:Q; [injection H as <-; by apply still|].
    decompose_Forall_hyps. apply run_task_processes in H; [|done].
    assert (Hr : advances (pushed t) (set_posted rest s) s') by (by apply processes_advances).
    by destruct t.
  - unfold wake_alarm. destruct (address_rotation_wake_alarm_ _) as [[]|]; by apply still.
  - unfold non_wake_alarm, requested.
    destruct (address_rotation_non_wake_alarm_ _) as [[]|]; try by apply still.
    apply processes_advances; [done|done|].
    eapply processes_quiet; [reflexivity|reflexivity|apply sent_pauses|done..].
Qed.

Lemma step_advances e w w' : ready (manager w) -> step e w = Some w' ->
  advances (requested e (manager w)) (manager w) (manager w').
Proof.
  intros R. set (s := set_outputs [] (manager w)).
  assert (Hs : ready s) by exact R.
  assert (K : forall s', cached_commands_ s' = cached_commands_ s -> outputs s' = [] ->
    ready s' -> advances [] (manager w) s')
    by (intros s' C O R'; apply still_advances; by rewrite ?app_nil_r).
  destruct e; cbn [step]; fold s; try (intros H; apply bind_Some in H as (s' & H & [= <-]);
    apply call_advances in H; [exact H|done|done]).
  - destruct (take_ack _ _) as [[[] rest]|]; intros [= <-]; apply K; try done; by apply ready_post.
  - destruct (in_flight w) as [|c rest]; intros [= <-]; [by apply K|].
    cbn [manager]. unfold OnCommandComplete. destruct (_ && _); [by apply K|].
    destruct (_ && _); apply K; try done; by apply ready_post.
Qed.

Lemma run_advances es : forall w w' l, ready (manager w) -> run es w = Some (w', l) ->
  ready (manager w') /\
  exists d, cached_commands_ (manager w) ++ requests es w = d ++ cached_commands_ (manager w') /\
    Forall2 realises d l.
Proof.
  induction es as [|e es IH]; intros w w' l R; cbn [run requests].
  { intros [= <- <-]. split; [done|]. exists []. by rewrite app_nil_r. }
  intros H. apply bind_Some in H as (w1 & H1 & H). apply bind_Some in H as ([w2 l2] & H2 & [= <- <-]).
  apply step_advances in H1 as E; [|done]. destruct E as (d1 & C1 & F1 & _ & R1).
  destruct (IH _ _ _ R1 H2) as (R2 & d2 & C2 & F2). split; [done|]. exists (d1 ++ d2).
  rewrite H1, app_assoc, C1, <- app_assoc, C2, app_assoc. split; [done|]. by apply Forall2_app.
Qed.

(** *** What the steps post *)

Definition filter_list_command (c : Command) : bool :=
  match contents c with
  | HCICommand (LeAddDeviceToFilterAcceptList _ _ | LeRemoveDeviceFromFilterAcceptList _ _ |
                LeClearFilterAcceptList) => true
  | _ => false
  end.

Definition posted_by (e : Event) (s : LeAddressManager) (t : Task) : Prop :=
  match t with
  | Tunregister_client c => e = EUnregister c \/ e = EUnregisterSync c
  | Thandle_next_command => registered_clients_ s = []
  | Tpush_command c => filter_list_command c = true
  | Tenqueue_command _ => False
  | _ => True
  end.

Definition left_over (e : Event) (l : list Task) : list Task :=
  match e with ERun => tail l | _ => l end.

Definition posts (e : Event) (s s' : LeAddressManager) : Prop :=
  exists tl, posted s' = left_over e (posted s) ++ tl /\ Forall (posted_by e s) tl.

Lemma posts_none e s s' : posted s' = left_over e (posted s) -> posts e s s'.
Proof. intros H. exists []. by rewrite app_nil_r. Qed.

Lemma posts_one e s s' t :
  posted s' = left_over e (posted s) ++ [t] -> posted_by e s t -> posts e s s'.
Proof. intros H Ht. exists [t]. split; [done|]. by repeat constructor. Qed.

Lemma post_next_posts e s s1 :
  e <> ERun -> registered_clients_ s1 = registered_clients_ s -> posted s1 = posted s ->
  posts e s (post_next s1).
Proof.
  intros He Hc Hp. unfold post_next. assert (left_over e (posted s) = posted s) as El by (by destruct e).
  destruct (registered_clients_ s1) eqn:E; cbn [is_nil];
    (eapply posts_one; [cbn; rewrite El, Hp; reflexivity|done]).
Qed.

Lemma call_posts e s s' : ready s -> call e s = Some s' -> posts e s s'.
Proof.
  intros R. pose proof R as [Hp Hq].
  destruct e; cbn [call]; intros H; try (injection H as <-);
    try (by apply posts_none); try (by eapply posts_one); try (by eapply posts_one; [done|left]).
  - exists [Tunregister_client c; Tset_promise]. cbn. rewrite <- app_assoc. split; [done|].
    constructor; [by right|by repeat constructor].
  - unfold AddDeviceToResolvingList. destruct (supports_ble_privacy_ s) eqn:B; cbn [negb];
      [|by apply posts_none]. cbn [supports_ble_privacy_ cache set_cached]. rewrite B.
    by apply post_next_posts.
  - unfold RemoveDeviceFromResolvingList. destruct (negb _); [by apply posts_none|].
    by apply post_next_posts.
  - unfold ClearResolvingList. destruct (negb _); [by apply posts_none|]. by eapply posts_one.
  - unfold SetPrivacyPolicyForInitiatorAddress in H. rewrite decide_True in H by done.
    injection H as <-. destruct supports; [by eapply posts_one|by apply posts_none].
  - apply fmap_Some in H as ([a s1] & H & ->). cbn [snd]. unfold NewResolvableAddress in H.
    destruct (negb _); [done|]. destruct (generate_rpa _ _) as [x r]. injection H as _ <-.
    by apply posts_none.
  - apply fmap_Some in H as ([a s1] & H & ->). cbn [snd]. unfold NewNonResolvableAddress in H.
    destruct (_ && _); [done|]. apply bind_Some in H as ([x r] & _ & [= _ <-]). by apply posts_none.
  - apply posts_none. destruct (posted s) as [|t rest] eqn:Q; [by injection H as <-|].
    decompose_Forall_hyps. apply run_task_processes in H; [|done].
    by destruct H as (d & o & _ & _ & _ & _ & _ & _ & ->).
  - apply posts_none. unfold wake_alarm. by repeat case_match.
  - apply posts_none. unfold non_wake_alarm. by repeat case_match.
Qed.

Lemma step_posts e w w' : ready (manager w) -> step e w = Some w' ->
  posts e (manager w) (manager w').
Proof.
  intros R. set (s := set_outputs [] (manager w)). assert (Hs : ready s) by exact R.
  destruct e; cbn [step]; fold s; try (intros H; apply bind_Some in H as (s' & H & [= <-]);
    apply call_posts in H; [exact H|done]).
  - destruct (take_ack _ _) as [[[] rest]|]; intros [= <-];
      [by eapply posts_one|by eapply posts_one|by apply posts_none].
  - destruct (in_flight w) as [|c rest]; intros [= <-]; [by apply posts_none|].
    cbn [manager]. unfold OnCommandComplete.
    destruct (_ && _); [by apply posts_none|]. destruct (_ && _); by eapply posts_one.
Qed.

(** A property of the tasks that the events keep. *)
Lemma step_posted_inv (P : Task -> Prop) e w w' : ready (manager w) -> step e w = Some w' ->
  (forall t, posted_by e (manager w) t -> P t) ->
  Forall P (posted (manager w)) -> Forall P (posted (manager w')).
Proof.
  intros R H HP F. destruct (step_posts _ _ _ R H) as (tl & -> & Ft). apply Forall_app. split.
  - destruct e; try exact F. cbn. by destruct F.
  - eapply List.Forall_impl; [exact HP|exact Ft].
Qed.

(** *** The resolving list *)

(** Address resolution after a command, [None] when the command needs it disabled
    and it is not. *)
Definition resolution_step (enabled : bool) (b : CommandBuilder) : option bool :=
  match b with
  | LeSetAddressResolutionEnable e => Some e
  | LeAddDeviceToResolvingList _ _ _ _ | LeRemoveDeviceFromResolvingList _ _
  | LeClearResolvingList | LeSetPrivacyMode _ _ => if enabled then None else Some enabled
  | _ => Some enabled
  end.

Fixpoint resolution (enabled : bool) (l : list CommandBuilder) : option bool :=
  match l with
  | [] => Some enabled
  | b :: l => enabled ← resolution_step enabled b; resolution enabled l
  end.

(** The same of cached commands: a new random address does not change it. *)
Definition builder (c : Command) : CommandBuilder :=
  match contents c with HCICommand b => b | _ => LeSetRandomAddress [] end.

Lemma resolution_realises d l : Forall2 realises d l ->
  forall b, resolution b (map builder d) = resolution b l.
Proof.
  induction 1 as [|c b d l H _ IH]; intros e; cbn [resolution map]; [done|].
  assert (resolution_step e (builder c) = resolution_step e b) as ->.
  { unfold realises, builder in *. destruct (contents c); [destruct H as [a ->]..|subst]; done. }
  destruct (resolution_step e b); [apply IH|done].
Qed.

Lemma resolution_app l1 l2 b :
  resolution b (l1 ++ l2) = (b' ← resolution b l1; resolution b' l2).
Proof.
  revert b. induction l1 as [|c l1 IH]; intros b; cbn [resolution app]; [done|].
  destruct (resolution_step b c); [apply IH|done].
Qed.

Definition neutral (t : Task) : Prop :=
  match t with Tpush_command c => filter_list_command c = true | _ => True end.

Lemma requested_resolution e s : Forall neutral (posted s) ->
  resolution true (map builder (requested e s)) = Some true.
Proof.
  intros F. destruct e; cbn [requested]; try done; try (by case_match).
  - destruct F as [|t rest H]; [done|]. destruct t; try done. cbn in H |- *.
    unfold filter_list_command, builder in *. by repeat case_match.
  - by repeat case_match.
Qed.

Lemma requests_resolution es : forall w, ready (manager w) -> Forall neutral (posted (manager w)) ->
  resolution true (map builder (requests es w)) = Some true.
Proof.
  induction es as [|e es IH]; intros w R F; cbn [requests]; [done|].
  rewrite map_app, resolution_app, requested_resolution by done. cbn.
  destruct (step e w) as [w1|] eqn:H; [|done]. apply IH.
  - by apply step_advances in H as (d & _ & _ & _ & ?).
  - eapply step_posted_inv; [exact R|exact H| |exact F]. by intros [].
Qed.

(** C12: once the policy is set, the commands the manager sends are the requested ones
    in the order of the requests, each sent once (a rotation and a change of the
    identity resolving key as a new random address); the others are cached in the
    same order.  When one is sent, every registered client is paused. *)
Theorem commands_fifo (es : list Event) (w w' : World) (l : list CommandBuilder) :
  ready (manager w) -> run es w = Some (w', l) ->
  (exists d, cached_commands_ (manager w) ++ requests es w = d ++ cached_commands_ (manager w') /\
     Forall2 realises d l) /\
  (forall e w'', step e w' = Some w'' -> sent (outputs (manager w'')) <> [] ->
     forall c st, (c, st) ∈ registered_clients_ (manager w'') -> st = PAUSED).
Proof.
  intros R H. apply run_advances in H as [R' F]; [|done]. split; [done|].
  intros e w2 H2 N c st Hc. apply step_advances in H2 as (d & _ & F2 & [->|P] & _); [..|done].
  - by apply Forall2_nil_inv_l in F2.
  - unfold all_paused in P. rewrite forallb_forall in P.
    apply list_elem_of_In, P in Hc. by destruct st.
Qed.

(** C28: the resolving list and the privacy mode of its devices are only changed
    between a command that disables address resolution and the one that enables it
    again, whatever is requested and however the clients and the controller take
    their time. *)
Theorem resolving_list_changed_while_disabled (es : list Event) (w w' : World)
    (l : list CommandBuilder) :
  ready (manager w) -> cached_commands_ (manager w) = [] -> posted (manager w) = [] ->
  run es w = Some (w', l) -> is_Some (resolution true l).
Proof.
  intros R C P H. apply run_advances in H as (_ & d & E & F); [|done].
  rewrite C in E. cbn in E. apply resolution_realises with (b := true) in F. rewrite <- F.
  pose proof (requests_resolution es w R) as Q. rewrite P in Q. specialize (Q ltac:(constructor)).
  rewrite E, map_app, resolution_app in Q. by destruct (resolution true (map builder d)).
Qed.
End world.

(** ** Concrete instances *)

Definition sample_rotation : Rotation :=
  {| minimum_rotation_time_ := 420000; maximum_rotation_time_ := 900000;
     le_address_ := empty_address; cached_address_ := empty_address; rotation_irk_ := fips_key 16;
     address_rotation_wake_alarm_ := Some None; address_rotation_non_wake_alarm_ := Some None;
     address_rotation_interval_min := None; address_rotation_interval_max := None;
     now := 0; random_ := 0 |}.

Definition sample_manager (clients : list (LeAddressManagerCallback * ClientState)) :=
  {| address_policy_ := USE_RESOLVABLE_ADDRESS; supports_ble_privacy_ := true;
     registered_clients_ := clients; cached_commands_ := []; rotation := sample_rotation;
     posted := []; outputs := [] |}.

Definition sample_world (clients : list (LeAddressManagerCallback * ClientState)) : World :=
  {| manager := sample_manager clients; owed := []; in_flight := [] |}.

Lemma rpa_resolves_witness :
  IsRpaThatMatchesIrk
    {| address_ := fst (generate_rpa (fun _ => 7) sample_rotation);
       address_type_ := RANDOM_DEVICE_ADDRESS |} (fips_key 16) = true.
Proof.
  apply (rpa_resolves (fun _ => 7)); [intros n; unfold in_range; lia|by_decide].
Defined.

(** A device added to the resolving list while a client scans. *)
Definition sample_run : list Event :=
  [EAddDeviceToResolvingList PUBLIC_DEVICE_OR_IDENTITY_ADDRESS kEmpty (fips_key 16) (fips_key 16);
   ERun; EAck 1; ERun; EComplete true; ERun; EComplete true; ERun; EComplete true; ERun].

Definition sample_final : World * list CommandBuilder :=
  match run (fun _ => 7) 2 [1] false false sample_run (sample_world [(1, RESUMED)]) with
  | Some x => x
  | None => (sample_world [], [])
  end.

Lemma sample_final_run :
  run (fun _ => 7) 2 [1] false false sample_run (sample_world [(1, RESUMED)]) =
  Some (fst sample_final, snd sample_final).
Proof. vm_compute. reflexivity. Qed.

Lemma sample_ready clients : ready (sample_manager clients).
Proof. split; [done|constructor]. Qed.

Lemma commands_fifo_witness :
  exists d, requests (fun _ => 7) 2 [1] false false sample_run (sample_world [(1, RESUMED)]) =
    d ++ cached_commands_ (manager (fst sample_final)) /\ Forall2 realises d (snd sample_final).
Proof.
  exact (proj1 (commands_fifo (fun _ => 7) 2 [1] false false sample_run
    (sample_world [(1, RESUMED)]) _ _ (sample_ready [(1, RESUMED)]) sample_final_run)).
Defined.

Lemma resolving_list_changed_while_disabled_witness :
  is_Some (resolution true (snd sample_final)) /\ length (snd sample_final) = 4%nat.
Proof.
  split; [|vm_compute; reflexivity].
  exact (resolving_list_changed_while_disabled (fun _ => 7) 2 [1] false false sample_run
    (sample_world [(1, RESUMED)]) _ _ (sample_ready [(1, RESUMED)]) eq_refl eq_refl sample_final_run).
Defined.
