(* ===== verification/LeAddressManagerProgress.v ===== *)
(** * LE address manager: progress

    As long as a client stays registered the manager does not abort, and when
    commands are cached something is under way that leads to the next one being
    sent.  The runs at the end show what happens without a client, or when one
    unregisters. *)

From stdpp Require Import base list option.
From Stdlib Require Import ZArith Lia.
From S2P Require Import Prelude Aes AesRound AesSpec CryptoToolbox CmacSpec AddressWithType.
From S2P Require Import LeAddressManager LeAddressManagerSpec.

Open Scope Z_scope.

Section progress.
Context (RAND_bytes : nat -> Z) (fuel : nat).
Context (public_address_ : Address).
Context (IsRpaGenerationSupported nrpa_non_connectable_adv : bool).
Hypothesis RAND_byte : forall n, byte (RAND_bytes n).
Hypothesis random_source : forall n, random_varies RAND_bytes fuel public_address_ n.

Definition is_rotate (c : Command) : bool :=
  match contents c with RotateRandomAddressCommand => true | _ => false end.

(** The alarms exist, or the controller rotates the address and no rotation is
    cached. *)
Definition alarms_ok (s : LeAddressManager) : Prop :=
  alarms (rotation s) = (true, true) \/
  (IsRpaGenerationSupported = true /\ snd (alarms (rotation s)) = false /\
   Forall (fun c => is_rotate c = false) (cached_commands_ s)).

Lemma set_random_address_ok s : RotatingAddress s = true ->
  exists s', set_random_address RAND_bytes fuel public_address_ s = Some s'.
Proof.
  intros R. unfold set_random_address. rewrite R. cbn [negb].
  destruct (decide _); [destruct (generate_rpa _ _); by eauto|].
  destruct (nrpa_valid RAND_bytes fuel public_address_ RAND_byte (rotation s)) as (a & r & -> & _);
    [apply random_source..|]. cbn. eauto.
Qed.

Lemma schedule_ok s : alarms (rotation s) = (true, true) ->
  exists s', schedule_rotate_random_address RAND_bytes s = Some s'.
Proof.
  unfold alarms, schedule_rotate_random_address. intros [= H1 H2].
  apply bool_decide_eq_true in H1 as [x H1]. apply bool_decide_eq_true in H2 as [y H2].
  cbn. rewrite H1, H2. eauto.
Qed.

Lemma visit_ok c s : RotatingAddress s = true ->
  (is_rotate c = true -> alarms (rotation s) = (true, true)) ->
  exists s', visit_command RAND_bytes fuel public_address_ (contents c) s = Some s'.
Proof.
  unfold is_rotate. intros R A. destruct (contents c); cbn [visit_command].
  - unfold rotate_random_address. rewrite R. cbn [negb].
    destruct (schedule_ok s (A eq_refl)) as [s1 H1]. rewrite H1. cbn.
    apply schedule_talks in H1 as (o & (r & -> & _) & _). by apply set_random_address_ok.
  - unfold update_irk. destruct (set_random_address_ok (set_rotation
      (set_times min_time max_time (set_addresses (le_address_ (rotation s))
         (cached_address_ (rotation s)) irk (rotation s))) s)) as [s1 ->]; [done|]. cbn. eauto.
  - eauto.
Qed.


Abbreviation step := (step RAND_bytes fuel public_address_ IsRpaGenerationSupported
  nrpa_non_connectable_adv).
Abbreviation run := (run RAND_bytes fuel public_address_ IsRpaGenerationSupported
  nrpa_non_connectable_adv).
Abbreviation handle_next_command := (handle_next_command RAND_bytes fuel public_address_).
Abbreviation resume_registered_clients := (resume_registered_clients RAND_bytes fuel public_address_).
Abbreviation check_cached_commands := (check_cached_commands RAND_bytes fuel public_address_).
Abbreviation ack_pause := (ack_pause RAND_bytes fuel public_address_).

(** A client the manager waits for. *)
Definition waiting (c : LeAddressManagerCallback) (s : LeAddressManager) : Prop :=
  (c, WAITING_FOR_PAUSE) ∈ registered_clients_ s.

(** An operation keeps the alarms and a client, and asks every client it waits for
    to pause. *)
Definition sound (s s' : LeAddressManager) : Prop :=
  alarms (rotation s') = alarms (rotation s) /\ registered_clients_ s' <> [] /\
  forall c, waiting c s' -> waiting c s \/ (c, AckedPause) ∈ (outputs s' ≫= asks).

(** Nothing more to do, or something is under way. *)
Definition settled (s : LeAddressManager) : Prop :=
  (cached_commands_ s = [] /\ all_paused s = false) \/ (exists c, waiting c s) \/
  sent (outputs s) <> [].

Lemma sound_refl s : registered_clients_ s <> [] -> sound s s.
Proof. intros H. split; [done|]. split; [done|]. auto. Qed.

Lemma map_nonempty {A B} (f : A -> B) l : l <> [] -> map f l <> [].
Proof. by destruct l. Qed.

Lemma pause_waiting c l :
  (c, WAITING_FOR_PAUSE) ∈ map (fst ∘ pause_client) l ->
  (c, WAITING_FOR_PAUSE) ∈ l \/ (c, AckedPause) ∈ (mjoin (map (snd ∘ pause_client) l) ≫= asks).
Proof.
  induction l as [|[k []] l IH]; cbn; rewrite ?elem_of_cons, ?asks_app; intuition (simplify_eq; auto).
  all: cbn; rewrite elem_of_cons; auto.
Qed.

Lemma pause_all_paused s : all_paused (pause_registered_clients s) = all_paused s.
Proof.
  unfold all_paused. cbn. induction (registered_clients_ s) as [|[k []] l IH]; cbn; auto.
Qed.

Lemma pause_someone s : all_paused s = false -> exists c, waiting c (pause_registered_clients s).
Proof.
  unfold all_paused, waiting. cbn. induction (registered_clients_ s) as [|[k st] l IH]; [done|].
  destruct st; cbn; intros H; try (exists k; left).
  destruct (IH H) as [c Hc]. exists c. by right.
Qed.

Lemma pause_sound s : registered_clients_ s <> [] -> sound s (pause_registered_clients s).
Proof.
  intros N. split; [done|]. split; [by apply map_nonempty|]. intros c Hc.
  apply pause_waiting in Hc as [Hc|Hc]; [by left|right]. cbn. rewrite asks_app.
  apply elem_of_app. by right.
Qed.

Lemma not_all_paused s c : waiting c s -> all_paused s = false.
Proof.
  unfold waiting, all_paused. intros H. apply not_true_is_false. rewrite forallb_forall.
  intros F. apply list_elem_of_In, F in H. done.
Qed.

Lemma handle_next_ok s : RotatingAddress s = true -> alarms_ok s -> registered_clients_ s <> [] ->
  cached_commands_ s <> [] -> all_paused s = true ->
  exists s', handle_next_command s = Some s' /\ sound s s' /\ settled s'.
Proof.
  intros R A N C P. unfold LeAddressManager.handle_next_command. rewrite P. cbn [negb].
  destruct (cached_commands_ s) as [|c rest] eqn:E; [done|].
  destruct (visit_ok c (set_cached rest s)) as [s' H]; [done| |].
  { intros Hc. destruct A as [A|(_ & _ & A)]; [done|]. rewrite E in A. decompose_Forall_hyps.
    congruence. }
  exists s'. split; [done|]. apply visit_talks in H as (o & b & (r & -> & Ha) & S & _ & _).
  split; [split; [done|split; [done|]]|].
  - intros k Hk. by left.
  - right. right. cbn. rewrite sent_app, S. by destruct (sent (outputs s)).
Qed.

Lemma resume_ok s : cached_commands_ s = [] -> registered_clients_ s <> [] ->
  exists s', resume_registered_clients s = Some s' /\ sound s s' /\ settled s'.
Proof.
  intros C N. unfold LeAddressManager.resume_registered_clients. rewrite C. cbn [is_nil negb].
  eexists. split; [reflexivity|]. split; [split; [done|split; [by apply map_nonempty|]]|].
  - unfold waiting. cbn. intros c Hc. apply list_elem_of_In, in_map_iff in Hc as (x & [=] & _).
  - left. split; [done|]. unfold all_paused. cbn. by destruct (registered_clients_ s).
Qed.

Lemma check_ok s : RotatingAddress s = true -> alarms_ok s -> registered_clients_ s <> [] ->
  exists s', check_cached_commands s = Some s' /\ sound s s' /\ settled s'.
Proof.
  intros R A N. unfold LeAddressManager.check_cached_commands.
  destruct (cached_commands_ s) as [|c l] eqn:C; cbn [is_nil negb andb].
  - rewrite andb_false_r. by apply resume_ok.
  - rewrite andb_true_r. destruct (all_paused s) eqn:P; cbn [negb].
    + apply handle_next_ok; by rewrite ?C.
    + eexists. split; [reflexivity|]. split; [by apply pause_sound|]. right. left.
      by apply pause_someone.
Qed.

Lemma ack_pause_loop_some l l' o : ack_pause_loop l = Some (l', o) ->
  (exists c, (c, WAITING_FOR_PAUSE) ∈ l') /\ l' <> [] /\
  forall c, (c, WAITING_FOR_PAUSE) ∈ l' -> (c, WAITING_FOR_PAUSE) ∈ l \/ (c, AckedPause) ∈ (o ≫= asks).
Proof.
  revert l' o. induction l as [|[k st] l IH]; intros l' o; cbn; [done|].
  destruct st; try (intros [= <- <-]; split; [exists k; left|]; split; [done|]; intros c;
    rewrite !elem_of_cons; cbn; rewrite ?elem_of_cons; intuition (simplify_eq; auto)).
  intros H. apply bind_Some in H as ([l1 o1] & H & [= <- <-]).
  destruct (IH _ _ H) as ((c & Hc) & _ & HW). split; [exists c; by right|]. split; [done|].
  intros d. rewrite !elem_of_cons. intros [[=]|Hd]. destruct (HW d Hd); auto.
Qed.

Lemma set_client_waiting c d st l : st <> WAITING_FOR_PAUSE ->
  (d, WAITING_FOR_PAUSE) ∈ set_client c st l -> (d, WAITING_FOR_PAUSE) ∈ l /\ d <> c.
Proof.
  intros Hst. unfold set_client. rewrite list_elem_of_In, in_map_iff. intros ([k v] & E & Hk).
  cbn [fst snd] in E. apply list_elem_of_In in Hk. destruct (Z.eqb_spec k c); simplify_eq. done.
Qed.

Lemma find_client_some c l st : find_client c l = Some st -> exists v, (c, v) ∈ l.
Proof.
  unfold find_client. destruct (List.find _ l) as [[k v]|] eqn:F; [|done]. intros _.
  apply find_some in F as [F E]. cbn in E. apply Z.eqb_eq in E as ->. exists v. by apply list_elem_of_In.
Qed.

Lemma find_client_none c l v : find_client c l = None -> (c, v) ∉ l.
Proof.
  unfold find_client. destruct (List.find _ l) eqn:F; [done|]. intros _ H.
  apply list_elem_of_In in H. apply (find_none _ _ F) in H. cbn in H. by rewrite Z.eqb_refl in H.
Qed.

(** An acknowledgement from a registered client. *)
Lemma ack_pause_ok c st s : RotatingAddress s = true -> alarms_ok s ->
  find_client c (registered_clients_ s) = Some st ->
  exists s', ack_pause c s = Some s' /\ settled s' /\
    alarms (rotation s') = alarms (rotation s) /\ registered_clients_ s' <> [] /\
    forall d, waiting d s' -> (waiting d s /\ d <> c) \/ (d, AckedPause) ∈ (outputs s' ≫= asks).
Proof.
  intros R A F. unfold LeAddressManager.ack_pause. rewrite F.
  set (s1 := set_clients _ s). assert (N : registered_clients_ s1 <> []).
  { apply map_nonempty. intros E. by rewrite E in F. }
  assert (HW : forall d, waiting d s1 -> waiting d s /\ d <> c)
    by (intros d; by apply set_client_waiting).
  destruct (ack_pause_loop (registered_clients_ s1)) as [[l o]|] eqn:L.
  - apply ack_pause_loop_some in L as ((k & Hk) & Nl & Hl). eexists. split; [reflexivity|].
    split; [right; left; by exists k|]. split; [done|]. split; [done|]. intros d Hd.
    destruct (Hl d Hd) as [H|H]; [left; by apply HW|right]. cbn. rewrite asks_app.
    apply elem_of_app. by right.
  - rewrite decide_True by (unfold RotatingAddress in R; cbn; by destruct (address_policy_ s)).
    destruct (check_ok s1) as (s' & -> & (Ha & Hn & Hw) & S); [done..|]. exists s'.
    split; [done|]. split; [done|]. split; [done|]. split; [done|].
    intros d Hd. destruct (Hw d Hd) as [H|H]; [left; by apply HW|by right].
Qed.

(** *** The invariant *)

(** A task that an event other than [Unregister] posts while a client is
    registered. *)
Definition calm (t : Task) : Prop :=
  match t with
  | Tunregister_client _ | Thandle_next_command | Tenqueue_command _ => False
  | Tpush_command c => filter_list_command c = true
  | _ => True
  end.

(** The client has been told to pause, and its acknowledgement has not been
    processed. *)
Definition owes_pause (w : World) (c : LeAddressManagerCallback) : Prop :=
  (c, AckedPause) ∈ owed w \/ Tack_pause c ∈ posted (manager w).

(** Something is under way that leads to the next command: a registered client that
    will acknowledge, a command that will complete, or the check that follows. *)
Definition busy (w : World) : Prop :=
  (exists c st, (c, st) ∈ registered_clients_ (manager w) /\ owes_pause w c) \/
  in_flight w <> [] \/ Tcheck_cached_commands ∈ posted (manager w).

(** The same, or the clients are about to be told to pause. *)
Definition under_way (w : World) : Prop :=
  busy w \/ (Tpause_registered_clients ∈ posted (manager w) /\ all_paused (manager w) = false).

Record inv (w : World) : Prop := {
  inv_rotating : RotatingAddress (manager w) = true;
  inv_clients : registered_clients_ (manager w) <> [];
  inv_alarms : alarms_ok (manager w);
  inv_posted : Forall calm (posted (manager w));
  inv_waiting : forall c, waiting c (manager w) -> owes_pause w c;
  inv_busy : cached_commands_ (manager w) <> [] \/ all_paused (manager w) = true -> under_way w;
}.

Lemma rotating_policy s : RotatingAddress s = true -> address_policy_ s <> POLICY_NOT_SET.
Proof. unfold RotatingAddress. by destruct (address_policy_ s). Qed.

Lemma inv_ready w : inv w -> ready (manager w).
Proof.
  intros [R _ _ Q _ _]. split; [by apply rotating_policy|].
  eapply List.Forall_impl; [|exact Q]. by intros [].
Qed.

Lemma alarms_ok_processes new s s' : alarms_ok s -> processes new s s' ->
  alarms (rotation s') = alarms (rotation s) -> Forall (fun c => is_rotate c = false) new ->
  alarms_ok s'.
Proof.
  intros A (d & o & C & _) E N. destruct A as [A|(I & A & F)]; [left; congruence|right].
  rewrite E. split; [done|]. split; [done|].
  assert (H : Forall (fun c => is_rotate c = false) (d ++ cached_commands_ s'))
    by (rewrite <- C; by apply Forall_app).
  by apply Forall_app in H as [_ ?].
Qed.

Lemma pushed_not_rotate t : calm t -> Forall (fun c => is_rotate c = false) (pushed t).
Proof.
  destruct t; cbn; intros H; repeat constructor. unfold filter_list_command in H. unfold is_rotate.
  by repeat case_match.
Qed.

(** The world after the oldest task has run. *)
Definition after (w : World) (s' : LeAddressManager) : World :=
  {| manager := s'; owed := owed w ++ (outputs s' ≫= asks);
     in_flight := in_flight w ++ sent (outputs s') |}.

Definition before (w : World) (rest : list Task) : LeAddressManager :=
  set_posted rest (set_outputs [] (manager w)).

Lemma owes_after w t rest s' c : posted (manager w) = t :: rest -> posted s' = rest ->
  owes_pause w c -> owes_pause (after w s') c \/ t = Tack_pause c.
Proof.
  intros Q Q' [H|H].
  - left. left. cbn. apply elem_of_app. by left.
  - rewrite Q in H. apply elem_of_cons in H as [<-|H]; [by right|left]. right. cbn. by rewrite Q'.
Qed.

Lemma asked_after w s' c : (c, AckedPause) ∈ (outputs s' ≫= asks) -> owes_pause (after w s') c.
Proof. intros H. left. cbn. apply elem_of_app. by right. Qed.

Lemma settled_under_way w s' :
  (forall c, waiting c s' -> owes_pause (after w s') c) -> settled s' ->
  cached_commands_ s' <> [] \/ all_paused s' = true -> under_way (after w s').
Proof.
  intros HW S H. left. destruct S as [[S1 S2]|[[c Hc]|S]].
  - destruct H; congruence.
  - left. exists c, WAITING_FOR_PAUSE. split; [done|by apply HW].
  - right. left. cbn. intros E. by apply app_eq_nil in E as [_ ?].
Qed.

(** Establishing the invariant after a task. *)
Lemma inv_after w t rest s' : inv w -> posted (manager w) = t :: rest ->
  run_task RAND_bytes fuel public_address_ IsRpaGenerationSupported t (before w rest) = Some s' ->
  alarms (rotation s') = alarms (rotation (manager w)) -> registered_clients_ s' <> [] ->
  (forall c, waiting c s' -> owes_pause (after w s') c) ->
  (cached_commands_ s' <> [] \/ all_paused s' = true -> under_way (after w s')) ->
  inv (after w s').
Proof.
  intros I Q H A N HW HB. pose proof (inv_posted _ I) as F. rewrite Q in F.
  inversion_clear F as [|? ? Ft Fr].
  apply run_task_processes in H as P; [|by destruct t].
  pose proof P as (d & o & _ & _ & _ & _ & Ep & _ & Eq). split; try done.
  - cbn. unfold RotatingAddress. rewrite Ep. apply (inv_rotating _ I).
  - apply (alarms_ok_processes (pushed t) (before w rest) s'); [exact (inv_alarms _ I)|done|done|].
    by apply pushed_not_rotate.
  - cbn. by rewrite Eq.
Qed.

(** A busy world stays busy. *)
Lemma busy_after w t rest s' : posted (manager w) = t :: rest -> posted s' = rest ->
  (forall c, t <> Tack_pause c) -> t <> Tcheck_cached_commands ->
  (forall c st, (c, st) ∈ registered_clients_ (manager w) ->
     exists st', (c, st') ∈ registered_clients_ s') ->
  busy w -> busy (after w s').
Proof.
  intros Q Q' N1 N2 HC [(c & st & Hc & Ho)|[Hf|Hk]].
  - left. destruct (HC c st Hc) as [st' Hc']. exists c, st'. split; [done|].
    by destruct (owes_after w t rest s' c Q Q' Ho) as [?|E]; [|by apply N1 in E].
  - right. left. cbn. intros E. by apply app_eq_nil in E as [? _].
  - right. right. cbn. rewrite Q'. rewrite Q in Hk. by apply elem_of_cons in Hk as [<-|?].
Qed.

Lemma map_client (f : Z * ClientState -> Z * ClientState) l c st :
  (forall x, fst (f x) = fst x) -> (c, st) ∈ l -> exists st', (c, st') ∈ map f l.
Proof.
  intros Hf H. pose proof (Hf (c, st)) as E. destruct (f (c, st)) as [k v] eqn:F. cbn in E. subst k.
  exists v. rewrite <- F. apply list_elem_of_In, in_map. by apply list_elem_of_In.
Qed.

Lemma pause_client_fst x : fst (fst (pause_client x)) = fst x.
Proof. by destruct x as [? []]. Qed.

(** A step that pauses the clients: whoever is not paused is waited for. *)
Lemma pause_under_way w s' : inv w ->
  registered_clients_ s' = registered_clients_ (pause_registered_clients (before w [])) ->
  outputs s' = outputs (pause_registered_clients (before w [])) ->
  (forall c, owes_pause w c -> owes_pause (after w s') c) ->
  (busy w -> busy (after w s')) ->
  registered_clients_ s' <> [] /\ (forall c, waiting c s' -> owes_pause (after w s') c) /\
  busy (after w s').
Proof.
  intros I EC EO HO HB.
  destruct (pause_sound (before w []) (inv_clients _ I)) as (_ & N & HW).
  assert (W' : forall c, waiting c s' -> owes_pause (after w s') c).
  { intros c Hc. unfold waiting in Hc. rewrite EC in Hc. destruct (HW c Hc) as [Hk|Hk].
    - by apply HO, (inv_waiting _ I).
    - apply asked_after. by rewrite EO. }
  split; [by rewrite EC|]. split; [done|].
  destruct (all_paused (manager w)) eqn:P.
  - assert (U : under_way w) by (apply (inv_busy _ I); by right).
    destruct U as [U|[_ U]]; [|congruence]. by apply HB.
  - destruct (pause_someone (before w []) P) as [c Hc]. left. exists c, WAITING_FOR_PAUSE.
    cbn. unfold waiting in Hc. rewrite <- EC in Hc. split; [done|]. by apply W'.
Qed.

Lemma paused_clients w s' :
  registered_clients_ s' = registered_clients_ (pause_registered_clients (before w [])) ->
  forall c st, (c, st) ∈ registered_clients_ (manager w) ->
    exists st', (c, st') ∈ registered_clients_ s'.
Proof.
  intros EC c st Hc. rewrite EC. by apply (map_client (fst ∘ pause_client) _ c st pause_client_fst).
Qed.

Lemma pause_inv w t rest s' : inv w -> posted (manager w) = t :: rest ->
  run_task RAND_bytes fuel public_address_ IsRpaGenerationSupported t (before w rest) = Some s' ->
  (forall c, t <> Tack_pause c) -> t <> Tcheck_cached_commands ->
  registered_clients_ s' = registered_clients_ (pause_registered_clients (before w [])) ->
  outputs s' = outputs (pause_registered_clients (before w [])) -> posted s' = rest ->
  alarms (rotation s') = alarms (rotation (manager w)) ->
  inv (after w s').
Proof.
  intros I Q H N1 N2 EC EO EP EA.
  destruct (pause_under_way w s' I EC EO) as (N & HW & HB).
  { intros c Ho. by destruct (owes_after w t rest s' c Q EP Ho) as [?|E]; [|by apply N1 in E]. }
  { eapply busy_after; try done. by apply paused_clients. }
  eapply inv_after; try done. by left.
Qed.

(** A task after which something is under way by itself. *)
Lemma settled_inv w t rest s' : inv w -> posted (manager w) = t :: rest ->
  run_task RAND_bytes fuel public_address_ IsRpaGenerationSupported t (before w rest) = Some s' ->
  posted s' = rest -> alarms (rotation s') = alarms (rotation (manager w)) ->
  registered_clients_ s' <> [] -> settled s' ->
  (forall c, waiting c s' ->
     (waiting c (manager w) /\ t <> Tack_pause c) \/ (c, AckedPause) ∈ (outputs s' ≫= asks)) ->
  inv (after w s').
Proof.
  intros I Q H Q' A N S HW.
  assert (W' : forall c, waiting c s' -> owes_pause (after w s') c).
  { intros c Hc. destruct (HW c Hc) as [[Hk Ht]|Hk]; [|by apply asked_after].
    apply (inv_waiting _ I) in Hk. by destruct (owes_after w t rest s' c Q Q' Hk). }
  eapply inv_after; try done. intros HB. by apply settled_under_way.
Qed.

(** A task that changes nothing the invariant speaks of. *)
Lemma idle_inv w t rest s' : inv w -> posted (manager w) = t :: rest ->
  run_task RAND_bytes fuel public_address_ IsRpaGenerationSupported t (before w rest) = Some s' ->
  posted s' = rest -> alarms (rotation s') = alarms (rotation (manager w)) ->
  (forall c, t = Tack_pause c -> forall st, (c, st) ∉ registered_clients_ (manager w)) ->
  t <> Tcheck_cached_commands -> t <> Tpause_registered_clients ->
  cached_commands_ s' = cached_commands_ (manager w) ->
  (forall c st, (c, st) ∈ registered_clients_ (manager w) ->
     exists st', (c, st') ∈ registered_clients_ s') ->
  (all_paused (manager w) = false -> all_paused s' = false) ->
  (forall c, waiting c s' -> waiting c (manager w)) ->
  inv (after w s').
Proof.
  intros I Q H Q' A N1 N2 N3 C HC HP HW.
  assert (O : forall c st, (c, st) ∈ registered_clients_ (manager w) -> owes_pause w c ->
    owes_pause (after w s') c).
  { intros c st Hc Ho. destruct (owes_after w t rest s' c Q Q' Ho) as [?|E]; [done|].
    by destruct (N1 c E st). }
  eapply inv_after; try done.
  - pose proof (inv_clients _ I) as Hn. destruct (registered_clients_ (manager w)) as [|[c st] l];
      [done|]. destruct (HC c st ltac:(left)) as [st' Hc]. intros E. rewrite E in Hc.
    by apply not_elem_of_nil in Hc.
  - intros c Hc. apply HW in Hc. by eapply O, (inv_waiting _ I).
  - intros HB. assert (U : under_way w).
    { apply (inv_busy _ I). rewrite <- C. destruct HB as [?|HB]; [by left|right].
      destruct (all_paused (manager w)); [done|]. by rewrite HP in HB. }
    destruct U as [[(c & st & Hc & Ho)|[Hf|Hk]]|[Hp Ha]].
    + left. left. destruct (HC c st Hc) as [st' Hc']. exists c, st'. split; [done|]. by eapply O.
    + left. right. left. cbn. intros E. by apply app_eq_nil in E as [? _].
    + left. right. right. cbn. rewrite Q'. rewrite Q in Hk. by apply elem_of_cons in Hk as [<-|?].
    + right. cbn. rewrite Q'. rewrite Q in Hp. apply elem_of_cons in Hp as [<-|?]; [done|]. auto.
Qed.

Lemma insert_client_in c st l x : x ∈ l -> x ∈ insert_client c st l.
Proof.
  induction l as [|[k v] l IH]; cbn; [intros H; by apply not_elem_of_nil in H|].
  zcmp; rewrite !elem_of_cons; intuition.
Qed.

Lemma insert_client_elem c st l x : x ∈ insert_client c st l -> x ∈ l \/ x = (c, st).
Proof.
  induction l as [|[k v] l IH]; cbn; [rewrite elem_of_cons; intuition|].
  zcmp; rewrite !elem_of_cons; intuition.
Qed.

Lemma all_paused_false s : all_paused s = false <->
  exists c st, (c, st) ∈ registered_clients_ s /\ st <> PAUSED.
Proof.
  unfold all_paused. induction (registered_clients_ s) as [|[k v] l IH]; cbn.
  - split; [done|]. intros (c & st & H & _). by apply not_elem_of_nil in H.
  - destruct (decide (v = PAUSED)) as [->|N].
    + cbn. rewrite IH. split; intros (c & st & H & Hs); exists c, st.
      * split; [by right|done].
      * apply elem_of_cons in H as [[= -> ->]|H]; done.
    + split; [intros _|by destruct v]. exists k, v. split; [left|done].
Qed.

Abbreviation run_task := (run_task RAND_bytes fuel public_address_ IsRpaGenerationSupported).

Lemma run_task_posted t s s' : is_enqueue t = false -> run_task t s = Some s' -> posted s' = posted s.
Proof. intros E H. by apply run_task_processes in H as (d & o & _ & _ & _ & _ & _ & _ & ->). Qed.

Lemma register_inv w c rest : inv w -> posted (manager w) = Tregister_client c :: rest ->
  exists s', run_task (Tregister_client c) (before w rest) = Some s' /\ inv (after w s').
Proof.
  intros I Q. set (s1 := set_clients (insert_client c RESUMED (registered_clients_ (before w rest)))
    (before w rest)).
  assert (exists s', run_task (Tregister_client c) (before w rest) = Some s' /\
    registered_clients_ s' = registered_clients_ s1 /\ cached_commands_ s' = cached_commands_ s1 /\
    alarms (rotation s') = alarms (rotation (manager w))) as (s' & H & EC & Ec & EA).
  { cbn [LeAddressManager.run_task]. unfold register_client. fold s1.
    rewrite decide_False by (apply rotating_policy, (inv_rotating _ I)).
    assert (RotatingAddress s1 = true) as -> by apply (inv_rotating _ I).
    destruct (_ =? _)%nat; [|by eexists]. destruct IsRpaGenerationSupported eqn:G; [by eexists|].
    cbn [negb]. destruct (schedule_ok s1) as [s' H].
    { destruct (inv_alarms _ I) as [A|(A & _)]; [done|congruence]. }
    exists s'. split; [done|]. by apply schedule_talks in H as (o & (r & -> & A) & _). }
  exists s'. split; [done|]. apply run_task_posted in H as Q'; [|done].
  eapply idle_inv; try done.
  - intros k st Hk. exists st. rewrite EC. by apply insert_client_in.
  - rewrite !all_paused_false. intros (k & st & Hk & Hs). exists k, st. rewrite EC.
    split; [by apply insert_client_in|done].
  - intros k Hk. unfold waiting in Hk. rewrite EC in Hk.
    by apply insert_client_elem in Hk as [?|[=]].
Qed.

Lemma ack_pause_inv w c rest : inv w -> posted (manager w) = Tack_pause c :: rest ->
  exists s', run_task (Tack_pause c) (before w rest) = Some s' /\ inv (after w s').
Proof.
  intros I Q. destruct (find_client c (registered_clients_ (before w rest))) as [st|] eqn:F.
  - destruct (ack_pause_ok c st (before w rest) (inv_rotating _ I) (inv_alarms _ I) F)
      as (s' & H & S & A & N & HW).
    exists s'. split; [done|]. apply (run_task_posted (Tack_pause c)) in H as Q'; [|done].
    eapply settled_inv; try done. intros d Hd. destruct (HW d Hd) as [[? ?]|?]; [left|by right].
    split; [done|congruence].
  - assert (H : run_task (Tack_pause c) (before w rest) = Some (before w rest))
      by (cbn; unfold LeAddressManager.ack_pause; by rewrite F).
    exists (before w rest). split; [done|]. eapply idle_inv; try done; [|by eauto].
    intros k [= <-] st. by apply find_client_none.
Qed.

Lemma ack_resume_inv w c rest : inv w -> posted (manager w) = Tack_resume c :: rest ->
  inv (after w (ack_resume c (before w rest))).
Proof.
  intros I Q. unfold ack_resume.
  destruct (find_client c (registered_clients_ (before w rest))) as [st|] eqn:F.
  - eapply idle_inv; try done; [cbn; unfold LeAddressManager.ack_resume; by rewrite F|..].
    + intros k v Hk. apply (map_client _ _ k v); [|done]. intros x. by destruct (fst x =? c).
    + intros _. apply all_paused_false. exists c, RESUMED. split; [|done].
      apply find_client_some in F as [v Hv]. cbn. unfold set_client. apply list_elem_of_In, in_map_iff.
      exists (c, v). cbn. rewrite Z.eqb_refl. split; [done|]. by apply list_elem_of_In.
    + intros d Hd. by apply set_client_waiting in Hd as [? _].
  - eapply idle_inv; try done; [cbn; unfold LeAddressManager.ack_resume; by rewrite F|by eauto].
Qed.

Lemma resume_inv w rest : inv w -> posted (manager w) = Tresume_registered_clients :: rest ->
  exists s', run_task Tresume_registered_clients (before w rest) = Some s' /\ inv (after w s').
Proof.
  intros I Q. destruct (cached_commands_ (manager w)) as [|c l] eqn:C.
  - destruct (resume_ok (before w rest) C (inv_clients _ I)) as (s' & H & (A & N & HW) & S).
    exists s'. split; [done|]. apply (run_task_posted Tresume_registered_clients) in H as Q'; [|done].
    eapply settled_inv; try done. intros d Hd. destruct (HW d Hd); auto.
  - cbn [LeAddressManager.run_task]. unfold LeAddressManager.resume_registered_clients.
    assert (is_nil (cached_commands_ (before w rest)) = false) as E by (cbn; by rewrite C).
    destruct (all_paused (before w rest)) eqn:P.
    + destruct (handle_next_ok (before w rest)) as (s' & H & (A & N & HW) & S);
        [apply I..|cbn; by rewrite C|done|].
      exists s'. rewrite E. split; [done|].
      apply (run_task_posted Thandle_next_command) in H as Q'; [|done].
      eapply settled_inv; try done.
      { cbn [LeAddressManager.run_task]. unfold LeAddressManager.resume_registered_clients.
        by rewrite E. }
      intros d Hd. destruct (HW d Hd); auto.
    + rewrite E. unfold LeAddressManager.handle_next_command. rewrite P.
      eexists. split; [reflexivity|]. eapply idle_inv; try done; [|by eauto].
      cbn [LeAddressManager.run_task]. unfold LeAddressManager.resume_registered_clients.
      rewrite E. cbn [negb]. unfold LeAddressManager.handle_next_command. by rewrite P.
Qed.

(** Every task succeeds and keeps the invariant. *)
Lemma run_task_inv w t rest : inv w -> posted (manager w) = t :: rest ->
  exists s', run_task t (before w rest) = Some s' /\ inv (after w s').
Proof.
  intros I Q. pose proof (inv_posted _ I) as F. rewrite Q in F. inversion_clear F as [|? ? Ft Fr].
  destruct t; try done.
  - by apply register_inv.
  - eexists. split; [reflexivity|]. eapply idle_inv; try done. by eauto.
  - by apply ack_pause_inv.
  - eexists. split; [reflexivity|]. by apply ack_resume_inv.
  - eexists. split; [reflexivity|]. by eapply pause_inv.
  - cbn [LeAddressManager.run_task]. unfold prepare_to_update_irk.
    assert (E : is_nil (registered_clients_ (manager w)) = false)
      by (pose proof (inv_clients _ I); by destruct (registered_clients_ (manager w))).
    cbn [cache set_cached registered_clients_ before set_posted set_outputs]. rewrite E.
    eexists. split; [reflexivity|]. eapply pause_inv; try done.
    cbn [LeAddressManager.run_task]. unfold prepare_to_update_irk.
    cbn [cache set_cached registered_clients_ before set_posted set_outputs]. by rewrite E.
  - eexists. split; [reflexivity|]. by eapply pause_inv.
  - by apply resume_inv.
  - destruct (check_ok (before w rest)) as (s' & H & (A & N & HW) & S); [apply I..|].
    exists s'. split; [done|]. apply (run_task_posted Tcheck_cached_commands) in H as Q'; [|done].
    eapply settled_inv; try done. intros d Hd. destruct (HW d Hd); auto.
Qed.

(** A step that keeps the clients and the work under way. *)
Lemma inv_mono w w' : inv w ->
  RotatingAddress (manager w') = true -> alarms_ok (manager w') -> Forall calm (posted (manager w')) ->
  registered_clients_ (manager w') = registered_clients_ (manager w) ->
  (forall c, owes_pause w c -> owes_pause w' c) ->
  (in_flight w <> [] -> in_flight w' <> [] \/ Tcheck_cached_commands ∈ posted (manager w')) ->
  (forall t, (forall c, t <> Tack_pause c) -> t ∈ posted (manager w) -> t ∈ posted (manager w')) ->
  (cached_commands_ (manager w') = cached_commands_ (manager w) \/
   Tpause_registered_clients ∈ posted (manager w')) ->
  inv w'.
Proof.
  intros I R A F C HO HI HT HC.
  assert (P : all_paused (manager w') = all_paused (manager w)) by (unfold all_paused; by rewrite C).
  assert (B : under_way w -> under_way w').
  { intros [[(c & st & Hc & Ho)|[Hf|Hk]]|[Hp Ha]].
    - left. left. exists c, st. rewrite C. auto.
    - left. right. auto.
    - left. right. right. by apply HT.
    - right. rewrite P. split; [by apply HT|done]. }
  split; try done; [by rewrite C; apply I|..].
  - intros c Hc. unfold waiting in Hc. rewrite C in Hc. by apply HO, (inv_waiting _ I).
  - rewrite P. intros H. destruct HC as [HC|HC].
    + apply B, (inv_busy _ I). by rewrite <- HC.
    + destruct (all_paused (manager w)) eqn:E; [apply B, (inv_busy _ I); by right|].
      right. by rewrite P.
Qed.

(** The same when tasks are posted. *)
Lemma inv_posting w s' tl : inv w -> RotatingAddress s' = true -> alarms_ok s' ->
  posted s' = posted (manager w) ++ tl -> Forall calm tl ->
  registered_clients_ s' = registered_clients_ (manager w) -> outputs s' = [] ->
  (cached_commands_ s' = cached_commands_ (manager w) \/ Tpause_registered_clients ∈ tl) ->
  inv (after w s').
Proof.
  intros I R A Q F C O HC. apply (inv_mono w); try done; cbn.
  - rewrite Q. apply Forall_app. split; [apply I|done].
  - intros c [H|H]; [left|right]; cbn; [|rewrite Q]; apply elem_of_app; by left.
  - intros H. left. intros E. by apply app_eq_nil in E as [? _].
  - intros t _ H. rewrite Q. apply elem_of_app. by left.
  - destruct HC as [?|H]; [by left|right]. rewrite Q. apply elem_of_app. by right.
Qed.

Lemma alarms_ok_cache s s' l : alarms_ok s -> alarms (rotation s') = alarms (rotation s) ->
  cached_commands_ s' = cached_commands_ s ++ l -> Forall (fun c => is_rotate c = false) l ->
  alarms_ok s'.
Proof.
  intros HA E C Hl. destruct HA as [HA|(G & HA & F)]; [left; congruence|right]. rewrite E, C. split; [done|].
  split; [done|]. by apply Forall_app.
Qed.

(** A call that posts one task, without caching a command. *)
Lemma call_inv w s' tl : inv w -> RotatingAddress s' = RotatingAddress (manager w) ->
  alarms (rotation s') = alarms (rotation (manager w)) ->
  posted s' = posted (manager w) ++ tl -> Forall calm tl ->
  registered_clients_ s' = registered_clients_ (manager w) -> outputs s' = [] ->
  cached_commands_ s' = cached_commands_ (manager w) -> inv (after w s').
Proof.
  intros I R A Q F C O Ec. eapply inv_posting; try done.
  - rewrite R. apply I.
  - eapply (alarms_ok_cache (manager w) s' []); rewrite ?app_nil_r; try done. apply I.
  - by left.
Qed.

(** A call that caches commands on the resolving list. *)
Lemma resolving_inv w s' l : inv w -> RotatingAddress s' = RotatingAddress (manager w) ->
  alarms (rotation s') = alarms (rotation (manager w)) ->
  posted s' = posted (manager w) ++ [Tpause_registered_clients] ->
  registered_clients_ s' = registered_clients_ (manager w) -> outputs s' = [] ->
  cached_commands_ s' = cached_commands_ (manager w) ++ l ->
  Forall (fun c => is_rotate c = false) l -> inv (after w s').
Proof.
  intros I R A Q C O Ec F. eapply inv_posting; try done.
  - rewrite R. apply I.
  - by eapply (alarms_ok_cache (manager w)); [apply I|..].
  - by repeat constructor.
  - right. left.
Qed.

Lemma non_wake_alarm_inv w : inv w ->
  inv (after w (non_wake_alarm (set_outputs [] (manager w)))).
Proof.
  intros I. unfold non_wake_alarm.
  destruct (address_rotation_non_wake_alarm_ (rotation (set_outputs [] (manager w)))) as [[d|]|] eqn:E;
    [|eapply call_inv; try done; by rewrite ?app_nil_r..].
  set (s' := prepare_to_rotate _).
  assert (A : alarms (rotation s') = alarms (rotation (manager w))).
  { unfold alarms. cbn in *. by rewrite E. }
  destruct (pause_under_way w s' I) as (N & HW & HB); [done|done|..].
  { intros c [?|?]; [left; cbn; apply elem_of_app; by left|by right]. }
  { intros [(c & st & Hc & Ho)|[Hf|Hk]].
    - left. destruct (paused_clients w s' eq_refl c st Hc) as [st' ?]. exists c, st'. split; [done|].
      destruct Ho; [left; cbn; apply elem_of_app; by left|by right].
    - right. left. cbn. intros F. by apply app_eq_nil in F as [? _].
    - by right; right. }
  split; try done; try apply I; [|by left].
  destruct (inv_alarms _ I) as [HA|(_ & HA & _)]; [left; exact (eq_trans A HA)|].
  unfold alarms in HA. cbn in HA, E. by rewrite E in HA.
Qed.

Lemma take_ack_elem c l a rest : take_ack c l = Some (a, rest) ->
  forall x, x ∈ l -> x ∈ rest \/ x = (c, a).
Proof.
  revert rest. induction l as [|[k b] l IH]; intros rest; cbn; [done|].
  destruct (Z.eqb_spec k c) as [->|N].
  - intros [= <- <-] x Hx. apply elem_of_cons in Hx as [->|?]; auto.
  - intros H. apply bind_Some in H as ([b' r'] & H & [= <- <-]). intros x Hx.
    rewrite elem_of_cons. apply elem_of_cons in Hx as [->|Hx]; [by left; left|].
    destruct (IH _ H x Hx); auto.
Qed.

Lemma ack_inv w c : inv w -> exists w', step (EAck c) w = Some w' /\ inv w'.
Proof.
  intros I. cbn. assert (T : forall (t : Task) l rest, t ∈ l -> t ∈ l ++ rest)
    by (intros; apply elem_of_app; by left).
  destruct (take_ack c (owed w)) as [[[] rest]|] eqn:E; eexists; (split; [reflexivity|]).
  1,2: pose proof (take_ack_elem _ _ _ _ E) as HE.
  - apply (inv_mono w); try done; cbn; try apply I; try (by left); try (intros; by auto).
    + apply Forall_app. split; [apply I|by repeat constructor].
    + intros d [H|H]; [|right; by apply T].
      destruct (HE _ H) as [?|[= ->]]; [by left|right]. cbn. apply elem_of_app. right. left.
  - apply (inv_mono w); try done; cbn; try apply I; try (by left); try (intros; by auto).
    + apply Forall_app. split; [apply I|by repeat constructor].
    + intros d [H|H]; [|right; by apply T]. destruct (HE _ H) as [?|[=]]. by left.
  - by apply (inv_mono w); try done; cbn; try apply I; left.
Qed.

Lemma complete_inv w success : inv w -> exists w', step (EComplete success) w = Some w' /\ inv w'.
Proof.
  intros I. cbn. destruct (in_flight w) as [|c rest] eqn:E; eexists; (split; [reflexivity|]).
  { by apply (inv_mono w); try done; cbn; try apply I; left. }
  unfold OnCommandComplete. rewrite (bool_decide_false (_ = USE_STATIC_ADDRESS)), andb_false_r.
  2: { pose proof (inv_rotating _ I) as R. unfold RotatingAddress in R. cbn.
       by destruct (address_policy_ (manager w)). }
  set (s := if _ && _ then _ else _).
  assert (K : RotatingAddress s = RotatingAddress (manager w) /\
    alarms (rotation s) = alarms (rotation (manager w)) /\ posted s = posted (manager w) /\
    registered_clients_ s = registered_clients_ (manager w) /\
    cached_commands_ s = cached_commands_ (manager w)) by (unfold s; by destruct (_ && _)).
  clearbody s. destruct K as (KR & KA & KP & KC & Kc).
  assert (In : Tcheck_cached_commands ∈ posted s ++ [Tcheck_cached_commands])
    by (apply elem_of_app; right; left).
  apply (inv_mono w); try done; cbn.
  - unfold RotatingAddress in *. cbn. rewrite KR. apply I.
  - eapply (alarms_ok_cache (manager w) _ []); rewrite ?app_nil_r; try done. apply I.
  - rewrite KP. apply Forall_app. split; [apply I|by repeat constructor].
  - intros d [H|H]; [by left|right]. cbn. rewrite KP. apply elem_of_app. by left.
  - by right.
  - intros t _ H. rewrite KP. apply elem_of_app. by left.
  - by left.
Qed.

(** No client unregisters. *)
Definition keeps_clients (e : Event) : bool :=
  match e with EUnregister _ | EUnregisterSync _ => false | _ => true end.

Lemma resolving_step w e : inv w ->
  (exists t a k l, e = EAddDeviceToResolvingList t a k l) \/
  (exists t a, e = ERemoveDeviceFromResolvingList t a) \/ e = EClearResolvingList ->
  exists w', step e w = Some w' /\ inv w'.
Proof.
  intros I. pose proof (inv_clients _ I) as N.
  assert (Z : is_nil (registered_clients_ (manager w)) = false)
    by (by destruct (registered_clients_ (manager w))).
  intros [(t & a & k & l & ->)|[(t & a & ->)| ->]]; cbn [LeAddressManagerSpec.step call mbind option_bind];
    unfold AddDeviceToResolvingList, RemoveDeviceFromResolvingList, ClearResolvingList, post_next;
    cbn [supports_ble_privacy_ cache set_cached set_outputs];
    destruct (supports_ble_privacy_ (manager w));
    cbn [negb registered_clients_ cache set_cached set_outputs]; rewrite ?Z;
    eexists; (split; [reflexivity|]);
    try (eapply call_inv; try done; by rewrite ?app_nil_r);
    (eapply resolving_inv; [done..|cbn; rewrite <- ?app_assoc; reflexivity|by repeat constructor]).
Qed.

Lemma step_inv w e : inv w -> keeps_clients e = true -> exists w', step e w = Some w' /\ inv w'.
Proof.
  intros I K. pose proof (rotating_policy _ (inv_rotating _ I)) as P.
  destruct e; try done; try (by apply ack_inv); try (by apply complete_inv);
    try (by apply resolving_step; eauto 10);
    cbn [LeAddressManagerSpec.step call mbind option_bind];
    try (eexists; split; [reflexivity|]; eapply call_inv; try done; by repeat constructor).
  - unfold SetPrivacyPolicyForInitiatorAddress. rewrite decide_True by done. cbn.
    eexists. split; [reflexivity|]. destruct supports.
    + eapply call_inv; try done. by repeat constructor.
    + eapply call_inv; try done. by rewrite app_nil_r.
  - unfold NewResolvableAddress.
    assert (RotatingAddress (set_outputs [] (manager w)) = true) as -> by apply I. cbn [negb].
    pose proof (generate_rpa_alarms RAND_bytes (rotation (set_outputs [] (manager w)))) as A.
    destruct (generate_rpa _ _) as [a r]. cbn in A |- *. eexists. split; [reflexivity|].
    eapply call_inv; try done. by rewrite app_nil_r.
  - unfold NewNonResolvableAddress.
    assert (RotatingAddress (set_outputs [] (manager w)) = true) as -> by apply I.
    rewrite andb_false_r.
    destruct (nrpa_valid RAND_bytes fuel public_address_ RAND_byte
      (rotation (set_outputs [] (manager w)))) as (a & r & E & _); [apply random_source..|].
    rewrite E. apply generate_nrpa_alarms in E. cbn in E |- *. eexists. split; [reflexivity|].
    eapply call_inv; try done. by rewrite app_nil_r.
  - destruct (posted (manager w)) as [|t rest] eqn:Q; cbn [posted set_outputs]; rewrite Q.
    + cbn. eexists. split; [reflexivity|]. eapply call_inv; try done. by rewrite app_nil_r.
    + destruct (run_task_inv w t rest I Q) as (s' & H & I').
      unfold before in H. cbn [LeAddressManagerSpec.call]. rewrite H. cbn. by eexists.
  - eexists. split; [reflexivity|]. unfold wake_alarm.
    destruct (address_rotation_wake_alarm_ (rotation (set_outputs [] (manager w)))) as [[]|] eqn:E;
      eapply call_inv; try done; try (by rewrite ?app_nil_r). unfold alarms. cbn in *. by rewrite E.
  - eexists. split; [reflexivity|]. by apply non_wake_alarm_inv.
  - eexists. split; [reflexivity|]. eapply call_inv; try done. by rewrite app_nil_r.
Qed.

Lemma run_inv es : forall w, inv w -> Forall (fun e => keeps_clients e = true) es ->
  exists w' l, run es w = Some (w', l) /\ inv w'.
Proof.
  induction es as [|e es IH]; intros w I F; cbn; [by eauto|].
  inversion_clear F as [|? ? He Fe].
  destruct (step_inv w e I He) as (w1 & -> & I1). cbn.
  destruct (IH w1 I1 Fe) as (w2 & l & -> & I2). cbn. eauto.
Qed.

(** A manager whose policy is to rotate the address, with its clients resumed and
    nothing to do. *)
Definition established (w : World) : Prop :=
  RotatingAddress (manager w) = true /\ is_nil (registered_clients_ (manager w)) = false /\
  Forall (fun x => snd x = RESUMED) (registered_clients_ (manager w)) /\
  is_nil (cached_commands_ (manager w)) = true /\ is_nil (posted (manager w)) = true /\
  alarms (rotation (manager w)) =
    (if IsRpaGenerationSupported then (false, false) else (true, true)).

Lemma established_inv w : established w -> inv w.
Proof.
  intros (R & N & F & C & Q & A).
  assert (cached_commands_ (manager w) = []) as C' by (by destruct (cached_commands_ (manager w))).
  assert (posted (manager w) = []) as Q' by (by destruct (posted (manager w))).
  split; try done.
  - intros E. by rewrite E in N.
  - unfold alarms_ok. rewrite A, C'. destruct IsRpaGenerationSupported; [right|by left].
    split; [done|]. split; [done|constructor].
  - rewrite Q'. constructor.
  - intros c Hc. rewrite Forall_forall in F. apply list_elem_of_In, F in Hc. done.
  - rewrite C'. intros [?|P]; [done|]. unfold all_paused in P.
    destruct (registered_clients_ (manager w)) as [|[c st] l]; [done|].
    inversion_clear F as [|? ? Hs Hl]. cbn in Hs. subst st. done.
Qed.

(** Nothing is left to do: nothing is cached. *)
Lemma inv_settled w : inv w -> owed w = [] -> in_flight w = [] -> posted (manager w) = [] ->
  cached_commands_ (manager w) = [].
Proof.
  intros I Ho Hf Hq. destruct (cached_commands_ (manager w)) as [|c r] eqn:E; [done|].
  destruct (inv_busy _ I) as [[(k & st & _ & Hk)|[?|Hk]]|[Hk _]].
  - left. by rewrite E.
  - unfold owes_pause in Hk. rewrite Ho, Hq in Hk. by destruct Hk as [Hk|Hk]; apply not_elem_of_nil in Hk.
  - done.
  - rewrite Hq in Hk. by apply not_elem_of_nil in Hk.
  - rewrite Hq in Hk. by apply not_elem_of_nil in Hk.
Qed.

(** C13: from a manager with nothing to do whose policy is to rotate its address (it
    is not [USE_PUBLIC_ADDRESS] or [USE_STATIC_ADDRESS]) and that has a client, over a
    random source that gives an acceptable address within [fuel] attempts: while no
    client unregisters, no sequence of requests, registrations, acknowledgements,
    completions, alarms and tasks makes the manager abort, and no request is forgotten: when commands are cached, a registered client owes an
    acknowledgement, a command is in flight, a check is posted, or the clients are
    about to be told to pause.  So nothing is cached when the clients owe nothing, the
    controller has answered and no task is left. *)
Theorem address_manager_progress (es : list Event) (w : World) :
  established w -> Forall (fun e => keeps_clients e = true) es ->
  exists w' l, run es w = Some (w', l) /\
    (cached_commands_ (manager w') <> [] -> under_way w') /\
    (owed w' = [] -> in_flight w' = [] -> posted (manager w') = [] ->
     cached_commands_ (manager w') = []).
Proof.
  intros H%established_inv F. destruct (run_inv es w H F) as (w' & l & E & I).
  exists w', l. split; [done|].
  assert (U : cached_commands_ (manager w') <> [] -> under_way w')
    by (intros N; apply (inv_busy _ I); by left).
  split; [done|]. by apply inv_settled.
Qed.
End progress.

#[export] Instance established_dec b w : Decision (established b w).
Proof. unfold established. apply _. Defined.

(** ** Runs *)

(** A constructed manager, a constant random source and a public address. *)
Definition new_manager : LeAddressManager :=
  {| address_policy_ := POLICY_NOT_SET; supports_ble_privacy_ := false; registered_clients_ := [];
     cached_commands_ := [];
     rotation :=
       {| minimum_rotation_time_ := 0; maximum_rotation_time_ := 0; le_address_ := empty_address;
          cached_address_ := empty_address; rotation_irk_ := replicate 16 0;
          address_rotation_wake_alarm_ := None; address_rotation_non_wake_alarm_ := None;
          address_rotation_interval_min := None; address_rotation_interval_max := None;
          now := 0; random_ := 0 |};
     posted := []; outputs := [] |}.

Definition new_world : World := {| manager := new_manager; owed := []; in_flight := [] |}.
Definition sevens : nat -> Z := fun _ => 7.
Definition some_address : Address := [0xAA; 0xBB; 0xCC; 0xDD; 0xEE; 0x0F].

Abbreviation run7 := (run sevens 2 some_address false false).

Definition final (es : list Event) : World :=
  match run7 es new_world with Some (w, _) => w | None => new_world end.

Lemma sevens_byte n : byte (sevens n).
Proof. unfold sevens, in_range. lia. Qed.

Lemma sevens_vary n : random_varies sevens 2 some_address n.
Proof.
  exists 0%nat. split; [lia|]. change (map sevens (seq (n + 4 * 0) 4)) with [7; 7; 7; 7].
  vm_compute. discriminate.
Qed.

(** The policy is set, a client registers. *)
Definition start_resolvable : list Event :=
  [ESetPrivacyPolicy USE_RESOLVABLE_ADDRESS empty_address (fips_key 16) true 420000 900000;
   ERegister 1; ERun; EComplete true; ERun; ERun; EAck 1; ERun].
Definition start_public : list Event :=
  [ESetPrivacyPolicy USE_PUBLIC_ADDRESS empty_address (fips_key 16) true 420000 900000; ERun].

(** A rotation: the client is paused, the address is set, the client is resumed. *)
Definition rotation_run : list Event :=
  [ENonWakeAlarm; EAck 1; ERun; EComplete true; ERun; EAck 1; ERun].

Lemma address_manager_progress_witness :
  exists w' l, run7 rotation_run (final start_resolvable) = Some (w', l) /\
    cached_commands_ (manager w') = [].
Proof.
  destruct (address_manager_progress sevens 2 some_address false false sevens_byte sevens_vary
    rotation_run (final start_resolvable)) as (w' & l & H & _).
  - by_decide.
  - by_decide.
  - exists w', l. split; [exact H|]. revert H. vm_compute. intros [= <- <-]. reflexivity.
Defined.

(** After the rotation the client is resumed, and its address is the new one. *)
Example rotation_completes : let w := final (start_resolvable ++ rotation_run) in
  (registered_clients_ (manager w), is_nil (cached_commands_ (manager w)), owed w, in_flight w) =
    ([(1, RESUMED)], true, [], []) /\
  IsRpaThatMatchesIrk (le_address_ (rotation (manager w))) (fips_key 16) = true.
Proof. split; vm_compute; reflexivity. Qed.

(** Nothing is under way and commands are cached. *)
Definition stalled (w : World) : bool :=
  is_nil (owed w) && is_nil (in_flight w) && is_nil (posted (manager w)) &&
  negb (is_nil (cached_commands_ (manager w))).

(** Setting the policy a second time, which updates the identity resolving key,
    sets a random address whatever the policy is: with the policy
    [USE_PUBLIC_ADDRESS] and a registered client that pauses when it is told to, the
    process aborts. *)
Definition start_public_again : list Event :=
  start_public ++ [ERegister 1; ERun;
    ESetPrivacyPolicy USE_PUBLIC_ADDRESS empty_address (fips_key 16) true 420000 900000; ERun; EAck 1].

Theorem second_public_policy_aborts :
  is_Some (run7 start_public_again new_world) /\
  registered_clients_ (manager (final start_public_again)) = [(1, WAITING_FOR_PAUSE)] /\
  posted (manager (final start_public_again)) = [Tack_pause 1] /\
  step sevens 2 some_address false false ERun (final start_public_again) = None.
Proof. split; [by_decide|]. split_and!; vm_compute; reflexivity. Qed.

(** A request is forgotten when no client is registered.  [push_command] leaves a
    change of the filter accept list in the cache, [ClearResolvingList] the three
    commands it caches; and so does a method on the resolving list that finds a
    client registered and posts [pause_registered_clients], when the client
    unregisters before that task runs. *)
Theorem requests_forgotten_without_clients :
  stalled (final (start_public ++ [EAddDeviceToFilterAcceptList PUBLIC some_address; ERun])) = true /\
  stalled (final (start_public ++ [EClearResolvingList; ERun])) = true /\
  stalled (final (start_public ++ [ERegister 1; ERun; EUnregister 1;
    ERemoveDeviceFromResolvingList PUBLIC_DEVICE_OR_IDENTITY_ADDRESS some_address; ERun; ERun])) = true.
Proof. split_and!; vm_compute; reflexivity. Qed.

(** Three devices are removed from the resolving list, without a client; their nine
    commands are sent three by three.  When the last three have completed, and
    before the checks that follow have run, another device is removed. *)
Definition remove : Event :=
  ERemoveDeviceFromResolvingList PUBLIC_DEVICE_OR_IDENTITY_ADDRESS some_address.
Definition three (e : Event) : list Event := [e; e; e].
Definition abort_run : list Event :=
  start_public ++ three remove ++ three ERun ++ three (EComplete true) ++ three ERun ++
  three (EComplete true) ++ three ERun ++ three (EComplete true) ++ [remove] ++ three ERun.

(** Without a registered client the methods on the resolving list post
    [handle_next_command] for the commands they cache; when the checks of completed
    commands send them first, it finds the cache empty and its assertion fails. *)
Theorem handle_next_command_aborts :
  is_Some (run7 abort_run new_world) /\
  is_nil (cached_commands_ (manager (final abort_run))) = true /\
  posted (manager (final abort_run)) = [Thandle_next_command] /\
  step sevens 2 some_address false false ERun (final abort_run) = None.
Proof. split; [by_decide|]. split_and!; vm_compute; reflexivity. Qed.
