(* ===== verification/HciLayer.v ===== *)
(** * HCI layer

    Model of [HciLayer] ([src/system/gd/hci/hci_layer.cc] and [.h]): the queue of
    the commands, of which one at a time is with the controller, the timeout, and
    the dispatch of the events to the handlers registered for them.

    A command is its serialized bytes.  The views of packets are generated code: the
    operation code of serialized bytes is the parameter [GetOpCode], and an event is
    given with the fields the code reads, [None] where its view is not valid.  A
    callback is a number; running one is an output (callbacks are contextual: they
    are posted, so that no operation is reentered).  The public methods post their
    work to the handler: [posted] is its queue of tasks.  A failed assertion and
    [log::fatal] are [None]; [floss] is the compile time option TARGET_FLOSS.  The
    logging and the metrics are left out. *)

From stdpp Require Import base list option gmap.
From Stdlib Require Import ZArith Lia.
From S2P Require Import Prelude.

Open Scope Z_scope.

(** ** Data *)

Abbreviation OpCode := Z (only parsing).
Abbreviation EventCode := Z (only parsing).
Abbreviation SubeventCode := Z (only parsing).
Abbreviation VseSubeventCode := Z (only parsing).
Abbreviation ErrorCode := Z (only parsing).
Abbreviation Callback := Z (only parsing).

Definition NONE : OpCode := 0.
Definition CONTROLLER_DEBUG_INFO : OpCode := 0xFD5B.
Definition SUCCESS : ErrorCode := 0x00.
Definition UNKNOWN_HCI_COMMAND : ErrorCode := 0x01.
Definition BQR_EVENT : VseSubeventCode := 0x58.

Definition CONNECTION_REQUEST : EventCode := 0x04.
Definition DISCONNECTION_COMPLETE : EventCode := 0x05.
Definition READ_REMOTE_VERSION_INFORMATION_COMPLETE : EventCode := 0x0C.
Definition MAX_SLOTS_CHANGE : EventCode := 0x1B.
Definition PAGE_SCAN_REPETITION_MODE_CHANGE : EventCode := 0x20.
Definition LE_META_EVENT : EventCode := 0x3e.

(** The events of the interfaces (acl_connection_interface.h and so on), by their
    codes in hci_packets.pdl. *)
Definition AclConnectionEvents : list EventCode :=
  [0x1D; 0x12; 0x03; 0x06; 0x1C; 0x14; 0x2E; 0x0D; 0x21; 0x11; 0x0B; 0x23; 0x38; 0x39].
Definition SecurityEvents : list EventCode :=
  [0x08; 0x09; 0x0A; 0x15; 0x16; 0x17; 0x18; 0x30; 0x31; 0x32; 0x35; 0x36; 0x3B; 0x3C; 0x33; 0x34;
   0x59].
Definition InquiryEvents : list EventCode := [0x01; 0x02; 0x22; 0x2F].
Definition LeSecurityEvents : list SubeventCode := [0x05; 0x08; 0x09].
Definition LeAdvertisingEvents : list SubeventCode := [0x13; 0x12].
Definition LeScanningEvents : list SubeventCode :=
  [0x11; 0x02; 0x0b; 0x0D; 0x0F; 0x0E; 0x10; 0x18; 0x22].
Definition LeIsoEvents : list SubeventCode := [0x19; 0x1A; 0x1B; 0x1C; 0x1D; 0x1E].
Definition DistanceMeasurementEvents : list SubeventCode :=
  [0x33; 0x32; 0x31; 0x30; 0x2F; 0x2E; 0x2D; 0x2C].
Definition LeConnectionManagementEvents : list SubeventCode :=
  [0x01; 0x0a; 0x03; 0x0c; 0x07; 0x06; 0x23].

(** An event, with the fields the layer reads. *)
Inductive EventView :=
| COMMAND_COMPLETE (num_hci_command_packets : Z) (op_code : OpCode)
| COMMAND_STATUS (status : ErrorCode) (num_hci_command_packets : Z) (op_code : OpCode)
| LE_META (subevent : SubeventCode)
| HARDWARE_ERROR (code : Z)
| VENDOR_SPECIFIC (subevent : VseSubeventCode) (root_inflammation : option Z)
| OTHER_EVENT (event_code : EventCode)
| INVALID_EVENT.       (* the event or the view of its kind is not valid *)

Inductive ConnectionRequestLinkType := SCO | ACL | ESCO.
Inductive WaitingFor := STATUS | COMPLETE | STATUS_OR_COMPLETE.

#[export] Instance WaitingFor_eq_dec : EqDecision WaitingFor.
Proof. solve_decision. Defined.
#[export] Instance EventView_eq_dec : EqDecision EventView.
Proof. solve_decision. Defined.

Record CommandQueueEntry := {
  command : list Z;
  command_view : option OpCode;      (* set when the command is sent *)
  waiting_for_ : WaitingFor;
  callback : Callback;               (* of the kind [waiting_for_] *)
}.

#[export] Instance CommandQueueEntry_eq_dec : EqDecision CommandQueueEntry.
Proof. solve_decision. Defined.

(** What a callback of a command is run with. *)
Inductive Response :=
| CommandStatus (event : EventView)
| CommandComplete (event : EventView)
| CommandStatusOrComplete (event : EventView).

Inductive Output :=
| sendHciCommand (bytes : list Z)
| Respond (callback : Callback) (r : Response)
| RunEvent (handler : Callback) (event : EventView)
| RunLeEvent (handler : Callback) (subevent : SubeventCode)
| RunVsEvent (handler : Callback) (subevent : VseSubeventCode)
| RunDisconnect (handler : Callback) (handle : Z) (reason : ErrorCode)
| RunReadRemoteVersion (handler : Callback) (hci_status : ErrorCode)
    (handle version manufacturer_name sub_version : Z)
| RunAclConnectionRequest (handler : Callback) (address class_of_device : list Z)
| RunScoConnectionRequest (handler : Callback) (address class_of_device : list Z)
    (link_type : ConnectionRequestLinkType)
| KillController.        (* the signal that resets the controller *)

Inductive Task :=
| Tenqueue_command (entry : CommandQueueEntry)
| Tregister_event (event : EventCode) (handler : Callback)
| Tunregister_event (event : EventCode)
| Tregister_le_event (event : SubeventCode) (handler : Callback)
| Tunregister_le_event (event : SubeventCode)
| Tregister_vs_event (event : VseSubeventCode) (handler : Callback)
| Tunregister_vs_event (event : VseSubeventCode)
| Tregister_vs_event_default (handler : Callback)
| Tunregister_vs_event_default
| Ton_hci_event (event : EventView).

(** [hci_timeout_alarm_] and [hci_abort_alarm_]: [None] for the null pointer, [Some]
    of what the alarm will run. *)
Record impl := {
  command_queue_ : list CommandQueueEntry;
  event_handlers_ : gmap EventCode Callback;
  le_event_handlers_ : gmap SubeventCode Callback;
  vs_event_handlers_ : gmap VseSubeventCode Callback;
  vs_event_default_handler_ : option Callback;
  waiting_command_ : OpCode;
  command_credits_ : Z;
  hci_timeout_alarm_ : option (option OpCode);
  hci_abort_alarm_ : option Z;
}.

(** The module: its [impl], the static [life_cycle_stopped], and the tasks of the
    handler. *)
Record HciLayer := {
  impl_ : impl;
  life_cycle_stopped : bool;
  disconnect_handlers_ : list Callback;
  read_remote_version_handlers_ : list Callback;
  on_acl_connection_request_ : option Callback;
  on_sco_connection_request_ : option Callback;
  posted : list Task;
  outputs : list Output;
}.

Definition set_queue (q : list CommandQueueEntry) (s : impl) : impl :=
  {| command_queue_ := q; event_handlers_ := event_handlers_ s;
     le_event_handlers_ := le_event_handlers_ s; vs_event_handlers_ := vs_event_handlers_ s;
     vs_event_default_handler_ := vs_event_default_handler_ s;
     waiting_command_ := waiting_command_ s; command_credits_ := command_credits_ s;
     hci_timeout_alarm_ := hci_timeout_alarm_ s; hci_abort_alarm_ := hci_abort_alarm_ s |}.
Definition set_waiting (o : OpCode) (c : Z) (s : impl) : impl :=
  {| command_queue_ := command_queue_ s; event_handlers_ := event_handlers_ s;
     le_event_handlers_ := le_event_handlers_ s; vs_event_handlers_ := vs_event_handlers_ s;
     vs_event_default_handler_ := vs_event_default_handler_ s;
     waiting_command_ := o; command_credits_ := c;
     hci_timeout_alarm_ := hci_timeout_alarm_ s; hci_abort_alarm_ := hci_abort_alarm_ s |}.
Definition set_alarms (t : option (option OpCode)) (a : option Z) (s : impl) : impl :=
  {| command_queue_ := command_queue_ s; event_handlers_ := event_handlers_ s;
     le_event_handlers_ := le_event_handlers_ s; vs_event_handlers_ := vs_event_handlers_ s;
     vs_event_default_handler_ := vs_event_default_handler_ s;
     waiting_command_ := waiting_command_ s; command_credits_ := command_credits_ s;
     hci_timeout_alarm_ := t; hci_abort_alarm_ := a |}.
Definition set_handlers (e le vs : gmap Z Callback) (d : option Callback) (s : impl) : impl :=
  {| command_queue_ := command_queue_ s; event_handlers_ := e;
     le_event_handlers_ := le; vs_event_handlers_ := vs; vs_event_default_handler_ := d;
     waiting_command_ := waiting_command_ s; command_credits_ := command_credits_ s;
     hci_timeout_alarm_ := hci_timeout_alarm_ s; hci_abort_alarm_ := hci_abort_alarm_ s |}.

Definition set_impl (i : impl) (s : HciLayer) : HciLayer :=
  {| impl_ := i; life_cycle_stopped := life_cycle_stopped s;
     disconnect_handlers_ := disconnect_handlers_ s;
     read_remote_version_handlers_ := read_remote_version_handlers_ s;
     on_acl_connection_request_ := on_acl_connection_request_ s;
     on_sco_connection_request_ := on_sco_connection_request_ s;
     posted := posted s; outputs := outputs s |}.
Definition set_stopped (b : bool) (s : HciLayer) : HciLayer :=
  {| impl_ := impl_ s; life_cycle_stopped := b;
     disconnect_handlers_ := disconnect_handlers_ s;
     read_remote_version_handlers_ := read_remote_version_handlers_ s;
     on_acl_connection_request_ := on_acl_connection_request_ s;
     on_sco_connection_request_ := on_sco_connection_request_ s;
     posted := posted s; outputs := outputs s |}.
Definition set_callbacks (d r : list Callback) (a sco : option Callback) (s : HciLayer) : HciLayer :=
  {| impl_ := impl_ s; life_cycle_stopped := life_cycle_stopped s;
     disconnect_handlers_ := d; read_remote_version_handlers_ := r;
     on_acl_connection_request_ := a; on_sco_connection_request_ := sco;
     posted := posted s; outputs := outputs s |}.
Definition set_posted (t : list Task) (s : HciLayer) : HciLayer :=
  {| impl_ := impl_ s; life_cycle_stopped := life_cycle_stopped s;
     disconnect_handlers_ := disconnect_handlers_ s;
     read_remote_version_handlers_ := read_remote_version_handlers_ s;
     on_acl_connection_request_ := on_acl_connection_request_ s;
     on_sco_connection_request_ := on_sco_connection_request_ s;
     posted := t; outputs := outputs s |}.
Definition set_outputs (o : list Output) (s : HciLayer) : HciLayer :=
  {| impl_ := impl_ s; life_cycle_stopped := life_cycle_stopped s;
     disconnect_handlers_ := disconnect_handlers_ s;
     read_remote_version_handlers_ := read_remote_version_handlers_ s;
     on_acl_connection_request_ := on_acl_connection_request_ s;
     on_sco_connection_request_ := on_sco_connection_request_ s;
     posted := posted s; outputs := o |}.

Definition output (o : list Output) (s : HciLayer) : HciLayer := set_outputs (outputs s ++ o) s.
Definition post (t : Task) (s : HciLayer) : HciLayer := set_posted (posted s ++ [t]) s.

Section layer.
Context (GetOpCode : list Z -> option OpCode) (floss : bool).
Context (Reset ControllerDebugInfo : list Z).

(** ** Commands *)

(** [None] when the view of the serialized command is not valid. *)
Definition send_next_command (s : HciLayer) : option HciLayer :=
  let i := impl_ s in
  if command_credits_ i =? 0 then Some s
  else if negb (waiting_command_ i =? NONE) then Some s
  else
    match command_queue_ i with
    | [] => Some s
    | e :: rest =>
        let bytes := command e in
        let s := output [sendHciCommand bytes] s in
        op_code ← GetOpCode bytes;
        let e := {| command := command e; command_view := Some op_code;
                    waiting_for_ := waiting_for_ e; callback := callback e |} in
        let i := set_waiting op_code 0 (set_queue (e :: rest) i) in
        let i :=
          match hci_timeout_alarm_ i with
          | Some _ => set_alarms (Some (Some op_code)) (hci_abort_alarm_ i) i
          | None => i
          end in
        Some (set_impl i s)
    end.

Definition enqueue_command (e : CommandQueueEntry) (s : HciLayer) : option HciLayer :=
  let i := impl_ s in
  send_next_command (set_impl (set_queue (command_queue_ i ++ [e]) i) s).

Definition is_vendor_specific (op_code : OpCode) : bool :=
  Z.land op_code (Z.shiftl 0x3f 10) =? Z.shiftl 0x3f 10.

Definition is_status_event (event : EventView) (status : ErrorCode) : bool :=
  match event with COMMAND_STATUS x _ _ => x =? status | _ => false end.

(** The callback of the command at the front of the queue and what it is run with;
    [None] when the response is not one the command waits for.  A vendor specific
    command the controller does not know answers a status instead of a complete
    event, and its callback gets a complete event made from it. *)
Definition respond (e : CommandQueueEntry) (is_status : bool) (event : EventView) (credits : Z)
    (op_code : OpCode) : option Output :=
  if is_vendor_specific op_code && (is_status && bool_decide (waiting_for_ e = COMPLETE)) &&
     is_status_event event UNKNOWN_HCI_COMMAND
  then Some (Respond (callback e) (CommandComplete (COMMAND_COMPLETE credits op_code)))
  else if negb (bool_decide (waiting_for_ e = STATUS_OR_COMPLETE)) then
    if eqb (bool_decide (waiting_for_ e = STATUS)) is_status then
      Some (Respond (callback e) (if is_status then CommandStatus event else CommandComplete event))
    else None
  else Some (Respond (callback e) (CommandStatusOrComplete event)).

Definition handle_command_response (is_status : bool) (event : EventView) (credits : Z)
    (op_code : OpCode) (s : HciLayer) : option HciLayer :=
  let i := set_waiting (waiting_command_ (impl_ s)) credits (impl_ s) in
  let s := set_impl i s in
  if op_code =? NONE then send_next_command s
  else
    match command_queue_ i with
    | [] => None
    | e :: rest =>
        if (waiting_command_ i =? CONTROLLER_DEBUG_INFO) && negb (op_code =? CONTROLLER_DEBUG_INFO)
        then Some s
        else if negb (waiting_command_ i =? op_code) then None
        else
          o ← respond e is_status event credits op_code;
          let s := output [o] s in
          let i := set_waiting NONE (command_credits_ i) (set_queue rest i) in
          match hci_timeout_alarm_ i with
          | Some _ => send_next_command (set_impl (set_alarms (Some None) (hci_abort_alarm_ i) i) s)
          | None => Some (set_impl i s)
          end
    end.

Definition on_command_status (status credits op_code : Z) (s : HciLayer) : option HciLayer :=
  handle_command_response true (COMMAND_STATUS status credits op_code) credits op_code s.

Definition on_command_complete (credits op_code : Z) (s : HciLayer) : option HciLayer :=
  handle_command_response false (COMMAND_COMPLETE credits op_code) credits op_code s.

Definition LifeCycleStop (s : HciLayer) : HciLayer := set_stopped true s.

(** The callback of the command sent after a timeout does nothing. *)
Definition ignore_callback : Callback := -1.

Definition on_hci_timeout (op_code : OpCode) (s : HciLayer) : option HciLayer :=
  if floss then
    if life_cycle_stopped s then Some s
    else Some (output [KillController] (LifeCycleStop s))
  else
    let i := impl_ s in
    let i := set_waiting NONE 1 (set_queue [] i) in
    s ← enqueue_command {| command := ControllerDebugInfo; command_view := None;
                           waiting_for_ := COMPLETE; callback := ignore_callback |} (set_impl i s);
    let i := impl_ s in
    let abort :=
      match hci_abort_alarm_ i with
      | None => Some op_code
      | Some a => Some a
      end in
    Some (set_impl (set_alarms None abort i) s).

Definition fail_if_reset_complete_not_success (status : option ErrorCode) : option unit :=
  status ← status;
  if status =? SUCCESS then Some tt else None.

(** ** Events *)

(** The handler of the layer itself for connection requests may be replaced as long
    as there is no callback for them. *)
Definition register_event (event : EventCode) (handler : Callback) (s : HciLayer)
    : option HciLayer :=
  let i := impl_ s in
  if event =? LE_META_EVENT then None
  else
    let handlers :=
      if (event =? CONNECTION_REQUEST) && negb (bool_decide (is_Some (on_acl_connection_request_ s)))
      then delete event (event_handlers_ i)
      else event_handlers_ i in
    match handlers !! event with
    | Some _ => None
    | None =>
        Some (set_impl (set_handlers (<[event := handler]> handlers) (le_event_handlers_ i)
                          (vs_event_handlers_ i) (vs_event_default_handler_ i) i) s)
    end.

Definition unregister_event (event : EventCode) (s : HciLayer) : HciLayer :=
  let i := impl_ s in
  set_impl (set_handlers (delete event (event_handlers_ i)) (le_event_handlers_ i)
              (vs_event_handlers_ i) (vs_event_default_handler_ i) i) s.

Definition register_le_event (event : SubeventCode) (handler : Callback) (s : HciLayer)
    : option HciLayer :=
  let i := impl_ s in
  match le_event_handlers_ i !! event with
  | Some _ => None
  | None =>
      Some (set_impl (set_handlers (event_handlers_ i) (<[event := handler]> (le_event_handlers_ i))
                        (vs_event_handlers_ i) (vs_event_default_handler_ i) i) s)
  end.

Definition unregister_le_event (event : SubeventCode) (s : HciLayer) : HciLayer :=
  let i := impl_ s in
  set_impl (set_handlers (event_handlers_ i) (delete event (le_event_handlers_ i))
              (vs_event_handlers_ i) (vs_event_default_handler_ i) i) s.

Definition register_vs_event (event : VseSubeventCode) (handler : Callback) (s : HciLayer)
    : option HciLayer :=
  let i := impl_ s in
  match vs_event_handlers_ i !! event with
  | Some _ => None
  | None =>
      Some (set_impl (set_handlers (event_handlers_ i) (le_event_handlers_ i)
                        (<[event := handler]> (vs_event_handlers_ i)) (vs_event_default_handler_ i) i) s)
  end.

Definition unregister_vs_event (event : VseSubeventCode) (s : HciLayer) : HciLayer :=
  let i := impl_ s in
  set_impl (set_handlers (event_handlers_ i) (le_event_handlers_ i)
              (delete event (vs_event_handlers_ i)) (vs_event_default_handler_ i) i) s.

Definition register_vs_event_default (handler : Callback) (s : HciLayer) : HciLayer :=
  let i := impl_ s in
  set_impl (set_handlers (event_handlers_ i) (le_event_handlers_ i) (vs_event_handlers_ i)
              (Some handler) i) s.

Definition unregister_vs_event_default (s : HciLayer) : HciLayer :=
  let i := impl_ s in
  set_impl (set_handlers (event_handlers_ i) (le_event_handlers_ i) (vs_event_handlers_ i) None i) s.

Definition handle_root_inflammation (vse_error_reason : Z) (s : HciLayer) : HciLayer :=
  let i := impl_ s in
  let abort :=
    match hci_abort_alarm_ i with
    | None => Some vse_error_reason
    | Some a => Some a
    end in
  set_impl (set_alarms None abort i) s.

Definition on_hardware_error (s : HciLayer) : option HciLayer :=
  if floss then Some (output [KillController] (LifeCycleStop s)) else None.

Definition on_le_meta_event (subevent : SubeventCode) (s : HciLayer) : HciLayer :=
  match le_event_handlers_ (impl_ s) !! subevent with
  | None => s
  | Some h => output [RunLeEvent h subevent] s
  end.

Definition on_vs_event (subevent : VseSubeventCode) (s : HciLayer) : HciLayer :=
  match vs_event_handlers_ (impl_ s) !! subevent with
  | Some h => output [RunVsEvent h subevent] s
  | None =>
      match vs_event_default_handler_ (impl_ s) with
      | Some h => output [RunVsEvent h subevent] s
      | None => s
      end
  end.

(** A response with an operation code is only expected while a command waits. *)
Definition expected (event : EventView) (s : HciLayer) : bool :=
  match command_queue_ (impl_ s), event with
  | [], (COMMAND_COMPLETE _ op_code | COMMAND_STATUS _ _ op_code) => op_code =? NONE
  | _, _ => true
  end.

Definition on_hci_event (event : EventView) (s : HciLayer) : option HciLayer :=
  if negb (expected event s) then None
  else
    match event with
    | COMMAND_COMPLETE credits op_code => on_command_complete credits op_code s
    | COMMAND_STATUS status credits op_code => on_command_status status credits op_code s
    | LE_META subevent => Some (on_le_meta_event subevent s)
    | HARDWARE_ERROR _ => on_hardware_error s
    | VENDOR_SPECIFIC subevent inflammation =>
        match (if subevent =? BQR_EVENT then inflammation else None) with
        | Some reason => Some (handle_root_inflammation reason s)
        | None => Some (on_vs_event subevent s)
        end
    | OTHER_EVENT code =>
        match event_handlers_ (impl_ s) !! code with
        | None => Some s
        | Some h => Some (output [RunEvent h event] s)
        end
    | INVALID_EVENT => None
    end.

(** The handler runs a task. *)
Definition run_task (t : Task) (s : HciLayer) : option HciLayer :=
  match t with
  | Tenqueue_command e => enqueue_command e s
  | Tregister_event e h => register_event e h s
  | Tunregister_event e => Some (unregister_event e s)
  | Tregister_le_event e h => register_le_event e h s
  | Tunregister_le_event e => Some (unregister_le_event e s)
  | Tregister_vs_event e h => register_vs_event e h s
  | Tunregister_vs_event e => Some (unregister_vs_event e s)
  | Tregister_vs_event_default h => Some (register_vs_event_default h s)
  | Tunregister_vs_event_default => Some (unregister_vs_event_default s)
  | Ton_hci_event e => on_hci_event e s
  end.

(** ** Public methods *)

(** What the methods do when the layer is not stopped. *)
Definition post_alive (t : Task) (s : HciLayer) : HciLayer :=
  if life_cycle_stopped s then s else post t s.

(** [EnqueueCommand] with a callback for a status or a complete event; the one for
    either does not look at the life cycle. *)
Definition EnqueueCommand (bytes : list Z) (waiting : WaitingFor) (cb : Callback) (s : HciLayer)
    : HciLayer :=
  let t := Tenqueue_command {| command := bytes; command_view := None; waiting_for_ := waiting;
                               callback := cb |} in
  match waiting with
  | STATUS_OR_COMPLETE => post t s
  | _ => post_alive t s
  end.

Definition hciEventReceived (event : EventView) (s : HciLayer) : HciLayer :=
  post_alive (Ton_hci_event event) s.

(** TARGET_FLOSS only. *)
Definition controllerNeedsReset (s : HciLayer) : HciLayer :=
  output [KillController] (LifeCycleStop s).

Definition RegisterEventHandler (e : EventCode) (h : Callback) (s : HciLayer) : HciLayer :=
  post_alive (Tregister_event e h) s.
Definition UnregisterEventHandler (e : EventCode) (s : HciLayer) : HciLayer :=
  post_alive (Tunregister_event e) s.
Definition RegisterLeEventHandler (e : SubeventCode) (h : Callback) (s : HciLayer) : HciLayer :=
  post_alive (Tregister_le_event e h) s.
Definition UnregisterLeEventHandler (e : SubeventCode) (s : HciLayer) : HciLayer :=
  post_alive (Tunregister_le_event e) s.
Definition RegisterVendorSpecificEventHandler (e : VseSubeventCode) (h : Callback) (s : HciLayer) :=
  post_alive (Tregister_vs_event e h) s.
Definition UnregisterVendorSpecificEventHandler (e : VseSubeventCode) (s : HciLayer) : HciLayer :=
  post_alive (Tunregister_vs_event e) s.
Definition RegisterDefaultVendorSpecificEventHandler (h : Callback) (s : HciLayer) : HciLayer :=
  post (Tregister_vs_event_default h) s.
Definition UnregisterDefaultVendorSpecificEventHandler (s : HciLayer) : HciLayer :=
  post Tunregister_vs_event_default s.

Definition register_events (l : list EventCode) (h : Callback) (s : HciLayer) : HciLayer :=
  fold_left (fun s e => RegisterEventHandler e h s) l s.
Definition unregister_events (l : list EventCode) (s : HciLayer) : HciLayer :=
  fold_left (fun s e => UnregisterEventHandler e s) l s.
Definition register_le_events (l : list SubeventCode) (h : Callback) (s : HciLayer) : HciLayer :=
  fold_left (fun s e => RegisterLeEventHandler e h s) l s.
Definition unregister_le_events (l : list SubeventCode) (s : HciLayer) : HciLayer :=
  fold_left (fun s e => UnregisterLeEventHandler e s) l s.

Definition Disconnect (handle : Z) (reason : ErrorCode) (s : HciLayer) : HciLayer :=
  output (map (fun cb => RunDisconnect cb handle reason) (disconnect_handlers_ s)) s.

Definition ReadRemoteVersion (hci_status : ErrorCode)
    (handle version manufacturer_name sub_version : Z) (s : HciLayer) : HciLayer :=
  output (map (fun cb => RunReadRemoteVersion cb hci_status handle version manufacturer_name
                           sub_version) (read_remote_version_handlers_ s)) s.

Definition RegisterForDisconnects (cb : Callback) (s : HciLayer) : HciLayer :=
  set_callbacks (disconnect_handlers_ s ++ [cb]) (read_remote_version_handlers_ s)
    (on_acl_connection_request_ s) (on_sco_connection_request_ s) s.

(** The handle and the reason of a valid event. *)
Definition on_disconnection_complete (view : option (Z * ErrorCode)) (s : HciLayer) : HciLayer :=
  match view with
  | None => s
  | Some (handle, reason) => Disconnect handle reason s
  end.

(** The address, the class of the device and the type of the link of a valid event. *)
Definition on_connection_request
    (view : option (list Z * list Z * ConnectionRequestLinkType)) (s : HciLayer) : HciLayer :=
  match view with
  | None => s
  | Some (address, cod, link_type) =>
      match link_type with
      | ACL =>
          match on_acl_connection_request_ s with
          | None => s
          | Some h => output [RunAclConnectionRequest h address cod] s
          end
      | SCO | ESCO =>
          match on_sco_connection_request_ s with
          | None => s
          | Some h => output [RunScoConnectionRequest h address cod link_type] s
          end
      end
  end.

(** The status, the handle, the version, the manufacturer and the subversion. *)
Definition on_read_remote_version_complete (view : option (ErrorCode * Z * Z * Z * Z))
    (s : HciLayer) : option HciLayer :=
  '(status, handle, version, manufacturer_name, sub_version) ← view;
  Some (ReadRemoteVersion status handle version manufacturer_name sub_version s).

Definition GetAclConnectionInterface (event_handler on_disconnect on_request on_version : Callback)
    (s : HciLayer) : HciLayer :=
  let s := set_callbacks (disconnect_handlers_ s ++ [on_disconnect])
             (read_remote_version_handlers_ s ++ [on_version]) (Some on_request)
             (on_sco_connection_request_ s) s in
  register_events AclConnectionEvents event_handler s.

Definition PutAclConnectionInterface (s : HciLayer) : HciLayer :=
  let s := unregister_events AclConnectionEvents s in
  set_callbacks [] [] (on_acl_connection_request_ s) (on_sco_connection_request_ s) s.

Definition GetLeAclConnectionInterface (event_handler on_disconnect on_version : Callback)
    (s : HciLayer) : HciLayer :=
  let s := set_callbacks (disconnect_handlers_ s ++ [on_disconnect])
             (read_remote_version_handlers_ s ++ [on_version]) (on_acl_connection_request_ s)
             (on_sco_connection_request_ s) s in
  register_le_events LeConnectionManagementEvents event_handler s.

Definition PutLeAclConnectionInterface (s : HciLayer) : HciLayer :=
  let s := unregister_le_events LeConnectionManagementEvents s in
  set_callbacks [] [] (on_acl_connection_request_ s) (on_sco_connection_request_ s) s.

Definition RegisterForScoConnectionRequests (cb : Callback) (s : HciLayer) : HciLayer :=
  set_callbacks (disconnect_handlers_ s) (read_remote_version_handlers_ s)
    (on_acl_connection_request_ s) (Some cb) s.

Definition GetSecurityInterface := register_events SecurityEvents.
Definition GetLeSecurityInterface := register_le_events LeSecurityEvents.
Definition GetLeAdvertisingInterface := register_le_events LeAdvertisingEvents.
Definition ReleaseLeAdvertisingInterface := unregister_le_events LeAdvertisingEvents.
Definition GetLeScanningInterface := register_le_events LeScanningEvents.
Definition ReleaseLeScanningInterface := unregister_le_events LeScanningEvents.
Definition GetLeIsoInterface := register_le_events LeIsoEvents.
Definition GetDistanceMeasurementInterface := register_le_events DistanceMeasurementEvents.
Definition ReleaseDistanceMeasurementInterface := unregister_le_events DistanceMeasurementEvents.
Definition GetInquiryInterface := register_events InquiryEvents.
(** The cleanup of the inquiry interface. *)
Definition ReleaseInquiryInterface := unregister_events InquiryEvents.

(** The handlers of the layer itself, by number. *)
Definition disconnection_handler : Callback := -2.
Definition version_handler : Callback := -3.
Definition drop_handler : Callback := -4.
Definition request_handler : Callback := -5.
Definition reset_callback : Callback := -6.

Definition StartWithNoHalDependencies (s : HciLayer) : HciLayer :=
  let s := RegisterEventHandler DISCONNECTION_COMPLETE disconnection_handler s in
  let s := RegisterEventHandler READ_REMOTE_VERSION_INFORMATION_COMPLETE version_handler s in
  let s := RegisterEventHandler PAGE_SCAN_REPETITION_MODE_CHANGE drop_handler s in
  let s := RegisterEventHandler MAX_SLOTS_CHANGE drop_handler s in
  RegisterEventHandler CONNECTION_REQUEST request_handler s.

Definition StopWithNoHalDependencies (s : HciLayer) : HciLayer :=
  unregister_events [DISCONNECTION_COMPLETE; READ_REMOTE_VERSION_INFORMATION_COMPLETE;
    PAGE_SCAN_REPETITION_MODE_CHANGE; MAX_SLOTS_CHANGE; CONNECTION_REQUEST] s.

(** The part of the destructor before the queues and the [impl] are released; [flag] is
    the aconfig flag fix_event_handler_reg_and_dereg. *)
Definition destroy (flag : bool) (s : HciLayer) : HciLayer :=
  let s := set_stopped true s in
  if flag then StopWithNoHalDependencies s else s.

Definition new_impl : impl :=
  {| command_queue_ := []; event_handlers_ := ∅; le_event_handlers_ := ∅; vs_event_handlers_ := ∅;
     vs_event_default_handler_ := None; waiting_command_ := NONE; command_credits_ := 1;
     hci_timeout_alarm_ := Some None; hci_abort_alarm_ := None |}.

(** The constructor. *)
Definition new_layer : HciLayer :=
  let s := {| impl_ := new_impl; life_cycle_stopped := false; disconnect_handlers_ := [];
              read_remote_version_handlers_ := []; on_acl_connection_request_ := None;
              on_sco_connection_request_ := None; posted := []; outputs := [] |} in
  let s := StartWithNoHalDependencies s in
  EnqueueCommand Reset COMPLETE reset_callback s.

End layer.
