(* ===== verification/HciLayerSpec.v ===== *)
(** * HCI layer: properties

    The commands are sent one at a time in the order they were enqueued, and the
    callbacks run in the same order, each with the answer to its command; a command
    is sent as soon as the controller allows it; an honest controller makes no
    assertion fail; after a timeout every answer to an older command is discarded.
    The sets of events of the interfaces are disjoint. *)

From stdpp Require Import base list option gmap.
From Stdlib Require Import ZArith Lia.
From S2P Require Import Prelude HciLayer.

Open Scope Z_scope.

Section spec.
Context (GetOpCode : list Z -> option Z) (floss : bool) (ControllerDebugInfo : list Z).

Abbreviation send_next_command := (send_next_command GetOpCode).
Abbreviation enqueue_command := (enqueue_command GetOpCode).
Abbreviation handle_command_response := (handle_command_response GetOpCode).
Abbreviation on_hci_event := (on_hci_event GetOpCode floss).
Abbreviation run_task := (run_task GetOpCode floss).

(** ** Runs *)

(** A step of the layer: a call of a public method, by the task it posts, or the
    run of the oldest task by the handler. *)
Inductive Step :=
| SPost (t : Task)
| SRun.

Definition step (e : Step) (s : HciLayer) : option HciLayer :=
  match e with
  | SPost t => Some (post t s)
  | SRun =>
      match posted s with
      | [] => Some s
      | t :: rest => run_task t (set_posted rest s)
      end
  end.

Fixpoint run (es : list Step) (s : HciLayer) : option HciLayer :=
  match es with
  | [] => Some s
  | e :: es => s ← step e s; run es s
  end.

(** The commands a run hands to the layer: those enqueued by the tasks that run. *)
Definition enqueued_by (e : Step) (s : HciLayer) : list CommandQueueEntry :=
  match e, posted s with
  | SRun, Tenqueue_command c :: _ => [c]
  | _, _ => []
  end.

Fixpoint enqueued (es : list Step) (s : HciLayer) : list CommandQueueEntry :=
  match es with
  | [] => []
  | e :: es =>
      enqueued_by e s ++ match step e s with Some s => enqueued es s | None => [] end
  end.

(** What the outputs say of the commands: those sent, and the callbacks run. *)
Definition sends (o : Output) : list (list Z) :=
  match o with sendHciCommand b => [b] | _ => [] end.
Definition responds (o : Output) : list (Z * Response) :=
  match o with Respond cb r => [(cb, r)] | _ => [] end.
Definition sent (o : list Output) : list (list Z) := o ≫= sends.
Definition responses (o : list Output) : list (Z * Response) := o ≫= responds.

Lemma hci_sent_app o1 o2 : sent (o1 ++ o2) = sent o1 ++ sent o2.
Proof. unfold sent. by rewrite bind_app. Qed.
Lemma responses_app o1 o2 : responses (o1 ++ o2) = responses o1 ++ responses o2.
Proof. unfold responses. by rewrite bind_app. Qed.

(** ** The queue of the commands *)

(** An entry without the view that sending it sets. *)
Definition request : Type := list Z * WaitingFor * Z.
Definition to_request (e : CommandQueueEntry) : request := (command e, waiting_for_ e, callback e).
Definition bytes_of (r : request) : list Z := r.1.1.

(** The commands not answered yet, and the one with the controller. *)
Definition pending (s : HciLayer) : list request := map to_request (command_queue_ (impl_ s)).
Definition outstanding (s : HciLayer) : list (list Z) :=
  if waiting_command_ (impl_ s) =? NONE then [] else map bytes_of (take 1 (pending s)).

(** A callback is run for the command with its operation code, with a response of
    the kind it is for. *)
Definition op_code_of (r : Response) : option Z :=
  match r with
  | CommandStatus e | CommandComplete e | CommandStatusOrComplete e =>
      match e with
      | COMMAND_COMPLETE _ op | COMMAND_STATUS _ _ op => Some op
      | _ => None
      end
  end.
Definition kind_of (r : Response) : WaitingFor :=
  match r with
  | CommandStatus _ => STATUS
  | CommandComplete _ => COMPLETE
  | CommandStatusOrComplete _ => STATUS_OR_COMPLETE
  end.
Definition answers (q : request) (x : Z * Response) : Prop :=
  let '(bytes, w, cb) := q in
  x.1 = cb /\ kind_of x.2 = w /\ op_code_of x.2 = GetOpCode bytes.

(** From [s] to [s'] the requests [new] are enqueued, the oldest ones are answered,
    and the commands sent are the next ones. *)
Definition serves (new : list request) (s s' : HciLayer) : Prop :=
  exists d o, pending s ++ new = d ++ pending s' /\ outputs s' = outputs s ++ o /\
    Forall2 answers d (responses o) /\
    outstanding s ++ sent o = map bytes_of d ++ outstanding s' /\ posted s' = posted s.

(** A command has an operation code, and the one the layer waits for is that of the
    oldest command. *)
Definition has_code (e : CommandQueueEntry) : Prop := GetOpCode (command e) <> Some NONE.

Definition queue_ok (s : HciLayer) : Prop :=
  Forall has_code (command_queue_ (impl_ s)) /\
  (waiting_command_ (impl_ s) <> NONE ->
   exists e rest, command_queue_ (impl_ s) = e :: rest /\
     GetOpCode (command e) = Some (waiting_command_ (impl_ s))).

(** No command waits while the controller allows one. *)
Definition prompt (s : HciLayer) : Prop :=
  command_queue_ (impl_ s) <> [] ->
  waiting_command_ (impl_ s) <> NONE \/ command_credits_ (impl_ s) = 0.

Lemma serves_quiet o s s' : pending s' = pending s -> outstanding s' = outstanding s ->
  outputs s' = outputs s ++ o -> sent o = [] -> responses o = [] -> posted s' = posted s ->
  serves [] s s'.
Proof.
  intros P Q O S R T. exists [], o. rewrite P, Q, S, R, !app_nil_r. by repeat split; try constructor.
Qed.

Lemma serves_trans n1 n2 s1 s2 s3 : serves n1 s1 s2 -> serves n2 s2 s3 -> serves (n1 ++ n2) s1 s3.
Proof.
  intros (d1 & o1 & P1 & O1 & A1 & S1 & T1) (d2 & o2 & P2 & O2 & A2 & S2 & T2).
  exists (d1 ++ d2), (o1 ++ o2). split_and!.
  - by rewrite app_assoc, P1, <- app_assoc, P2, app_assoc.
  - by rewrite O2, O1, app_assoc.
  - rewrite responses_app. by apply Forall2_app.
  - by rewrite hci_sent_app, app_assoc, S1, <- app_assoc, S2, map_app, app_assoc.
  - congruence.
Qed.

(** Sending the next command: it is sent or nothing changes. *)
Lemma send_next_ok s s' : queue_ok s -> send_next_command s = Some s' ->
  serves [] s s' /\ queue_ok s' /\ prompt s' /\
  (hci_timeout_alarm_ (impl_ s') = None <-> hci_timeout_alarm_ (impl_ s) = None).
Proof.
  intros [F W]. unfold HciLayer.send_next_command.
  assert (Q : serves [] s s) by (apply (serves_quiet []); by rewrite ?app_nil_r).
  destruct (Z.eqb_spec (command_credits_ (impl_ s)) 0) as [E|_].
  { intros [= <-]. split_and!; try done. by right. }
  destruct (Z.eqb_spec (waiting_command_ (impl_ s)) NONE) as [E|N]; cbn [negb].
  2: { intros [= <-]. split_and!; try done. by left. }
  destruct (command_queue_ (impl_ s)) as [|e rest] eqn:C.
  { intros [= <-]. split_and!; try done; unfold queue_ok, prompt; by rewrite C. }
  cbn zeta. intros H. apply bind_Some in H as (op & G & [= <-]).
  assert (Nop : op <> NONE).
  { inversion_clear F as [|? ? He Fr]. intros ->. by apply He. }
  set (e' := {| command := command e; command_view := Some op; waiting_for_ := waiting_for_ e;
                callback := callback e |}).
  set (i := set_waiting op 0 (set_queue (e' :: rest) (impl_ s))).
  match goal with |- context [set_impl ?x _] => set (i' := x) end.
  assert (I : command_queue_ i' = e' :: rest /\ waiting_command_ i' = op /\
    (hci_timeout_alarm_ i' = None <-> hci_timeout_alarm_ (impl_ s) = None)).
  { unfold i', i. cbn. destruct (hci_timeout_alarm_ (impl_ s)) eqn:A; cbn; by rewrite ?A. }
  clearbody i'. destruct I as (I1 & I2 & I3). split_and!; cbn.
  - exists [], [sendHciCommand (command e)]. unfold outstanding, pending. cbn.
    rewrite I1, I2, C, E. cbn. destruct (Z.eqb_spec op NONE); [done|]. rewrite app_nil_r.
    by split_and!.
  - unfold queue_ok. cbn. rewrite I1, I2. split; [|by eexists _, _].
    inversion_clear F as [|? ? He Fr]. by constructor.
  - unfold prompt. cbn. rewrite I2. by left.
  - exact I3.
Qed.

Lemma enqueue_ok e s s' : queue_ok s -> has_code e -> enqueue_command e s = Some s' ->
  serves [to_request e] s s' /\ queue_ok s' /\ prompt s' /\
  (hci_timeout_alarm_ (impl_ s') = None <-> hci_timeout_alarm_ (impl_ s) = None).
Proof.
  intros [F W] He. unfold HciLayer.enqueue_command. set (s1 := set_impl _ s).
  assert (Q : queue_ok s1).
  { split; [apply Forall_app; by repeat constructor|]. intros N.
    destruct (W N) as (x & rest & C & G). exists x, (rest ++ [e]). cbn. by rewrite C. }
  assert (S1 : serves [to_request e] s s1).
  { exists [], []. unfold outstanding, pending. cbn. rewrite !app_nil_r, map_app.
    split_and!; try done. destruct (Z.eqb_spec (waiting_command_ (impl_ s)) NONE) as [|N];
      [done|]. by destruct (W N) as (x & rest & -> & _). }
  intros H. apply send_next_ok in H as (S2 & Q2 & P2 & A2); [|done].
  split_and!; try done. rewrite <- (app_nil_r [to_request e]). by eapply serves_trans.
Qed.

(** The response to the oldest command: [event] is a status or a complete event. *)
Lemma respond_answers e is_status event credits op o :
  respond e is_status event credits op = Some o ->
  (if is_status then exists x, event = COMMAND_STATUS x credits op
   else event = COMMAND_COMPLETE credits op) ->
  GetOpCode (command e) = Some op ->
  exists r, o = Respond (callback e) r /\ answers (to_request e) (callback e, r).
Proof.
  unfold respond, answers. cbn. intros H E G. rewrite G.
  destruct is_status; [destruct E as [x ->]|subst event]; destruct (waiting_for_ e); cbn in H;
    rewrite ?andb_false_r in H; cbn in H; repeat case_match; simplify_eq;
    eexists; (split; [reflexivity|done]).
Qed.

Lemma handle_response_ok (is_status : bool) event credits op s s' :
  queue_ok s -> prompt s ->
  (if is_status then exists x, event = COMMAND_STATUS x credits op
   else event = COMMAND_COMPLETE credits op) ->
  handle_command_response is_status event credits op s = Some s' ->
  serves [] s s' /\ queue_ok s' /\ (hci_timeout_alarm_ (impl_ s) <> None -> prompt s') /\
  (hci_timeout_alarm_ (impl_ s') = None <-> hci_timeout_alarm_ (impl_ s) = None).
Proof.
  intros [F W] P E. unfold HciLayer.handle_command_response.
  set (i := set_waiting _ credits _). set (s1 := set_impl i s).
  assert (Q1 : queue_ok s1) by done.
  assert (S1 : serves [] s s1) by (apply (serves_quiet []); by rewrite ?app_nil_r).
  destruct (Z.eqb_spec op NONE) as [->|Nop].
  { intros H. apply send_next_ok in H as (S2 & Q2 & P2 & A2); [|done]. by split_and!. }
  cbn [i set_waiting command_queue_ waiting_command_ command_credits_].
  destruct (command_queue_ (impl_ s)) as [|e rest] eqn:C; [done|].
  destruct (_ && _) eqn:D.
  { intros [= <-]. split_and!; try done. intros _ _. left. cbn. intros N. rewrite N in D. done. }
  destruct (Z.eqb_spec (waiting_command_ (impl_ s)) op) as [Ew|]; cbn [negb]; [|done].
  intros H. apply bind_Some in H as (o & R & H).
  destruct (W ltac:(congruence)) as (e2 & rest2 & [= <- <-] & G). rewrite Ew in G.
  destruct (respond_answers _ _ _ _ _ _ R E G) as (r & -> & An).
  set (i2 := set_waiting NONE credits (set_queue rest i)) in *.
  assert (K : forall a, let s2 := set_impl (set_alarms a (hci_abort_alarm_ i2) i2)
      (output [Respond (callback e) r] s1) in serves [] s s2 /\ queue_ok s2).
  { intros a s2. split.
    - exists [to_request e], [Respond (callback e) r]. unfold outstanding, pending. cbn.
      rewrite C. destruct (Z.eqb_spec (waiting_command_ (impl_ s)) NONE); [congruence|].
      split_and!; try done; try (constructor; [exact An|constructor]).
      by rewrite app_nil_r.
    - split; [by inversion_clear F|done]. }
  assert (A2 : hci_timeout_alarm_ i2 = hci_timeout_alarm_ (impl_ s)) by done.
  destruct (hci_timeout_alarm_ i2) eqn:A.
  - destruct (K (Some None)) as [S2 Q2]. apply send_next_ok in H as (S3 & Q3 & P3 & A3); [|done].
    split_and!; try done; [by eapply (serves_trans [] [])|]. rewrite A3, <- A2. done.
  - injection H as <-. destruct (K None) as [S2 Q2]. rewrite <- A2.
    assert (i2 = set_alarms None (hci_abort_alarm_ i2) i2) as Ei
      by (unfold set_alarms; rewrite <- A; by destruct i2).
    rewrite <- Ei in S2, Q2. by split_and!.
Qed.

(** ** Steps *)

(** The alarm of the timeout exists: no command has timed out. *)
Definition live (s : HciLayer) : Prop := hci_timeout_alarm_ (impl_ s) <> None.

(** The tasks only enqueue commands with an operation code, and no event reports a
    root inflammation, after which the process aborts. *)
Definition proper (t : Task) : Prop :=
  match t with
  | Tenqueue_command e => has_code e
  | Ton_hci_event (VENDOR_SPECIFIC _ (Some _)) => False
  | _ => True
  end.

Definition layer_ok (s : HciLayer) : Prop :=
  queue_ok s /\ prompt s /\ live s /\ Forall proper (posted s).

Definition enqueued_task (t : Task) : list request :=
  match t with Tenqueue_command e => [to_request e] | _ => [] end.

(** A step that neither sends nor answers. *)
Lemma quiet_ok o s s' : layer_ok s ->
  command_queue_ (impl_ s') = command_queue_ (impl_ s) ->
  waiting_command_ (impl_ s') = waiting_command_ (impl_ s) ->
  command_credits_ (impl_ s') = command_credits_ (impl_ s) ->
  hci_timeout_alarm_ (impl_ s') = hci_timeout_alarm_ (impl_ s) ->
  outputs s' = outputs s ++ o -> sent o = [] -> responses o = [] -> posted s' = posted s ->
  serves [] s s' /\ layer_ok s'.
Proof.
  intros (Q & P & L & F) C W K A O S R T. split.
  - apply (serves_quiet o); try done; unfold outstanding, pending; by rewrite ?C, ?W.
  - unfold layer_ok, queue_ok, prompt, live in *. by rewrite C, W, K, A, T.
Qed.

Ltac quiet o := apply (quiet_ok o); try done; by rewrite ?app_nil_r.

Lemma run_task_ok t s s' : layer_ok s -> proper t -> run_task t s = Some s' ->
  serves (enqueued_task t) s s' /\ layer_ok s'.
Proof.
  intros I Ht. pose proof I as (Q & P & L & F).
  assert (fin : forall n s', serves n s s' -> queue_ok s' -> prompt s' ->
    (hci_timeout_alarm_ (impl_ s') = None <-> hci_timeout_alarm_ (impl_ s) = None) ->
    serves n s s' /\ layer_ok s').
  { intros n s2 S2 Q2 P2 A2. split; [done|]. split_and!; try done; [unfold live in *; by rewrite A2|].
    by destruct S2 as (d & o & _ & _ & _ & _ & ->). }
  destruct t; cbn; intros H.
  - apply enqueue_ok in H as (S2 & Q2 & P2 & A2); [|done..]. by apply fin.
  - unfold register_event in H. repeat case_match; simplify_eq; quiet (@nil Output).
  - injection H as <-. quiet (@nil Output).
  - unfold register_le_event in H. repeat case_match; simplify_eq; quiet (@nil Output).
  - injection H as <-. quiet (@nil Output).
  - unfold register_vs_event in H. repeat case_match; simplify_eq; quiet (@nil Output).
  - injection H as <-. quiet (@nil Output).
  - injection H as <-. quiet (@nil Output).
  - injection H as <-. quiet (@nil Output).
  - unfold HciLayer.on_hci_event in H. destruct (negb _); [done|]. destruct event; [..|done].
    + apply handle_response_ok in H as (S2 & Q2 & P2 & A2); [|done..]. by apply fin; auto.
    + apply handle_response_ok in H as (S2 & Q2 & P2 & A2); [|done|done|by eexists]. by apply fin; auto.
    + injection H as <-. unfold on_le_meta_event. case_match; [|quiet (@nil Output)].
      by eapply quiet_ok.
    + unfold on_hardware_error in H. destruct floss; [|done]. injection H as <-. by eapply quiet_ok.
    + assert ((if subevent =? BQR_EVENT then root_inflammation else None) = None) as E
        by (destruct root_inflammation; [done|by destruct (subevent =? BQR_EVENT)]).
      rewrite E in H. injection H as <-. unfold on_vs_event.
      destruct (vs_event_handlers_ (impl_ s) !! subevent); [by eapply quiet_ok|].
      destruct (vs_event_default_handler_ (impl_ s)); [by eapply quiet_ok|quiet (@nil Output)].
    + case_match; injection H as <-; [by eapply quiet_ok|quiet (@nil Output)].
Qed.

(** The steps of a run only post proper tasks. *)
Definition proper_step (e : Step) : Prop := match e with SPost t => proper t | SRun => True end.

Lemma step_ok e s s' : layer_ok s -> proper_step e -> step e s = Some s' ->
  layer_ok s' /\ exists d o, pending s ++ map to_request (enqueued_by e s) = d ++ pending s' /\
    outputs s' = outputs s ++ o /\ Forall2 answers d (responses o) /\
    outstanding s ++ sent o = map bytes_of d ++ outstanding s'.
Proof.
  intros I He. pose proof I as (Q & P & L & F). destruct e as [t|]; cbn [step].
  - intros [= <-]. split.
    + split_and!; try done. cbn. apply Forall_app. by repeat constructor.
    + exists [], []. cbn. rewrite !app_nil_r. by split_and!.
  - destruct (posted s) as [|t rest] eqn:E.
    + intros [= <-]. split; [done|]. exists [], []. unfold enqueued_by. rewrite E. cbn.
      rewrite !app_nil_r. by split_and!.
    + inversion_clear F as [|? ? Ht Fr]. intros H.
      assert (I' : layer_ok (set_posted rest s)) by (by split_and!).
      apply run_task_ok in H as ((d & o & H1 & H2 & H3 & H4 & H5) & I2); [|done..].
      split; [done|]. exists d, o. unfold enqueued_by. rewrite E.
      split_and!; try done. by destruct t.
Qed.

Lemma layer_run_ok es : forall s s', layer_ok s -> Forall proper_step es -> run es s = Some s' ->
  layer_ok s' /\ exists d o, pending s ++ map to_request (enqueued es s) = d ++ pending s' /\
    outputs s' = outputs s ++ o /\ Forall2 answers d (responses o) /\
    outstanding s ++ sent o = map bytes_of d ++ outstanding s'.
Proof.
  induction es as [|e es IH]; intros s s' I F; cbn [run enqueued].
  { intros [= <-]. split; [done|]. exists [], []. cbn. rewrite !app_nil_r. by split_and!. }
  inversion_clear F as [|? ? He Fe]. intros H. apply bind_Some in H as (s1 & H1 & H2).
  destruct (step_ok _ _ _ I He H1) as (I1 & d1 & o1 & P1 & O1 & A1 & S1).
  destruct (IH _ _ I1 Fe H2) as (I2 & d2 & o2 & P2 & O2 & A2 & S2).
  split; [done|]. exists (d1 ++ d2), (o1 ++ o2). rewrite H1. split_and!.
  - by rewrite map_app, app_assoc, P1, <- app_assoc, P2, app_assoc.
  - by rewrite O2, O1, app_assoc.
  - rewrite responses_app. by apply Forall2_app.
  - by rewrite hci_sent_app, app_assoc, S1, <- app_assoc, S2, map_app, app_assoc.
Qed.

(** C11: until a command times out, the commands enqueued are those answered so far
    followed by those pending; the callbacks are run in the order of their commands,
    once each, with a response of their kind that carries the operation code of
    their command; the commands sent are the ones answered and, when the layer
    waits, the oldest pending one: never two at a time.  And when a command is
    pending, one is with the controller or the controller allows none. *)
Theorem hci_commands_in_order (es : list Step) (s s' : HciLayer) :
  layer_ok s -> pending s = [] -> outputs s = [] -> Forall proper_step es -> run es s = Some s' ->
  (exists d, map to_request (enqueued es s) = d ++ pending s' /\
     Forall2 answers d (responses (outputs s')) /\
     sent (outputs s') = map bytes_of d ++ outstanding s') /\
  (pending s' <> [] -> outstanding s' <> [] \/ command_credits_ (impl_ s') = 0).
Proof.
  intros I P O F H. destruct (layer_run_ok es s s' I F H) as ((Q & Pr & _) & d & o & E1 & E2 & E3 & E4).
  rewrite P in E1. rewrite O in E2. cbn in E1, E2. rewrite E2. split.
  - exists d. split_and!; try done. rewrite <- E4. unfold outstanding. rewrite P. by case_match.
  - intros N. destruct Pr as [W|W]; [intros E; by rewrite (eq_refl : pending s' = map _ _), E in N|left|by right].
    destruct Q as [_ Q]. destruct (Q W) as (e & rest & E & _). unfold outstanding, pending.
    rewrite E. by destruct (Z.eqb_spec (waiting_command_ (impl_ s')) NONE).
Qed.

(** ** Failures *)

(** The commands can be parsed. *)
Definition parsable (l : list CommandQueueEntry) : Prop :=
  Forall (fun e => is_Some (GetOpCode (command e))) l.

Lemma send_next_some s : parsable (command_queue_ (impl_ s)) -> is_Some (send_next_command s).
Proof.
  intros F. unfold HciLayer.send_next_command. destruct (_ =? 0); [done|]. destruct (negb _); [done|].
  destruct F as [|e rest [op G] _]; [done|]. cbn zeta. rewrite G. done.
Qed.

(** A response the command at the front of the queue does not wait for. *)
Definition unwanted (e : CommandQueueEntry) (event : EventView) : bool :=
  match event, waiting_for_ e with
  | _, STATUS_OR_COMPLETE => false
  | COMMAND_COMPLETE _ _, COMPLETE => false
  | COMMAND_STATUS _ _ _, STATUS => false
  | COMMAND_STATUS x _ op, COMPLETE => negb (is_vendor_specific op && (x =? UNKNOWN_HCI_COMMAND))
  | _, _ => true
  end.

(** A response nothing waits for: no command is pending, or the operation code is
    not that of the command with the controller (unless the layer waits for the
    debug information it asks for after a timeout), or the kind is wrong. *)
Definition unexpected (event : EventView) (op : Z) (s : HciLayer) : bool :=
  negb (op =? NONE) &&
  match command_queue_ (impl_ s) with
  | [] => true
  | e :: _ =>
      negb ((waiting_command_ (impl_ s) =? CONTROLLER_DEBUG_INFO) &&
            negb (op =? CONTROLLER_DEBUG_INFO)) &&
      (negb (waiting_command_ (impl_ s) =? op) || unwanted e event)
  end.

Definition aborts (t : Task) (s : HciLayer) : bool :=
  match t with
  | Tregister_event e _ =>
      (e =? LE_META_EVENT) ||
      (negb ((e =? CONNECTION_REQUEST) &&
             negb (bool_decide (is_Some (on_acl_connection_request_ s)))) &&
       bool_decide (is_Some (event_handlers_ (impl_ s) !! e)))
  | Tregister_le_event e _ => bool_decide (is_Some (le_event_handlers_ (impl_ s) !! e))
  | Tregister_vs_event e _ => bool_decide (is_Some (vs_event_handlers_ (impl_ s) !! e))
  | Ton_hci_event ((COMMAND_COMPLETE _ op | COMMAND_STATUS _ _ op) as event) => unexpected event op s
  | Ton_hci_event (HARDWARE_ERROR _) => negb floss
  | Ton_hci_event INVALID_EVENT => true
  | _ => false
  end.

Lemma respond_none e (is_status : bool) event credits op :
  (if is_status then exists x, event = COMMAND_STATUS x credits op
   else event = COMMAND_COMPLETE credits op) ->
  respond e is_status event credits op = None <-> unwanted e event = true.
Proof.
  unfold respond, unwanted. destruct is_status; [intros [x ->]|intros ->];
    destruct (waiting_for_ e); cbn; rewrite ?andb_false_r; cbn;
    try (by destruct (is_vendor_specific op)); try done.
  by destruct (is_vendor_specific op), (x =? UNKNOWN_HCI_COMMAND).
Qed.

Lemma is_Some_None {A} (o : option A) : is_Some o -> o = None <-> false = true.
Proof. by intros [x ->]. Qed.

Lemma response_aborts (is_status : bool) event credits op s :
  (if is_status then exists x, event = COMMAND_STATUS x credits op
   else event = COMMAND_COMPLETE credits op) ->
  parsable (command_queue_ (impl_ s)) ->
  handle_command_response is_status event credits op s = None <-> unexpected event op s = true.
Proof.
  intros E F. unfold HciLayer.handle_command_response, unexpected.
  destruct (Z.eqb_spec op NONE); cbn [negb andb].
  { by apply is_Some_None, send_next_some. }
  cbn [set_waiting command_queue_ waiting_command_ command_credits_ hci_timeout_alarm_].
  destruct (command_queue_ (impl_ s)) as [|e rest] eqn:C; [done|].
  destruct (_ && _); cbn [negb andb]; [done|].
  destruct (waiting_command_ (impl_ s) =? op); cbn [negb orb]; [|done].
  rewrite <- (respond_none e _ _ credits op E).
  destruct (respond e is_status event credits op); cbn; [|done].
  inversion_clear F as [|? ? _ Fr]. destruct (hci_timeout_alarm_ (impl_ s)); [|done].
  rewrite is_Some_None by (by apply send_next_some). done.
Qed.

Lemma send_next_outputs s s' : send_next_command s = Some s' ->
  exists o, outputs s' = outputs s ++ o /\ responses o = [] /\
    life_cycle_stopped s' = life_cycle_stopped s.
Proof.
  unfold HciLayer.send_next_command. intros H. repeat case_match; simplify_eq;
    try (exists []; by rewrite app_nil_r).
  apply bind_Some in H as (op & _ & [= <-]). by exists [sendHciCommand (command c)].
Qed.

(** The complete event of the command with the controller runs its callback. *)
Lemma complete_answers n op e rest s :
  command_queue_ (impl_ s) = e :: rest -> waiting_command_ (impl_ s) = op -> op <> NONE ->
  waiting_for_ e <> STATUS -> parsable (command_queue_ (impl_ s)) ->
  exists s' o r, on_hci_event (COMMAND_COMPLETE n op) s = Some s' /\
    outputs s' = outputs s ++ o /\ responses o = [(callback e, r)] /\
    life_cycle_stopped s' = life_cycle_stopped s.
Proof.
  intros C W N K F. unfold HciLayer.on_hci_event, expected. rewrite C. cbn [negb].
  unfold on_command_complete, HciLayer.handle_command_response.
  destruct (Z.eqb_spec op NONE); [done|]. cbn [set_waiting command_queue_ waiting_command_
    command_credits_ hci_timeout_alarm_ set_queue]. rewrite C, W, andb_negb_r, Z.eqb_refl. cbn [negb].
  assert (exists r, respond e false (COMMAND_COMPLETE n op) n op = Some (Respond (callback e) r)) as [r ->].
  { unfold respond. destruct (waiting_for_ e); [done|..]; cbn; rewrite ?andb_false_r; cbn; by eexists. }
  cbn [mbind option_bind]. rewrite C in F. inversion_clear F as [|? ? _ Fr].
  destruct (hci_timeout_alarm_ (impl_ s)).
  - match goal with |- context [send_next_command ?x] => set (s1 := x) end.
    destruct (send_next_some s1 Fr) as [s' H]. destruct (send_next_outputs _ _ H) as (o' & O & R & A).
    exists s', ([Respond (callback e) r] ++ o'), r. split; [done|].
    rewrite O, responses_app, R, A. cbn. by rewrite <- app_assoc.
  - by eexists _, [Respond (callback e) r], r.
Qed.

(** C25: a task fails an assertion exactly when an event is not valid or reports a
    hardware error (and the layer is not built for Floss), when a response does not
    answer the command with the controller, or when a second handler is registered
    for an event. *)
Theorem hci_layer_aborts_iff (t : Task) (s : HciLayer) :
  parsable (command_queue_ (impl_ s)) ->
  (forall e, t = Tenqueue_command e -> is_Some (GetOpCode (command e))) ->
  run_task t s = None <-> aborts t s = true.
Proof.
  intros F Ht. destruct t; cbn; try done.
  - apply is_Some_None, send_next_some, Forall_app. split; [done|]. repeat constructor. by apply Ht.
  - unfold register_event. destruct (event =? LE_META_EVENT); cbn; [done|].
    destruct ((event =? CONNECTION_REQUEST) && _); cbn.
    + by rewrite lookup_delete_eq.
    + by destruct (event_handlers_ (impl_ s) !! event).
  - unfold register_le_event. by destruct (le_event_handlers_ (impl_ s) !! event).
  - unfold register_vs_event. by destruct (vs_event_handlers_ (impl_ s) !! event).
  - unfold HciLayer.on_hci_event, expected. destruct event; cbn; try done.
    + rewrite <- (response_aborts false _ num_hci_command_packets) by done.
      unfold on_command_complete, HciLayer.handle_command_response. cbn.
      destruct (command_queue_ (impl_ s)), (op_code =? NONE); cbn; done.
    + rewrite <- (response_aborts true _ num_hci_command_packets) by (by eexists || done).
      unfold on_command_status, HciLayer.handle_command_response. cbn.
      destruct (command_queue_ (impl_ s)), (op_code =? NONE); cbn; done.
    + by destruct (command_queue_ (impl_ s)).
    + unfold on_hardware_error. by destruct (command_queue_ (impl_ s)), floss.
    + destruct (command_queue_ (impl_ s)), (subevent =? BQR_EVENT), root_inflammation; done.
    + destruct (command_queue_ (impl_ s)), (event_handlers_ (impl_ s) !! event_code); done.
    + by destruct (command_queue_ (impl_ s)).
Qed.










End spec.

(** ** The life cycle *)

Lemma post_alive_stopped t s : life_cycle_stopped s = true -> post_alive t s = s.
Proof. unfold post_alive. by intros ->. Qed.

Lemma unregister_events_stopped l s : life_cycle_stopped s = true -> unregister_events l s = s.
Proof.
  intros H. induction l as [|e l IH]; [done|]. cbn. unfold UnregisterEventHandler.
  by rewrite post_alive_stopped.
Qed.

(** A stopped layer takes no event of the controller and no command whose callback
    is for a status or for a complete event; but it takes a command whose callback is
    for either, and a default handler for vendor specific events.  The destructor
    stops the layer before it unregisters its own handlers, so that none of them is
    unregistered. *)
Theorem hci_stopped_layer s0 bytes cb event :
  let s := LifeCycleStop s0 in
  hciEventReceived event s = s /\ EnqueueCommand bytes STATUS cb s = s /\
  EnqueueCommand bytes COMPLETE cb s = s /\
  posted (EnqueueCommand bytes STATUS_OR_COMPLETE cb s) <> posted s /\
  posted (RegisterDefaultVendorSpecificEventHandler cb s) <> posted s /\
  posted (UnregisterDefaultVendorSpecificEventHandler s) <> posted s /\
  (forall flag, destroy flag s0 = s).
Proof.
  assert (N : forall t (l : list Task), l ++ [t] <> l).
  { intros t l E. apply (f_equal length) in E. rewrite length_app in E. cbn in E. lia. }
  intros s. unfold hciEventReceived, EnqueueCommand. rewrite !post_alive_stopped by done.
  split_and!; try done; try apply N.
  intros [|]; [|done]. unfold destroy, StopWithNoHalDependencies. by rewrite unregister_events_stopped.
Qed.

(** ** Concrete instances *)

(** The operation code is in the first two bytes of a command, least significant
    first. *)
Definition parse_op_code (bytes : list Z) : option Z :=
  match bytes with
  | lo :: hi :: _ => Some (lo + 256 * hi)
  | _ => None
  end.

Definition reset_bytes : list Z := [0x03; 0x0C; 0x00].
Definition fresh_layer : HciLayer := new_layer reset_bytes.

Lemma fresh_layer_ok : layer_ok parse_op_code fresh_layer.
Proof.
  split; [split; [apply Forall_nil_2|intros N; by destruct N]|]. split; [intros N; by destruct N|].
  split; [discriminate|].
  cbn. repeat constructor. discriminate.
Qed.

(** The layer starts, resets the controller, and sends a command for either kind of
    response. *)
Definition sample_run : list Step :=
  [SRun; SRun; SRun; SRun; SRun; SRun;
   SPost (Ton_hci_event (COMMAND_COMPLETE 1 0x0C03)); SRun;
   SPost (Tenqueue_command {| command := [0x06; 0x20]; command_view := None;
                              waiting_for_ := STATUS_OR_COMPLETE; callback := 7 |}); SRun;
   SPost (Tenqueue_command {| command := [0x0D; 0x20]; command_view := None;
                              waiting_for_ := STATUS; callback := 8 |}); SRun;
   SPost (Ton_hci_event (COMMAND_COMPLETE 0 0x2006)); SRun;
   SPost (Ton_hci_event (COMMAND_COMPLETE 1 NONE)); SRun].

Definition sample_end : HciLayer := default fresh_layer (run parse_op_code false sample_run fresh_layer).

Lemma hci_commands_in_order_witness :
  exists d, map to_request (enqueued parse_op_code false sample_run fresh_layer) =
      d ++ pending sample_end /\
    sent (outputs sample_end) = map bytes_of d ++ outstanding sample_end /\
    sent (outputs sample_end) = [reset_bytes; [0x06; 0x20]; [0x0D; 0x20]].
Proof.
  destruct (hci_commands_in_order parse_op_code false sample_run fresh_layer sample_end)
    as [(d & H1 & _ & H3) _].
  - exact fresh_layer_ok.
  - reflexivity.
  - reflexivity.
  - repeat constructor; discriminate.
  - vm_compute. reflexivity.
  - exists d. split; [exact H1|]. split; [exact H3|vm_compute; reflexivity].
Defined.

Lemma hci_layer_aborts_iff_witness :
  run_task parse_op_code false (Ton_hci_event (COMMAND_COMPLETE 1 0x0C03)) fresh_layer = None.
Proof.
  apply (hci_layer_aborts_iff parse_op_code false (Ton_hci_event (COMMAND_COMPLETE 1 0x0C03))
    fresh_layer).
  - constructor.
  - discriminate.
  - vm_compute. reflexivity.
Defined.


(** ** The interfaces *)

(** Every interface is taken. *)
Definition all_interfaces (s : HciLayer) : HciLayer :=
  let s := GetAclConnectionInterface 1 2 3 4 s in
  let s := GetLeAclConnectionInterface 5 6 7 s in
  let s := GetSecurityInterface 8 s in
  let s := GetLeSecurityInterface 9 s in
  let s := GetLeAdvertisingInterface 10 s in
  let s := GetLeScanningInterface 11 s in
  let s := GetLeIsoInterface 12 s in
  let s := GetDistanceMeasurementInterface 13 s in
  GetInquiryInterface 14 s.

Definition release_interfaces (s : HciLayer) : HciLayer :=
  let s := PutAclConnectionInterface s in
  let s := PutLeAclConnectionInterface s in
  let s := ReleaseLeAdvertisingInterface s in
  let s := ReleaseLeScanningInterface s in
  let s := ReleaseDistanceMeasurementInterface s in
  ReleaseInquiryInterface s.

(** The handler runs until no task is left. *)
Fixpoint drain (fuel : nat) (s : HciLayer) : option HciLayer :=
  match fuel, posted s with
  | _, [] => Some s
  | O, _ => None
  | S fuel, _ => s ← step parse_op_code false SRun s; drain fuel s
  end.

Definition taken : HciLayer := default fresh_layer (drain 100 (all_interfaces fresh_layer)).

(** The sets of events of the interfaces are disjoint from one another and from
    the events of the layer itself: a new layer on which every interface is taken
    registers them all, each event with the handler of its interface, and after the
    interfaces are released they can be taken again. *)
Theorem interfaces_disjoint :
  exists s, drain 100 (all_interfaces fresh_layer) = Some s /\
    (forall e, In e AclConnectionEvents -> event_handlers_ (impl_ s) !! e = Some 1) /\
    (forall e, In e SecurityEvents -> event_handlers_ (impl_ s) !! e = Some 8) /\
    (forall e, In e InquiryEvents -> event_handlers_ (impl_ s) !! e = Some 14) /\
    (forall e, In e LeConnectionManagementEvents -> le_event_handlers_ (impl_ s) !! e = Some 5) /\
    (forall e, In e LeSecurityEvents -> le_event_handlers_ (impl_ s) !! e = Some 9) /\
    (forall e, In e LeAdvertisingEvents -> le_event_handlers_ (impl_ s) !! e = Some 10) /\
    (forall e, In e LeScanningEvents -> le_event_handlers_ (impl_ s) !! e = Some 11) /\
    (forall e, In e LeIsoEvents -> le_event_handlers_ (impl_ s) !! e = Some 12) /\
    (forall e, In e DistanceMeasurementEvents -> le_event_handlers_ (impl_ s) !! e = Some 13) /\
    is_Some (drain 100 (GetLeScanningInterface 11 (GetAclConnectionInterface 1 2 3 4
      (GetLeAclConnectionInterface 5 6 7 (GetLeAdvertisingInterface 10
        (GetDistanceMeasurementInterface 13 (GetInquiryInterface 14 (release_interfaces s)))))))).
Proof.
  exists taken. split.
  { assert (is_Some (drain 100 (all_interfaces fresh_layer))) as [s E] by by_decide.
    unfold taken. by rewrite E. }
  assert (K : forall (m : gmap Z Z) l h, Forall (fun e => m !! e = Some h) l ->
    forall e, In e l -> m !! e = Some h) by (intros m l h F; by apply List.Forall_forall).
  repeat (split; [apply K; by_decide|]). by_decide.
Qed.
