(* ===== verification/AddressManagerOverHci.v ===== *)
(** * The LE address manager over the HCI layer

    [le_impl::enqueue_command] ([src/system/gd/hci/acl_manager/le_impl.h]) sends the
    commands of the address manager through [HciLayer::EnqueueCommand], with
    [LeAddressManager::OnCommandComplete] as the callback.  The two models run
    together here with a controller that answers the command it has: every step of
    the pair is a step of the world of [LeAddressManagerSpec.v], in which commands
    complete in the order they were sent, or no step of it, and neither component
    aborts.

    The bytes of a command are made by generated code: [serialize] is a parameter,
    and so is the operation code of the bytes, as in [HciLayer.v]. *)

From stdpp Require Import base list option gmap.
From Stdlib Require Import ZArith Lia.
From S2P Require Import Prelude AddressWithType LeAddressManager LeAddressManagerSpec.
From S2P Require Import LeAddressManagerProgress HciLayer HciLayerSpec.

Open Scope Z_scope.

(** The operation codes of the commands (hci_packets.pdl). *)
Definition op_code (c : CommandBuilder) : Z :=
  match c with
  | LeSetRandomAddress _ => 0x2005
  | LeSetResolvablePrivateAddressTimeoutV2 _ _ => 0x209E
  | LeAddDeviceToFilterAcceptList _ _ => 0x2011
  | LeRemoveDeviceFromFilterAcceptList _ _ => 0x2012
  | LeClearFilterAcceptList => 0x2010
  | LeAddDeviceToResolvingList _ _ _ _ => 0x2027
  | LeRemoveDeviceFromResolvingList _ _ => 0x2028
  | LeClearResolvingList => 0x2029
  | LeSetPrivacyMode _ _ => 0x204E
  | LeSetAddressResolutionEnable _ => 0x202D
  end.

(** [OnCommandComplete] switches on the operation code: any command with the same
    one stands for it. *)
Definition command_with (op : Z) : CommandBuilder :=
  if op =? 0x2005 then LeSetRandomAddress [] else LeClearFilterAcceptList.

Section pair.
Context (RAND_bytes : nat -> Z) (fuel : nat) (public_address_ : Address).
Context (IsRpaGenerationSupported nrpa_non_connectable_adv floss : bool).
Context (serialize : CommandBuilder -> list Z) (GetOpCode : list Z -> option Z).

Abbreviation manager_step := (LeAddressManagerSpec.step RAND_bytes fuel public_address_
  IsRpaGenerationSupported nrpa_non_connectable_adv).
Abbreviation manager_run := (LeAddressManagerSpec.run RAND_bytes fuel public_address_
  IsRpaGenerationSupported nrpa_non_connectable_adv).
Abbreviation hci_step := (HciLayerSpec.step GetOpCode floss).
Abbreviation inv := (inv IsRpaGenerationSupported).

(** The number of the callback [OnCommandComplete]. *)
Definition on_complete : Z := 100.

(** [le_impl::enqueue_command]. *)
Definition enqueue_command (h : HciLayer) (c : CommandBuilder) : HciLayer :=
  EnqueueCommand (serialize c) COMPLETE on_complete h.

Record Pair := {
  address_manager : LeAddressManager;
  client_acks : list (LeAddressManagerCallback * Ack);
  layer : HciLayer;
  at_controller : list (list Z);     (* sent and not answered *)
  completed : list Z;                (* callbacks posted and not run, by operation code *)
}.

Inductive PairEvent :=
| PManager (e : Event)               (* anything but a completion *)
| PRunLayer                          (* the handler of the layer runs a task *)
| PAnswer (credits : Z)              (* the controller answers the oldest command *)
| PComplete (success : bool).        (* the oldest posted callback runs *)

Definition pair_step (e : PairEvent) (p : Pair) : option Pair :=
  match e with
  | PManager (EComplete _) => Some p
  | PManager e =>
      w ← manager_step e {| manager := address_manager p; owed := client_acks p; in_flight := [] |};
      Some {| address_manager := manager w; client_acks := owed w;
              layer := fold_left enqueue_command (in_flight w) (layer p);
              at_controller := at_controller p; completed := completed p |}
  | PRunLayer =>
      h ← hci_step SRun (set_outputs [] (layer p));
      Some {| address_manager := address_manager p; client_acks := client_acks p; layer := h;
              at_controller := at_controller p ++ sent (outputs h);
              completed := completed p ++ omap (op_code_of ∘ snd) (responses (outputs h)) |}
  | PAnswer credits =>
      match at_controller p with
      | [] => Some p
      | bytes :: rest =>
          op ← GetOpCode bytes;
          Some {| address_manager := address_manager p; client_acks := client_acks p;
                  layer := hciEventReceived (COMMAND_COMPLETE credits op) (layer p);
                  at_controller := rest; completed := completed p |}
      end
  | PComplete success =>
      match completed p with
      | [] => Some p
      | op :: rest =>
          Some {| address_manager := OnCommandComplete (command_with op) success
                    (LeAddressManager.set_outputs [] (address_manager p));
                  client_acks := client_acks p; layer := layer p;
                  at_controller := at_controller p; completed := rest |}
      end
  end.

Fixpoint pair_run (es : list PairEvent) (p : Pair) : option Pair :=
  match es with
  | [] => Some p
  | e :: es => p ← pair_step e p; pair_run es p
  end.

(** ** The simulation *)

Hypothesis GetOpCode_serialize : forall c, GetOpCode (serialize c) = Some (op_code c).

(** The request for a command. *)
Definition request_of (c : CommandBuilder) : request := (serialize c, COMPLETE, on_complete).

(** The commands and the answers among the tasks of the layer, which has no others. *)
Definition task_ok (t : HciLayer.Task) : Prop :=
  match t with
  | HciLayer.Tenqueue_command e => exists c, to_request e = request_of c
  | Ton_hci_event (COMMAND_COMPLETE _ op) => op <> NONE
  | _ => False
  end.
Definition enqueues (t : HciLayer.Task) : list request :=
  match t with HciLayer.Tenqueue_command e => [to_request e] | _ => [] end.
Definition replies (t : HciLayer.Task) : list (option Z) :=
  match t with Ton_hci_event (COMMAND_COMPLETE _ op) => [Some op] | _ => [] end.

(** The commands in flight: posted callbacks, commands of the layer, posted commands;
    and the controller has the outstanding command or has answered it. *)
Record linked (p : Pair) (commands : list CommandBuilder) : Prop := {
  linked_layer : layer_ok GetOpCode (layer p);
  linked_alive : life_cycle_stopped (layer p) = false;
  linked_tasks : Forall task_ok (HciLayer.posted (layer p));
  linked_commands : exists l1 l2, commands = l1 ++ l2 /\ map op_code l1 = completed p /\
    map request_of l2 = pending (layer p) ++ (HciLayer.posted (layer p) ≫= enqueues);
  linked_controller : (HciLayer.posted (layer p) ≫= replies) ++ map GetOpCode (at_controller p) =
    map GetOpCode (outstanding (layer p));
}.

Definition world_of (p : Pair) (commands : list CommandBuilder) : World :=
  {| manager := address_manager p; owed := client_acks p; in_flight := commands |}.

Lemma command_with_op c : is_set_random_address (command_with (op_code c)) = is_set_random_address c.
Proof. by destruct c. Qed.

Lemma OnCommandComplete_op c d success s : is_set_random_address c = is_set_random_address d ->
  OnCommandComplete c success s = OnCommandComplete d success s.
Proof. intros E. unfold OnCommandComplete. by rewrite E. Qed.

(** A step of the manager does not depend on what is in flight. *)
Lemma manager_step_frame e m o commands w :
  (forall b, e <> EComplete b) ->
  manager_step e {| manager := m; owed := o; in_flight := [] |} = Some w ->
  manager_step e {| manager := m; owed := o; in_flight := commands |} =
    Some {| manager := manager w; owed := owed w; in_flight := commands ++ in_flight w |}.
Proof.
  intros N. destruct e; cbn [LeAddressManagerSpec.step manager owed in_flight];
    try (intros H; apply bind_Some in H as (s & -> & [= <-]); reflexivity).
  - destruct (take_ack c o) as [[[] rest]|]; intros [= <-]; cbn; by rewrite app_nil_r.
  - by destruct (N success).
Qed.

Lemma manager_step_unframe e m o commands w :
  (forall b, e <> EComplete b) ->
  manager_step e {| manager := m; owed := o; in_flight := commands |} = Some w ->
  exists w0, manager_step e {| manager := m; owed := o; in_flight := [] |} = Some w0.
Proof.
  intros N. destruct e; cbn [LeAddressManagerSpec.step manager owed in_flight];
    try (intros H; apply bind_Some in H as (s & -> & _); by eexists).
  - destruct (take_ack c o) as [[[] rest]|]; by eexists.
  - by destruct (N success).
Qed.

Lemma enqueue_linked l : forall p commands, linked p commands ->
  linked {| address_manager := address_manager p; client_acks := client_acks p;
            layer := fold_left enqueue_command l (layer p); at_controller := at_controller p;
            completed := completed p |} (commands ++ l).
Proof.
  induction l as [|c l IH]; intros p commands [I A T C R].
  { rewrite app_nil_r. by split. }
  cbn [fold_left].
  set (p' := {| address_manager := address_manager p; client_acks := client_acks p;
    layer := enqueue_command (layer p) c; at_controller := at_controller p; completed := completed p |}).
  change (c :: l) with ([c] ++ l). rewrite (app_assoc commands [c] l). apply (IH p').
  assert (E : enqueue_command (layer p) c = HciLayer.post (HciLayer.Tenqueue_command
    {| command := serialize c; command_view := None; waiting_for_ := COMPLETE;
       callback := on_complete |}) (layer p)).
  { unfold enqueue_command, EnqueueCommand, post_alive. by rewrite A. }
  unfold p'. rewrite E. split; cbn.
  - destruct I as (Q & P & L & F). split; [done|]. split; [done|]. split; [done|]. cbn.
    apply Forall_app. split; [done|]. repeat constructor. cbn. unfold has_code. cbn.
    rewrite GetOpCode_serialize. by destruct c.
  - done.
  - apply Forall_app. split; [done|]. repeat constructor. by exists c.
  - destruct C as (l1 & l2 & -> & C1 & C2). exists l1, (l2 ++ [c]). split; [by rewrite app_assoc|].
    split; [done|]. rewrite map_app, C2, bind_app, app_assoc. done.
  - rewrite bind_app. cbn. by rewrite app_nil_r.
Qed.

(** The commands of the layer are those of the manager. *)
Lemma linked_parsable p commands : linked p commands ->
  parsable GetOpCode (command_queue_ (impl_ (layer p))).
Proof.
  intros [_ _ _ (l1 & l2 & _ & _ & C) _]. unfold parsable, pending in *.
  assert (F : Forall (fun r => is_Some (GetOpCode (bytes_of r)))
    (map to_request (command_queue_ (impl_ (layer p))) ++ (HciLayer.posted (layer p) ≫= enqueues))).
  { rewrite <- C. clear C. induction l2 as [|c l IH]; cbn; constructor; [|done].
    cbn. rewrite GetOpCode_serialize. by eexists. }
  apply Forall_app in F as [F _]. clear C. induction (command_queue_ (impl_ (layer p))); constructor;
    inversion F; auto.
Qed.

(** The layer before it runs its oldest task. *)
Definition popped (p : Pair) (rest : list HciLayer.Task) : HciLayer :=
  HciLayer.set_posted rest (HciLayer.set_outputs [] (layer p)).

Lemma popped_ok p commands t rest : linked p commands -> HciLayer.posted (layer p) = t :: rest ->
  layer_ok GetOpCode (popped p rest) /\ task_ok t /\ Forall task_ok rest.
Proof.
  intros [(I1 & I2 & I3 & I4) _ T _ _] Q. rewrite Q in T, I4. inversion_clear T. inversion_clear I4.
  split; [|done]. split; [done|]. split; [done|]. by split.
Qed.

(** The pair after the task has left the layer in [h]. *)
Definition ran (p : Pair) (h : HciLayer) : Pair :=
  {| address_manager := address_manager p; client_acks := client_acks p; layer := h;
     at_controller := at_controller p ++ sent (HciLayer.outputs h);
     completed := completed p ++ omap (op_code_of ∘ snd) (responses (HciLayer.outputs h)) |}.

(** A command is enqueued, and may be sent. *)
Lemma enqueue_task_linked p commands entry rest : linked p commands ->
  HciLayer.posted (layer p) = HciLayer.Tenqueue_command entry :: rest ->
  exists h, HciLayer.run_task GetOpCode floss (HciLayer.Tenqueue_command entry) (popped p rest) = Some h /\
    linked (ran p h) commands.
Proof.
  intros K Q. pose proof K as [I A _ C R]. pose proof (linked_parsable _ _ K) as F.
  destruct (popped_ok _ _ _ _ K Q) as (I0 & Ht & Tr). set (h0 := popped p rest) in *.
  rewrite Q in C, R.
  destruct (send_next_some GetOpCode (set_impl (set_queue (command_queue_ (impl_ h0) ++ [entry])
    (impl_ h0)) h0)) as [s' H].
  { apply Forall_app. split; [done|]. destruct Ht as [c Ec]. repeat constructor. cbn.
    injection Ec as -> _ _. rewrite GetOpCode_serialize. by eexists. }
  cbn [HciLayer.run_task]. unfold HciLayer.enqueue_command at 1. rewrite H. cbn [mbind option_bind].
  eexists. split; [reflexivity|].
  destruct (send_next_outputs _ _ _ H) as (o & O & Ro & Al). cbn in O, Al.
  apply (run_task_ok GetOpCode floss (HciLayer.Tenqueue_command entry)) in H
    as ((d & o2 & S1 & S2 & S3 & S4 & S5) & I'); [|done|].
  2: { destruct Ht as [c Ec]. unfold proper, has_code. injection Ec as -> _ _.
       rewrite GetOpCode_serialize. by destruct c. }
  cbn in S2. rewrite O in S2. subst o2. rewrite Ro in S3. apply Forall2_nil_inv_r in S3 as ->.
  cbn in S1, S4, S5. split; cbn.
  - done.
  - congruence.
  - by rewrite S5.
  - destruct C as (l1 & l2 & -> & C1 & C2). exists l1, l2. split; [done|].
    rewrite O, Ro, app_nil_r. split; [done|]. rewrite C2, <- S1, S5. cbn. by rewrite <- app_assoc.
  - rewrite S5, O, map_app, app_assoc. cbn in R. rewrite R, <- map_app. by rewrite <- S4.
Qed.

(** The complete event answers the outstanding command. *)
Lemma answer_outstanding p commands n op rest : linked p commands ->
  HciLayer.posted (layer p) = Ton_hci_event (COMMAND_COMPLETE n op) :: rest ->
  (exists b, outstanding (layer p) = [b] /\ GetOpCode b = Some op) /\
  (rest ≫= replies) = [] /\ at_controller p = [] /\
  exists e l, command_queue_ (impl_ (layer p)) = e :: l /\
    waiting_command_ (impl_ (layer p)) = op /\ waiting_for_ e = COMPLETE.
Proof.
  intros [((_ & W) & _) _ _ C R] Q. rewrite Q in C, R.
  assert (exists b, outstanding (layer p) = [b] /\ GetOpCode b = Some op /\
    (rest ≫= replies) = [] /\ at_controller p = []) as (b & Ob & Gb & Er & Ea).
  { cbn in R. unfold outstanding in *. destruct (_ =? _); [done|].
    destruct (pending (layer p)) as [|q l]; [done|]. cbn in R. injection R as Eop R.
    apply app_eq_nil in R as [R1 R2]. apply map_eq_nil in R2. by exists (bytes_of q). }
  split; [by exists b|]. split; [done|]. split; [done|]. unfold outstanding in Ob.
  destruct (Z.eqb_spec (waiting_command_ (impl_ (layer p))) NONE) as [|N]; [done|].
  destruct (W N) as (e & l & Eq & G). unfold pending in Ob. rewrite Eq in Ob. injection Ob as <-.
  exists e, l. split; [done|]. split; [cbn in Gb; congruence|].
  destruct C as (l1 & [|c l2] & _ & _ & C2); unfold pending in C2; rewrite Eq in C2; [done|].
  by injection C2 as _ <-.
Qed.

(** The oldest command is answered, and the next one may be sent. *)
Lemma answer_task_linked p commands n op rest : linked p commands ->
  HciLayer.posted (layer p) = Ton_hci_event (COMMAND_COMPLETE n op) :: rest ->
  exists h, HciLayer.run_task GetOpCode floss (Ton_hci_event (COMMAND_COMPLETE n op)) (popped p rest) =
      Some h /\ linked (ran p h) commands.
Proof.
  intros K Q. pose proof K as [I A _ C R]. pose proof (linked_parsable _ _ K) as F.
  destruct (popped_ok _ _ _ _ K Q) as (I0 & Ht & Tr). set (h0 := popped p rest) in *.
  destruct (answer_outstanding _ _ _ _ _ K Q) as ((b & Ob & Gb) & Er & Ea & e & l & Eq & Ew & Ec).
  rewrite Q in C.
  destruct (complete_answers GetOpCode floss n op e l h0 Eq Ew Ht) as (s' & o & r & H & O & Ro & Al);
    [by rewrite Ec|done|].
  cbn [HciLayer.run_task]. rewrite H. cbn [mbind option_bind].
  eexists. split; [reflexivity|].
  apply (run_task_ok GetOpCode floss (Ton_hci_event (COMMAND_COMPLETE n op))) in H
    as ((d & o2 & S1 & S2 & S3 & S4 & S5) & I'); [|done..].
  cbn in O, S2. rewrite O in S2. subst o2. rewrite Ro in S3.
  apply Forall2_cons_inv_r in S3 as (q & d' & An & S3 & ->). apply Forall2_nil_inv_r in S3 as ->.
  cbn in S1, S4, S5, Al. rewrite app_nil_r in S1.
  change (outstanding h0) with (outstanding (layer p)) in S4. rewrite Ob in S4. injection S4 as Eb S4.
  change (pending h0) with (pending (layer p)) in S1.
  destruct C as (l1 & l2 & -> & C1 & C2). rewrite S1 in C2.
  destruct l2 as [|c l2]; [done|]. injection C2 as Eqc C2.
  assert (Er2 : op_code_of r = Some (op_code c)).
  { destruct q as [[qb qw] qc]. destruct An as (_ & _ & An). cbn in An. rewrite An.
    injection Eqc as <- _ _. apply GetOpCode_serialize. }
  split; cbn.
  - done.
  - congruence.
  - by rewrite S5.
  - exists (l1 ++ [c]), l2. rewrite O, Ro. cbn. rewrite Er2. split; [by rewrite <- app_assoc|].
    split; [by rewrite map_app, C1|]. by rewrite C2, S5.
  - rewrite S5, O, Er, Ea. cbn. by rewrite S4.
Qed.

Lemma run_layer_linked p commands : linked p commands ->
  exists p', pair_step PRunLayer p = Some p' /\ linked p' commands /\
    address_manager p' = address_manager p /\ client_acks p' = client_acks p.
Proof.
  intros K. pose proof K as [I A T C R].
  cbn [pair_step HciLayerSpec.step HciLayer.posted HciLayer.set_outputs].
  set (h := HciLayer.set_outputs [] (layer p)).
  destruct (HciLayer.posted (layer p)) as [|t rest] eqn:Q.
  { eexists. split; [reflexivity|]. split; [|done].
    change (sent (HciLayer.outputs h)) with (@nil (list Z)).
    change (responses (HciLayer.outputs h)) with (@nil (Z * Response)).
    cbn [omap list_omap]. rewrite !app_nil_r. split; cbn; rewrite ?Q; done. }
  inversion_clear T as [|? ? Ht _]. destruct t; try done; [|destruct event; try done].
  - destruct (enqueue_task_linked _ _ _ _ K Q) as (h' & H & K'). exists (ran p h').
    change (HciLayer.set_posted rest h) with (popped p rest). by rewrite H.
  - destruct (answer_task_linked _ _ _ _ _ K Q) as (h' & H & K'). exists (ran p h').
    change (HciLayer.set_posted rest h) with (popped p rest). by rewrite H.
Qed.

(** The outstanding command has an operation code. *)
Lemma outstanding_op h b op : layer_ok GetOpCode h -> outstanding h = [b] ->
  GetOpCode b = Some op -> op <> NONE.
Proof.
  intros ((_ & W) & _) O G. unfold outstanding, pending in O.
  destruct (Z.eqb_spec (waiting_command_ (impl_ h)) NONE) as [|N]; [done|].
  destruct (W N) as (e & l & Eq & Ge). rewrite Eq in O. injection O as <-. cbn in G. congruence.
Qed.

Lemma outstanding_one h : outstanding h = [] \/ exists b, outstanding h = [b].
Proof. unfold outstanding. destruct (_ =? _); [by left|]. destruct (pending h); [by left|]. right. by eexists. Qed.

(** The controller answers. *)
Lemma answer_linked credits p commands : linked p commands ->
  exists p', pair_step (PAnswer credits) p = Some p' /\ linked p' commands /\
    address_manager p' = address_manager p /\ client_acks p' = client_acks p.
Proof.
  intros K. pose proof K as [I A T C R]. cbn [pair_step].
  destruct (at_controller p) as [|b rest] eqn:Ea; [by exists p|].
  assert (exists b', outstanding (layer p) = [b'] /\ GetOpCode b = GetOpCode b' /\
    rest = [] /\ (HciLayer.posted (layer p) ≫= replies) = []) as (b' & Ob & Eb & -> & Ep).
  { destruct (outstanding_one (layer p)) as [O|[b' O]]; rewrite O in R; cbn in R.
    - by destruct (HciLayer.posted (layer p) ≫= replies).
    - destruct (HciLayer.posted (layer p) ≫= replies) as [|x l]; cbn in R.
      + injection R as R1 R2. exists b'. split; [done|]. split; [done|]. by apply map_eq_nil in R2.
      + injection R as _ R2. by destruct l. }
  assert (exists op, GetOpCode b' = Some op) as [op G].
  { pose proof (linked_parsable _ _ K) as F. unfold parsable, outstanding, pending in *.
    destruct (_ =? _); [done|]. destruct F as [|e l [op G] _]; [done|].
    injection Ob as <-. by exists op. }
  rewrite Eb, G. cbn [mbind option_bind]. eexists. split; [reflexivity|]. split; [|done].
  assert (hciEventReceived (COMMAND_COMPLETE credits op) (layer p) =
    HciLayer.post (Ton_hci_event (COMMAND_COMPLETE credits op)) (layer p)) as ->
    by (unfold hciEventReceived, post_alive; by rewrite A).
  pose proof (outstanding_op _ _ _ I Ob G) as N. destruct I as (I1 & I2 & I3 & I4).
  split; cbn.
  - split; [done|]. split; [done|]. split; [done|]. apply Forall_app. by repeat constructor.
  - done.
  - apply Forall_app. by repeat constructor.
  - destruct C as (l1 & l2 & C1 & C2 & C3). exists l1, l2. rewrite bind_app. cbn.
    by rewrite app_nil_r.
  - change (outstanding (HciLayer.post _ _)) with (outstanding (layer p)).
    rewrite bind_app, Ep, Ob. cbn. by rewrite G.
Qed.

(** The oldest posted callback runs: the oldest command of the world completes. *)
Lemma complete_linked success p commands : linked p commands ->
  exists p' commands', pair_step (PComplete success) p = Some p' /\ linked p' commands' /\
    (p' = p /\ commands' = commands \/
     manager_step (EComplete success) (world_of p commands) = Some (world_of p' commands')).
Proof.
  intros [I A T (l1 & l2 & -> & C1 & C2) R]. cbn [pair_step].
  destruct (completed p) as [|op rest] eqn:Ec.
  { exists p, (l1 ++ l2). split; [done|]. split; [|by left]. split; try done.
    exists l1, l2. by rewrite Ec. }
  destruct l1 as [|c l1]; [done|]. injection C1 as Eop C1.
  eexists _, (l1 ++ l2). split; [reflexivity|]. split.
  - split; try done. by exists l1, l2.
  - right. cbn. rewrite <- Eop. unfold world_of. cbn. do 2 f_equal.
    apply OnCommandComplete_op. by rewrite command_with_op.
Qed.

(** ** Progress of the pair *)

Hypothesis RAND_byte : forall n, byte (RAND_bytes n).
Hypothesis random_source : forall n, random_varies RAND_bytes fuel public_address_ n.

Definition pair_inv (p : Pair) : Prop :=
  exists commands, linked p commands /\ inv (world_of p commands).

Definition pair_keeps_clients (e : PairEvent) : bool :=
  match e with PManager e => keeps_clients e | _ => true end.

Lemma inv_same w w' : manager w' = manager w -> owed w' = owed w -> in_flight w' = in_flight w ->
  inv w -> inv w'.
Proof. destruct w, w'. cbn. by intros -> -> ->. Qed.

Lemma manager_linked e p : pair_inv p -> keeps_clients e = true -> (forall b, e <> EComplete b) ->
  exists p', pair_step (PManager e) p = Some p' /\ pair_inv p'.
Proof.
  intros (commands & K & I) He N.
  destruct (step_inv RAND_bytes fuel public_address_ IsRpaGenerationSupported
    nrpa_non_connectable_adv RAND_byte random_source _ e I He) as (w & H & I').
  destruct (manager_step_unframe _ _ _ _ _ N H) as [w0 H0].
  unfold world_of in H. rewrite (manager_step_frame _ _ _ commands _ N H0) in H. injection H as <-.
  assert (E : pair_step (PManager e) p = Some {| address_manager := manager w0;
    client_acks := owed w0; layer := fold_left enqueue_command (in_flight w0) (layer p);
    at_controller := at_controller p; completed := completed p |}).
  { destruct e; cbn [pair_step]; rewrite ?H0; try reflexivity. by destruct (N success). }
  rewrite E. eexists. split; [reflexivity|]. exists (commands ++ in_flight w0).
  split; [|exact I'].
  destruct (enqueue_linked (in_flight w0) p commands K) as [K1 K2 K3 K4 K5]. by split.
Qed.

Lemma pair_step_inv e p : pair_inv p -> pair_keeps_clients e = true ->
  exists p', pair_step e p = Some p' /\ pair_inv p'.
Proof.
  intros P He. pose proof P as (commands & K & I).
  destruct e as [e| |credits|success].
  - assert ((exists b, e = EComplete b) \/ forall b, e <> EComplete b) as [[b ->]|N]
      by (destruct e; eauto; right; discriminate).
    + by exists p.
    + by apply manager_linked.
  - destruct (run_layer_linked _ _ K) as (p' & H & K' & E1 & E2). exists p'. split; [done|].
    exists commands. split; [done|]. by apply (inv_same (world_of p commands)).
  - destruct (answer_linked credits _ _ K) as (p' & H & K' & E1 & E2). exists p'. split; [done|].
    exists commands. split; [done|]. by apply (inv_same (world_of p commands)).
  - destruct (complete_linked success _ _ K) as (p' & commands' & H & K' & E). exists p'.
    split; [done|]. exists commands'. split; [done|]. destruct E as [[-> ->]|E]; [done|].
    destruct (step_inv RAND_bytes fuel public_address_ IsRpaGenerationSupported
      nrpa_non_connectable_adv RAND_byte random_source _ (EComplete success) I) as (w & H' & I');
      [done|]. rewrite E in H'. by injection H' as <-.
Qed.

Lemma pair_run_inv es : forall p, pair_inv p ->
  Forall (fun e => pair_keeps_clients e = true) es ->
  exists p', pair_run es p = Some p' /\ pair_inv p'.
Proof.
  induction es as [|e es IH]; intros p P F; cbn [pair_run]; [by eauto|].
  inversion_clear F as [|? ? He Fe]. destruct (pair_step_inv e p P He) as (p1 & -> & P1).
  cbn. by apply IH.
Qed.

(** A manager with nothing to do over a layer with nothing to do. *)
Definition pair_established (p : Pair) : Prop :=
  established IsRpaGenerationSupported (world_of p []) /\
  layer_ok GetOpCode (layer p) /\ life_cycle_stopped (layer p) = false /\
  pending (layer p) = [] /\ HciLayer.posted (layer p) = [] /\ at_controller p = [] /\
  completed p = [].

Lemma pair_established_inv p : pair_established p -> pair_inv p.
Proof.
  intros (E & I & A & P & Q & C & D). exists []. split; [|by apply established_inv].
  split; rewrite ?Q, ?C, ?D; try done.
  - exists [], []. by rewrite P.
  - unfold outstanding. rewrite P. by destruct (_ =? _).
Qed.

(** Neither component nor the controller has anything of the other's left to do. *)
Definition pair_quiet (p : Pair) : Prop :=
  client_acks p = [] /\ LeAddressManager.posted (address_manager p) = [] /\ HciLayer.posted (layer p) = [] /\
  at_controller p = [] /\ completed p = [].

(** With nothing posted, the controller has the outstanding command, and without one
    the layer sends when it has a credit. *)
Lemma quiet_pending p commands : linked p commands -> HciLayer.posted (layer p) = [] ->
  at_controller p = [] -> command_credits_ (impl_ (layer p)) <> 0 -> pending (layer p) = [].
Proof.
  intros [(_ & Pr & _) _ _ _ R] Q C N. rewrite Q, C in R. cbn in R.
  unfold outstanding in R. destruct (pending (layer p)) as [|q l] eqn:E; [done|].
  destruct (Z.eqb_spec (waiting_command_ (impl_ (layer p))) NONE) as [W|]; [|done].
  destruct Pr; [|done..]. intros Z. unfold pending in E. by rewrite Z in E.
Qed.

(** C10: the address manager over the HCI layer and a controller that answers the
    commands it is sent, from a state in which both have nothing to do, the manager has
    a client and its policy is to rotate its address ([established]; with
    [USE_PUBLIC_ADDRESS] see [second_public_policy_aborts]), and a random source that
    gives an acceptable address within [fuel] attempts.  While no client unregisters, no sequence of requests,
    acknowledgements, tasks of either handler, answers, callbacks and alarms makes
    either component abort; and when the clients owe nothing, no task is left, the
    controller has answered, with a credit, and the callbacks have run, the
    layer holds no command and the manager has no request left. *)
Theorem address_manager_over_hci (es : list PairEvent) (p : Pair) :
  pair_established p -> Forall (fun e => pair_keeps_clients e = true) es ->
  exists p', pair_run es p = Some p' /\
    (pair_quiet p' -> command_credits_ (impl_ (layer p')) <> 0 ->
     pending (layer p') = [] /\ cached_commands_ (address_manager p') = []).
Proof.
  intros E F. destruct (pair_run_inv es p (pair_established_inv p E) F) as (p' & H & commands & K & I).
  exists p'. split; [done|]. intros (Q1 & Q2 & Q3 & Q4 & Q5) N.
  pose proof (quiet_pending _ _ K Q3 Q4 N) as P. split; [done|].
  assert (commands = []) as ->.
  { destruct K as [_ _ _ (l1 & l2 & -> & C1 & C2) _]. rewrite Q5 in C1. rewrite Q3, P in C2.
    by rewrite (map_eq_nil _ _ C1), (map_eq_nil _ _ C2). }
  by apply (inv_settled _ _ I).
Qed.
End pair.

(** ** A rotation over the layer *)

(** The operation code, least significant octet first, and no parameters. *)
Definition header (c : CommandBuilder) : list Z := [op_code c mod 256; op_code c / 256].

Lemma parse_header c : parse_op_code (header c) = Some (op_code c).
Proof. by destruct c. Qed.

Definition idle_layer : HciLayer :=
  {| impl_ := new_impl; life_cycle_stopped := false; disconnect_handlers_ := [];
     read_remote_version_handlers_ := []; on_acl_connection_request_ := None;
     on_sco_connection_request_ := None; HciLayer.posted := []; HciLayer.outputs := [] |}.

Definition established_pair : Pair :=
  {| address_manager := manager (final start_resolvable); client_acks := []; layer := idle_layer;
     at_controller := []; completed := [] |}.

Definition pair_rotation : list PairEvent :=
  [PManager ENonWakeAlarm; PManager (EAck 1); PManager ERun; PRunLayer; PAnswer 1; PRunLayer;
   PComplete true; PManager ERun; PManager (EAck 1); PManager ERun].

Lemma address_manager_over_hci_witness :
  exists p', pair_run sevens 2 some_address false false false header parse_op_code pair_rotation
    established_pair = Some p' /\ pair_quiet p' /\ cached_commands_ (address_manager p') = [].
Proof.
  destruct (address_manager_over_hci sevens 2 some_address false false false header parse_op_code
    parse_header sevens_byte sevens_vary pair_rotation established_pair) as (p' & H & Q).
  - split; [by_decide|]. split; [|by split_and!].
    split; [split; [constructor|intros N; by destruct N]|]. split; [intros N; by destruct N|].
    split; [discriminate|constructor].
  - by_decide.
  - exists p'. split; [exact H|].
    assert (R : pair_quiet p' /\ command_credits_ (impl_ (layer p')) <> 0).
    { revert H. vm_compute. intros [= <-]. by split_and!. }
    split; [exact (proj1 R)|]. exact (proj2 (Q (proj1 R) (proj2 R))).
Defined.
