(* ===== verification/RfcommFrames.v ===== *)
(** * RFCOMM frames

    Model of the frames of the RFCOMM multiplexer ([src/system/stack/rfcomm]): the
    checksum of [rfc_utils.cc], the functions of [rfc_ts_frames.cc] that write frames
    and read them, and the queue of commands of [rfc_check_send_cmd].

    A [BT_HDR] is its data area with the offset and the length of what it holds; a
    read outside of what a received buffer holds and a write outside of the data area
    of a buffer are [None].  What L2CAP is given is the list [written]; whether its
    channel is congested after a write is up to L2CAP, the parameter [congests]. *)

From stdpp Require Import base list option.
From Stdlib Require Import ZArith Lia.
From S2P Require Import Prelude.

Open Scope Z_scope.

(** ** The checksum *)

Definition rfc_crctable : list Z :=
  [0x00; 0x91; 0xE3; 0x72; 0x07; 0x96; 0xE4; 0x75; 0x0E; 0x9F; 0xED; 0x7C; 0x09; 0x98; 0xEA; 0x7B;
   0x1C; 0x8D; 0xFF; 0x6E; 0x1B; 0x8A; 0xF8; 0x69; 0x12; 0x83; 0xF1; 0x60; 0x15; 0x84; 0xF6; 0x67;
   0x38; 0xA9; 0xDB; 0x4A; 0x3F; 0xAE; 0xDC; 0x4D; 0x36; 0xA7; 0xD5; 0x44; 0x31; 0xA0; 0xD2; 0x43;
   0x24; 0xB5; 0xC7; 0x56; 0x23; 0xB2; 0xC0; 0x51; 0x2A; 0xBB; 0xC9; 0x58; 0x2D; 0xBC; 0xCE; 0x5F;
   0x70; 0xE1; 0x93; 0x02; 0x77; 0xE6; 0x94; 0x05; 0x7E; 0xEF; 0x9D; 0x0C; 0x79; 0xE8; 0x9A; 0x0B;
   0x6C; 0xFD; 0x8F; 0x1E; 0x6B; 0xFA; 0x88; 0x19; 0x62; 0xF3; 0x81; 0x10; 0x65; 0xF4; 0x86; 0x17;
   0x48; 0xD9; 0xAB; 0x3A; 0x4F; 0xDE; 0xAC; 0x3D; 0x46; 0xD7; 0xA5; 0x34; 0x41; 0xD0; 0xA2; 0x33;
   0x54; 0xC5; 0xB7; 0x26; 0x53; 0xC2; 0xB0; 0x21; 0x5A; 0xCB; 0xB9; 0x28; 0x5D; 0xCC; 0xBE; 0x2F;
   0xE0; 0x71; 0x03; 0x92; 0xE7; 0x76; 0x04; 0x95; 0xEE; 0x7F; 0x0D; 0x9C; 0xE9; 0x78; 0x0A; 0x9B;
   0xFC; 0x6D; 0x1F; 0x8E; 0xFB; 0x6A; 0x18; 0x89; 0xF2; 0x63; 0x11; 0x80; 0xF5; 0x64; 0x16; 0x87;
   0xD8; 0x49; 0x3B; 0xAA; 0xDF; 0x4E; 0x3C; 0xAD; 0xD6; 0x47; 0x35; 0xA4; 0xD1; 0x40; 0x32; 0xA3;
   0xC4; 0x55; 0x27; 0xB6; 0xC3; 0x52; 0x20; 0xB1; 0xCA; 0x5B; 0x29; 0xB8; 0xCD; 0x5C; 0x2E; 0xBF;
   0x90; 0x01; 0x73; 0xE2; 0x97; 0x06; 0x74; 0xE5; 0x9E; 0x0F; 0x7D; 0xEC; 0x99; 0x08; 0x7A; 0xEB;
   0x8C; 0x1D; 0x6F; 0xFE; 0x8B; 0x1A; 0x68; 0xF9; 0x82; 0x13; 0x61; 0xF0; 0x85; 0x14; 0x66; 0xF7;
   0xA8; 0x39; 0x4B; 0xDA; 0xAF; 0x3E; 0x4C; 0xDD; 0xA6; 0x37; 0x45; 0xD4; 0xA1; 0x30; 0x42; 0xD3;
   0xB4; 0x25; 0x57; 0xC6; 0xB3; 0x22; 0x50; 0xC1; 0xBA; 0x2B; 0x59; 0xC8; 0xBD; 0x2C; 0x5E; 0xCF].

Definition fcs_step (fcs p : Z) : Z := rfc_crctable.[Z.to_nat (Z.lxor fcs p)].

(** The first [len] bytes. *)
Definition rfc_calc_fcs (len : nat) (p : list Z) : Z := 0xFF - fold_left fcs_step (take len p) 0xFF.

Definition rfc_check_fcs (len : nat) (p : list Z) (received_fcs : Z) : bool :=
  fcs_step (fold_left fcs_step (take len p) 0xFF) received_fcs =? 0xCF.

(** ** Constants (rfcdefs.h) *)

Definition RFCOMM_SABME := 0x2F.
Definition RFCOMM_UA := 0x63.
Definition RFCOMM_DM := 0x0F.
Definition RFCOMM_DISC := 0x43.
Definition RFCOMM_UIH := 0xEF.
Definition RFCOMM_CTRL_FRAME_LEN := 3.
Definition RFCOMM_MIN_OFFSET := 5.
Definition RFCOMM_EA := 1.
Definition RFCOMM_CR_MASK := 0x02.
Definition RFCOMM_PF := 0x10.
Definition RFCOMM_MAX_DLCI := 61.
Definition RFCOMM_MX_DLCI := 0.
Definition RFCOMM_MIN_MTU := 23.
Definition RFCOMM_MAX_MTU := 32767.
Definition RFCOMM_RPN_PM_MASK := 0x3F7F.
Definition L2CAP_MIN_OFFSET := 13.
(** BT_SMALL_BUFFER_SIZE without the header. *)
Definition RFCOMM_CMD_BUF_DATA : nat := 652.
Definition PORT_FC_UNDEFINED := 0.
Definition PORT_FC_TS710 := 1.
Definition PORT_FC_CREDIT := 2.

Definition RFCOMM_MX_PN := 0x80.
Definition RFCOMM_MX_TEST := 0x20.
Definition RFCOMM_MX_FCON := 0xA0.
Definition RFCOMM_MX_FCOFF := 0x60.
Definition RFCOMM_MX_MSC := 0xE0.
Definition RFCOMM_MX_NSC := 0x10.
Definition RFCOMM_MX_RPN := 0x90.
Definition RFCOMM_MX_RLS := 0x50.

Definition RFCOMM_MX_PN_LEN := 8.
Definition RFCOMM_MX_FCON_LEN := 0.
Definition RFCOMM_MX_FCOFF_LEN := 0.
Definition RFCOMM_MX_MSC_LEN_NO_BREAK := 2.
Definition RFCOMM_MX_MSC_LEN_WITH_BREAK := 3.
Definition RFCOMM_MX_NSC_LEN := 1.
Definition RFCOMM_MX_RPN_REQ_LEN := 1.
Definition RFCOMM_MX_RPN_LEN := 8.
Definition RFCOMM_MX_RLS_LEN := 2.

Definition RFCOMM_CR (initiator is_command : bool) : Z :=
  Z.shiftl (b2z ((initiator && is_command) || (negb initiator && negb is_command))) 1.
Definition RFCOMM_I_CR (is_command : bool) : Z := if is_command then 0x02 else 0x00.
Definition RFCOMM_FRAME_IS_CMD (initiator : bool) (cr : Z) : bool :=
  (initiator && (cr =? 0)) || (negb initiator && negb (cr =? 0)).
Definition RFCOMM_FRAME_IS_RSP (initiator : bool) (cr : Z) : bool :=
  (initiator && negb (cr =? 0)) || (negb initiator && (cr =? 0)).
Definition RFCOMM_VALID_DLCI (dlci : Z) : bool :=
  (dlci =? 0) || ((2 <=? dlci) && (dlci <=? RFCOMM_MAX_DLCI)).

(** ** Data *)

Record BT_HDR := {
  data : list Z;
  offset : Z;
  len : Z;
  layer_specific : Z;
}.

(** What the buffer holds. *)
Definition contents (b : BT_HDR) : list Z :=
  take (Z.to_nat (len b)) (drop (Z.to_nat (offset b)) (data b)).

(** Consecutive writes from index [p] of a data area. *)
Definition put (p : Z) (l : list Z) (mem : list Z) : option (list Z) :=
  if (0 <=? p) && (p + Z.of_nat (length l) <=? Z.of_nat (length mem)) then
    Some (take (Z.to_nat p) mem ++ l ++ drop (Z.to_nat p + length l) mem)
  else None.

Record pn_pars := {
  pn_frame_type : Z;
  pn_conv_layer : Z;
  pn_priority : Z;
  pn_t1 : Z;
  pn_mtu : Z;
  pn_n2 : Z;
  pn_k : Z;
}.

Record msc_pars := {
  msc_signals : Z;
  msc_break_present : Z;
  msc_break_duration : Z;
}.

Record PortSettings := {
  baud_rate : Z;
  byte_size : Z;
  stop_bits : Z;
  parity : Z;
  parity_type : Z;
  fc_type : Z;
  rx_char1 : Z;
  xon_char : Z;
  xoff_char : Z;
}.

(** The [rpn] member of a frame; [None] for a request, which sets no parameters. *)
Record rpn_pars := {
  rpn_settings : PortSettings;     (* [rx_char1] is not in the frame *)
  rpn_param_mask : Z;
}.

(** The union [u]: the member that was written last. *)
Inductive MX_UNION :=
| u_none
| u_pn (pn : pn_pars)
| u_test (test_data : list Z)
| u_msc (msc : msc_pars)
| u_nsc (nsc_ea nsc_cr nsc_type : Z)
| u_rpn (rpn : option rpn_pars)
| u_rls (line_status : Z).

Record MX_FRAME := {
  dlci : Z;
  type : Z;
  cr : Z;
  ea : Z;
  pf : Z;
  credit : Z;
  u : MX_UNION;
}.

Inductive tRFC_EVENT :=
| RFC_EVENT_SABME
| RFC_EVENT_UA
| RFC_EVENT_DM
| RFC_EVENT_DISC
| RFC_EVENT_UIH
| RFC_EVENT_TIMEOUT
| RFC_EVENT_BAD_FRAME.

#[export] Instance tRFC_EVENT_eq_dec : EqDecision tRFC_EVENT.
Proof. solve_decision. Defined.

(** Signals of [tPORT_CTRL]. *)
Definition MODEM_SIGNAL_DTRDSR := 0x01.
Definition MODEM_SIGNAL_RTSCTS := 0x02.
Definition MODEM_SIGNAL_RI := 0x04.
Definition MODEM_SIGNAL_DCD := 0x08.

Record tPORT_CTRL := {
  modem_signal : Z;
  break_signal : Z;
  fc : bool;
}.

(** The part of the multiplexer control block that frames depend on. *)
Record tRFC_MCB := {
  is_initiator : bool;
  flow : Z;
  l2cap_congested : bool;
  cmd_q : list BT_HDR;
  written : list (list Z);
}.

Definition set_written (congested : bool) (q : list BT_HDR) (w : list (list Z)) (m : tRFC_MCB)
    : tRFC_MCB :=
  {| is_initiator := is_initiator m; flow := flow m; l2cap_congested := congested; cmd_q := q;
     written := w |}.

Definition set_addr (d c : Z) (f : MX_FRAME) : MX_FRAME :=
  {| dlci := d; type := type f; cr := c; ea := ea f; pf := pf f; credit := credit f; u := u f |}.
Definition set_type (t p : Z) (f : MX_FRAME) : MX_FRAME :=
  {| dlci := dlci f; type := t; cr := cr f; ea := ea f; pf := p; credit := credit f; u := u f |}.
Definition set_credit (c : Z) (f : MX_FRAME) : MX_FRAME :=
  {| dlci := dlci f; type := type f; cr := cr f; ea := ea f; pf := pf f; credit := c; u := u f |}.
Definition set_mx (e c t : Z) (f : MX_FRAME) : MX_FRAME :=
  {| dlci := dlci f; type := t; cr := c; ea := e; pf := pf f; credit := credit f; u := u f |}.
Definition set_dlci (d : Z) (f : MX_FRAME) : MX_FRAME :=
  {| dlci := d; type := type f; cr := cr f; ea := ea f; pf := pf f; credit := credit f; u := u f |}.
Definition set_union (x : MX_UNION) (f : MX_FRAME) : MX_FRAME :=
  {| dlci := dlci f; type := type f; cr := cr f; ea := ea f; pf := pf f; credit := credit f; u := x |}.

Section frames.
Context (malloc : nat -> list Z) (congests : list (list Z) -> bool).

(** ** Writing *)

(** L2CAP reports the congestion of its channel while it takes the frame. *)
Definition L2CA_DataWrite (b : BT_HDR) (m : tRFC_MCB) : tRFC_MCB :=
  let w := written m ++ [contents b] in
  set_written (l2cap_congested m || congests w) (cmd_q m) w m.

(** The loop of [rfc_check_send_cmd] on the queue [q]. *)
Fixpoint send_queue (q : list BT_HDR) (m : tRFC_MCB) : tRFC_MCB :=
  if l2cap_congested m then set_written true q (written m) m
  else
    match q with
    | [] => set_written false [] (written m) m
    | b :: q => send_queue q (L2CA_DataWrite b m)
    end.

Definition rfc_check_send_cmd (p_buf : option BT_HDR) (m : tRFC_MCB) : tRFC_MCB :=
  let q := match p_buf with Some b => cmd_q m ++ [b] | None => cmd_q m end in
  send_queue q m.

(** The first octet of a frame. *)
Definition address_field (c d : Z) : Z := u8 (Z.lor (Z.lor RFCOMM_EA c) (Z.shiftl d 2)).

(** A frame without information, with the checksum of its three octets. *)
Definition send_control (address control : Z) (m : tRFC_MCB) : option tRFC_MCB :=
  mem ← put L2CAP_MIN_OFFSET [address; control; Z.lor RFCOMM_EA 0] (malloc RFCOMM_CMD_BUF_DATA);
  mem ← put (L2CAP_MIN_OFFSET + 3)
          [rfc_calc_fcs 3 (drop (Z.to_nat L2CAP_MIN_OFFSET) mem)] mem;
  Some (rfc_check_send_cmd
    (Some {| data := mem; offset := L2CAP_MIN_OFFSET; len := 4; layer_specific := 0 |}) m).

Definition rfc_send_sabme (d : Z) (m : tRFC_MCB) : option tRFC_MCB :=
  let c := RFCOMM_CR (is_initiator m) true in
  send_control (address_field c d) (Z.lor RFCOMM_SABME RFCOMM_PF) m.

Definition rfc_send_ua (d : Z) (m : tRFC_MCB) : option tRFC_MCB :=
  let c := RFCOMM_CR (is_initiator m) false in
  send_control (address_field c d) (Z.lor RFCOMM_UA RFCOMM_PF) m.

Definition rfc_send_dm (d : Z) (p : bool) (m : tRFC_MCB) : option tRFC_MCB :=
  let c := RFCOMM_CR (is_initiator m) false in
  send_control (address_field c d) (Z.lor RFCOMM_DM (if p then RFCOMM_PF else 0)) m.

Definition rfc_send_disc (d : Z) (m : tRFC_MCB) : option tRFC_MCB :=
  let c := RFCOMM_CR (is_initiator m) true in
  send_control (address_field c d) (Z.lor RFCOMM_DISC RFCOMM_PF) m.

(** The octets before the information of a UIH frame. *)
Definition uih_header (c d credits n : Z) : list Z :=
  [address_field c d; Z.lor RFCOMM_UIH (if credits =? 0 then 0 else RFCOMM_PF)] ++
  (if n <=? 127 then [u8 (Z.lor RFCOMM_EA (Z.shiftl n 1))]
   else [u8 (Z.shiftl (Z.land n 0x7f) 1); u8 (Z.shiftr n 7)]) ++
  (if credits =? 0 then [] else [credits]).

(** The frame around the information in the buffer. *)
Definition uih_frame (c d : Z) (b : BT_HDR) : option BT_HDR :=
  let n := len b in
  let off := u16 (offset b - RFCOMM_CTRL_FRAME_LEN) in
  let off := if 127 <? n then u16 (off - 1) else off in
  let credits := if d =? 0 then 0 else u8 (layer_specific b) in
  let off := if credits =? 0 then off else u16 (off - 1) in
  let header := uih_header c d credits n in
  mem ← put off header (data b);
  let n := u16 (n + Z.of_nat (length header)) in
  mem ← put (off + n) [rfc_calc_fcs 2 (drop (Z.to_nat off) mem)] mem;
  Some {| data := mem; offset := off; len := u16 (n + 1); layer_specific := layer_specific b |}.

Definition rfc_send_buf_uih (d : Z) (b : BT_HDR) (m : tRFC_MCB) : option tRFC_MCB :=
  b ← uih_frame (RFCOMM_CR (is_initiator m) true) d b;
  Some (if d =? RFCOMM_MX_DLCI then rfc_check_send_cmd (Some b) m else L2CA_DataWrite b m).

(** A message of the multiplexer in a new buffer. *)
Definition send_message (l : list Z) (m : tRFC_MCB) : option tRFC_MCB :=
  let off := L2CAP_MIN_OFFSET + RFCOMM_CTRL_FRAME_LEN in
  mem ← put off l (malloc RFCOMM_CMD_BUF_DATA);
  rfc_send_buf_uih RFCOMM_MX_DLCI
    {| data := mem; offset := off; len := Z.of_nat (length l); layer_specific := 0 |} m.

(** The type and the length of a message. *)
Definition mx_header (t : Z) (is_command : bool) (n : Z) : list Z :=
  [Z.lor (Z.lor RFCOMM_EA (RFCOMM_I_CR is_command)) t; u8 (Z.lor RFCOMM_EA (Z.shiftl n 1))].

(** The address octet of a message about a channel. *)
Definition mx_address (d : Z) : Z := u8 (Z.lor (Z.lor RFCOMM_EA RFCOMM_CR_MASK) (Z.shiftl d 2)).

(** A response has the priority of the command, which is still the received frame. *)
Definition rfc_send_pn (rx : MX_FRAME) (d : Z) (is_command : bool) (mtu cl k : Z) (m : tRFC_MCB)
    : option tRFC_MCB :=
  priority ← (if is_command then Some 0
              else match u rx with u_pn pn => Some (pn_priority pn) | _ => None end);
  send_message (mx_header RFCOMM_MX_PN is_command RFCOMM_MX_PN_LEN ++
    [d; Z.lor 0 cl; priority; 0; Z.land mtu 0xFF; u8 (Z.shiftr mtu 8); 0; k]) m.

Definition rfc_send_fcon (is_command : bool) (m : tRFC_MCB) : option tRFC_MCB :=
  send_message (mx_header RFCOMM_MX_FCON is_command RFCOMM_MX_FCON_LEN) m.

Definition rfc_send_fcoff (is_command : bool) (m : tRFC_MCB) : option tRFC_MCB :=
  send_message (mx_header RFCOMM_MX_FCOFF is_command RFCOMM_MX_FCOFF_LEN) m.

Definition rfc_send_msc (d : Z) (is_command : bool) (pars : tPORT_CTRL) (m : tRFC_MCB)
    : option tRFC_MCB :=
  let signals := modem_signal pars in
  let bit (mask value : Z) := if Z.land signals mask =? 0 then 0 else value in
  let break_duration := break_signal pars in
  let n := if break_duration =? 0 then RFCOMM_MX_MSC_LEN_NO_BREAK else RFCOMM_MX_MSC_LEN_WITH_BREAK in
  send_message (mx_header RFCOMM_MX_MSC is_command n ++
    [mx_address d;
     Z.lor (Z.lor (Z.lor (Z.lor (Z.lor RFCOMM_EA (if fc pars then 0x02 else 0))
       (bit MODEM_SIGNAL_DTRDSR 0x04)) (bit MODEM_SIGNAL_RTSCTS 0x08))
       (bit MODEM_SIGNAL_RI 0x40)) (bit MODEM_SIGNAL_DCD 0x80)] ++
    (if break_duration =? 0 then []
     else [u8 (Z.lor (Z.lor RFCOMM_EA 0x02) (Z.shiftl break_duration 4))])) m.

Definition rfc_send_rls (d : Z) (is_command : bool) (status : Z) (m : tRFC_MCB) : option tRFC_MCB :=
  send_message (mx_header RFCOMM_MX_RLS is_command RFCOMM_MX_RLS_LEN ++
    [mx_address d; Z.lor 0x01 status]) m.

Definition rfc_send_nsc (rx : MX_FRAME) (m : tRFC_MCB) : option tRFC_MCB :=
  send_message (mx_header RFCOMM_MX_NSC false RFCOMM_MX_NSC_LEN ++
    [u8 (Z.lor (Z.lor (ea rx) (Z.shiftl (cr rx) 1)) (type rx))]) m.

Definition rfc_send_rpn (d : Z) (is_command : bool) (settings : option PortSettings) (mask : Z)
    (m : tRFC_MCB) : option tRFC_MCB :=
  match settings with
  | None => send_message (mx_header RFCOMM_MX_RPN is_command RFCOMM_MX_RPN_REQ_LEN ++ [mx_address d]) m
  | Some s =>
      send_message (mx_header RFCOMM_MX_RPN is_command RFCOMM_MX_RPN_LEN ++
        [mx_address d; baud_rate s;
         u8 (Z.lor (Z.lor (Z.lor (byte_size s) (Z.shiftl (stop_bits s) 2)) (Z.shiftl (parity s) 3))
           (Z.shiftl (parity_type s) 4));
         fc_type s; xon_char s; xoff_char s; Z.land mask 0xFF; u8 (Z.shiftr mask 8)]) m
  end.

Definition rfc_send_test (is_command : bool) (b : BT_HDR) (m : tRFC_MCB) : option tRFC_MCB :=
  let room := L2CAP_MIN_OFFSET + RFCOMM_MIN_OFFSET + 2 in
  b ← (if offset b <? room then
         mem ← put room (contents b) (malloc (Z.to_nat (len b + room + 1)));
         Some {| data := mem; offset := room; len := len b; layer_specific := 0 |}
       else Some b);
  let off := u16 (offset b - 2) in
  mem ← put off (mx_header RFCOMM_MX_TEST is_command (len b)) (data b);
  rfc_send_buf_uih RFCOMM_MX_DLCI
    {| data := mem; offset := off; len := u16 (len b + 2); layer_specific := layer_specific b |} m.

Definition rfc_send_credit (d c : Z) (m : tRFC_MCB) : option tRFC_MCB :=
  mem ← put L2CAP_MIN_OFFSET
          [address_field (RFCOMM_CR (is_initiator m) true) d; Z.lor RFCOMM_UIH RFCOMM_PF;
           Z.lor RFCOMM_EA 0; c] (malloc RFCOMM_CMD_BUF_DATA);
  mem ← put (L2CAP_MIN_OFFSET + 4)
          [rfc_calc_fcs 2 (drop (Z.to_nat L2CAP_MIN_OFFSET) mem)] mem;
  Some (rfc_check_send_cmd
    (Some {| data := mem; offset := L2CAP_MIN_OFFSET; len := 5; layer_specific := 0 |}) m).

(** ** Reading *)

Definition advance (n k : Z) (b : BT_HDR) : BT_HDR :=
  {| data := data b; offset := u16 (offset b + k); len := n; layer_specific := layer_specific b |}.

(** The event of a frame whose fields have been read. *)
Definition frame_event (initiator : bool) (f : MX_FRAME) (n : Z) (p_start : list Z) (fcs : Z)
    : tRFC_EVENT :=
  let bad_control (rsp : bool) :=
    rsp || negb (n =? 0) || negb (RFCOMM_VALID_DLCI (dlci f)) || negb (rfc_check_fcs 3 p_start fcs) in
  if type f =? RFCOMM_SABME then
    if bad_control (RFCOMM_FRAME_IS_RSP initiator (cr f) || (pf f =? 0))
    then RFC_EVENT_BAD_FRAME else RFC_EVENT_SABME
  else if type f =? RFCOMM_UA then
    if bad_control (RFCOMM_FRAME_IS_CMD initiator (cr f) || (pf f =? 0))
    then RFC_EVENT_BAD_FRAME else RFC_EVENT_UA
  else if type f =? RFCOMM_DM then
    if bad_control (RFCOMM_FRAME_IS_CMD initiator (cr f))
    then RFC_EVENT_BAD_FRAME else RFC_EVENT_DM
  else if type f =? RFCOMM_DISC then
    if bad_control (RFCOMM_FRAME_IS_RSP initiator (cr f) || (pf f =? 0))
    then RFC_EVENT_BAD_FRAME else RFC_EVENT_DISC
  else if type f =? RFCOMM_UIH then
    if negb (RFCOMM_VALID_DLCI (dlci f)) then RFC_EVENT_BAD_FRAME
    else if negb (rfc_check_fcs 2 p_start fcs) then RFC_EVENT_BAD_FRAME
    else RFC_EVENT_UIH
  else RFC_EVENT_BAD_FRAME.

(** After the address, the type and the length [n], the first [header] octets of [p]:
    the credit of a frame with flow control by credits, the information and the
    checksum. *)
Definition parse_body (m : tRFC_MCB) (f : MX_FRAME) (b : BT_HDR) (p : list Z) (header n : Z)
    : option (tRFC_EVENT * MX_FRAME * BT_HDR) :=
  if (flow m =? PORT_FC_CREDIT) && (type f =? RFCOMM_UIH) && negb (dlci f =? RFCOMM_MX_DLCI) &&
     (pf f =? 1)
  then
    if len b <? 1 then Some (RFC_EVENT_BAD_FRAME, f, b)
    else
      credits ← p !! Z.to_nat header;
      let f := set_credit credits f in
      let b := advance (len b - 1) 1 b in
      if negb (len b =? n) then Some (RFC_EVENT_BAD_FRAME, f, b)
      else
        fcs ← p !! Z.to_nat (header + 1 + n);
        Some (frame_event (is_initiator m) f n p fcs, f, b)
  else
    let f := set_credit 0 f in
    if negb (len b =? n) then Some (RFC_EVENT_BAD_FRAME, f, b)
    else
      fcs ← p !! Z.to_nat (header + n);
      Some (frame_event (is_initiator m) f n p fcs, f, b).

(** [None] when an octet outside of the buffer is read. *)
Definition rfc_parse_data (m : tRFC_MCB) (f : MX_FRAME) (b : BT_HDR)
    : option (tRFC_EVENT * MX_FRAME * BT_HDR) :=
  let p := contents b in
  if len b <? RFCOMM_CTRL_FRAME_LEN then Some (RFC_EVENT_BAD_FRAME, f, b)
  else
    x ← p !! 0%nat;
    let ead := Z.land x RFCOMM_EA in
    let c := Z.shiftr (Z.land x RFCOMM_CR_MASK) 1 in
    let d := Z.shiftr x 2 in
    if ead =? 0 then
      y ← p !! 1%nat;
      Some (RFC_EVENT_BAD_FRAME, set_addr (u8 (d + Z.shiftl y 6)) c f, b)
    else
      let f := set_addr d c f in
      y ← p !! 1%nat;
      let f := set_type (Z.land y (Z.lnot RFCOMM_PF)) (Z.shiftr (Z.land y RFCOMM_PF) 4) f in
      z ← p !! 2%nat;
      let eal := Z.land z RFCOMM_EA in
      let n := Z.shiftr z 1 in
      if (eal =? 0) && (len b =? RFCOMM_CTRL_FRAME_LEN) then Some (RFC_EVENT_BAD_FRAME, f, b)
      else
        n ← (if eal =? 0 then t ← p !! 3%nat; Some (u16 (n + Z.shiftl t 7)) else Some n);
        let header := 3 + b2z (eal =? 0) in
        if len b <? header + 1 then Some (RFC_EVENT_BAD_FRAME, f, b)
        else parse_body m f (advance (len b - (header + 1)) header b) p header n.

(** What [rfc_process_mx_message] does with a message. *)
Inductive MxAction :=
| mx_ignore
| mx_process_pn (is_command : bool)
| mx_send_test (b : BT_HDR)
| mx_process_test_rsp (b : BT_HDR)
| mx_process_fcon (is_command : bool)
| mx_process_fcoff (is_command : bool)
| mx_process_msc (is_command : bool)
| mx_process_nsc
| mx_process_rpn (is_command is_request : bool)
| mx_process_rls (is_command : bool)
| mx_send_nsc.

(** The message was not recognised. *)
Definition mx_unsupported (is_command : bool) (f : MX_FRAME) : option (MX_FRAME * MxAction) :=
  Some (f, if is_command then mx_send_nsc else mx_ignore).

(** The channel a message is about, if its address octet is valid. *)
Definition mx_channel (x : Z) : Z := Z.shiftr x 2.
Definition mx_channel_bad (x : Z) : bool :=
  (Z.land x RFCOMM_EA =? 0) || (Z.shiftr (Z.land x RFCOMM_CR_MASK) 1 =? 0) ||
  (mx_channel x =? 0) || negb (RFCOMM_VALID_DLCI (mx_channel x)).

Definition parse_pn (is_command : bool) (p : list Z) (n : Z) (f : MX_FRAME)
    : option (MX_FRAME * MxAction) :=
  if negb (n =? RFCOMM_MX_PN_LEN) then mx_unsupported is_command f
  else
    x0 ← p !! 0%nat; x1 ← p !! 1%nat; x2 ← p !! 2%nat; x3 ← p !! 3%nat;
    x4 ← p !! 4%nat; x5 ← p !! 5%nat; x6 ← p !! 6%nat; x7 ← p !! 7%nat;
    let pn := {| pn_frame_type := Z.land x1 0x0F; pn_conv_layer := Z.land x1 0xF0;
                 pn_priority := Z.land x2 0x3F; pn_t1 := x3; pn_mtu := u16 (x4 + Z.shiftl x5 8);
                 pn_n2 := x6; pn_k := Z.land x7 0x07 |} in
    let f := set_union (u_pn pn) (set_dlci (Z.land x0 0x3F) f) in
    if (dlci f =? 0) || negb (RFCOMM_VALID_DLCI (dlci f)) || (pn_mtu pn <? RFCOMM_MIN_MTU) ||
       (RFCOMM_MAX_MTU <? pn_mtu pn)
    then mx_unsupported is_command f
    else Some (f, mx_process_pn is_command).

Definition parse_msc (is_command : bool) (p : list Z) (n : Z) (f : MX_FRAME)
    : option (MX_FRAME * MxAction) :=
  if negb (n =? RFCOMM_MX_MSC_LEN_WITH_BREAK) && negb (n =? RFCOMM_MX_MSC_LEN_NO_BREAK)
  then Some (f, mx_ignore)
  else
    x0 ← p !! 0%nat;
    let f := set_dlci (mx_channel x0) f in
    if mx_channel_bad x0 then mx_unsupported is_command f
    else
      x1 ← p !! 1%nat;
      msc ← (if n =? RFCOMM_MX_MSC_LEN_WITH_BREAK then
               x2 ← p !! 2%nat;
               Some {| msc_signals := x1; msc_break_present := Z.land x2 0x02;
                       msc_break_duration := Z.shiftr (Z.land x2 0xF0) 4 |}
             else Some {| msc_signals := x1; msc_break_present := 0; msc_break_duration := 0 |});
      Some (set_union (u_msc msc) f, mx_process_msc is_command).

Definition parse_rpn (is_command : bool) (p : list Z) (n : Z) (f : MX_FRAME)
    : option (MX_FRAME * MxAction) :=
  if negb (n =? RFCOMM_MX_RPN_REQ_LEN) && negb (n =? RFCOMM_MX_RPN_LEN)
  then mx_unsupported is_command f
  else
    x0 ← p !! 0%nat;
    let f := set_dlci (mx_channel x0) f in
    if mx_channel_bad x0 then mx_unsupported is_command f
    else
      let is_request := n =? RFCOMM_MX_RPN_REQ_LEN in
      if is_request then Some (set_union (u_rpn None) f, mx_process_rpn is_command true)
      else
        x1 ← p !! 1%nat; x2 ← p !! 2%nat; x3 ← p !! 3%nat;
        x4 ← p !! 4%nat; x5 ← p !! 5%nat; x6 ← p !! 6%nat; x7 ← p !! 7%nat;
        let s := {| baud_rate := x1; byte_size := Z.land x2 0x03;
                    stop_bits := Z.land (Z.shiftr x2 2) 0x01; parity := Z.land (Z.shiftr x2 3) 0x01;
                    parity_type := Z.land (Z.shiftr x2 4) 0x03; fc_type := Z.land x3 0x3F;
                    rx_char1 := 0; xon_char := x4; xoff_char := x5 |} in
        let rpn := {| rpn_settings := s;
                      rpn_param_mask := Z.land (x6 + Z.shiftl x7 8) RFCOMM_RPN_PM_MASK |} in
        Some (set_union (u_rpn (Some rpn)) f, mx_process_rpn is_command false).

Definition parse_rls (is_command : bool) (p : list Z) (n : Z) (f : MX_FRAME)
    : option (MX_FRAME * MxAction) :=
  if negb (n =? RFCOMM_MX_RLS_LEN) then mx_unsupported is_command f
  else
    x0 ← p !! 0%nat; x1 ← p !! 1%nat;
    let f := set_union (u_rls (Z.land x1 (Z.lnot 0x01))) (set_dlci (mx_channel x0) f) in
    if mx_channel_bad x0 then mx_unsupported is_command f
    else Some (f, mx_process_rls is_command).

Definition parse_nsc (is_command : bool) (p : list Z) (n : Z) (f : MX_FRAME)
    : option (MX_FRAME * MxAction) :=
  if negb (n =? RFCOMM_MX_NSC_LEN) || negb is_command then mx_unsupported is_command f
  else
    x ← p !! 0%nat;
    Some (set_union (u_nsc (Z.land x RFCOMM_EA) (Z.shiftr (Z.land x RFCOMM_CR_MASK) 1) (Z.shiftr x 2)) f,
          mx_process_nsc).

(** The switch on the type; [p] is the message after its header, [n] its length. *)
Definition parse_message (b : BT_HDR) (is_command : bool) (p : list Z) (n : Z) (f : MX_FRAME)
    : option (MX_FRAME * MxAction) :=
  if type f =? RFCOMM_MX_PN then parse_pn is_command p n f
  else if type f =? RFCOMM_MX_TEST then
    if n =? 0 then mx_unsupported is_command f
    else
      let b := advance (len b - 2) 2 b in
      Some (set_union (u_test p) f,
            if is_command then mx_send_test b else mx_process_test_rsp b)
  else if type f =? RFCOMM_MX_FCON then
    if negb (n =? RFCOMM_MX_FCON_LEN) then mx_unsupported is_command f
    else Some (f, mx_process_fcon is_command)
  else if type f =? RFCOMM_MX_FCOFF then
    if negb (n =? RFCOMM_MX_FCOFF_LEN) then mx_unsupported is_command f
    else Some (f, mx_process_fcoff is_command)
  else if type f =? RFCOMM_MX_MSC then parse_msc is_command p n f
  else if type f =? RFCOMM_MX_NSC then parse_nsc is_command p n f
  else if type f =? RFCOMM_MX_RPN then parse_rpn is_command p n f
  else if type f =? RFCOMM_MX_RLS then parse_rls is_command p n f
  else mx_unsupported is_command f.

(** The length of a message is read into eight bits. *)
Definition rfc_process_mx_message (f : MX_FRAME) (b : BT_HDR) : option (MX_FRAME * MxAction) :=
  let p := contents b in
  if len b <? 2 then Some (f, mx_ignore)
  else
    x ← p !! 0%nat;
    let f := set_mx (Z.land x RFCOMM_EA) (Z.shiftr (Z.land x RFCOMM_CR_MASK) 1)
               (Z.land x (Z.lnot 0x03)) f in
    if ea f =? 0 then Some (f, mx_ignore)
    else
      let is_command := negb (cr f =? 0) in
      y ← p !! 1%nat;
      let two := Z.land y RFCOMM_EA =? 0 in
      let length := len b - 2 in
      if two && (length <? 1) then Some (f, mx_ignore)
      else
        mx_len ← (if two then t ← p !! 2%nat; Some (u8 (Z.shiftr y 1 + Z.shiftl t 7))
                  else Some (Z.shiftr y 1));
        let length := length - b2z two in
        if negb (mx_len =? length) then Some (f, mx_ignore)
        else parse_message b is_command (drop (2 + Z.to_nat (b2z two)) p) length f.

(** The congestion of the L2CAP channel, as [rfc_process_l2cap_congestion] takes it
    before it tells the ports. *)
Definition rfc_process_l2cap_congestion (is_congested : bool) (m : tRFC_MCB) : tRFC_MCB :=
  let m := set_written is_congested (cmd_q m) (written m) m in
  if is_congested then m else rfc_check_send_cmd None m.
End frames.

(** The parameters [rfc_process_msc] reads from the signals of a frame. *)
Definition msc_ctrl (msc : msc_pars) : tPORT_CTRL :=
  let signals := msc_signals msc in
  let bit (mask value acc : Z) := if Z.land signals mask =? 0 then acc else Z.lor acc value in
  {| modem_signal := bit 0x80 MODEM_SIGNAL_DCD (bit 0x40 MODEM_SIGNAL_RI
       (bit 0x08 MODEM_SIGNAL_RTSCTS (bit 0x04 MODEM_SIGNAL_DTRDSR 0)));
     break_signal := if msc_break_present msc =? 0 then 0 else msc_break_duration msc;
     fc := Z.land signals 0x02 =? 0x02 |}.

(** [rfc_set_port_settings]: the settings with the parameters of the frame in its mask. *)
Definition rfc_set_port_settings (s : PortSettings) (rpn : rpn_pars) : PortSettings :=
  let r := rpn_settings rpn in
  let pick (mask old new : Z) := if Z.land (rpn_param_mask rpn) mask =? 0 then old else new in
  {| baud_rate := pick 0x0001 (baud_rate s) (baud_rate r);
     byte_size := pick 0x0002 (byte_size s) (byte_size r);
     stop_bits := pick 0x0004 (stop_bits s) (stop_bits r);
     parity := pick 0x0008 (parity s) (parity r);
     parity_type := pick 0x0010 (parity_type s) (parity_type r);
     fc_type := pick 0x3F00 (fc_type s) (fc_type r);
     rx_char1 := rx_char1 s;
     xon_char := pick 0x0020 (xon_char s) (xon_char r);
     xoff_char := pick 0x0040 (xoff_char s) (xoff_char r) |}.
