(* ===== verification/RfcommFramesSpec.v ===== *)
(** * RFCOMM frames: properties

    The checksum is the cyclic redundancy check of TS 07.10 and finds every change
    of one octet; the peer reads the frames and the messages the way they were
    written; no received frame is read outside of its buffer; and the commands go
    to L2CAP in order. *)

From stdpp Require Import base list option.
From Stdlib Require Import ZArith Lia.
From S2P Require Import Prelude RfcommFrames.

Open Scope Z_scope.

(** ** The checksum *)

(** One bit of the division by x^8 + x^2 + x + 1, least significant bit first. *)
Definition crc_bit (x : Z) : Z :=
  if Z.odd x then Z.lxor (Z.shiftr x 1) 0xE0 else Z.shiftr x 1.
Definition crc_octet (fcs p : Z) : Z := Nat.iter 8 crc_bit (Z.lxor fcs p).

(** The ones complement of the remainder, from a register of ones. *)
Definition crc (p : list Z) : Z := Z.lxor 0xFF (fold_left crc_octet p 0xFF).

(** A step backwards. *)
Definition uncrc_bit (x : Z) : Z :=
  if Z.testbit x 7 then Z.lor (Z.shiftl (Z.lxor x 0xE0) 1) 1 else Z.shiftl x 1.

Lemma crctable_crc x : byte x -> rfc_crctable.[Z.to_nat x] = Nat.iter 8 crc_bit x.
Proof.
  apply (forall_byte_eq (fun x => rfc_crctable.[Z.to_nat x]) (Nat.iter 8 crc_bit)).
  vm_compute. reflexivity.
Qed.

Lemma fcs_step_crc f p : byte f -> byte p -> fcs_step f p = crc_octet f p.
Proof. intros Hf Hp. apply crctable_crc. by apply byte_lxor. Qed.

Lemma crc_bits_byte x : byte x -> byte (Nat.iter 8 crc_bit x).
Proof.
  intros Hx.
  pose proof (forall_byte (fun x => let y := Nat.iter 8 crc_bit x in (0 <=? y) && (y <? 256))
    ltac:(vm_compute; reflexivity) x Hx) as H. cbv zeta in H.
  apply andb_prop in H as [H1 H2]. unfold in_range. lia.
Qed.

Lemma crc_bits_inj x y : byte x -> byte y -> Nat.iter 8 crc_bit x = Nat.iter 8 crc_bit y -> x = y.
Proof.
  intros Hx Hy E.
  assert (U : forall x, byte x -> Nat.iter 8 uncrc_bit (Nat.iter 8 crc_bit x) = x)
    by (apply (forall_byte_eq (fun x => Nat.iter 8 uncrc_bit (Nat.iter 8 crc_bit x)) (fun x => x));
        vm_compute; reflexivity).
  rewrite <- (U x Hx), <- (U y Hy). by rewrite E.
Qed.

Lemma crc_octet_byte f p : byte f -> byte p -> byte (crc_octet f p).
Proof. intros. by apply crc_bits_byte, byte_lxor. Qed.

Lemma byte_ones : byte 0xFF.
Proof. unfold in_range. lia. Qed.

Lemma crc_fold_byte p f : Forall byte p -> byte f -> byte (fold_left crc_octet p f).
Proof.
  revert f. induction p as [|x p IH]; intros f F Hf; [done|]. inversion_clear F. cbn [fold_left].
  apply IH; [done|]. by apply crc_octet_byte.
Qed.

Lemma fcs_fold_crc p f : Forall byte p -> byte f -> fold_left fcs_step p f = fold_left crc_octet p f.
Proof.
  revert f. induction p as [|x p IH]; intros f F Hf; [done|]. inversion_clear F as [|? ? Hx Hp]. cbn [fold_left].
  rewrite fcs_step_crc by done. apply IH; [done|]. by apply crc_octet_byte.
Qed.

Lemma ones_complement x : byte x -> 0xFF - x = Z.lxor 0xFF x.
Proof.
  apply (forall_byte_eq (fun x => 0xFF - x) (Z.lxor 0xFF)). vm_compute. reflexivity.
Qed.

Lemma calc_fcs_crc n p : Forall byte (take n p) -> rfc_calc_fcs n p = crc (take n p).
Proof.
  intros F. unfold rfc_calc_fcs, crc.
  rewrite fcs_fold_crc by (done || apply byte_ones).
  apply ones_complement, crc_fold_byte; [done|apply byte_ones].
Qed.

Lemma crc_byte p : Forall byte p -> byte (crc p).
Proof. intros F. apply byte_lxor; [apply byte_ones|]. apply crc_fold_byte; [done|apply byte_ones]. Qed.

Lemma check_fcs_crc n p r :
  Forall byte (take n p) -> byte r -> rfc_check_fcs n p r = (r =? crc (take n p)).
Proof.
  intros F Hr. unfold rfc_check_fcs, crc.
  rewrite fcs_fold_crc by (done || apply byte_ones).
  pose proof (crc_fold_byte (take n p) 0xFF F byte_ones) as Hc. set (c := fold_left _ _ _) in *.
  clearbody c. rewrite fcs_step_crc by done. unfold crc_octet.
  change 0xCF with (Nat.iter 8 crc_bit 0xFF).
  apply eq_iff_eq_true. rewrite !Z.eqb_eq. split.
  - intros E. apply crc_bits_inj in E; [|by apply byte_lxor|apply byte_ones]. rewrite <- E. xor_bits.
  - intros ->. f_equal. xor_bits.
Qed.

Lemma crc_fold_inj p f g : Forall byte p -> byte f -> byte g ->
  fold_left crc_octet p f = fold_left crc_octet p g -> f = g.
Proof.
  revert f g. induction p as [|x p IH]; intros f g F Hf Hg; [done|]. inversion_clear F as [|? ? Hx Hp].
  cbn [fold_left]. intros E. apply IH in E; [|done|by apply crc_octet_byte..].
  apply crc_bits_inj in E; [|by apply byte_lxor..].
  assert (Z.lxor (Z.lxor f x) x = Z.lxor (Z.lxor g x) x) as E2 by (by rewrite E).
  by rewrite !Z.lxor_assoc, Z.lxor_nilpotent, !Z.lxor_0_r in E2.
Qed.

(** The checksum computed with the table is the ones complement of the remainder
    of the division by x^8 + x^2 + x + 1; a received checksum is accepted exactly
    when it is that; and a frame with one octet changed is not accepted with the
    checksum of the original. *)
Theorem rfcomm_fcs_correct (p q : list Z) (x y r : Z) :
  Forall byte p -> Forall byte q -> byte x -> byte y -> byte r ->
  let n := length (p ++ x :: q) in
  rfc_calc_fcs n (p ++ x :: q) = crc (p ++ x :: q) /\
  (rfc_check_fcs n (p ++ x :: q) r = true <-> r = crc (p ++ x :: q)) /\
  (x <> y -> rfc_check_fcs n (p ++ y :: q) (crc (p ++ x :: q)) = false).
Proof.
  intros Fp Fq Hx Hy Hr n.
  assert (Fx : Forall byte (p ++ x :: q)) by (apply Forall_app; split; [done|by constructor]).
  assert (Fy : Forall byte (p ++ y :: q)) by (apply Forall_app; split; [done|by constructor]).
  assert (T : forall z, take n (p ++ z :: q) = p ++ z :: q).
  { intros z. apply firstn_all2. unfold n. rewrite !length_app. cbn. lia. }
  rewrite calc_fcs_crc, !check_fcs_crc, !T by (rewrite ?T; done || by apply crc_byte).
  split; [done|]. split; [apply Z.eqb_eq|].
  intros N. apply Z.eqb_neq. unfold crc. intros E.
  apply (f_equal (Z.lxor 0xFF)) in E.
  rewrite <- !Z.lxor_assoc, Z.lxor_nilpotent, !Z.lxor_0_l, !fold_left_app in E. cbn [fold_left] in E.
  pose proof (crc_fold_byte p 0xFF Fp byte_ones) as Hc.
  apply crc_fold_inj in E; [|done|by apply crc_octet_byte..].
  apply crc_bits_inj in E; [|by apply byte_lxor..].
  apply N. apply (f_equal (Z.lxor (fold_left crc_octet p 0xFF))) in E.
  by rewrite <- !Z.lxor_assoc, Z.lxor_nilpotent, !Z.lxor_0_l in E.
Qed.

Lemma rfcomm_fcs_correct_witness :
  rfc_calc_fcs 3 [0x0B; 0x3F; 0x01] = crc [0x0B; 0x3F; 0x01] /\
  rfc_check_fcs 3 [0x0B; 0x3E; 0x01] (crc [0x0B; 0x3F; 0x01]) = false.
Proof.
  destruct (rfcomm_fcs_correct [0x0B] [0x01] 0x3F 0x3E 0) as (H1 & _ & H2);
    [by_decide..|]. split; [exact H1|]. apply H2. discriminate.
Defined.

(** ** Buffers *)

(** What a buffer holds is in its data area, and the fields are in range. *)
Definition buffer_ok (b : BT_HDR) : Prop :=
  0 <= offset b /\ 0 <= len b /\ offset b + len b <= Z.of_nat (length (data b)) /\
  offset b + len b < 2 ^ 16.

#[export] Instance buffer_ok_dec b : Decision (buffer_ok b).
Proof. unfold buffer_ok. apply _. Defined.

Lemma contents_length b : buffer_ok b -> Z.of_nat (length (contents b)) = len b.
Proof.
  intros (H1 & H2 & H3 & H4). unfold contents. rewrite length_take, length_drop. lia.
Qed.

Lemma contents_advance n k b : buffer_ok b -> 0 <= k -> 0 <= n -> k + n <= len b ->
  buffer_ok (advance n k b) /\
  contents (advance n k b) = take (Z.to_nat n) (drop (Z.to_nat k) (contents b)).
Proof.
  intros (H1 & H2 & H3 & H4) Hk Hn Hl. unfold advance, contents, buffer_ok. cbn.
  rewrite wrap_small by (unfold in_range; lia). split; [lia|].
  rewrite skipn_firstn_comm, drop_drop, take_take. f_equal; [lia|f_equal; lia].
Qed.

(** A data area around a hole. *)
Lemma put_app pre old post l : length old = length l ->
  put (Z.of_nat (length pre)) l (pre ++ old ++ post) = Some (pre ++ l ++ post).
Proof.
  intros E. unfold put. rewrite !length_app.
  destruct (Z.leb_spec 0 (Z.of_nat (length pre))); [|lia].
  destruct (Z.leb_spec (Z.of_nat (length pre) + Z.of_nat (length l))
    (Z.of_nat (length pre + (length old + length post)))); [|lia].
  cbn [andb]. rewrite Nat2Z.id, take_app_length.
  rewrite <- drop_drop, drop_app_length, <- E, drop_app_length. done.
Qed.

Lemma put_at p pre old post l : p = Z.of_nat (length pre) -> length old = length l ->
  put p l (pre ++ old ++ post) = Some (pre ++ l ++ post).
Proof. intros ->. apply put_app. Qed.

Lemma split_at (k : nat) (l : list Z) : (k <= length l)%nat ->
  exists a b, l = a ++ b /\ length a = k /\ length b = (length l - k)%nat.
Proof.
  intros H. exists (take k l), (drop k l). rewrite take_drop, length_take, length_drop. split; [done|]. lia.
Qed.

Lemma contents_app pre l post ls : Z.of_nat (length pre + length l) < 2 ^ 16 ->
  let b := {| data := pre ++ l ++ post; offset := Z.of_nat (length pre);
              len := Z.of_nat (length l); layer_specific := ls |} in
  contents b = l /\ buffer_ok b.
Proof.
  intros H b. unfold contents, buffer_ok. cbn. rewrite !Nat2Z.id, drop_app_length, take_app_length.
  rewrite !length_app. split; [done|]. lia.
Qed.

Section frames.
Context (malloc : nat -> list Z) (congests : list (list Z) -> bool).
Hypothesis malloc_length : forall n, length (malloc n) = n.

Abbreviation rfc_check_send_cmd := (rfc_check_send_cmd congests).

(** A frame without information. *)
Lemma send_control_frame a c m : exists b,
  send_control malloc congests a c m = Some (rfc_check_send_cmd (Some b) m) /\
  buffer_ok b /\ contents b = [a; c; 1; rfc_calc_fcs 3 [a; c; 1]].
Proof.
  unfold send_control. pose proof (malloc_length RFCOMM_CMD_BUF_DATA) as L. revert L.
  generalize (malloc RFCOMM_CMD_BUF_DATA). intros mem L. change RFCOMM_CMD_BUF_DATA with 652%nat in L.
  destruct (split_at 13 mem) as (pre & r & -> & L1 & L2); [lia|]. rewrite length_app, L1 in L.
  destruct (split_at 3 r) as (old & r' & -> & L3 & L4); [lia|].
  rewrite length_app, L3 in L. destruct r' as [|x post]; [cbn in L; lia|].
  rewrite (put_at _ pre old (x :: post)) by (rewrite ?L1; done). cbn [mbind option_bind].
  change (Z.lor RFCOMM_EA 0) with 1.
  rewrite (app_assoc pre [a; c; 1]). change (x :: post) with ([x] ++ post).
  rewrite (put_at _ (pre ++ [a; c; 1]) [x] post) by (rewrite ?length_app, ?L1; done).
  cbn [mbind option_bind]. eexists. split; [reflexivity|].
  rewrite <- !app_assoc. change (Z.to_nat L2CAP_MIN_OFFSET) with 13%nat. rewrite <- L1, drop_app_length.
  cbn [app]. set (s := rfc_calc_fcs _ _).
  assert (s = rfc_calc_fcs 3 [a; c; 1]) as -> by done.
  pose proof (contents_app pre [a; c; 1; rfc_calc_fcs 3 [a; c; 1]] post 0) as [C B];
    [rewrite L1; cbn; lia|]. rewrite L1 in C, B. split; [exact B|exact C].
Qed.

(** ** Frames with information *)

Lemma uih_header_length c d credits n :
  Z.of_nat (length (uih_header c d credits n)) = 3 + b2z (127 <? n) + b2z (negb (credits =? 0)).
Proof. unfold uih_header. by zcmp; try lia. Qed.

Lemma calc_fcs_app c d credits n l :
  rfc_calc_fcs 2 (uih_header c d credits n ++ l) = rfc_calc_fcs 2 (uih_header c d credits n).
Proof. done. Qed.

(** The credits that go with the information. *)
Definition uih_credits (d : Z) (b : BT_HDR) : Z := if d =? 0 then 0 else u8 (layer_specific b).

Lemma uih_frame_spec c d b :
  let header := uih_header c d (uih_credits d b) (len b) in
  buffer_ok b -> Z.of_nat (length header) <= offset b ->
  offset b + len b < Z.of_nat (length (data b)) -> offset b + len b + 1 < 2 ^ 16 ->
  exists b', uih_frame c d b = Some b' /\ buffer_ok b' /\
    contents b' = header ++ contents b ++ [rfc_calc_fcs 2 header].
Proof.
  intros header (H1 & H2 & H3 & H4) Ho Hd Hl. pose proof (uih_header_length c d (uih_credits d b) (len b)) as Lh.
  fold header in Lh. unfold uih_frame. fold (uih_credits d b). fold header.
  set (off := if uih_credits d b =? 0 then _ else _).
  assert (off = offset b - Z.of_nat (length header)) as ->.
  { unfold off. rewrite Lh. unfold RFCOMM_CTRL_FRAME_LEN. rewrite Lh in Ho.
    destruct (127 <? len b), (uih_credits d b =? 0); cbn [b2z negb] in *;
      rewrite (wrap_small 16 (offset b - 3)) by (unfold in_range; lia);
      rewrite ?(wrap_small 16 (offset b - 3 - 1)) by (unfold in_range; lia);
      rewrite ?(wrap_small 16 (offset b - 3 - 1 - 1)) by (unfold in_range; lia); lia. }
  assert (Hf : forall l, rfc_calc_fcs 2 (header ++ l) = rfc_calc_fcs 2 header) by done.
  clear Lh. clearbody header. destruct b as [mem o n ls]. cbn in *.
  assert (exists off, 0 <= off /\ off + Z.of_nat (length header) = o /\ o - Z.of_nat (length header) = off)
    as (off & Hoff & Eo & ->) by (exists (o - Z.of_nat (length header)); lia).
  destruct (split_at (Z.to_nat off) mem) as (pre & r & -> & L1 & L2); [lia|]. rewrite length_app in *.
  destruct (split_at (length header) r) as (old & r1 & -> & L3 & L4); [lia|]. rewrite length_app in *.
  destruct (split_at (Z.to_nat n) r1) as (info & r2 & -> & L5 & L6); [lia|]. rewrite length_app in *.
  destruct r2 as [|x post]; [cbn in *; lia|].
  rewrite (put_at off pre old (info ++ x :: post)) by (done || lia). cbn [mbind option_bind].
  rewrite (wrap_small 16 (n + _)) by (unfold in_range; lia).
  replace (pre ++ header ++ info ++ x :: post) with ((pre ++ header ++ info) ++ [x] ++ post)
    by (by rewrite <- !app_assoc).
  rewrite (put_at _ (pre ++ header ++ info) [x] post) by (rewrite ?length_app; done || lia).
  cbn [mbind option_bind]. eexists. split; [reflexivity|].
  assert (E0 : contents {| data := pre ++ old ++ info ++ x :: post; offset := o; len := n;
    layer_specific := ls |} = info).
  { pose proof (contents_app (pre ++ old) info (x :: post) ls) as [C _];
      [rewrite length_app; lia|]. rewrite length_app, <- app_assoc in C.
    replace (Z.of_nat (length pre + length old)) with o in C by lia.
    replace (Z.of_nat (length info)) with n in C by lia. exact C. }
  rewrite E0.
  rewrite <- !app_assoc, <- L1, drop_app_length, Hf. clear E0.
  pose proof (contents_app pre (header ++ info ++ [rfc_calc_fcs 2 header]) post ls) as [C B];
    [rewrite !length_app; cbn; lia|]. rewrite !length_app, <- !app_assoc in C, B. cbn [length] in C, B.
  rewrite wrap_small by (unfold in_range; lia).
  replace (n + Z.of_nat (length header) + 1) with (Z.of_nat (length header + (length info + 1))) by lia.
  replace off with (Z.of_nat (length pre)) by lia. split; [exact B|exact C].
Qed.

(** ** Fields *)

(** The address octet of a frame: the command bit and the channel. *)
Lemma address_field_read c d : c = 0 \/ c = 2 -> 0 <= d < 64 ->
  let a := address_field c d in
  byte a /\ Z.land a RFCOMM_EA = 1 /\ Z.shiftr (Z.land a RFCOMM_CR_MASK) 1 = c / 2 /\ Z.shiftr a 2 = d.
Proof.
  intros Hc Hd.
  assert (H : forall c, c = 0 \/ c = 2 ->
    forallb (fun d => negb (d <? 64) || (let a := address_field c d in
      bool_decide (byte a) && (Z.land a RFCOMM_EA =? 1) &&
      (Z.shiftr (Z.land a RFCOMM_CR_MASK) 1 =? c / 2) && (Z.shiftr a 2 =? d))) (seqZ 0 256) = true)
    by (intros x [-> | ->]; vm_compute; reflexivity).
  pose proof (forall_byte _ (H c Hc) d ltac:(unfold in_range; lia)) as E. cbv beta zeta in E.
  destruct (Z.ltb_spec d 64); [|lia]. cbn [negb orb] in E.
  rewrite !andb_true_iff, bool_decide_eq_true, !Z.eqb_eq in E. naive_solver.
Qed.

(** The length in one octet. *)
Lemma short_length_read n : 0 <= n <= 127 ->
  let z := u8 (Z.lor RFCOMM_EA (Z.shiftl n 1)) in
  byte z /\ Z.land z RFCOMM_EA = 1 /\ Z.shiftr z 1 = n.
Proof.
  intros Hn.
  assert (H : forallb (fun n => negb (n <=? 127) || (let z := u8 (Z.lor RFCOMM_EA (Z.shiftl n 1)) in
      bool_decide (byte z) && (Z.land z RFCOMM_EA =? 1) && (Z.shiftr z 1 =? n))) (seqZ 0 256) = true)
    by (vm_compute; reflexivity).
  pose proof (forall_byte _ H n ltac:(unfold in_range; lia)) as E. cbv beta zeta in E.
  destruct (Z.leb_spec n 127); [|lia]. cbn [negb orb] in E.
  rewrite !andb_true_iff, bool_decide_eq_true, !Z.eqb_eq in E. naive_solver.
Qed.

(** The length in two octets. *)
Lemma long_length_read n : 0 <= n < 2 ^ 15 ->
  let z := u8 (Z.shiftl (Z.land n 0x7f) 1) in let t := u8 (Z.shiftr n 7) in
  byte z /\ byte t /\ Z.land z RFCOMM_EA = 0 /\ u16 (Z.shiftr z 1 + Z.shiftl t 7) = n.
Proof.
  intros Hn. cbv zeta. change 0x7f with (Z.ones 7). change RFCOMM_EA with (Z.ones 1).
  rewrite !Z.land_ones, !Z.shiftl_mul_pow2, !Z.shiftr_div_pow2 by lia.
  change (2 ^ 1) with 2. change (2 ^ 7) with 128 in *. change (2 ^ 15) with 32768 in *.
  rewrite (wrap_small 8 (n mod 128 * 2)), (wrap_small 8 (n / 128)), wrap_small;
    unfold in_range; change (2 ^ 8) with 256; change (2 ^ 16) with 65536; dmlia.
Qed.

Lemma check_calc n p q : Forall byte (take n p) -> take n q = take n p ->
  rfc_check_fcs n q (rfc_calc_fcs n p) = true.
Proof.
  intros F E. rewrite calc_fcs_crc by done. rewrite check_fcs_crc by (rewrite ?E; done || by apply crc_byte).
  rewrite E. apply Z.eqb_refl.
Qed.

Lemma valid_dlci_range d : RFCOMM_VALID_DLCI d = true -> 0 <= d < 64.
Proof.
  unfold RFCOMM_VALID_DLCI, RFCOMM_MAX_DLCI. rewrite orb_true_iff, andb_true_iff, Z.eqb_eq, !Z.leb_le. lia.
Qed.

(** ** Reading *)

(** The frame the parser fills in. *)
Definition read_frame (f : MX_FRAME) (d t c p credits : Z) : MX_FRAME :=
  {| dlci := d; type := t; cr := c; ea := ea f; pf := p; credit := credits; u := u f |}.

Lemma lookup_last (p : list Z) (x : Z) : (p ++ [x]) !! length p = Some x.
Proof. by apply list_lookup_middle. Qed.

(** The octets of a length: [n] after the first octet [z]. *)
Definition length_octets (z : Z) (ext : list Z) (n : Z) : Prop :=
  (ext = [] /\ Z.land z RFCOMM_EA = 1 /\ Z.shiftr z 1 = n) \/
  (exists t, ext = [t] /\ Z.land z RFCOMM_EA = 0 /\ u16 (Z.shiftr z 1 + Z.shiftl t 7) = n).

(** A frame with a credit octet. *)
Definition has_credit (m : tRFC_MCB) (d t p : Z) : bool :=
  (flow m =? PORT_FC_CREDIT) && (t =? RFCOMM_UIH) && negb (d =? RFCOMM_MX_DLCI) && (p =? 1).

Lemma parse_body_ok m f b hd cred info fcs :
  let p := hd ++ cred ++ info ++ [fcs] in
  buffer_ok b -> contents b = cred ++ info ->
  length cred = (if has_credit m (dlci f) (type f) (pf f) then 1 else 0)%nat ->
  let f' := set_credit (default 0 (head cred)) f in
  exists b', parse_body m f b p (Z.of_nat (length hd)) (Z.of_nat (length info)) =
      Some (frame_event (is_initiator m) f' (Z.of_nat (length info)) p fcs, f', b') /\
    buffer_ok b' /\ contents b' = info.
Proof.
  intros p B Ec Hw f'. pose proof (contents_length b B) as Lb. rewrite Ec, length_app in Lb.
  assert (Lp : p !! (length hd + length cred + length info)%nat = Some fcs).
  { unfold p. rewrite !app_assoc, <- !length_app. apply lookup_last. }
  unfold parse_body. fold (has_credit m (dlci f) (type f) (pf f)).
  destruct (has_credit m (dlci f) (type f) (pf f)).
  - destruct cred as [|k [|]]; try done. cbn [length] in *.
    destruct (Z.ltb_spec (len b) 1) as [?|_]; [lia|].
    assert (p !! Z.to_nat (Z.of_nat (length hd)) = Some k) as ->.
    { rewrite Nat2Z.id. by apply list_lookup_middle. }
    cbn [mbind option_bind]. destruct (contents_advance (len b - 1) 1 b B) as [B' C']; [lia..|].
    change (len (advance _ _ _)) with (len b - 1).
    destruct (Z.eqb_spec (len b - 1) (Z.of_nat (length info))) as [_|?]; [|lia]. cbn [negb].
    replace (Z.to_nat _) with (length hd + 1 + length info)%nat by lia. rewrite Lp.
    eexists. split; [reflexivity|]. split; [done|]. rewrite C', Ec. cbn.
    replace (Z.to_nat (len b - 1)) with (length info) by lia. apply firstn_all.
  - destruct cred; [|done]. cbn [length] in *.
    destruct (Z.eqb_spec (len b) (Z.of_nat (length info))) as [_|?]; [|lia]. cbn [negb].
    replace (Z.to_nat _) with (length hd + 0 + length info)%nat by lia. rewrite Lp.
    eexists. split; [reflexivity|]. by split.
Qed.

Lemma parse_frame m f b a y z ext cred info fcs :
  buffer_ok b -> contents b = [a; y; z] ++ ext ++ cred ++ info ++ [fcs] ->
  Z.land a RFCOMM_EA = 1 -> length_octets z ext (Z.of_nat (length info)) ->
  let d := Z.shiftr a 2 in
  let t := Z.land y (Z.lnot RFCOMM_PF) in let p := Z.shiftr (Z.land y RFCOMM_PF) 4 in
  length cred = (if has_credit m d t p then 1 else 0)%nat ->
  let f' := read_frame f d t (Z.shiftr (Z.land a RFCOMM_CR_MASK) 1) p (default 0 (head cred)) in
  exists b', rfc_parse_data m f b =
      Some (frame_event (is_initiator m) f' (Z.of_nat (length info)) (contents b) fcs, f', b') /\
    buffer_ok b' /\ contents b' = info.
Proof.
  intros B Ec Ha Hz d t p Hw f'. pose proof (contents_length b B) as Lb.
  unfold rfc_parse_data. rewrite Ec in Lb. rewrite !length_app in Lb. cbn [length] in Lb.
  unfold RFCOMM_CTRL_FRAME_LEN.
  destruct (Z.ltb_spec (len b) 3) as [?|_]; [lia|].
  assert (contents b !! 0%nat = Some a) as -> by (by rewrite Ec).
  assert (contents b !! 1%nat = Some y) as -> by (by rewrite Ec).
  assert (contents b !! 2%nat = Some z) as -> by (by rewrite Ec).
  cbn [mbind option_bind]. rewrite Ha. change (1 =? 0) with false. cbv iota.
  cbn [set_addr set_type set_credit dlci type cr ea pf credit u]. fold d t p.
  set (g := set_type _ _ _).
  assert (exists h, length h = (3 + length ext)%nat /\ contents b = h ++ cred ++ info ++ [fcs] /\
    Z.of_nat (length h) = 3 + b2z (Z.land z RFCOMM_EA =? 0) /\
    (Z.land z RFCOMM_EA =? 0) && (len b =? 3) = false /\
    (if Z.land z RFCOMM_EA =? 0 then t0 ← contents b !! 3%nat; Some (u16 (Z.shiftr z 1 + Z.shiftl t0 7))
     else Some (Z.shiftr z 1)) = Some (Z.of_nat (length info))) as (h & Lh & Eh & Hh & -> & ->).
  { exists ([a; y; z] ++ ext). split; [done|]. split; [by rewrite Ec, <- app_assoc|].
    destruct Hz as [(-> & -> & ->)|(t0 & -> & -> & <-)]; (split; [done|]); (split; [|by rewrite ?Ec]).
    - done.
    - cbn [length] in *. change (0 =? 0) with true. cbn [andb]. apply Z.eqb_neq. lia. }
  cbn [mbind option_bind]. rewrite <- Hh. destruct (Z.ltb_spec (len b) (Z.of_nat (length h) + 1)) as [?|_]; [lia|].
  destruct (contents_advance (len b - (Z.of_nat (length h) + 1)) (Z.of_nat (length h)) b B) as [B' C'];
    [lia..|].
  destruct (parse_body_ok m g (advance (len b - (Z.of_nat (length h) + 1)) (Z.of_nat (length h)) b)
    h cred info fcs) as (b' & H & B2 & C2); [done| |exact Hw|].
  - rewrite C', Nat2Z.id, Eh, drop_app_length, app_assoc.
    apply take_app_length'. rewrite length_app. lia.
  - rewrite <- Eh in H. rewrite H. by exists b'.
Qed.

Lemma parse_uih m f b c d credits info :
  buffer_ok b -> c = 0 \/ c = 2 -> RFCOMM_VALID_DLCI d = true -> byte credits ->
  credits = 0 \/ (flow m = PORT_FC_CREDIT /\ d <> 0) -> Z.of_nat (length info) < 2 ^ 15 ->
  let header := uih_header c d credits (Z.of_nat (length info)) in
  contents b = header ++ info ++ [rfc_calc_fcs 2 header] ->
  exists b', rfc_parse_data m f b = Some (RFC_EVENT_UIH,
      read_frame f d RFCOMM_UIH (c / 2) (b2z (negb (credits =? 0))) credits, b') /\
    buffer_ok b' /\ contents b' = info.
Proof.
  intros B Hc Hd Hr Hf Hn header Ec.
  destruct (address_field_read c d Hc (valid_dlci_range d Hd)) as (A1 & A2 & A3 & A4).
  assert (F2 : Forall byte (take 2 header)).
  { unfold header. cbn [uih_header app take]. constructor; [done|]. constructor; [|constructor].
    by destruct (credits =? 0). }
  pose proof (check_calc 2 header (contents b) F2 ltac:(by rewrite Ec)) as K.
  set (s := rfc_calc_fcs 2 header) in *.
  set (y := Z.lor RFCOMM_UIH (if credits =? 0 then 0 else RFCOMM_PF)).
  assert (Ey : Z.land y (Z.lnot RFCOMM_PF) = RFCOMM_UIH /\
    Z.shiftr (Z.land y RFCOMM_PF) 4 = b2z (negb (credits =? 0))) by (unfold y; by destruct (credits =? 0)).
  assert (exists z ext, uih_header c d credits (Z.of_nat (length info)) =
    [address_field c d; y; z] ++ ext ++ (if credits =? 0 then [] else [credits]) /\
    length_octets z ext (Z.of_nat (length info))) as (z & ext & Eh & Hz).
  { unfold uih_header. destruct (Z.leb_spec (Z.of_nat (length info)) 127).
    - eexists _, []. split; [reflexivity|]. left. split; [done|].
      apply (short_length_read (Z.of_nat (length info))). lia.
    - eexists _, [_]. split; [reflexivity|]. right. eexists. split; [reflexivity|].
      apply (long_length_read (Z.of_nat (length info))). lia. }
  destruct (parse_frame m f b (address_field c d) y z ext (if credits =? 0 then [] else [credits]) info s)
    as (b' & H & B' & C'); [done|by rewrite Ec; unfold header; rewrite Eh, <- !app_assoc|done..| |].
  - rewrite A4, (proj1 Ey), (proj2 Ey). unfold has_credit.
    destruct (Z.eqb_spec credits 0) as [->|N]; cbn [negb b2z]; [by rewrite andb_false_r|].
    destruct Hf as [?|[-> N2]]; [done|]. apply Z.eqb_neq in N2. unfold RFCOMM_MX_DLCI. by rewrite N2.
  - exists b'. rewrite H, A3, A4, (proj1 Ey), (proj2 Ey). split; [|done].
    unfold frame_event. cbn [read_frame type dlci]. rewrite Hd, K. cbn [negb].
    do 3 f_equal. by destruct (Z.eqb_spec credits 0) as [->|].
Qed.

(** A frame without information. *)
Lemma parse_control m f b c d k :
  buffer_ok b -> c = 0 \/ c = 2 -> RFCOMM_VALID_DLCI d = true -> byte k ->
  Z.land k (Z.lnot RFCOMM_PF) <> RFCOMM_UIH ->
  let a := address_field c d in
  contents b = [a; k; 1; rfc_calc_fcs 3 [a; k; 1]] ->
  let f' := read_frame f d (Z.land k (Z.lnot RFCOMM_PF)) (c / 2) (Z.shiftr (Z.land k RFCOMM_PF) 4) 0 in
  exists b', rfc_parse_data m f b = Some (frame_event (is_initiator m) f' 0 (contents b)
      (rfc_calc_fcs 3 [a; k; 1]), f', b') /\
    rfc_check_fcs 3 (contents b) (rfc_calc_fcs 3 [a; k; 1]) = true.
Proof.
  intros B Hc Hd Hk Hn a Ec f'.
  destruct (address_field_read c d Hc (valid_dlci_range d Hd)) as (A1 & A2 & A3 & A4).
  destruct (parse_frame m f b a k 1 [] [] [] (rfc_calc_fcs 3 [a; k; 1])) as (b' & H & _); try done.
  - by left.
  - unfold has_credit. apply Z.eqb_neq in Hn. rewrite Hn. by rewrite andb_false_r.
  - exists b'. unfold f'. rewrite H. unfold a. rewrite A3, A4. split; [done|].
    apply check_calc; [|by rewrite Ec]. cbn [take]. constructor; [done|]. by repeat (constructor; [done|]).
Qed.

(** ** Round trips *)

Inductive ControlFrame := Sabme | Ua | Dm (p : bool) | Disc.

Definition send_frame (k : ControlFrame) (d : Z) (m : tRFC_MCB) : option tRFC_MCB :=
  match k with
  | Sabme => rfc_send_sabme malloc congests d m
  | Ua => rfc_send_ua malloc congests d m
  | Dm p => rfc_send_dm malloc congests d p m
  | Disc => rfc_send_disc malloc congests d m
  end.

Definition control_event (k : ControlFrame) : tRFC_EVENT :=
  match k with
  | Sabme => RFC_EVENT_SABME | Ua => RFC_EVENT_UA | Dm _ => RFC_EVENT_DM | Disc => RFC_EVENT_DISC
  end.
Definition control_pf (k : ControlFrame) : Z := match k with Dm p => b2z p | _ => 1 end.

Definition control_cr (k : ControlFrame) (initiator : bool) : Z :=
  RFCOMM_CR initiator (match k with Sabme | Disc => true | _ => false end).
Definition control_type (k : ControlFrame) : Z :=
  match k with
  | Sabme => Z.lor RFCOMM_SABME RFCOMM_PF | Ua => Z.lor RFCOMM_UA RFCOMM_PF
  | Dm p => Z.lor RFCOMM_DM (if p then RFCOMM_PF else 0) | Disc => Z.lor RFCOMM_DISC RFCOMM_PF
  end.

Lemma send_frame_control k d m : send_frame k d m =
  send_control malloc congests (address_field (control_cr k (is_initiator m)) d) (control_type k) m.
Proof. by destruct k. Qed.

Lemma control_type_fields k : byte (control_type k) /\
  Z.land (control_type k) (Z.lnot RFCOMM_PF) <> RFCOMM_UIH /\
  Z.shiftr (Z.land (control_type k) RFCOMM_PF) 4 = control_pf k.
Proof. destruct k as [| |[|]|]; by_decide. Qed.

Lemma control_cr_values k i : control_cr k i = 0 \/ control_cr k i = 2.
Proof. destruct k, i; auto. Qed.

Lemma control_frame_event k d i f p fcs :
  RFCOMM_VALID_DLCI d = true -> rfc_check_fcs 3 p fcs = true ->
  frame_event (negb i) (read_frame f d (Z.land (control_type k) (Z.lnot RFCOMM_PF))
    (control_cr k i / 2) (control_pf k) 0) 0 p fcs = control_event k.
Proof.
  intros Hd Hc. unfold frame_event.
  destruct k as [| |[|]|], i; cbn [read_frame dlci cr pf type]; rewrite Hd, Hc; reflexivity.
Qed.

(** The peer, whose role is the other one, reads a SABME, UA, DM or DISC frame
    as that frame, for the same channel and with the same poll bit. *)
Theorem rfcomm_control_roundtrip (k : ControlFrame) (d : Z) (m peer : tRFC_MCB) (f : MX_FRAME) :
  RFCOMM_VALID_DLCI d = true -> is_initiator peer = negb (is_initiator m) ->
  exists b, send_frame k d m = Some (rfc_check_send_cmd (Some b) m) /\ buffer_ok b /\
    forall r, buffer_ok r -> contents r = contents b ->
      exists f' r', rfc_parse_data peer f r = Some (control_event k, f', r') /\
        dlci f' = d /\ pf f' = control_pf k.
Proof.
  intros Hd Hi. rewrite send_frame_control. destruct (control_type_fields k) as (Ht & N & P).
  destruct (send_control_frame (address_field (control_cr k (is_initiator m)) d) (control_type k) m)
    as (b & -> & B & C).
  exists b. split; [done|]. split; [done|]. intros r Br Cr. rewrite C in Cr.
  destruct (parse_control peer f r _ d _ Br (control_cr_values k _) Hd Ht N Cr) as (r' & H & K).
  rewrite P, Hi, control_frame_event in H by done. eexists _, r'. split; [exact H|]. done.
Qed.

(** C20: the peer reads the information and the credits of a UIH frame the way they
    were sent, for every length the header can give, when the buffer has room for the
    header and the checksum. *)
Theorem rfcomm_data_roundtrip (d : Z) (m peer : tRFC_MCB) (f : MX_FRAME) (b : BT_HDR) :
  RFCOMM_VALID_DLCI d = true -> d <> 0 -> flow peer = PORT_FC_CREDIT -> buffer_ok b ->
  5 <= offset b -> len b < 2 ^ 15 -> offset b + len b < Z.of_nat (length (data b)) ->
  offset b + len b + 1 < 2 ^ 16 ->
  exists m' frame, rfc_send_buf_uih congests d b m = Some m' /\ written m' = written m ++ [frame] /\
    forall r, buffer_ok r -> contents r = frame ->
      exists f' r', rfc_parse_data peer f r = Some (RFC_EVENT_UIH, f', r') /\
        dlci f' = d /\ credit f' = u8 (layer_specific b) /\ contents r' = contents b.
Proof.
  intros Hd Nd Hf B Ho Hn Hb Hm. pose proof (contents_length b B) as Lb.
  assert (Hc : forall i, RFCOMM_CR i true = 0 \/ RFCOMM_CR i true = 2) by (intros []; auto).
  set (c := RFCOMM_CR (is_initiator m) true).
  assert (Ec : uih_credits d b = u8 (layer_specific b)).
  { unfold uih_credits. apply Z.eqb_neq in Nd. by rewrite Nd. }
  destruct (uih_frame_spec c d b) as (b' & H & B' & C); [done| |done..|].
  { rewrite uih_header_length. pose proof (b2z_range (127 <? len b)).
    pose proof (b2z_range (negb (uih_credits d b =? 0))). lia. }
  unfold rfc_send_buf_uih. fold c. rewrite H. cbn [mbind option_bind].
  apply Z.eqb_neq in Nd as Nd'. unfold RFCOMM_MX_DLCI. rewrite Nd'.
  eexists _, _. split; [reflexivity|]. split; [reflexivity|]. intros r Br Cr. rewrite C in Cr.
  rewrite <- Lb in Cr.
  destruct (parse_uih peer f r c d (uih_credits d b) (contents b)) as (r' & P & _ & C'); try done.
  - apply Hc.
  - rewrite Ec. by apply wrap_range.
  - by right.
  - lia.
  - eexists _, r'. split; [exact P|]. rewrite <- Ec. done.
Qed.

(** ** Every received buffer *)

(** The octets that the checksum of a frame is about. *)
Definition fcs_octets (e : tRFC_EVENT) : nat := if decide (e = RFC_EVENT_UIH) then 2 else 3.

(** The type of the frames that an event is about. *)
Definition event_type (e : tRFC_EVENT) : option Z :=
  match e with
  | RFC_EVENT_SABME => Some RFCOMM_SABME
  | RFC_EVENT_UA => Some RFCOMM_UA
  | RFC_EVENT_DM => Some RFCOMM_DM
  | RFC_EVENT_DISC => Some RFCOMM_DISC
  | RFC_EVENT_UIH => Some RFCOMM_UIH
  | _ => None
  end.

Lemma frame_event_sound i f n p fcs :
  frame_event i f n p fcs <> RFC_EVENT_BAD_FRAME ->
  RFCOMM_VALID_DLCI (dlci f) = true /\
  rfc_check_fcs (fcs_octets (frame_event i f n p fcs)) p fcs = true /\
  event_type (frame_event i f n p fcs) = Some (type f) /\
  (frame_event i f n p fcs <> RFC_EVENT_UIH -> n = 0).
Proof.
  unfold frame_event. intros H. repeat case_match; try done;
    repeat match goal with
    | H : _ || _ = false |- _ => apply orb_false_elim in H as [? ?]
    | H : negb _ = false |- _ => apply negb_false_iff in H
    | H : (_ =? _) = true |- _ => apply Z.eqb_eq in H
    end; cbn [event_type]; repeat split; congruence || done.
Qed.

(** The octet of the credits in the frame [f]. *)
Definition credit_octets (m : tRFC_MCB) (f : MX_FRAME) : list Z :=
  if has_credit m (dlci f) (type f) (pf f) then [credit f] else [].

(** What is left of the buffer [b] whose octets are [p], after the header [h]. *)
Definition parsed (m : tRFC_MCB) (p h : list Z) (f : MX_FRAME) (b : BT_HDR) (fcs : Z) : Prop :=
  buffer_ok b /\ p = h ++ credit_octets m f ++ contents b ++ [fcs].

Lemma split_last (p : list Z) : (0 < length p)%nat -> exists q x, p = q ++ [x] /\ length q = (length p - 1)%nat.
Proof.
  destruct p as [|x p] using rev_ind; cbn; [lia|]. intros _. exists p, x. rewrite length_app. cbn.
  split; [done|lia].
Qed.

Lemma parse_body_total m f b p h fcs n :
  p = h ++ contents b ++ [fcs] -> buffer_ok b ->
  exists e f' b', parse_body m f b p (Z.of_nat (length h)) n = Some (e, f', b') /\
    (e <> RFC_EVENT_BAD_FRAME ->
     parsed m p h f' b' fcs /\ f' = set_credit (credit f') f /\
     e = frame_event (is_initiator m) f' (len b') p fcs /\ n = len b').
Proof.
  intros Ep B. pose proof (contents_length b B) as Lb.
  assert (Lp : p !! (length h + length (contents b))%nat = Some fcs).
  { rewrite Ep, app_assoc, <- length_app. apply lookup_last. }
  unfold parse_body, parsed, credit_octets. fold (has_credit m (dlci f) (type f) (pf f)).
  destruct (has_credit m (dlci f) (type f) (pf f)) eqn:Hc.
  - destruct (Z.ltb_spec (len b) 1); [by eexists _, _, _|].
    destruct (contents b) as [|k info] eqn:C; [cbn in Lb; lia|].
    assert (p !! Z.to_nat (Z.of_nat (length h)) = Some k) as ->
      by (rewrite Ep, Nat2Z.id; by apply list_lookup_middle).
    cbn [mbind option_bind]. destruct (contents_advance (len b - 1) 1 b B) as [B' C']; [lia..|].
    change (len (advance (len b - 1) 1 b)) with (len b - 1).
    destruct (Z.eqb_spec (len b - 1) n) as [<-|]; [|by eexists _, _, _]. cbn [negb length] in *.
    replace (Z.to_nat _) with (length h + S (length info))%nat by lia. rewrite Lp.
    eexists _, _, _. split; [reflexivity|]. intros _. split; [|done]. split; [done|].
    cbn [set_credit dlci type pf credit]. rewrite Hc, C', C. cbn.
    replace (Z.to_nat (len b - 1)) with (length info) by lia. by rewrite firstn_all.
  - destruct (Z.eqb_spec (len b) n) as [<-|]; [|by eexists _, _, _]. cbn [negb].
    replace (Z.to_nat _) with (length h + length (contents b))%nat by lia. rewrite Lp.
    eexists _, _, _. split; [reflexivity|]. intros _. split; [|done]. split; [done|].
    cbn [set_credit dlci type pf credit]. by rewrite Hc.
Qed.

Lemma lookup_in (p : list Z) i : (i < length p)%nat -> exists x, p !! i = Some x.
Proof. intros H. apply lookup_lt_is_Some_2 in H as [x H]. by exists x. Qed.

Lemma parse_rest m f b q r n : buffer_ok b -> contents b = q ++ r -> r <> [] ->
  let h := Z.of_nat (length q) in
  exists e f' b', parse_body m f (advance (len b - (h + 1)) h b) (contents b) h n = Some (e, f', b') /\
    (e <> RFC_EVENT_BAD_FRAME -> exists fcs,
     parsed m (contents b) q f' b' fcs /\ f' = set_credit (credit f') f /\
     e = frame_event (is_initiator m) f' (len b') (contents b) fcs /\ n = len b').
Proof.
  intros B E Hr h. pose proof (contents_length b B) as Lb. rewrite E, length_app in Lb.
  assert (0 < length r)%nat as Lr by (destruct r; cbn; done || lia).
  destruct (split_last r Lr) as (info & fcs & Er & Li).
  destruct (contents_advance (len b - (h + 1)) h b B) as [B' C']; [lia..|].
  unfold h in C'. rewrite E, Nat2Z.id, drop_app_length, Er, take_app_length' in C' by lia.
  destruct (parse_body_total m f _ (contents b) q fcs n ltac:(by rewrite C', E, Er) B')
    as (e & f' & b' & H & K).
  exists e, f', b'. split; [exact H|]. intros N. exists fcs. by apply K.
Qed.

Lemma split3 (p : list Z) : (3 <= length p)%nat -> exists x y z r, p = [x; y; z] ++ r.
Proof. destruct p as [|x [|y [|z r]]]; cbn; try lia. by exists x, y, z, r. Qed.

(** What the parser has read of the header [x; y; z] and [ext]. *)
Definition read_header (f : MX_FRAME) (x y : Z) (credits : Z) : MX_FRAME :=
  read_frame f (Z.shiftr x 2) (Z.land y (Z.lnot RFCOMM_PF)) (Z.shiftr (Z.land x RFCOMM_CR_MASK) 1)
    (Z.shiftr (Z.land y RFCOMM_PF) 4) credits.

Lemma parse_data_total m f b : buffer_ok b ->
  exists e f' b', rfc_parse_data m f b = Some (e, f', b') /\
    (e <> RFC_EVENT_BAD_FRAME -> exists x y z ext fcs,
     parsed m (contents b) ([x; y; z] ++ ext) f' b' fcs /\ Z.land x RFCOMM_EA <> 0 /\
     length_octets z ext (len b') /\ f' = read_header f x y (credit f') /\
     e = frame_event (is_initiator m) f' (len b') (contents b) fcs).
Proof.
  intros B. pose proof (contents_length b B) as Lb. unfold rfc_parse_data, RFCOMM_CTRL_FRAME_LEN.
  destruct (Z.ltb_spec (len b) 3); [by eexists _, _, _|].
  destruct (split3 (contents b)) as (x & y & z & r & E); [lia|].
  assert (contents b !! 0%nat = Some x) as -> by by rewrite E.
  assert (contents b !! 1%nat = Some y) as -> by by rewrite E.
  assert (contents b !! 2%nat = Some z) as -> by by rewrite E. cbn [mbind option_bind].
  destruct (Z.eqb_spec (Z.land x RFCOMM_EA) 0) as [|Hx]; [by eexists _, _, _|]. set (g := set_type _ _ _).
  destruct (Z.land z RFCOMM_EA =? 0) eqn:Ez; cbn [andb].
  - apply Z.eqb_eq in Ez. destruct (Z.eqb_spec (len b) 3); [by eexists _, _, _|].
    destruct r as [|t r]; [rewrite E in Lb; cbn in Lb; lia|].
    assert (contents b !! 3%nat = Some t) as -> by by rewrite E. cbn [mbind option_bind b2z].
    destruct (Z.ltb_spec (len b) (3 + 1 + 1)); [by eexists _, _, _|].
    destruct (parse_rest m g b ([x; y; z] ++ [t]) r (u16 (Z.shiftr z 1 + Z.shiftl t 7)) B) as (e & f' & b' & P & K);
      [by rewrite E | intros ->; rewrite E in Lb; cbn in Lb; lia|].
    exists e, f', b'. split; [exact P|]. intros N. destruct (K N) as (fcs & K1 & K2 & K3 & K4).
    exists x, y, z, [t], fcs. do 2 (split; [done|]). split; [right; by exists t|]. by split.
  - cbn [mbind option_bind b2z].
    destruct (Z.ltb_spec (len b) (3 + 0 + 1)); [by eexists _, _, _|].
    destruct (parse_rest m g b [x; y; z] r (Z.shiftr z 1) B) as (e & f' & b' & P & K);
      [done | intros ->; rewrite E in Lb; cbn in Lb; lia|].
    exists e, f', b'. split; [exact P|]. intros N. destruct (K N) as (fcs & K1 & K2 & K3 & K4).
    exists x, y, z, [], fcs. do 2 (split; [done|]). split; [|by split]. left. split; [done|].
    split; [|done]. apply Z.eqb_neq in Ez. revert Ez. unfold RFCOMM_EA.
    change 1 with (Z.ones 1). rewrite Z.land_ones by lia. change (2 ^ 1) with 2. change (Z.ones 1) with 1. dmlia.
Qed.

Ltac read_octets := repeat
  match goal with
  | |- context [?p !! ?i] =>
      let x := fresh "x" in let E := fresh "E" in
      destruct (lookup_in p i) as [x E]; [lia|rewrite E; cbn [mbind option_bind]]
  end.

Ltac parsed_all n := repeat match goal with |- context [n =? ?k] => destruct (Z.eqb_spec n k) end;
  cbn [negb andb orb]; try (by eexists); try lia; read_octets; repeat case_match; try done; by eexists.

Lemma parse_message_total b is_command p n f :
  Z.of_nat (length p) = n -> is_Some (parse_message b is_command p n f).
Proof.
  intros Lp. unfold parse_message, parse_pn, parse_msc, parse_rpn, parse_rls, parse_nsc, mx_unsupported,
    RFCOMM_MX_PN_LEN, RFCOMM_MX_MSC_LEN_WITH_BREAK, RFCOMM_MX_MSC_LEN_NO_BREAK, RFCOMM_MX_RPN_REQ_LEN,
    RFCOMM_MX_RPN_LEN, RFCOMM_MX_RLS_LEN, RFCOMM_MX_NSC_LEN.
  repeat (destruct (type f =? _); [parsed_all n|]). done.
Qed.

Lemma process_mx_message_total f b : buffer_ok b -> is_Some (rfc_process_mx_message f b).
Proof.
  intros B. pose proof (contents_length b B) as Lb. unfold rfc_process_mx_message.
  destruct (Z.ltb_spec (len b) 2); [done|]. read_octets.
  destruct (_ =? 0); [done|]. cbn [mbind option_bind].
  destruct (Z.land _ _ =? 0) eqn:Ez; cbn [andb b2z].
  - destruct (Z.ltb_spec (len b - 2) 1); [done|]. read_octets.
    destruct (_ =? len b - 2 - 1); [|done]. cbn [negb].
    apply parse_message_total. rewrite length_drop. lia.
  - cbn [mbind option_bind]. destruct (_ =? len b - 2 - 0); [|done]. cbn [negb].
    apply parse_message_total. rewrite length_drop. lia.
Qed.

(** The octets of the header of a frame, in terms of its fields. *)
Definition header_says (f : MX_FRAME) (x y : Z) : Prop :=
  x = 4 * dlci f + 2 * cr f + 1 /\ y = type f + 16 * pf f /\ 0 <= cr f <= 1 /\ 0 <= pf f <= 1.

(** A length field of one or two octets that says [n]. *)
Definition length_says (lf : list Z) (n : Z) : Prop :=
  lf = [2 * n + 1] \/ exists z t, lf = [z; t] /\ z mod 2 = 0 /\ z / 2 + 128 * t = n.

Lemma read_header_says f x y credits : byte x -> byte y -> Z.land x RFCOMM_EA <> 0 ->
  header_says (read_header f x y credits) x y.
Proof.
  intros Hx Hy Ha. unfold header_says, read_header, read_frame. cbn [dlci cr type pf].
  assert (forallb (fun x => (Z.land x RFCOMM_EA =? 0) ||
    ((x =? 4 * Z.shiftr x 2 + 2 * Z.shiftr (Z.land x RFCOMM_CR_MASK) 1 + 1) &&
     ((0 <=? Z.shiftr (Z.land x RFCOMM_CR_MASK) 1) && (Z.shiftr (Z.land x RFCOMM_CR_MASK) 1 <=? 1))))
    (seqZ 0 256) = true) as F by (vm_compute; reflexivity).
  assert (forallb (fun y => (y =? Z.land y (Z.lnot RFCOMM_PF) + 16 * Z.shiftr (Z.land y RFCOMM_PF) 4) &&
     ((0 <=? Z.shiftr (Z.land y RFCOMM_PF) 4) && (Z.shiftr (Z.land y RFCOMM_PF) 4 <=? 1)))
    (seqZ 0 256) = true) as G by (vm_compute; reflexivity).
  pose proof (forall_byte _ F x Hx) as Fx. pose proof (forall_byte _ G y Hy) as Gy. cbv beta in Fx, Gy.
  apply Z.eqb_neq in Ha. rewrite Ha in Fx. cbn [orb] in Fx.
  rewrite !andb_true_iff, Z.eqb_eq, !Z.leb_le in Fx, Gy. lia.
Qed.

Lemma length_octets_says z ext n : byte z -> Forall byte ext -> length_octets z ext n ->
  length_says (z :: ext) n.
Proof.
  intros Hz He. unfold length_octets, length_says.
  assert (Z.land z RFCOMM_EA = z mod 2) as -> by exact (Z.land_ones z 1 ltac:(done)).
  assert (Z.shiftr z 1 = z / 2) as -> by exact (Z.shiftr_div_pow2 z 1 ltac:(done)).
  intros [(-> & E & <-)|(t & -> & E & <-)].
  - left. f_equal. dmlia.
  - right. exists z, t. split; [done|]. split; [done|]. inversion He as [|? ? Ht _].
    rewrite Z.shiftl_mul_pow2 by done. change (2 ^ 7) with 128.
    rewrite wrap_small; [lia|]. unfold in_range in *. change (2 ^ 8) with 256 in *. change (2 ^ 16) with 65536. dmlia.
Qed.

(** C22: whatever the peer sends, no octet outside of the received buffer is read, in
    the frame or in the message of the multiplexer it holds.  A frame that is
    accepted consists of the octets of its address and its type, a length field
    of one or two octets, the octet of its credits if it is one with flow control
    by credits, as many octets of information as the length field says, which
    are what is left of the buffer, and the checksum of its header.  It has a
    valid channel, the type of its event, and no information unless it is a UIH
    frame. *)
Theorem rfcomm_parser_sound (m : tRFC_MCB) (f : MX_FRAME) (b : BT_HDR) :
  buffer_ok b -> Forall byte (contents b) ->
  exists e f' b', rfc_parse_data m f b = Some (e, f', b') /\
    (e <> RFC_EVENT_BAD_FRAME ->
     (exists x y lf,
        contents b = [x; y] ++ lf ++ credit_octets m f' ++ contents b' ++
                     [crc (take (fcs_octets e) ([x; y] ++ lf))] /\
        header_says f' x y /\ length_says lf (Z.of_nat (length (contents b')))) /\
     RFCOMM_VALID_DLCI (dlci f') = true /\ event_type e = Some (type f') /\
     (e <> RFC_EVENT_UIH -> contents b' = []) /\
     is_Some (rfc_process_mx_message f' b')).
Proof.
  intros B F. destruct (parse_data_total m f b B) as (e & f' & b' & H & K).
  exists e, f', b'. split; [done|]. intros N.
  destruct (K N) as (x & y & z & ext & fcs & [B' E] & Hx & Hl & Ef & ->).
  destruct (frame_event_sound _ _ _ _ _ N) as (V & C & T & Z). set (e := frame_event _ _ _ _ _) in *.
  pose proof (contents_length b' B') as Lb'. rewrite Lb'.
  pose proof F as Fb. rewrite E, !Forall_app, !Forall_cons_iff in Fb.
  destruct Fb as (((Fx & Fy & Fz & _) & Fe) & _ & _ & Ff & _).
  split; [|split; [done|]; split; [done|]; split].
  - exists x, y, (z :: ext). split; [|split].
    + rewrite check_fcs_crc in C by (by try apply Forall_take). apply Z.eqb_eq in C.
      replace (take (fcs_octets e) ([x; y] ++ z :: ext)) with (take (fcs_octets e) (contents b)).
      * by rewrite <- C, E.
      * rewrite E. unfold fcs_octets. by case_decide.
    + rewrite Ef. by apply read_header_says.
    + by apply length_octets_says.
  - intros N2. apply nil_length_inv. specialize (Z N2). lia.
  - by apply process_mx_message_total.
Qed.

(** ** The queue of commands *)

Inductive CmdEvent := CmdSend (b : BT_HDR) | CmdCongestion (is_congested : bool).

Definition cmd_step (m : tRFC_MCB) (e : CmdEvent) : tRFC_MCB :=
  match e with
  | CmdSend b => rfc_check_send_cmd (Some b) m
  | CmdCongestion c => rfc_process_l2cap_congestion congests c m
  end.

Definition cmd_frames (e : CmdEvent) : list (list Z) :=
  match e with CmdSend b => [contents b] | CmdCongestion _ => [] end.

Lemma send_queue_fifo q : forall m, let m' := send_queue congests q m in
  written m' ++ map contents (cmd_q m') = written m ++ map contents q /\
  (l2cap_congested m' = false -> cmd_q m' = []).
Proof.
  induction q as [|b q IH]; intros m; cbn [send_queue]; destruct (l2cap_congested m) eqn:C;
    cbn [set_written written cmd_q l2cap_congested map]; try done.
  destruct (IH (L2CA_DataWrite congests b m)) as [H1 H2]. split; [|done].
  rewrite H1. unfold L2CA_DataWrite. cbn. by rewrite <- app_assoc.
Qed.

Lemma cmd_step_fifo m e : let m' := cmd_step m e in
  (l2cap_congested m = false -> cmd_q m = []) ->
  written m' ++ map contents (cmd_q m') = written m ++ map contents (cmd_q m) ++ cmd_frames e /\
  (l2cap_congested m' = false -> cmd_q m' = []).
Proof.
  intros m' I. unfold m'. destruct e as [b|[|]]; cbn [cmd_step cmd_frames].
  - unfold RfcommFrames.rfc_check_send_cmd. destruct (send_queue_fifo (cmd_q m ++ [b]) m) as [H1 H2].
    by rewrite H1, map_app.
  - cbn. by rewrite app_nil_r.
  - unfold rfc_process_l2cap_congestion. rewrite app_nil_r.
    exact (send_queue_fifo (cmd_q m) (set_written false (cmd_q m) (written m) m)).
Qed.

Lemma cmd_run_fifo es : forall m, (l2cap_congested m = false -> cmd_q m = []) ->
  let m' := fold_left cmd_step es m in
  written m' ++ map contents (cmd_q m') = written m ++ map contents (cmd_q m) ++ (es ≫= cmd_frames) /\
  (l2cap_congested m' = false -> cmd_q m' = []).
Proof.
  induction es as [|e es IH]; intros m I; cbn [fold_left mbind list_bind]; [by rewrite app_nil_r|].
  destruct (cmd_step_fifo m e I) as [S1 S2]. destruct (IH (cmd_step m e) S2) as [H1 H2].
  split; [|done]. by rewrite H1, app_assoc, S1, <- !app_assoc.
Qed.

(** C37: the frames of the command queue are given to L2CAP in the order in which they
    are sent, each once, and none waits while the channel is not congested. *)
Theorem rfcomm_commands_fifo (es : list CmdEvent) (m : tRFC_MCB) :
  l2cap_congested m = false -> cmd_q m = [] ->
  let m' := fold_left cmd_step es m in
  written m' ++ map contents (cmd_q m') = written m ++ (es ≫= cmd_frames) /\
  (l2cap_congested m' = false -> cmd_q m' = []).
Proof. intros C Q. destruct (cmd_run_fifo es m ltac:(done)) as [H1 H2]. rewrite Q in H1. by split. Qed.
End frames.

(** ** Concrete frames *)

Definition zeros (n : nat) : list Z := replicate n 0.
Definition uncongested : list (list Z) -> bool := fun _ => false.
Definition new_mcb (initiator : bool) : tRFC_MCB :=
  {| is_initiator := initiator; flow := PORT_FC_CREDIT; l2cap_congested := false; cmd_q := [];
     written := [] |}.
Definition no_frame : MX_FRAME :=
  {| dlci := 0; type := 0; cr := 0; ea := 0; pf := 0; credit := 0; u := u_none |}.
Definition buffer (l : list Z) (room : nat) (credits : Z) : BT_HDR :=
  {| data := zeros room ++ l ++ [0]; offset := Z.of_nat room; len := Z.of_nat (length l);
     layer_specific := credits |}.

Lemma zeros_length n : length (zeros n) = n.
Proof. apply length_replicate. Qed.

(** A SABME for channel 6 of the initiator, as it goes over the air. *)
Lemma rfcomm_control_roundtrip_witness :
  exists m' f' r', rfc_send_sabme zeros uncongested 6 (new_mcb true) = Some m' /\
    written m' = [[0x1B; 0x3F; 0x01; 0xD3]] /\
    rfc_parse_data (new_mcb false) no_frame (buffer [0x1B; 0x3F; 0x01; 0xD3] 13 0) =
      Some (RFC_EVENT_SABME, f', r') /\ dlci f' = 6.
Proof.
  destruct (rfcomm_control_roundtrip zeros uncongested zeros_length Sabme 6 (new_mcb true) (new_mcb false)
    no_frame) as (b & H & B & R); [reflexivity|reflexivity|].
  destruct (R (buffer [0x1B; 0x3F; 0x01; 0xD3] 13 0)) as (f' & r' & P & D & _).
  - by_decide.
  - revert H. vm_compute. intros [= <-]. reflexivity.
  - eexists _, f', r'. split; [exact H|]. split; [|split; [exact P|exact D]].
    revert H. vm_compute. intros [= H]. by rewrite <- H.
Defined.

Definition sample_frame : list Z := [0x1B; 0xFF; 0x05; 0x07; 0x61; 0x62; 0x93].

Lemma rfcomm_data_roundtrip_witness :
  exists m' f' r', rfc_send_buf_uih uncongested 6 (buffer [0x61; 0x62] 18 7) (new_mcb true) = Some m' /\
    rfc_parse_data (new_mcb false) no_frame (buffer (List.last (written m') []) 13 0) =
      Some (RFC_EVENT_UIH, f', r') /\ credit f' = 7 /\ contents r' = [0x61; 0x62].
Proof.
  destruct (rfcomm_data_roundtrip uncongested 6 (new_mcb true) (new_mcb false) no_frame
    (buffer [0x61; 0x62] 18 7)) as (m' & frame & H & W & R); [by_decide..|].
  destruct (R (buffer (List.last (written m') []) 13 0)) as (f' & r' & P & _ & C & I).
  - revert H. vm_compute. intros [= <-]. by_decide.
  - revert H W. vm_compute. intros [= <-] [= <-]. reflexivity.
  - exists m', f', r'. split; [exact H|]. split; [exact P|]. split; [exact C|exact I].
Defined.

Lemma rfcomm_parser_sound_witness :
  exists f' b', rfc_parse_data (new_mcb false) no_frame (buffer sample_frame 13 0) =
      Some (RFC_EVENT_UIH, f', b') /\ RFCOMM_VALID_DLCI (dlci f') = true /\
    is_Some (rfc_process_mx_message f' b').
Proof.
  destruct (rfcomm_parser_sound (new_mcb false) no_frame (buffer sample_frame 13 0))
    as (e & f' & b' & H & K); [by_decide..|].
  assert (E : e = RFC_EVENT_UIH) by (revert H; vm_compute; by intros [= <- _ _]).
  subst e. destruct (K ltac:(discriminate)) as (_ & V & _ & _ & M).
  exists f', b'. split; [exact H|]. split; [exact V|exact M].
Defined.

(** The channel is congested after its second frame. *)
Definition congested_at_2 (l : list (list Z)) : bool := Nat.eqb (length l) 2.

Lemma rfcomm_commands_fifo_witness :
  let es := [CmdSend (buffer [1] 0 0); CmdSend (buffer [2] 0 0); CmdSend (buffer [3] 0 0);
             CmdCongestion false; CmdSend (buffer [4] 0 0)] in
  let m := fold_left (cmd_step congested_at_2) es (new_mcb true) in
  written m = [[1]; [2]; [3]; [4]] /\ cmd_q m = [].
Proof.
  cbv zeta. destruct (rfcomm_commands_fifo congested_at_2
    [CmdSend (buffer [1] 0 0); CmdSend (buffer [2] 0 0); CmdSend (buffer [3] 0 0);
     CmdCongestion false; CmdSend (buffer [4] 0 0)] (new_mcb true) eq_refl eq_refl) as [H1 H2].
  split; [vm_compute; reflexivity|]. apply H2. vm_compute. reflexivity.
Defined.
