(* ===== verification/RfcommMessages.v ===== *)
(** * Messages of the RFCOMM multiplexer

    The messages on the control channel ([rfc_send_pn] and so on of
    [src/system/stack/rfcomm/rfc_ts_frames.cc]) go in UIH frames: the peer that
    reads the frame ([rfc_parse_data]) and then the message
    ([rfc_process_mx_message]) has the parameters that were sent, as far as the
    fields of the message hold them.  Messages that a device writes and refuses to read
    are among them: the answer to a message that is not supported, and a test message
    of more than 127 octets. *)

From stdpp Require Import base list option.
From Stdlib Require Import ZArith Lia.
From S2P Require Import Prelude RfcommFrames RfcommFramesSpec.

Open Scope Z_scope.

(** ** Fields *)

Lemma byte_check (P : Z -> bool) x : byte x -> forallb P (seqZ 0 256) = true -> P x = true.
Proof. intros Hx H. by apply forall_byte. Qed.

Lemma mx_address_read d : RFCOMM_VALID_DLCI d = true -> d <> 0 ->
  mx_channel (mx_address d) = d /\ mx_channel_bad (mx_address d) = false.
Proof.
  intros V N. pose proof (valid_dlci_range d V).
  pose proof (byte_check (fun d => negb (RFCOMM_VALID_DLCI d) || (d =? 0) ||
    ((mx_channel (mx_address d) =? d) && negb (mx_channel_bad (mx_address d)))) d
    ltac:(unfold in_range; lia) ltac:(vm_compute; reflexivity)) as E. cbv beta in E.
  rewrite V in E. apply Z.eqb_neq in N. rewrite N in E. cbn [negb orb] in E.
  by rewrite andb_true_iff, negb_true_iff, Z.eqb_eq in E.
Qed.

(** The type octet of a message; its two lowest bits are the command bit and EA. *)
Definition mx_types : list Z :=
  [RFCOMM_MX_PN; RFCOMM_MX_TEST; RFCOMM_MX_FCON; RFCOMM_MX_FCOFF; RFCOMM_MX_MSC; RFCOMM_MX_NSC;
   RFCOMM_MX_RPN; RFCOMM_MX_RLS].

Lemma mx_type_read t (is_command : bool) : t ∈ mx_types ->
  let x := Z.lor (Z.lor RFCOMM_EA (RFCOMM_I_CR is_command)) t in
  Z.land x RFCOMM_EA = 1 /\ Z.shiftr (Z.land x RFCOMM_CR_MASK) 1 = b2z is_command /\
  Z.land x (Z.lnot 0x03) = t.
Proof.
  intros H. unfold mx_types in H.
  repeat (apply elem_of_cons in H as [-> | H]; [by destruct is_command|]). by apply not_elem_of_nil in H.
Qed.

(** Two octets, least significant first. *)
Lemma two_octets x : 0 <= x < 2 ^ 16 -> u16 (Z.land x 0xFF + Z.shiftl (u8 (Z.shiftr x 8)) 8) = x /\
  Z.land x 0xFF + Z.shiftl (u8 (Z.shiftr x 8)) 8 = x.
Proof.
  intros Hx. assert (E : Z.land x 0xFF + Z.shiftl (u8 (Z.shiftr x 8)) 8 = x).
  { change 0xFF with (Z.ones 8). rewrite Z.land_ones, Z.shiftl_mul_pow2, Z.shiftr_div_pow2 by lia.
    rewrite wrap_small; unfold in_range; change (2 ^ 8) with 256 in *; change (2 ^ 16) with 65536 in *; dmlia. }
  rewrite E. split; [|done]. by apply wrap_small.
Qed.

(** ** The message in its frame *)

(** The frame after the header of a message has been read. *)
Definition mx_frame (t : Z) (is_command : bool) (f : MX_FRAME) : MX_FRAME :=
  set_mx 1 (b2z is_command) t f.

Lemma read_message t (is_command : bool) body f b : t ∈ mx_types -> buffer_ok b ->
  Z.of_nat (length body) <= 127 ->
  contents b = mx_header t is_command (Z.of_nat (length body)) ++ body ->
  rfc_process_mx_message f b =
    parse_message b is_command body (Z.of_nat (length body)) (mx_frame t is_command f).
Proof.
  intros Ht B Hl C. pose proof (contents_length b B) as Lb.
  destruct (mx_type_read t is_command Ht) as (T1 & T2 & T3).
  destruct (short_length_read (Z.of_nat (length body))) as (_ & L2 & L3); [lia|].
  unfold rfc_process_mx_message. rewrite C in Lb |- *. rewrite length_app in Lb. cbn [length mx_header] in Lb.
  destruct (Z.ltb_spec (len b) 2) as [?|_]; [lia|].
  cbn [mx_header app lookup list_lookup mbind option_bind]. rewrite T1, T2, T3.
  cbn [set_mx ea cr]. change (1 =? 0) with false. cbv iota.
  rewrite L2. change (1 =? 0) with false. cbn [andb mbind option_bind b2z]. rewrite L3.
  destruct (Z.eqb_spec (Z.of_nat (length body)) (len b - 2 - 0)) as [_|?]; [|lia]. cbn [negb].
  unfold mx_frame. replace (len b - 2 - 0) with (Z.of_nat (length body)) by lia.
  by destruct is_command.
Qed.

(** The length octet of [rfc_send_test] is odd and holds seven bits. *)
Lemma test_length_octet n : let y := u8 (Z.lor RFCOMM_EA (Z.shiftl n 1)) in
  Z.land y RFCOMM_EA = 1 /\ 0 <= Z.shiftr y 1 <= 127.
Proof.
  intros y. assert (Hy : byte y) by (by apply wrap_range). unfold in_range in Hy.
  change RFCOMM_EA with (Z.ones 1). rewrite Z.land_ones, Z.shiftr_div_pow2 by lia.
  change (2 ^ 8) with 256 in Hy. change (2 ^ 1) with 2. split; [|dmlia].
  unfold y, wrap. rewrite Z.shiftl_mul_pow2 by lia. unfold RFCOMM_EA. rewrite Z.lor_comm.
  rewrite lor_add by (change 1 with (Z.ones 1) at 2; rewrite Z.land_ones by lia; change (2 ^ 1) with 2; dmlia).
  change (2 ^ 1) with 2. change (2 ^ 8) with 256. dmlia.
Qed.

Lemma long_header_ignored body (c : bool) f s : 128 <= Z.of_nat (length body) -> buffer_ok s ->
  contents s = mx_header RFCOMM_MX_TEST c (Z.of_nat (length body)) ++ body ->
  exists f', rfc_process_mx_message f s = Some (f', mx_ignore).
Proof.
  intros Hb Bs Cs. pose proof (contents_length s Bs) as Ls. rewrite Cs, length_app in Ls.
  cbn [length mx_header] in Ls. unfold rfc_process_mx_message. rewrite Cs.
  destruct (Z.ltb_spec (len s) 2) as [?|_]; [lia|].
  cbn [mx_header app lookup list_lookup mbind option_bind]. set (g := set_mx _ _ _ _).
  destruct (ea g =? 0); [by eexists|].
  destruct (test_length_octet (Z.of_nat (length body))) as [-> Hy].
  change (1 =? 0) with false. cbn [andb mbind option_bind b2z].
  destruct (Z.eqb_spec (Z.shiftr (u8 (Z.lor RFCOMM_EA (Z.shiftl (Z.of_nat (length body)) 1))) 1)
    (len s - 2 - 0)) as [?|_]; [lia|]. by eexists.
Qed.

Section messages.
Context (malloc : nat -> list Z) (congests : list (list Z) -> bool).
Hypothesis malloc_length : forall n, length (malloc n) = n.

Abbreviation rfc_check_send_cmd := (rfc_check_send_cmd congests).

(** [b] is sent to the control channel, and the peer finds the message [l] in it. *)
Definition carries (b : BT_HDR) (l : list Z) : Prop :=
  buffer_ok b /\
  forall peer f r, buffer_ok r -> contents r = contents b ->
    exists f1 r1, rfc_parse_data peer f r = Some (RFC_EVENT_UIH, f1, r1) /\ dlci f1 = 0 /\
      buffer_ok r1 /\ contents r1 = l.

Lemma send_uih_carries m b : buffer_ok b -> 5 <= offset b -> len b < 2 ^ 15 ->
  offset b + len b < Z.of_nat (length (data b)) -> offset b + len b + 1 < 2 ^ 16 ->
  exists b', rfc_send_buf_uih congests 0 b m = Some (rfc_check_send_cmd (Some b') m) /\
    carries b' (contents b).
Proof.
  intros B Ho Hn Hd Hm. pose proof (contents_length b B) as Lb.
  assert (Hc : RFCOMM_CR (is_initiator m) true = 0 \/ RFCOMM_CR (is_initiator m) true = 2)
    by (destruct (is_initiator m); auto).
  unfold rfc_send_buf_uih. set (c := RFCOMM_CR _ _) in *.
  destruct (uih_frame_spec c 0 b) as (b' & -> & B' & C); [done| |done..|].
  { rewrite uih_header_length. pose proof (b2z_range (127 <? len b)).
    pose proof (b2z_range (negb (uih_credits 0 b =? 0))). lia. }
  exists b'. split; [done|]. split; [done|]. intros peer f r Br Cr. rewrite C, <- Lb in Cr.
  destruct (parse_uih peer f r c 0 0 (contents b)) as (r1 & P & B1 & C1); try done; [by left|lia|].
  eexists _, r1. split; [exact P|]. done.
Qed.

Lemma send_message_carries l m : (length l <= 600)%nat ->
  exists b, send_message malloc congests l m = Some (rfc_check_send_cmd (Some b) m) /\ carries b l.
Proof.
  intros Hl. unfold send_message. pose proof (malloc_length RFCOMM_CMD_BUF_DATA) as L. revert L.
  generalize (malloc RFCOMM_CMD_BUF_DATA). intros mem L. change RFCOMM_CMD_BUF_DATA with 652%nat in L.
  destruct (split_at 16 mem) as (pre & r & -> & L1 & _); [lia|]. rewrite length_app, L1 in L.
  destruct (split_at (length l) r) as (old & post & -> & L2 & _); [lia|]. rewrite length_app in L.
  rewrite (put_at _ pre old post) by (rewrite ?L1; done). cbn [mbind option_bind].
  destruct (contents_app pre l post 0) as [C B]; [lia|]. rewrite L1 in C, B.
  change (L2CAP_MIN_OFFSET + RFCOMM_CTRL_FRAME_LEN) with (Z.of_nat 16). set (b := Build_BT_HDR _ _ _ _) in *.
  destruct (send_uih_carries m b) as (b' & H & K); [done|cbn; lia|cbn; lia| |cbn; lia|].
  - unfold b. cbn. rewrite !length_app. lia.
  - rewrite C in K. by exists b'.
Qed.

(** ** The messages *)

Inductive Message :=
| Pn (d mtu cl k : Z)
| Fcon
| Fcoff
| Msc (d : Z) (pars : tPORT_CTRL)
| Rls (d status : Z)
| RpnRequest (d : Z)
| Rpn (d : Z) (settings : PortSettings) (mask : Z)
| Test (b : BT_HDR)
| NotSupported (command : MX_FRAME).      (* NSC: the answer to [command] *)

(** [rx] is the received frame, whose priority a response to a PN command has. *)
Definition send_mx (rx : MX_FRAME) (msg : Message) (is_command : bool) (m : tRFC_MCB)
    : option tRFC_MCB :=
  match msg with
  | Pn d mtu cl k => rfc_send_pn malloc congests rx d is_command mtu cl k m
  | Fcon => rfc_send_fcon malloc congests is_command m
  | Fcoff => rfc_send_fcoff malloc congests is_command m
  | Msc d pars => rfc_send_msc malloc congests d is_command pars m
  | Rls d status => rfc_send_rls malloc congests d is_command status m
  | RpnRequest d => rfc_send_rpn malloc congests d is_command None 0 m
  | Rpn d s mask => rfc_send_rpn malloc congests d is_command (Some s) mask m
  | Test b => rfc_send_test malloc congests is_command b m
  | NotSupported command => rfc_send_nsc malloc congests command m
  end.

Definition channel_ok (d : Z) : Prop := RFCOMM_VALID_DLCI d = true /\ d <> 0.

(** The ranges of the parameters: the C types of the senders, and of the settings of a
    port the values that the API defines for the four parts of the character format,
    which share an octet. *)
Definition message_ok (rx : MX_FRAME) (is_command : bool) (msg : Message) : Prop :=
  match msg with
  | Pn d mtu cl k =>
      channel_ok d /\ 0 <= mtu < 2 ^ 16 /\ byte cl /\ byte k /\
      (is_command = false -> exists pn, u rx = u_pn pn)
  | Fcon | Fcoff | NotSupported _ => True
  | Msc d pars => channel_ok d /\ byte (modem_signal pars) /\ byte (break_signal pars)
  | Rls d status => channel_ok d /\ byte status
  | RpnRequest d => channel_ok d
  | Rpn d s mask =>
      channel_ok d /\ 0 <= byte_size s < 4 /\ 0 <= stop_bits s < 2 /\ 0 <= parity s < 2 /\
      0 <= parity_type s < 4 /\ byte (fc_type s) /\ 0 <= mask < 2 ^ 16
  | Test b => buffer_ok b /\ len b + 2 < 2 ^ 15 /\
      (20 <= offset b -> offset b + len b < Z.of_nat (length (data b)) /\ offset b + len b + 1 < 2 ^ 16)
  end.

(** What the fields of a message hold of its parameters: four bits of the convergence
    layer and three of the initial credits in PN, four modem signals and four bits of
    the break in MSC, all but the lowest bit of the status in RLS, six bits of the flow
    control and the known bits of the mask in RPN. *)
Definition pn_received (pn : pn_pars) (mtu cl k : Z) : Prop :=
  pn_mtu pn = mtu /\ pn_conv_layer pn = Z.land cl 0xF0 /\ pn_k pn = Z.land k 0x07.
Definition msc_received (pars : tPORT_CTRL) : tPORT_CTRL :=
  {| modem_signal := Z.land (modem_signal pars) 0x0F; break_signal := Z.land (break_signal pars) 0x0F;
     fc := fc pars |}.
Definition rls_received (status : Z) : Z := Z.land status (Z.lnot 0x01).
Definition rpn_received (s : PortSettings) (mask : Z) : rpn_pars :=
  {| rpn_settings :=
       {| baud_rate := baud_rate s; byte_size := byte_size s; stop_bits := stop_bits s;
          parity := parity s; parity_type := parity_type s; fc_type := Z.land (fc_type s) 0x3F;
          rx_char1 := 0; xon_char := xon_char s; xoff_char := xoff_char s |};
     rpn_param_mask := Z.land mask RFCOMM_RPN_PM_MASK |}.

(** A command that is not supported is answered with NSC, a response ignored. *)
Definition unsupported (is_command : bool) : MxAction := if is_command then mx_send_nsc else mx_ignore.

(** What the peer makes of the message: the action, and the parameters in the frame. *)
Definition message_read (msg : Message) (is_command : bool) (f : MX_FRAME) (a : MxAction) : Prop :=
  match msg with
  | Pn d mtu cl k => dlci f = d /\ (exists pn, u f = u_pn pn /\ pn_received pn mtu cl k) /\
      a = (if (mtu <? RFCOMM_MIN_MTU) || (RFCOMM_MAX_MTU <? mtu) then unsupported is_command
           else mx_process_pn is_command)
  | Fcon => a = mx_process_fcon is_command
  | Fcoff => a = mx_process_fcoff is_command
  | Msc d pars => a = mx_process_msc is_command /\ dlci f = d /\
      exists msc, u f = u_msc msc /\ msc_ctrl msc = msc_received pars
  | Rls d status => a = mx_process_rls is_command /\ dlci f = d /\ u f = u_rls (rls_received status)
  | RpnRequest d => a = mx_process_rpn is_command true /\ dlci f = d
  | Rpn d s mask => a = mx_process_rpn is_command false /\ dlci f = d /\
      u f = u_rpn (Some (rpn_received s mask))
  | Test b =>
      if len b =? 0 then a = unsupported is_command
      else if 127 <? len b then a = mx_ignore
      else exists r, a = (if is_command then mx_send_test r else mx_process_test_rsp r) /\
             contents r = contents b
  | NotSupported _ => a = mx_ignore
  end.

(** The peer reads the message with the header of type [t] and the octets [body]. *)
Lemma message_carried msg (is_command c : bool) t body m :
  t ∈ mx_types -> (length body <= 127)%nat ->
  (forall b f, exists f' a,
     parse_message b c body (Z.of_nat (length body)) (mx_frame t c f) = Some (f', a) /\
     message_read msg is_command f' a) ->
  exists b,
    send_message malloc congests (mx_header t c (Z.of_nat (length body)) ++ body) m =
      Some (rfc_check_send_cmd (Some b) m) /\ buffer_ok b /\
    forall peer f r, buffer_ok r -> contents r = contents b ->
      exists f1 r1 f2 a, rfc_parse_data peer f r = Some (RFC_EVENT_UIH, f1, r1) /\ dlci f1 = 0 /\
        rfc_process_mx_message f1 r1 = Some (f2, a) /\ message_read msg is_command f2 a.
Proof.
  intros Ht Hl R.
  destruct (send_message_carries (mx_header t c (Z.of_nat (length body)) ++ body) m)
    as (b & H & B & K); [rewrite length_app; cbn; lia|].
  exists b. split; [done|]. split; [done|]. intros peer f r Br Cr.
  destruct (K peer f r Br Cr) as (f1 & r1 & P & D & B1 & C1).
  destruct (R r1 f1) as (f2 & a & E & Ra). exists f1, r1, f2, a. split; [done|]. split; [done|].
  split; [|done]. rewrite <- E. apply read_message; done || lia.
Qed.

Ltac in_types := unfold mx_types; repeat (apply list_elem_of_here || apply list_elem_of_further).

Lemma pn_read d mtu cl k p (is_command : bool) b f :
  channel_ok d -> 0 <= mtu < 2 ^ 16 ->
  exists f' a, parse_message b is_command
      [d; Z.lor 0 cl; p; 0; Z.land mtu 0xFF; u8 (Z.shiftr mtu 8); 0; k] 8
      (mx_frame RFCOMM_MX_PN is_command f) = Some (f', a) /\
    message_read (Pn d mtu cl k) is_command f' a.
Proof.
  intros [V N] Hm. pose proof (valid_dlci_range d V).
  change (parse_message b is_command ?l 8 ?g) with (parse_pn is_command l 8 g). unfold parse_pn.
  cbn [negb lookup list_lookup mbind option_bind]. change (8 =? RFCOMM_MX_PN_LEN) with true. cbn [negb].
  destruct (two_octets mtu Hm) as [-> _].
  assert (Z.land d 0x3F = d) as ->.
  { change 0x3F with (Z.ones 6). rewrite Z.land_ones by lia. apply Z.mod_small. lia. }
  cbn [dlci set_union set_dlci pn_mtu]. rewrite V. apply Z.eqb_neq in N. rewrite N. cbn [negb orb].
  unfold mx_unsupported, message_read.
  destruct ((mtu <? RFCOMM_MIN_MTU) || (RFCOMM_MAX_MTU <? mtu));
    (eexists _, _; split; [reflexivity|]; split; [done|]; split; [|done]; eexists; split; [reflexivity|done]).
Qed.

(** The octets of an MSC message after its address. *)
Definition signals_octet (pars : tPORT_CTRL) : Z :=
  let bit (mask value : Z) := if Z.land (modem_signal pars) mask =? 0 then 0 else value in
  Z.lor (Z.lor (Z.lor (Z.lor (Z.lor RFCOMM_EA (if fc pars then 0x02 else 0))
    (bit MODEM_SIGNAL_DTRDSR 0x04)) (bit MODEM_SIGNAL_RTSCTS 0x08))
    (bit MODEM_SIGNAL_RI 0x40)) (bit MODEM_SIGNAL_DCD 0x80).
Definition break_octet (n : Z) : Z := u8 (Z.lor (Z.lor RFCOMM_EA 0x02) (Z.shiftl n 4)).

Lemma signals_read pars present duration : byte (modem_signal pars) ->
  Z.land (break_signal pars) 0x0F = (if present =? 0 then 0 else duration) ->
  msc_ctrl {| msc_signals := signals_octet pars; msc_break_present := present;
              msc_break_duration := duration |} = msc_received pars.
Proof.
  intros Hx Hb. unfold msc_ctrl, msc_received. cbn [msc_break_present msc_break_duration msc_signals].
  rewrite <- Hb. destruct pars as [x brk flow]. cbn [modem_signal break_signal fc] in *.
  set (r := fun x => msc_ctrl {| msc_signals := signals_octet
    {| modem_signal := x; break_signal := 0; fc := flow |}; msc_break_present := 0; msc_break_duration := 0 |}).
  pose proof (byte_check (fun x => (modem_signal (r x) =? Z.land x 0x0F) && eqb (fc (r x)) flow) x Hx
    ltac:(destruct flow; vm_compute; reflexivity)) as E. cbv beta in E.
  rewrite andb_true_iff, Z.eqb_eq, eqb_true_iff in E. destruct E as [E1 E2]. unfold r, msc_ctrl in E1, E2.
  cbn [modem_signal fc msc_signals] in E1, E2. unfold signals_octet in *. cbn [modem_signal fc] in *.
  by rewrite E1, E2.
Qed.

Lemma break_read n : byte n ->
  Z.land (break_octet n) 0x02 = 2 /\ Z.shiftr (Z.land (break_octet n) 0xF0) 4 = Z.land n 0x0F.
Proof.
  intros Hn. pose proof (byte_check (fun n => (Z.land (break_octet n) 0x02 =? 2) &&
    (Z.shiftr (Z.land (break_octet n) 0xF0) 4 =? Z.land n 0x0F)) n Hn ltac:(vm_compute; reflexivity)) as E.
  cbv beta in E. by rewrite andb_true_iff, !Z.eqb_eq in E.
Qed.

Lemma msc_read d pars (is_command : bool) b f :
  channel_ok d -> byte (modem_signal pars) -> byte (break_signal pars) ->
  let body := [mx_address d; signals_octet pars] ++
    (if break_signal pars =? 0 then [] else [break_octet (break_signal pars)]) in
  exists f' a, parse_message b is_command body (Z.of_nat (length body))
      (mx_frame RFCOMM_MX_MSC is_command f) = Some (f', a) /\
    message_read (Msc d pars) is_command f' a.
Proof.
  intros [V N] Hs Hb. cbv zeta. destruct (mx_address_read d V N) as [A1 A2].
  change (parse_message b is_command ?l ?n ?g) with (parse_msc is_command l n g). unfold parse_msc.
  destruct (Z.eqb_spec (break_signal pars) 0) as [E|E].
  - cbn [length app lookup list_lookup mbind option_bind].
    change (Z.of_nat 2 =? RFCOMM_MX_MSC_LEN_WITH_BREAK) with false.
    change (Z.of_nat 2 =? RFCOMM_MX_MSC_LEN_NO_BREAK) with true. cbn [negb andb mbind option_bind].
    rewrite A2. eexists _, _. split; [reflexivity|]. split; [done|]. split; [exact A1|].
    eexists. split; [reflexivity|]. apply signals_read; [done|]. by rewrite E.
  - destruct (break_read (break_signal pars) Hb) as [B1 B2].
    cbn [length app lookup list_lookup mbind option_bind].
    change (Z.of_nat 3 =? RFCOMM_MX_MSC_LEN_WITH_BREAK) with true. cbn [negb andb mbind option_bind].
    rewrite A2. eexists _, _. split; [reflexivity|]. split; [done|]. split; [exact A1|].
    eexists. split; [reflexivity|]. rewrite B1, B2. by apply signals_read.
Qed.

Lemma rls_read d status (is_command : bool) b f :
  channel_ok d -> byte status ->
  exists f' a, parse_message b is_command [mx_address d; Z.lor 0x01 status] 2
      (mx_frame RFCOMM_MX_RLS is_command f) = Some (f', a) /\
    message_read (Rls d status) is_command f' a.
Proof.
  intros [V N] Hs. destruct (mx_address_read d V N) as [A1 A2].
  change (parse_message b is_command ?l ?n ?g) with (parse_rls is_command l n g). unfold parse_rls.
  cbn [lookup list_lookup mbind option_bind]. change (2 =? RFCOMM_MX_RLS_LEN) with true. cbn [negb].
  rewrite A2. eexists _, _. split; [reflexivity|]. split; [done|]. split; [exact A1|].
  cbn [u set_union set_dlci]. f_equal.
  pose proof (byte_check (fun x => Z.land (Z.lor 0x01 x) (Z.lnot 0x01) =? Z.land x (Z.lnot 0x01)) status
      Hs ltac:(vm_compute; reflexivity)) as E. cbv beta in E. by apply Z.eqb_eq.
Qed.

(** The character format of a port. *)
Definition format_octet (s : PortSettings) : Z :=
  u8 (Z.lor (Z.lor (Z.lor (byte_size s) (Z.shiftl (stop_bits s) 2)) (Z.shiftl (parity s) 3))
    (Z.shiftl (parity_type s) 4)).

Lemma format_read s : 0 <= byte_size s < 4 -> 0 <= stop_bits s < 2 -> 0 <= parity s < 2 ->
  0 <= parity_type s < 4 -> let x := format_octet s in
  Z.land x 0x03 = byte_size s /\ Z.land (Z.shiftr x 2) 0x01 = stop_bits s /\
  Z.land (Z.shiftr x 3) 0x01 = parity s /\ Z.land (Z.shiftr x 4) 0x03 = parity_type s.
Proof.
  intros H1 H2 H3 H4. unfold format_octet.
  assert (byte_size s = 0 \/ byte_size s = 1 \/ byte_size s = 2 \/ byte_size s = 3) as E1 by lia.
  assert (stop_bits s = 0 \/ stop_bits s = 1) as E2 by lia.
  assert (parity s = 0 \/ parity s = 1) as E3 by lia.
  assert (parity_type s = 0 \/ parity_type s = 1 \/ parity_type s = 2 \/ parity_type s = 3) as E4 by lia.
  destruct E1 as [-> |[-> |[-> | ->]]], E2 as [-> | ->], E3 as [-> | ->], E4 as [-> |[-> |[-> | ->]]];
    by_decide.
Qed.

Lemma rpn_read d s mask (is_command : bool) b f :
  message_ok f is_command (Rpn d s mask) ->
  exists f' a, parse_message b is_command
      [mx_address d; baud_rate s; format_octet s; fc_type s; xon_char s; xoff_char s;
       Z.land mask 0xFF; u8 (Z.shiftr mask 8)] 8
      (mx_frame RFCOMM_MX_RPN is_command f) = Some (f', a) /\
    message_read (Rpn d s mask) is_command f' a.
Proof.
  intros ([V N] & H1 & H2 & H3 & H4 & _ & H7). destruct (mx_address_read d V N) as [A1 A2].
  change (parse_message b is_command ?l ?n ?g) with (parse_rpn is_command l n g). unfold parse_rpn.
  cbn [lookup list_lookup mbind option_bind].
  change (8 =? RFCOMM_MX_RPN_REQ_LEN) with false. change (8 =? RFCOMM_MX_RPN_LEN) with true. cbn [negb andb].
  rewrite A2. destruct (format_read s H1 H2 H3 H4) as (-> & -> & -> & ->).
  destruct (two_octets mask H7) as [_ ->].
  eexists _, _. split; [reflexivity|]. split; [done|]. by split; [exact A1|].
Qed.

Lemma rpn_request_read d (is_command : bool) b f : channel_ok d ->
  exists f' a, parse_message b is_command [mx_address d] 1 (mx_frame RFCOMM_MX_RPN is_command f) =
      Some (f', a) /\ message_read (RpnRequest d) is_command f' a.
Proof.
  intros [V N]. destruct (mx_address_read d V N) as [A1 A2].
  change (parse_message b is_command ?l ?n ?g) with (parse_rpn is_command l n g). unfold parse_rpn.
  cbn [lookup list_lookup mbind option_bind]. change (1 =? RFCOMM_MX_RPN_REQ_LEN) with true. cbn [negb andb].
  rewrite A2. eexists _, _. split; [reflexivity|]. done.
Qed.

(** The test message with its header before it. *)
Lemma test_header (is_command : bool) b m : buffer_ok b -> 20 <= offset b -> len b + 2 < 2 ^ 15 ->
  offset b + len b < Z.of_nat (length (data b)) -> offset b + len b + 1 < 2 ^ 16 ->
  exists b', (mem ← put (u16 (offset b - 2)) (mx_header RFCOMM_MX_TEST is_command (len b)) (data b);
      rfc_send_buf_uih congests RFCOMM_MX_DLCI
        {| data := mem; offset := u16 (offset b - 2); len := u16 (len b + 2);
           layer_specific := layer_specific b |} m) = Some (rfc_check_send_cmd (Some b') m) /\
    carries b' (mx_header RFCOMM_MX_TEST is_command (len b) ++ contents b).
Proof.
  intros (H1 & H2 & H3 & H4) Ho Hl Hd Hm. destruct b as [mem o n ls]. cbn [data offset len layer_specific] in *.
  rewrite !wrap_small by (unfold in_range; lia).
  destruct (split_at (Z.to_nat (o - 2)) mem) as (pre & r & -> & L1 & _); [lia|]. rewrite length_app in *.
  destruct (split_at 2 r) as (old & r1 & -> & L2 & _); [lia|]. rewrite length_app in *.
  destruct (split_at (Z.to_nat n) r1) as (info & post & -> & L3 & _); [lia|]. rewrite length_app in *.
  rewrite (put_at _ pre old (info ++ post)) by (done || lia). cbn [mbind option_bind].
  set (hd := mx_header RFCOMM_MX_TEST is_command n). assert (Lh : length hd = 2%nat) by done.
  assert (C0 : contents {| data := pre ++ old ++ info ++ post; offset := o; len := n;
    layer_specific := ls |} = info).
  { destruct (contents_app (pre ++ old) info post ls) as [C _]; [rewrite length_app; lia|].
    rewrite length_app, <- app_assoc in C. replace (Z.of_nat (length pre + length old)) with o in C by lia.
    replace (Z.of_nat (length info)) with n in C by lia. exact C. }
  rewrite C0. clearbody hd.
  destruct (contents_app pre (hd ++ info) post ls) as [C B]; [rewrite length_app; lia|].
  rewrite length_app, <- app_assoc in C, B.
  replace (Z.of_nat (length pre)) with (o - 2) in C, B by lia.
  replace (Z.of_nat (length hd + length info)) with (n + 2) in C, B by lia.
  rewrite <- C. apply send_uih_carries; cbn; try done; rewrite ?length_app; lia.
Qed.

Lemma send_test_carries (is_command : bool) b m : message_ok no_frame is_command (Test b) ->
  exists b', rfc_send_test malloc congests is_command b m = Some (rfc_check_send_cmd (Some b') m) /\
    carries b' (mx_header RFCOMM_MX_TEST is_command (len b) ++ contents b).
Proof.
  intros (B & Hl & Hr). pose proof (contents_length b B) as Lb. unfold rfc_send_test.
  change (L2CAP_MIN_OFFSET + RFCOMM_MIN_OFFSET + 2) with 20.
  destruct (Z.ltb_spec (offset b) 20) as [Ho|Ho].
  - pose proof (malloc_length (Z.to_nat (len b + 20 + 1))) as L. revert L.
    generalize (malloc (Z.to_nat (len b + 20 + 1))). intros mem L.
    destruct (split_at 20 mem) as (pre & r & -> & L1 & _); [lia|]. rewrite length_app, L1 in L.
    destruct (split_at (length (contents b)) r) as (old & post & -> & L2 & _); [lia|]. rewrite length_app in L.
    rewrite (put_at _ pre old post) by (rewrite ?L1; done). cbn [mbind option_bind].
    destruct (contents_app pre (contents b) post 0) as [C B']; [lia|]. rewrite L1, Lb in C, B'.
    destruct (test_header is_command _ m B') as (b' & H & K);
      cbn [data offset len]; rewrite ?length_app; try lia.
    rewrite C in K. exists b'. split; [exact H|exact K].
  - cbn [mbind option_bind]. destruct (Hr Ho) as [R1 R2]. by apply test_header.
Qed.

Lemma test_read (is_command : bool) b m : message_ok no_frame is_command (Test b) ->
  exists b', rfc_send_test malloc congests is_command b m = Some (rfc_check_send_cmd (Some b') m) /\
    buffer_ok b' /\
    forall peer f r, buffer_ok r -> contents r = contents b' ->
      exists f1 r1 f2 a, rfc_parse_data peer f r = Some (RFC_EVENT_UIH, f1, r1) /\ dlci f1 = 0 /\
        rfc_process_mx_message f1 r1 = Some (f2, a) /\ message_read (Test b) is_command f2 a.
Proof.
  intros M. destruct (send_test_carries is_command b m M) as (b' & H & B' & K).
  destruct M as (B & Hl & _). pose proof (contents_length b B) as Lb.
  exists b'. split; [done|]. split; [done|]. intros peer f r Br Cr.
  destruct (K peer f r Br Cr) as (f1 & r1 & P & D & B1 & C1). rewrite <- Lb in C1.
  pose proof (contents_length r1 B1) as L1. rewrite C1, length_app in L1. cbn [length mx_header] in L1.
  destruct (contents_advance (len r1 - 2) 2 r1 B1) as [_ C2]; [lia..|].
  destruct (Z.ltb_spec 127 (len b)) as [Hg|Hg].
  { destruct (long_header_ignored (contents b) is_command f1 r1) as [f2 E]; [lia|done|done|].
    exists f1, r1, f2, mx_ignore. split; [done|]. split; [done|]. split; [done|].
    unfold message_read. destruct (Z.eqb_spec (len b) 0) as [?|_]; [lia|].
    destruct (Z.ltb_spec 127 (len b)) as [_|?]; [done|lia]. }
  assert (E := read_message RFCOMM_MX_TEST is_command (contents b) f1 r1 ltac:(in_types) B1
    ltac:(lia) C1). unfold parse_message in E. cbn [mx_frame set_mx type] in E.
  change (RFCOMM_MX_TEST =? RFCOMM_MX_PN) with false in E.
  change (RFCOMM_MX_TEST =? RFCOMM_MX_TEST) with true in E. cbv iota in E. rewrite Lb in E.
  unfold message_read. destruct (Z.eqb_spec (len b) 0) as [?|?]; [by eexists f1, r1, _, _|].
  eexists f1, r1, _, _. split; [done|]. split; [done|]. split; [exact E|].
  destruct (Z.ltb_spec 127 (len b)) as [?|_]; [lia|].
  eexists. split; [reflexivity|]. rewrite C2, C1. cbn.
  replace (Z.to_nat (len r1 - 2)) with (length (contents b)) by lia. apply firstn_all.
Qed.

(** C21: what the peer makes of every message of the multiplexer, in its frame, for
    all values of its parameters.  It has the parameters that were sent, as far as the
    fields of the message hold them ([pn_received] and so on): those of a channel, the
    flow control, the modem signals, the line status, the settings of the port, the
    octets of a test; but parameters of a channel with an MTU out of range are refused,
    a test without octets is not supported, a test of more than 127 octets is
    ignored, and so is NSC, which a device writes as a response and reads only as a
    command. *)
Theorem rfcomm_messages_roundtrip (rx : MX_FRAME) (msg : Message) (is_command : bool) (m : tRFC_MCB) :
  message_ok rx is_command msg ->
  exists b, send_mx rx msg is_command m = Some (rfc_check_send_cmd (Some b) m) /\ buffer_ok b /\
    forall peer f r, buffer_ok r -> contents r = contents b ->
      exists f1 r1 f2 a, rfc_parse_data peer f r = Some (RFC_EVENT_UIH, f1, r1) /\ dlci f1 = 0 /\
        rfc_process_mx_message f1 r1 = Some (f2, a) /\ message_read msg is_command f2 a.
Proof.
  intros M. destruct msg as [d mtu cl k| | |d pars|d status|d|d s mask|b|command]; cbn [send_mx].
  - destruct M as (Hd & Hm & _ & _ & Hp).
    assert (exists p, (if is_command then Some 0
      else match u rx with u_pn pn => Some (pn_priority pn) | _ => None end) = Some p) as [p Ep].
    { destruct is_command; [by exists 0|]. destruct (Hp eq_refl) as (pn & ->). by eexists. }
    unfold rfc_send_pn. rewrite Ep. cbn [mbind option_bind].
    apply (message_carried (Pn d mtu cl k) is_command is_command RFCOMM_MX_PN
      [d; Z.lor 0 cl; p; 0; Z.land mtu 0xFF; u8 (Z.shiftr mtu 8); 0; k] m); [in_types|cbn; lia|].
    intros b f. by apply pn_read.
  - apply (message_carried Fcon is_command is_command RFCOMM_MX_FCON [] m); [in_types|cbn; lia|].
    intros b f. by eexists _, _.
  - apply (message_carried Fcoff is_command is_command RFCOMM_MX_FCOFF [] m); [in_types|cbn; lia|].
    intros b f. by eexists _, _.
  - destruct M as (Hd & Hs & Hb). unfold rfc_send_msc. fold (signals_octet pars) (break_octet (break_signal pars)).
    pose proof (fun b f => msc_read d pars is_command b f Hd Hs Hb) as R. cbv zeta in R.
    destruct (Z.eqb_spec (break_signal pars) 0).
    + apply (message_carried (Msc d pars) is_command is_command RFCOMM_MX_MSC [mx_address d; signals_octet pars] m);
        [in_types|cbn; lia|exact R].
    + apply (message_carried (Msc d pars) is_command is_command RFCOMM_MX_MSC
        [mx_address d; signals_octet pars; break_octet (break_signal pars)] m); [in_types|cbn; lia|exact R].
  - destruct M as (Hd & Hs).
    apply (message_carried (Rls d status) is_command is_command RFCOMM_MX_RLS [mx_address d; Z.lor 0x01 status] m); [in_types|cbn; lia|].
    intros b f. by apply rls_read.
  - apply (message_carried (RpnRequest d) is_command is_command RFCOMM_MX_RPN [mx_address d] m); [in_types|cbn; lia|].
    intros b f. by apply rpn_request_read.
  - unfold rfc_send_rpn. fold (format_octet s).
    apply (message_carried (Rpn d s mask) is_command is_command RFCOMM_MX_RPN
      [mx_address d; baud_rate s; format_octet s; fc_type s; xon_char s; xoff_char s;
       Z.land mask 0xFF; u8 (Z.shiftr mask 8)] m); [in_types|cbn; lia|].
    intros b f. by apply rpn_read.
  - by apply test_read.
  - apply (message_carried (NotSupported command) is_command false RFCOMM_MX_NSC
      [u8 (Z.lor (Z.lor (ea command) (Z.shiftl (cr command) 1)) (type command))] m); [in_types|cbn; lia|].
    intros b f. by eexists _, _.
Qed.
End messages.

(** ** Test messages of more than 127 octets *)

(** A test command with a length of two octets. *)
Definition long_test (info : list Z) : list Z :=
  let n := Z.of_nat (length info) in
  [Z.lor (Z.lor RFCOMM_EA (RFCOMM_I_CR true)) RFCOMM_MX_TEST; u8 (Z.shiftl (Z.land n 0x7f) 1);
   u8 (Z.shiftr n 7)] ++ info.

Lemma long_octets n : 128 <= n < 2 ^ 15 ->
  let z := u8 (Z.shiftl (Z.land n 0x7f) 1) in let t := u8 (Z.shiftr n 7) in
  Z.land z RFCOMM_EA = 0 /\ u8 (Z.shiftr z 1 + Z.shiftl t 7) = n mod 256 /\ (n <= 255 -> t = 1).
Proof.
  intros Hn. cbv zeta. change 0x7f with (Z.ones 7). change RFCOMM_EA with (Z.ones 1).
  rewrite !Z.land_ones, !Z.shiftl_mul_pow2, !Z.shiftr_div_pow2 by lia.
  change (2 ^ 1) with 2. change (2 ^ 7) with 128 in *. change (2 ^ 15) with 32768 in *.
  rewrite (wrap_small 8 (n mod 128 * 2)), (wrap_small 8 (n / 128));
    unfold in_range, wrap; change (2 ^ 8) with 256; dmlia.
Qed.

Lemma long_test_read info f r : 128 <= Z.of_nat (length info) < 2 ^ 15 -> buffer_ok r ->
  contents r = long_test info ->
  rfc_process_mx_message f r =
    if Z.of_nat (length info) mod 256 =? Z.of_nat (length info)
    then Some (set_union (u_test info) (mx_frame RFCOMM_MX_TEST true f), mx_send_test (advance (len r - 2) 2 r))
    else Some (mx_frame RFCOMM_MX_TEST true f, mx_ignore).
Proof.
  intros Hn B C. pose proof (contents_length r B) as Lr. unfold rfc_process_mx_message.
  destruct (long_octets (Z.of_nat (length info)) Hn) as (L1 & L2 & _).
  rewrite C in Lr |- *. unfold long_test in *. rewrite length_app in Lr. cbn [length] in Lr.
  destruct (Z.ltb_spec (len r) 2) as [?|_]; [lia|].
  cbn [app lookup list_lookup mbind option_bind]. set (g := set_mx _ _ _ _).
  change (ea g =? 0) with false. cbv iota. rewrite L1. change (0 =? 0) with true. cbn [andb].
  destruct (Z.ltb_spec (len r - 2) 1) as [?|_]; [lia|]. cbn [mbind option_bind]. rewrite L2. cbn [b2z].
  replace (len r - 2 - 1) with (Z.of_nat (length info)) by lia.
  destruct (_ mod 256 =? _); [|reflexivity]. cbn [negb]. unfold parse_message.
  change (type g =? RFCOMM_MX_PN) with false. change (type g =? RFCOMM_MX_TEST) with true. cbv iota.
  destruct (Z.eqb_spec (Z.of_nat (length info)) 0) as [?|_]; [lia|].
  change (negb (cr g =? 0)) with true. reflexivity.
Qed.

(** A test command of 128 to 255 octets is answered with the second octet of its
    length before what it held, and a longer one is dropped; the header
    [rfc_send_test] writes for a message of more than 127 octets gives another
    length, so that the peer drops the answer. *)
Theorem rfcomm_long_test_not_echoed (info body : list Z) (c : bool) (f : MX_FRAME) (r s : BT_HDR) :
  128 <= Z.of_nat (length info) < 2 ^ 15 -> buffer_ok r -> contents r = long_test info ->
  128 <= Z.of_nat (length body) -> buffer_ok s ->
  contents s = mx_header RFCOMM_MX_TEST c (Z.of_nat (length body)) ++ body ->
  (Z.of_nat (length info) <= 255 -> exists f' r',
     rfc_process_mx_message f r = Some (f', mx_send_test r') /\ contents r' = 1 :: info) /\
  (256 <= Z.of_nat (length info) -> exists f', rfc_process_mx_message f r = Some (f', mx_ignore)) /\
  (exists f', rfc_process_mx_message f s = Some (f', mx_ignore)).
Proof.
  intros Hn B C Hb Bs Cs. rewrite (long_test_read info f r Hn B C). set (n := Z.of_nat (length info)) in *.
  split; [|split].
  - intros Hs. rewrite Z.mod_small, Z.eqb_refl by lia. eexists _, _. split; [reflexivity|].
    pose proof (contents_length r B) as Lr. rewrite C in Lr. unfold long_test in Lr.
    rewrite length_app in Lr. cbn [length] in Lr.
    destruct (contents_advance (len r - 2) 2 r B) as [_ ->]; [lia..|]. rewrite C. unfold long_test. fold n.
    destruct (long_octets n Hn) as (_ & _ & T). rewrite T by done.
    change (Z.to_nat 2) with 2%nat. replace (Z.to_nat (len r - 2)) with (S (length info)) by lia.
    cbn [app drop take]. f_equal. apply firstn_all.
  - intros Hs. destruct (Z.eqb_spec (n mod 256) n) as [E|_]; [|by eexists].
    pose proof (Z.mod_pos_bound n 256). lia.
  - by apply (long_header_ignored body c).
Qed.

Lemma rfcomm_long_test_not_echoed_witness :
  exists f' r', rfc_process_mx_message no_frame (buffer (long_test (zeros 130)) 16 0) =
      Some (f', mx_send_test r') /\ contents r' = 1 :: zeros 130.
Proof.
  destruct (rfcomm_long_test_not_echoed (zeros 130) (zeros 131) false no_frame
    (buffer (long_test (zeros 130)) 16 0)
    (buffer (mx_header RFCOMM_MX_TEST false 131 ++ zeros 131) 16 0)) as (H & _ & _);
    [by_decide|by_decide|vm_compute; reflexivity|by_decide|by_decide|vm_compute; reflexivity|].
  apply H. vm_compute. discriminate.
Defined.

Lemma rfcomm_messages_roundtrip_witness :
  exists m', send_mx zeros uncongested no_frame (Pn 6 990 0xF0 7) true (new_mcb true) = Some m' /\
    exists f1 r1 f2 a, rfc_parse_data (new_mcb false) no_frame (buffer (List.last (written m') []) 13 0) =
        Some (RFC_EVENT_UIH, f1, r1) /\ rfc_process_mx_message f1 r1 = Some (f2, a) /\
      message_read (Pn 6 990 0xF0 7) true f2 a.
Proof.
  destruct (rfcomm_messages_roundtrip zeros uncongested zeros_length no_frame (Pn 6 990 0xF0 7) true
    (new_mcb true)) as (b & H & B & R).
  - split; [split; [reflexivity|discriminate]|]. repeat split; try by_decide. discriminate.
  - eexists. split; [exact H|].
    destruct (R (new_mcb false) no_frame (buffer (contents b) 13 0)) as (f1 & r1 & f2 & a & P & _ & M & A).
    + revert H. vm_compute. intros [= <-]. by_decide.
    + revert H. vm_compute. intros [= <-]. reflexivity.
    + exists f1, r1, f2, a. split; [exact P|]. split; [exact M|exact A].
Defined.
