(* ===== verification/RfcommPortState.v ===== *)
(** * RFCOMM ports: the control blocks

    The data of [port_int.h] and [rfc_int.h] ([src/system/stack/rfcomm]) that the model
    of the ports in [RfcommPort.v] works on: the control blocks of ports and
    multiplexers, the outputs, and the functions that look up a port. *)

From stdpp Require Import base list option.
From Stdlib Require Import ZArith Lia.
From S2P Require Import Prelude.
From S2P Require Import RfcommFrames.
From S2P Require Import RfcommMessages.

Open Scope Z_scope.

(** ** Constants *)

Definition L2CAP_MTU_SIZE := 1691.
Definition L2CAP_PKT_OVERHEAD := 4.
Definition RFCOMM_DATA_OVERHEAD := RFCOMM_MIN_OFFSET + 1.
Definition RFCOMM_DEFAULT_MTU := 127.
Definition RFCOMM_K_MAX := 7.
Definition BTA_RFC_MTU_SIZE := L2CAP_MTU_SIZE - L2CAP_MIN_OFFSET - RFCOMM_DATA_OVERHEAD.
Definition PORT_RX_BUF_LOW_WM := 8.
Definition PORT_RX_BUF_HIGH_WM := 10.
Definition PORT_RX_BUF_CRITICAL_WM := 15.
Definition PORT_RX_LOW_WM := BTA_RFC_MTU_SIZE * PORT_RX_BUF_LOW_WM.
Definition PORT_RX_HIGH_WM := BTA_RFC_MTU_SIZE * PORT_RX_BUF_HIGH_WM.
Definition PORT_RX_CRITICAL_WM := BTA_RFC_MTU_SIZE * PORT_RX_BUF_CRITICAL_WM.
Definition PORT_TX_BUF_HIGH_WM := 10.
Definition PORT_TX_BUF_CRITICAL_WM := 15.
Definition PORT_TX_HIGH_WM := BTA_RFC_MTU_SIZE * PORT_TX_BUF_HIGH_WM.
Definition PORT_TX_CRITICAL_WM := BTA_RFC_MTU_SIZE * PORT_TX_BUF_CRITICAL_WM.
(** RFCOMM_DATA_BUF_SIZE without the headers. *)
Definition RFCOMM_DATA_LENGTH := 4096 + 16 - (8 + L2CAP_MIN_OFFSET + RFCOMM_DATA_OVERHEAD).

Definition PORT_EV_RXCHAR := 0x00000001.
Definition PORT_EV_RXFLAG := 0x00000002.
Definition PORT_EV_TXEMPTY := 0x00000004.
Definition PORT_EV_CTS := 0x00000008.
Definition PORT_EV_DSR := 0x00000010.
Definition PORT_EV_RLSD := 0x00000020.
Definition PORT_EV_BREAK := 0x00000040.
Definition PORT_EV_ERR := 0x00000080.
Definition PORT_EV_RING := 0x00000100.
Definition PORT_EV_CONNECTED := 0x00000200.
Definition PORT_EV_CTSS := 0x00000400.
Definition PORT_EV_DSRS := 0x00000800.
Definition PORT_EV_RLSDS := 0x00001000.
Definition PORT_EV_OVERRUN := 0x00002000.
Definition PORT_EV_TXCHAR := 0x00004000.
Definition PORT_EV_FC := 0x00010000.
Definition PORT_EV_FCS := 0x00020000.

Definition PORT_DTRDSR_ON := 0x01.
Definition PORT_CTSRTS_ON := 0x02.
Definition PORT_RING_ON := 0x04.
Definition PORT_DCD_ON := 0x08.
Definition PORT_ERR_BREAK := 0x01.
Definition PORT_ERR_OVERRUN := 0x02.
Definition LINE_STATUS_OVERRUN := 0x02.

Definition RFC_RSP_PN := 0x01.
Definition RFC_RSP_MSC := 0x08.
Definition RFC_RSP_RLS := 0x10.
Definition RFC_T2_TIMEOUT := 20.
Definition RFC_MCB_RELEASE_INACT_TIMER := 20.

Definition PORT_CTRL_REQ_SENT := 0x01.
Definition PORT_CTRL_REQ_CONFIRMED := 0x02.
Definition PORT_CTRL_IND_RECEIVED := 0x04.
Definition PORT_CTRL_IND_RESPONDED := 0x08.
Definition PORT_CTRL_SETUP_COMPLETED := 0x0F.

Definition RFCOMM_PN_CONV_LAYER_TYPE_1 := 0.
Definition RFCOMM_PN_CONV_LAYER_CBFC_I := 0xF0.
Definition RFCOMM_PN_CONV_LAYER_CBFC_R := 0xE0.

(** ** Data *)

Inductive tPORT_RESULT :=
| PORT_SUCCESS
| PORT_UNKNOWN_ERROR
| PORT_ALREADY_OPENED
| PORT_CMD_PENDING
| PORT_APP_NOT_REGISTERED
| PORT_NO_MEM
| PORT_NO_RESOURCES
| PORT_BAD_BD_ADDR
| PORT_BAD_HANDLE
| PORT_NOT_OPENED
| PORT_LINE_ERR
| PORT_START_FAILED
| PORT_PAR_NEG_FAILED
| PORT_PORT_NEG_FAILED
| PORT_SEC_FAILED
| PORT_PEER_CONNECTION_FAILED
| PORT_PEER_FAILED
| PORT_PEER_TIMEOUT
| PORT_CLOSED
| PORT_TX_FULL
| PORT_LOCAL_CLOSED
| PORT_LOCAL_TIMEOUT
| PORT_TX_QUEUE_DISABLED
| PORT_PAGE_TIMEOUT
| PORT_INVALID_SCN
| PORT_ERR_MAX.

Inductive tPORT_CONNECTION_STATE :=
| PORT_CONNECTION_STATE_CLOSED
| PORT_CONNECTION_STATE_OPENING
| PORT_CONNECTION_STATE_OPENED
| PORT_CONNECTION_STATE_CLOSING.

Inductive tRFC_PORT_STATE :=
| RFC_STATE_CLOSED
| RFC_STATE_SABME_WAIT_UA
| RFC_STATE_ORIG_WAIT_SEC_CHECK
| RFC_STATE_TERM_WAIT_SEC_CHECK
| RFC_STATE_OPENED
| RFC_STATE_DISC_WAIT_UA.

Inductive tRFC_MX_STATE :=
| RFC_MX_STATE_IDLE
| RFC_MX_STATE_WAIT_CONN_CNF
| RFC_MX_STATE_CONFIGURE
| RFC_MX_STATE_SABME_WAIT_UA
| RFC_MX_STATE_WAIT_SABME
| RFC_MX_STATE_CONNECTED
| RFC_MX_STATE_DISC_WAIT_UA.

#[export] Instance tPORT_RESULT_eq_dec : EqDecision tPORT_RESULT.
Proof. solve_decision. Defined.
#[export] Instance tPORT_CONNECTION_STATE_eq_dec : EqDecision tPORT_CONNECTION_STATE.
Proof. solve_decision. Defined.
#[export] Instance tRFC_PORT_STATE_eq_dec : EqDecision tRFC_PORT_STATE.
Proof. solve_decision. Defined.
#[export] Instance tRFC_MX_STATE_eq_dec : EqDecision tRFC_MX_STATE.
Proof. solve_decision. Defined.

Record tPORT_DATA := {
  queue : list (list Z);
  queue_size : Z;
  peer_fc : bool;
  user_fc : bool;
}.

(** The callback of the application for received data. *)
Inductive DataCallback :=
| no_data_callback
| p_data_callback
| p_data_co_callback.

(** What the application has asked for when it opened the port. *)
Record Owner := {
  port_addr : Z;                   (* [bd_addr] *)
  uuid : Z;
  keep_port_handle : bool;
  keep_mtu : Z;
  sec_mask : Z;
  default_signal_state : Z;
}.

Record tPORT := {
  in_use : bool;
  port_state : tPORT_CONNECTION_STATE;
  port_dlci : Z;
  is_server : bool;
  line_status : Z;
  mtu : Z;
  peer_mtu : Z;
  tx : tPORT_DATA;
  rx : tPORT_DATA;
  user_port_settings : PortSettings;
  peer_port_settings : PortSettings;
  local_ctrl : tPORT_CTRL;
  peer_ctrl : tPORT_CTRL;
  port_ctrl : Z;
  rx_flag_ev_pending : bool;
  sm_state : tRFC_PORT_STATE;
  expected_rsp : Z;
  p_mcb : option nat;
  ev_mask : Z;
  p_callback : bool;
  p_mgmt_callback : bool;
  data_callback : DataCallback;
  credit_tx : Z;
  credit_rx : Z;
  credit_rx_max : Z;
  credit_rx_low : Z;
  rx_buf_critical : Z;
  init_credit : option Z;
  hardware_offload : bool;
  owner : Owner;
}.

(** The frames a port or its multiplexer sends, each with the function that writes it:
    [rfc_send_buf_uih], [rfc_send_credit], [rfc_send_dm], [rfc_send_sabme], [rfc_send_ua],
    [rfc_send_disc], [rfc_send_nsc] about the received message, and the other messages. *)
Inductive Frame :=
| Uih (d credits : Z) (info : list Z)
| Credit (d credits : Z)
| Dm (d : Z) (final : bool)
| Sabme (d : Z)
| Ua (d : Z)
| Disc (d : Z)
| Nsc (rx : MX_FRAME)
| Mx (msg : Message) (is_command : bool).

(** What a multiplexer knows about its L2CAP channel, and about a second one while the
    connections of both devices collide; a configuration is the MTU it may have. *)
Record Link := {
  bd_addr : Z;
  lcid : Z;
  peer_l2cap_mtu : Z;
  mux_initiator : bool;            (* [is_initiator] *)
  restart_required : bool;
  pending_lcid : Z;
  pending_configure_complete : bool;
  pending_cfg_info : option Z;
  collision_outgoing_lcid : Z;
  collision_outgoing_conn_cnf : bool;
  collision_outgoing_cfg_complete : bool;
  collision_cfg_info : option Z;
}.

Record tRFC_MCB := {
  mcb_state : tRFC_MX_STATE;
  mcb_flow : Z;
  peer_ready : bool;
  mcb_congested : bool;            (* [l2cap_congested] *)
  mcb_cmd_q : list Frame;
  port_handles : list Z;
  is_disc_initiator : bool;
  link : Link;
}.

Inductive CoCallback :=
| DATA_CO_CALLBACK_TYPE_INCOMING (info : list Z)
| DATA_CO_CALLBACK_TYPE_OUTGOING_SIZE
| DATA_CO_CALLBACK_TYPE_OUTGOING (n : Z).

(** What the layer does outside of its control block. *)
Inductive Output :=
| Sent (m : nat) (f : Frame)
| Refused (m : nat) (f : Frame)
| Dropped (k : nat) (info : list Z)            (* freed by the state machine of the port *)
| Overrun (k : nat) (info : list Z)            (* freed because the receive queue is full *)
| Callback (k : nat) (events : Z)
| MgmtCallback (k : nat) (res : tPORT_RESULT)
| Data (k : nat) (info : list Z)
| DataCo (k : nat) (c : CoCallback)
| PortTimerStart (k : nat) (timeout : Z)
| PortTimerStop (k : nat)
| MxTimerStart (m : nat) (timeout : Z)
| MxTimerStop (m : nat)
| SecRequest (k : nat) (peer : Z) (is_originator : bool) (mask : Z)
                                               (* [btm_sec_service_access_request] *)
| SecAbort (peer : Z)                          (* [btm_sec_abort_access_req] *)
| ConnectReq (m : nat) (result : Z)            (* [L2CA_ConnectReq] and the channel it returns *)
| DisconnectReq (channel : Z)                  (* [L2CA_DisconnectReq] *)
| Crash.                                       (* a null pointer or a byte that is not there *)

(** Where the allocation of ports and multiplexers goes on, and the multiplexers of the
    L2CAP channels. *)
Record Tables := {
  last_port_index : nat;
  last_mux : nat;
  rfc_lcid_mcb : list (Z * option nat);
}.

Record tRFC_CB := {
  tables : Tables;
  peer_rx_disabled : bool;
  ports : list tPORT;
  mcbs : list tRFC_MCB;
  out : list Output;
}.

(** ** Updates *)

Definition set_in_use (x : bool) (p : tPORT) : tPORT :=
  {| in_use := x; port_state := port_state p; port_dlci := port_dlci p;
     is_server := is_server p; line_status := line_status p; mtu := mtu p;
     peer_mtu := peer_mtu p; tx := tx p; rx := rx p; user_port_settings := user_port_settings p;
     peer_port_settings := peer_port_settings p; local_ctrl := local_ctrl p;
     peer_ctrl := peer_ctrl p; port_ctrl := port_ctrl p;
     rx_flag_ev_pending := rx_flag_ev_pending p; sm_state := sm_state p;
     expected_rsp := expected_rsp p; p_mcb := p_mcb p; ev_mask := ev_mask p;
     p_callback := p_callback p; p_mgmt_callback := p_mgmt_callback p;
     data_callback := data_callback p; credit_tx := credit_tx p; credit_rx := credit_rx p;
     credit_rx_max := credit_rx_max p; credit_rx_low := credit_rx_low p;
     rx_buf_critical := rx_buf_critical p; init_credit := init_credit p;
     hardware_offload := hardware_offload p; owner := owner p |}.

Definition set_is_server (x : bool) (p : tPORT) : tPORT :=
  {| in_use := in_use p; port_state := port_state p; port_dlci := port_dlci p; is_server := x;
     line_status := line_status p; mtu := mtu p; peer_mtu := peer_mtu p; tx := tx p; rx := rx p;
     user_port_settings := user_port_settings p; peer_port_settings := peer_port_settings p;
     local_ctrl := local_ctrl p; peer_ctrl := peer_ctrl p; port_ctrl := port_ctrl p;
     rx_flag_ev_pending := rx_flag_ev_pending p; sm_state := sm_state p;
     expected_rsp := expected_rsp p; p_mcb := p_mcb p; ev_mask := ev_mask p;
     p_callback := p_callback p; p_mgmt_callback := p_mgmt_callback p;
     data_callback := data_callback p; credit_tx := credit_tx p; credit_rx := credit_rx p;
     credit_rx_max := credit_rx_max p; credit_rx_low := credit_rx_low p;
     rx_buf_critical := rx_buf_critical p; init_credit := init_credit p;
     hardware_offload := hardware_offload p; owner := owner p |}.

Definition set_port_dlci (x : Z) (p : tPORT) : tPORT :=
  {| in_use := in_use p; port_state := port_state p; port_dlci := x; is_server := is_server p;
     line_status := line_status p; mtu := mtu p; peer_mtu := peer_mtu p; tx := tx p; rx := rx p;
     user_port_settings := user_port_settings p; peer_port_settings := peer_port_settings p;
     local_ctrl := local_ctrl p; peer_ctrl := peer_ctrl p; port_ctrl := port_ctrl p;
     rx_flag_ev_pending := rx_flag_ev_pending p; sm_state := sm_state p;
     expected_rsp := expected_rsp p; p_mcb := p_mcb p; ev_mask := ev_mask p;
     p_callback := p_callback p; p_mgmt_callback := p_mgmt_callback p;
     data_callback := data_callback p; credit_tx := credit_tx p; credit_rx := credit_rx p;
     credit_rx_max := credit_rx_max p; credit_rx_low := credit_rx_low p;
     rx_buf_critical := rx_buf_critical p; init_credit := init_credit p;
     hardware_offload := hardware_offload p; owner := owner p |}.

Definition set_line_status (x : Z) (p : tPORT) : tPORT :=
  {| in_use := in_use p; port_state := port_state p; port_dlci := port_dlci p;
     is_server := is_server p; line_status := x; mtu := mtu p; peer_mtu := peer_mtu p;
     tx := tx p; rx := rx p; user_port_settings := user_port_settings p;
     peer_port_settings := peer_port_settings p; local_ctrl := local_ctrl p;
     peer_ctrl := peer_ctrl p; port_ctrl := port_ctrl p;
     rx_flag_ev_pending := rx_flag_ev_pending p; sm_state := sm_state p;
     expected_rsp := expected_rsp p; p_mcb := p_mcb p; ev_mask := ev_mask p;
     p_callback := p_callback p; p_mgmt_callback := p_mgmt_callback p;
     data_callback := data_callback p; credit_tx := credit_tx p; credit_rx := credit_rx p;
     credit_rx_max := credit_rx_max p; credit_rx_low := credit_rx_low p;
     rx_buf_critical := rx_buf_critical p; init_credit := init_credit p;
     hardware_offload := hardware_offload p; owner := owner p |}.

Definition set_mtu (x : Z) (p : tPORT) : tPORT :=
  {| in_use := in_use p; port_state := port_state p; port_dlci := port_dlci p;
     is_server := is_server p; line_status := line_status p; mtu := x; peer_mtu := peer_mtu p;
     tx := tx p; rx := rx p; user_port_settings := user_port_settings p;
     peer_port_settings := peer_port_settings p; local_ctrl := local_ctrl p;
     peer_ctrl := peer_ctrl p; port_ctrl := port_ctrl p;
     rx_flag_ev_pending := rx_flag_ev_pending p; sm_state := sm_state p;
     expected_rsp := expected_rsp p; p_mcb := p_mcb p; ev_mask := ev_mask p;
     p_callback := p_callback p; p_mgmt_callback := p_mgmt_callback p;
     data_callback := data_callback p; credit_tx := credit_tx p; credit_rx := credit_rx p;
     credit_rx_max := credit_rx_max p; credit_rx_low := credit_rx_low p;
     rx_buf_critical := rx_buf_critical p; init_credit := init_credit p;
     hardware_offload := hardware_offload p; owner := owner p |}.

Definition set_peer_mtu (x : Z) (p : tPORT) : tPORT :=
  {| in_use := in_use p; port_state := port_state p; port_dlci := port_dlci p;
     is_server := is_server p; line_status := line_status p; mtu := mtu p; peer_mtu := x;
     tx := tx p; rx := rx p; user_port_settings := user_port_settings p;
     peer_port_settings := peer_port_settings p; local_ctrl := local_ctrl p;
     peer_ctrl := peer_ctrl p; port_ctrl := port_ctrl p;
     rx_flag_ev_pending := rx_flag_ev_pending p; sm_state := sm_state p;
     expected_rsp := expected_rsp p; p_mcb := p_mcb p; ev_mask := ev_mask p;
     p_callback := p_callback p; p_mgmt_callback := p_mgmt_callback p;
     data_callback := data_callback p; credit_tx := credit_tx p; credit_rx := credit_rx p;
     credit_rx_max := credit_rx_max p; credit_rx_low := credit_rx_low p;
     rx_buf_critical := rx_buf_critical p; init_credit := init_credit p;
     hardware_offload := hardware_offload p; owner := owner p |}.

Definition set_tx (x : tPORT_DATA) (p : tPORT) : tPORT :=
  {| in_use := in_use p; port_state := port_state p; port_dlci := port_dlci p;
     is_server := is_server p; line_status := line_status p; mtu := mtu p;
     peer_mtu := peer_mtu p; tx := x; rx := rx p; user_port_settings := user_port_settings p;
     peer_port_settings := peer_port_settings p; local_ctrl := local_ctrl p;
     peer_ctrl := peer_ctrl p; port_ctrl := port_ctrl p;
     rx_flag_ev_pending := rx_flag_ev_pending p; sm_state := sm_state p;
     expected_rsp := expected_rsp p; p_mcb := p_mcb p; ev_mask := ev_mask p;
     p_callback := p_callback p; p_mgmt_callback := p_mgmt_callback p;
     data_callback := data_callback p; credit_tx := credit_tx p; credit_rx := credit_rx p;
     credit_rx_max := credit_rx_max p; credit_rx_low := credit_rx_low p;
     rx_buf_critical := rx_buf_critical p; init_credit := init_credit p;
     hardware_offload := hardware_offload p; owner := owner p |}.

Definition set_rx (x : tPORT_DATA) (p : tPORT) : tPORT :=
  {| in_use := in_use p; port_state := port_state p; port_dlci := port_dlci p;
     is_server := is_server p; line_status := line_status p; mtu := mtu p;
     peer_mtu := peer_mtu p; tx := tx p; rx := x; user_port_settings := user_port_settings p;
     peer_port_settings := peer_port_settings p; local_ctrl := local_ctrl p;
     peer_ctrl := peer_ctrl p; port_ctrl := port_ctrl p;
     rx_flag_ev_pending := rx_flag_ev_pending p; sm_state := sm_state p;
     expected_rsp := expected_rsp p; p_mcb := p_mcb p; ev_mask := ev_mask p;
     p_callback := p_callback p; p_mgmt_callback := p_mgmt_callback p;
     data_callback := data_callback p; credit_tx := credit_tx p; credit_rx := credit_rx p;
     credit_rx_max := credit_rx_max p; credit_rx_low := credit_rx_low p;
     rx_buf_critical := rx_buf_critical p; init_credit := init_credit p;
     hardware_offload := hardware_offload p; owner := owner p |}.

Definition set_user_port_settings (x : PortSettings) (p : tPORT) : tPORT :=
  {| in_use := in_use p; port_state := port_state p; port_dlci := port_dlci p;
     is_server := is_server p; line_status := line_status p; mtu := mtu p;
     peer_mtu := peer_mtu p; tx := tx p; rx := rx p; user_port_settings := x;
     peer_port_settings := peer_port_settings p; local_ctrl := local_ctrl p;
     peer_ctrl := peer_ctrl p; port_ctrl := port_ctrl p;
     rx_flag_ev_pending := rx_flag_ev_pending p; sm_state := sm_state p;
     expected_rsp := expected_rsp p; p_mcb := p_mcb p; ev_mask := ev_mask p;
     p_callback := p_callback p; p_mgmt_callback := p_mgmt_callback p;
     data_callback := data_callback p; credit_tx := credit_tx p; credit_rx := credit_rx p;
     credit_rx_max := credit_rx_max p; credit_rx_low := credit_rx_low p;
     rx_buf_critical := rx_buf_critical p; init_credit := init_credit p;
     hardware_offload := hardware_offload p; owner := owner p |}.

Definition set_peer_port_settings (x : PortSettings) (p : tPORT) : tPORT :=
  {| in_use := in_use p; port_state := port_state p; port_dlci := port_dlci p;
     is_server := is_server p; line_status := line_status p; mtu := mtu p;
     peer_mtu := peer_mtu p; tx := tx p; rx := rx p; user_port_settings := user_port_settings p;
     peer_port_settings := x; local_ctrl := local_ctrl p; peer_ctrl := peer_ctrl p;
     port_ctrl := port_ctrl p; rx_flag_ev_pending := rx_flag_ev_pending p;
     sm_state := sm_state p; expected_rsp := expected_rsp p; p_mcb := p_mcb p;
     ev_mask := ev_mask p; p_callback := p_callback p; p_mgmt_callback := p_mgmt_callback p;
     data_callback := data_callback p; credit_tx := credit_tx p; credit_rx := credit_rx p;
     credit_rx_max := credit_rx_max p; credit_rx_low := credit_rx_low p;
     rx_buf_critical := rx_buf_critical p; init_credit := init_credit p;
     hardware_offload := hardware_offload p; owner := owner p |}.

Definition set_local_ctrl (x : tPORT_CTRL) (p : tPORT) : tPORT :=
  {| in_use := in_use p; port_state := port_state p; port_dlci := port_dlci p;
     is_server := is_server p; line_status := line_status p; mtu := mtu p;
     peer_mtu := peer_mtu p; tx := tx p; rx := rx p; user_port_settings := user_port_settings p;
     peer_port_settings := peer_port_settings p; local_ctrl := x; peer_ctrl := peer_ctrl p;
     port_ctrl := port_ctrl p; rx_flag_ev_pending := rx_flag_ev_pending p;
     sm_state := sm_state p; expected_rsp := expected_rsp p; p_mcb := p_mcb p;
     ev_mask := ev_mask p; p_callback := p_callback p; p_mgmt_callback := p_mgmt_callback p;
     data_callback := data_callback p; credit_tx := credit_tx p; credit_rx := credit_rx p;
     credit_rx_max := credit_rx_max p; credit_rx_low := credit_rx_low p;
     rx_buf_critical := rx_buf_critical p; init_credit := init_credit p;
     hardware_offload := hardware_offload p; owner := owner p |}.

Definition set_peer_ctrl (x : tPORT_CTRL) (p : tPORT) : tPORT :=
  {| in_use := in_use p; port_state := port_state p; port_dlci := port_dlci p;
     is_server := is_server p; line_status := line_status p; mtu := mtu p;
     peer_mtu := peer_mtu p; tx := tx p; rx := rx p; user_port_settings := user_port_settings p;
     peer_port_settings := peer_port_settings p; local_ctrl := local_ctrl p; peer_ctrl := x;
     port_ctrl := port_ctrl p; rx_flag_ev_pending := rx_flag_ev_pending p;
     sm_state := sm_state p; expected_rsp := expected_rsp p; p_mcb := p_mcb p;
     ev_mask := ev_mask p; p_callback := p_callback p; p_mgmt_callback := p_mgmt_callback p;
     data_callback := data_callback p; credit_tx := credit_tx p; credit_rx := credit_rx p;
     credit_rx_max := credit_rx_max p; credit_rx_low := credit_rx_low p;
     rx_buf_critical := rx_buf_critical p; init_credit := init_credit p;
     hardware_offload := hardware_offload p; owner := owner p |}.

Definition set_port_ctrl (x : Z) (p : tPORT) : tPORT :=
  {| in_use := in_use p; port_state := port_state p; port_dlci := port_dlci p;
     is_server := is_server p; line_status := line_status p; mtu := mtu p;
     peer_mtu := peer_mtu p; tx := tx p; rx := rx p; user_port_settings := user_port_settings p;
     peer_port_settings := peer_port_settings p; local_ctrl := local_ctrl p;
     peer_ctrl := peer_ctrl p; port_ctrl := x; rx_flag_ev_pending := rx_flag_ev_pending p;
     sm_state := sm_state p; expected_rsp := expected_rsp p; p_mcb := p_mcb p;
     ev_mask := ev_mask p; p_callback := p_callback p; p_mgmt_callback := p_mgmt_callback p;
     data_callback := data_callback p; credit_tx := credit_tx p; credit_rx := credit_rx p;
     credit_rx_max := credit_rx_max p; credit_rx_low := credit_rx_low p;
     rx_buf_critical := rx_buf_critical p; init_credit := init_credit p;
     hardware_offload := hardware_offload p; owner := owner p |}.

Definition set_rx_flag_ev_pending (x : bool) (p : tPORT) : tPORT :=
  {| in_use := in_use p; port_state := port_state p; port_dlci := port_dlci p;
     is_server := is_server p; line_status := line_status p; mtu := mtu p;
     peer_mtu := peer_mtu p; tx := tx p; rx := rx p; user_port_settings := user_port_settings p;
     peer_port_settings := peer_port_settings p; local_ctrl := local_ctrl p;
     peer_ctrl := peer_ctrl p; port_ctrl := port_ctrl p; rx_flag_ev_pending := x;
     sm_state := sm_state p; expected_rsp := expected_rsp p; p_mcb := p_mcb p;
     ev_mask := ev_mask p; p_callback := p_callback p; p_mgmt_callback := p_mgmt_callback p;
     data_callback := data_callback p; credit_tx := credit_tx p; credit_rx := credit_rx p;
     credit_rx_max := credit_rx_max p; credit_rx_low := credit_rx_low p;
     rx_buf_critical := rx_buf_critical p; init_credit := init_credit p;
     hardware_offload := hardware_offload p; owner := owner p |}.

Definition set_expected_rsp (x : Z) (p : tPORT) : tPORT :=
  {| in_use := in_use p; port_state := port_state p; port_dlci := port_dlci p;
     is_server := is_server p; line_status := line_status p; mtu := mtu p;
     peer_mtu := peer_mtu p; tx := tx p; rx := rx p; user_port_settings := user_port_settings p;
     peer_port_settings := peer_port_settings p; local_ctrl := local_ctrl p;
     peer_ctrl := peer_ctrl p; port_ctrl := port_ctrl p;
     rx_flag_ev_pending := rx_flag_ev_pending p; sm_state := sm_state p; expected_rsp := x;
     p_mcb := p_mcb p; ev_mask := ev_mask p; p_callback := p_callback p;
     p_mgmt_callback := p_mgmt_callback p; data_callback := data_callback p;
     credit_tx := credit_tx p; credit_rx := credit_rx p; credit_rx_max := credit_rx_max p;
     credit_rx_low := credit_rx_low p; rx_buf_critical := rx_buf_critical p;
     init_credit := init_credit p; hardware_offload := hardware_offload p; owner := owner p |}.

Definition set_p_mcb (x : option nat) (p : tPORT) : tPORT :=
  {| in_use := in_use p; port_state := port_state p; port_dlci := port_dlci p;
     is_server := is_server p; line_status := line_status p; mtu := mtu p;
     peer_mtu := peer_mtu p; tx := tx p; rx := rx p; user_port_settings := user_port_settings p;
     peer_port_settings := peer_port_settings p; local_ctrl := local_ctrl p;
     peer_ctrl := peer_ctrl p; port_ctrl := port_ctrl p;
     rx_flag_ev_pending := rx_flag_ev_pending p; sm_state := sm_state p;
     expected_rsp := expected_rsp p; p_mcb := x; ev_mask := ev_mask p;
     p_callback := p_callback p; p_mgmt_callback := p_mgmt_callback p;
     data_callback := data_callback p; credit_tx := credit_tx p; credit_rx := credit_rx p;
     credit_rx_max := credit_rx_max p; credit_rx_low := credit_rx_low p;
     rx_buf_critical := rx_buf_critical p; init_credit := init_credit p;
     hardware_offload := hardware_offload p; owner := owner p |}.

Definition set_credit_tx (x : Z) (p : tPORT) : tPORT :=
  {| in_use := in_use p; port_state := port_state p; port_dlci := port_dlci p;
     is_server := is_server p; line_status := line_status p; mtu := mtu p;
     peer_mtu := peer_mtu p; tx := tx p; rx := rx p; user_port_settings := user_port_settings p;
     peer_port_settings := peer_port_settings p; local_ctrl := local_ctrl p;
     peer_ctrl := peer_ctrl p; port_ctrl := port_ctrl p;
     rx_flag_ev_pending := rx_flag_ev_pending p; sm_state := sm_state p;
     expected_rsp := expected_rsp p; p_mcb := p_mcb p; ev_mask := ev_mask p;
     p_callback := p_callback p; p_mgmt_callback := p_mgmt_callback p;
     data_callback := data_callback p; credit_tx := x; credit_rx := credit_rx p;
     credit_rx_max := credit_rx_max p; credit_rx_low := credit_rx_low p;
     rx_buf_critical := rx_buf_critical p; init_credit := init_credit p;
     hardware_offload := hardware_offload p; owner := owner p |}.

Definition set_credit_rx (x : Z) (p : tPORT) : tPORT :=
  {| in_use := in_use p; port_state := port_state p; port_dlci := port_dlci p;
     is_server := is_server p; line_status := line_status p; mtu := mtu p;
     peer_mtu := peer_mtu p; tx := tx p; rx := rx p; user_port_settings := user_port_settings p;
     peer_port_settings := peer_port_settings p; local_ctrl := local_ctrl p;
     peer_ctrl := peer_ctrl p; port_ctrl := port_ctrl p;
     rx_flag_ev_pending := rx_flag_ev_pending p; sm_state := sm_state p;
     expected_rsp := expected_rsp p; p_mcb := p_mcb p; ev_mask := ev_mask p;
     p_callback := p_callback p; p_mgmt_callback := p_mgmt_callback p;
     data_callback := data_callback p; credit_tx := credit_tx p; credit_rx := x;
     credit_rx_max := credit_rx_max p; credit_rx_low := credit_rx_low p;
     rx_buf_critical := rx_buf_critical p; init_credit := init_credit p;
     hardware_offload := hardware_offload p; owner := owner p |}.

Definition set_port_state (x : tPORT_CONNECTION_STATE) (p : tPORT) : tPORT :=
  {| in_use := in_use p; port_state := x; port_dlci := port_dlci p; is_server := is_server p;
     line_status := line_status p; mtu := mtu p; peer_mtu := peer_mtu p; tx := tx p; rx := rx p;
     user_port_settings := user_port_settings p; peer_port_settings := peer_port_settings p;
     local_ctrl := local_ctrl p; peer_ctrl := peer_ctrl p; port_ctrl := port_ctrl p;
     rx_flag_ev_pending := rx_flag_ev_pending p; sm_state := sm_state p;
     expected_rsp := expected_rsp p; p_mcb := p_mcb p; ev_mask := ev_mask p;
     p_callback := p_callback p; p_mgmt_callback := p_mgmt_callback p;
     data_callback := data_callback p; credit_tx := credit_tx p; credit_rx := credit_rx p;
     credit_rx_max := credit_rx_max p; credit_rx_low := credit_rx_low p;
     rx_buf_critical := rx_buf_critical p; init_credit := init_credit p;
     hardware_offload := hardware_offload p; owner := owner p |}.

Definition set_sm_state (x : tRFC_PORT_STATE) (p : tPORT) : tPORT :=
  {| in_use := in_use p; port_state := port_state p; port_dlci := port_dlci p;
     is_server := is_server p; line_status := line_status p; mtu := mtu p;
     peer_mtu := peer_mtu p; tx := tx p; rx := rx p; user_port_settings := user_port_settings p;
     peer_port_settings := peer_port_settings p; local_ctrl := local_ctrl p;
     peer_ctrl := peer_ctrl p; port_ctrl := port_ctrl p;
     rx_flag_ev_pending := rx_flag_ev_pending p; sm_state := x; expected_rsp := expected_rsp p;
     p_mcb := p_mcb p; ev_mask := ev_mask p; p_callback := p_callback p;
     p_mgmt_callback := p_mgmt_callback p; data_callback := data_callback p;
     credit_tx := credit_tx p; credit_rx := credit_rx p; credit_rx_max := credit_rx_max p;
     credit_rx_low := credit_rx_low p; rx_buf_critical := rx_buf_critical p;
     init_credit := init_credit p; hardware_offload := hardware_offload p; owner := owner p |}.

Definition set_ev_mask (x : Z) (p : tPORT) : tPORT :=
  {| in_use := in_use p; port_state := port_state p; port_dlci := port_dlci p;
     is_server := is_server p; line_status := line_status p; mtu := mtu p;
     peer_mtu := peer_mtu p; tx := tx p; rx := rx p; user_port_settings := user_port_settings p;
     peer_port_settings := peer_port_settings p; local_ctrl := local_ctrl p;
     peer_ctrl := peer_ctrl p; port_ctrl := port_ctrl p;
     rx_flag_ev_pending := rx_flag_ev_pending p; sm_state := sm_state p;
     expected_rsp := expected_rsp p; p_mcb := p_mcb p; ev_mask := x; p_callback := p_callback p;
     p_mgmt_callback := p_mgmt_callback p; data_callback := data_callback p;
     credit_tx := credit_tx p; credit_rx := credit_rx p; credit_rx_max := credit_rx_max p;
     credit_rx_low := credit_rx_low p; rx_buf_critical := rx_buf_critical p;
     init_credit := init_credit p; hardware_offload := hardware_offload p; owner := owner p |}.

Definition set_p_callback (x : bool) (p : tPORT) : tPORT :=
  {| in_use := in_use p; port_state := port_state p; port_dlci := port_dlci p;
     is_server := is_server p; line_status := line_status p; mtu := mtu p;
     peer_mtu := peer_mtu p; tx := tx p; rx := rx p; user_port_settings := user_port_settings p;
     peer_port_settings := peer_port_settings p; local_ctrl := local_ctrl p;
     peer_ctrl := peer_ctrl p; port_ctrl := port_ctrl p;
     rx_flag_ev_pending := rx_flag_ev_pending p; sm_state := sm_state p;
     expected_rsp := expected_rsp p; p_mcb := p_mcb p; ev_mask := ev_mask p; p_callback := x;
     p_mgmt_callback := p_mgmt_callback p; data_callback := data_callback p;
     credit_tx := credit_tx p; credit_rx := credit_rx p; credit_rx_max := credit_rx_max p;
     credit_rx_low := credit_rx_low p; rx_buf_critical := rx_buf_critical p;
     init_credit := init_credit p; hardware_offload := hardware_offload p; owner := owner p |}.

Definition set_p_mgmt_callback (x : bool) (p : tPORT) : tPORT :=
  {| in_use := in_use p; port_state := port_state p; port_dlci := port_dlci p;
     is_server := is_server p; line_status := line_status p; mtu := mtu p;
     peer_mtu := peer_mtu p; tx := tx p; rx := rx p; user_port_settings := user_port_settings p;
     peer_port_settings := peer_port_settings p; local_ctrl := local_ctrl p;
     peer_ctrl := peer_ctrl p; port_ctrl := port_ctrl p;
     rx_flag_ev_pending := rx_flag_ev_pending p; sm_state := sm_state p;
     expected_rsp := expected_rsp p; p_mcb := p_mcb p; ev_mask := ev_mask p;
     p_callback := p_callback p; p_mgmt_callback := x; data_callback := data_callback p;
     credit_tx := credit_tx p; credit_rx := credit_rx p; credit_rx_max := credit_rx_max p;
     credit_rx_low := credit_rx_low p; rx_buf_critical := rx_buf_critical p;
     init_credit := init_credit p; hardware_offload := hardware_offload p; owner := owner p |}.

Definition set_data_callback (x : DataCallback) (p : tPORT) : tPORT :=
  {| in_use := in_use p; port_state := port_state p; port_dlci := port_dlci p;
     is_server := is_server p; line_status := line_status p; mtu := mtu p;
     peer_mtu := peer_mtu p; tx := tx p; rx := rx p; user_port_settings := user_port_settings p;
     peer_port_settings := peer_port_settings p; local_ctrl := local_ctrl p;
     peer_ctrl := peer_ctrl p; port_ctrl := port_ctrl p;
     rx_flag_ev_pending := rx_flag_ev_pending p; sm_state := sm_state p;
     expected_rsp := expected_rsp p; p_mcb := p_mcb p; ev_mask := ev_mask p;
     p_callback := p_callback p; p_mgmt_callback := p_mgmt_callback p; data_callback := x;
     credit_tx := credit_tx p; credit_rx := credit_rx p; credit_rx_max := credit_rx_max p;
     credit_rx_low := credit_rx_low p; rx_buf_critical := rx_buf_critical p;
     init_credit := init_credit p; hardware_offload := hardware_offload p; owner := owner p |}.

Definition set_owner (x : Owner) (p : tPORT) : tPORT :=
  {| in_use := in_use p; port_state := port_state p; port_dlci := port_dlci p;
     is_server := is_server p; line_status := line_status p; mtu := mtu p;
     peer_mtu := peer_mtu p; tx := tx p; rx := rx p; user_port_settings := user_port_settings p;
     peer_port_settings := peer_port_settings p; local_ctrl := local_ctrl p;
     peer_ctrl := peer_ctrl p; port_ctrl := port_ctrl p;
     rx_flag_ev_pending := rx_flag_ev_pending p; sm_state := sm_state p;
     expected_rsp := expected_rsp p; p_mcb := p_mcb p; ev_mask := ev_mask p;
     p_callback := p_callback p; p_mgmt_callback := p_mgmt_callback p;
     data_callback := data_callback p; credit_tx := credit_tx p; credit_rx := credit_rx p;
     credit_rx_max := credit_rx_max p; credit_rx_low := credit_rx_low p;
     rx_buf_critical := rx_buf_critical p; init_credit := init_credit p;
     hardware_offload := hardware_offload p; owner := x |}.

Definition set_watermarks (high low critical : Z) (p : tPORT) : tPORT :=
  {| in_use := in_use p; port_state := port_state p; port_dlci := port_dlci p;
     is_server := is_server p; line_status := line_status p; mtu := mtu p;
     peer_mtu := peer_mtu p; tx := tx p; rx := rx p; user_port_settings := user_port_settings p;
     peer_port_settings := peer_port_settings p; local_ctrl := local_ctrl p;
     peer_ctrl := peer_ctrl p; port_ctrl := port_ctrl p;
     rx_flag_ev_pending := rx_flag_ev_pending p; sm_state := sm_state p;
     expected_rsp := expected_rsp p; p_mcb := p_mcb p; ev_mask := ev_mask p;
     p_callback := p_callback p; p_mgmt_callback := p_mgmt_callback p;
     data_callback := data_callback p; credit_tx := credit_tx p; credit_rx := credit_rx p;
     credit_rx_max := high; credit_rx_low := low; rx_buf_critical := critical;
     init_credit := init_credit p; hardware_offload := hardware_offload p; owner := owner p |}.

Definition set_config (x : option Z) (offload : bool) (p : tPORT) : tPORT :=
  {| in_use := in_use p; port_state := port_state p; port_dlci := port_dlci p;
     is_server := is_server p; line_status := line_status p; mtu := mtu p;
     peer_mtu := peer_mtu p; tx := tx p; rx := rx p; user_port_settings := user_port_settings p;
     peer_port_settings := peer_port_settings p; local_ctrl := local_ctrl p;
     peer_ctrl := peer_ctrl p; port_ctrl := port_ctrl p;
     rx_flag_ev_pending := rx_flag_ev_pending p; sm_state := sm_state p;
     expected_rsp := expected_rsp p; p_mcb := p_mcb p; ev_mask := ev_mask p;
     p_callback := p_callback p; p_mgmt_callback := p_mgmt_callback p;
     data_callback := data_callback p; credit_tx := credit_tx p; credit_rx := credit_rx p;
     credit_rx_max := credit_rx_max p; credit_rx_low := credit_rx_low p;
     rx_buf_critical := rx_buf_critical p; init_credit := x; hardware_offload := offload;
     owner := owner p |}.

Definition set_queue (q : list (list Z)) (n : Z) (d : tPORT_DATA) : tPORT_DATA :=
  {| queue := q; queue_size := n; peer_fc := peer_fc d; user_fc := user_fc d |}.
Definition set_peer_fc (b : bool) (d : tPORT_DATA) : tPORT_DATA :=
  {| queue := queue d; queue_size := queue_size d; peer_fc := b; user_fc := user_fc d |}.
Definition set_user_fc (b : bool) (d : tPORT_DATA) : tPORT_DATA :=
  {| queue := queue d; queue_size := queue_size d; peer_fc := peer_fc d; user_fc := b |}.

Definition set_fc (b : bool) (c : tPORT_CTRL) : tPORT_CTRL :=
  {| modem_signal := modem_signal c; break_signal := break_signal c; fc := b |}.

Definition set_flow (x : Z) (b : tRFC_MCB) : tRFC_MCB :=
  {| mcb_state := mcb_state b; mcb_flow := x; peer_ready := peer_ready b;
     mcb_congested := mcb_congested b; mcb_cmd_q := mcb_cmd_q b; port_handles := port_handles b;
     is_disc_initiator := is_disc_initiator b; link := link b |}.
Definition set_peer_ready (x : bool) (b : tRFC_MCB) : tRFC_MCB :=
  {| mcb_state := mcb_state b; mcb_flow := mcb_flow b; peer_ready := x;
     mcb_congested := mcb_congested b; mcb_cmd_q := mcb_cmd_q b; port_handles := port_handles b;
     is_disc_initiator := is_disc_initiator b; link := link b |}.
Definition set_congested (x : bool) (b : tRFC_MCB) : tRFC_MCB :=
  {| mcb_state := mcb_state b; mcb_flow := mcb_flow b; peer_ready := peer_ready b;
     mcb_congested := x; mcb_cmd_q := mcb_cmd_q b; port_handles := port_handles b;
     is_disc_initiator := is_disc_initiator b; link := link b |}.
Definition set_cmd_q (x : list Frame) (b : tRFC_MCB) : tRFC_MCB :=
  {| mcb_state := mcb_state b; mcb_flow := mcb_flow b; peer_ready := peer_ready b;
     mcb_congested := mcb_congested b; mcb_cmd_q := x; port_handles := port_handles b;
     is_disc_initiator := is_disc_initiator b; link := link b |}.
(** An element of the array; [write_port_handle] of [RfcommFsm.v] checks the index. *)
Definition set_port_handle (d h : Z) (b : tRFC_MCB) : tRFC_MCB :=
  {| mcb_state := mcb_state b; mcb_flow := mcb_flow b; peer_ready := peer_ready b;
     mcb_congested := mcb_congested b; mcb_cmd_q := mcb_cmd_q b;
     port_handles := <[Z.to_nat d := h]> (port_handles b);
     is_disc_initiator := is_disc_initiator b; link := link b |}.
Definition set_disc_initiator (x : bool) (b : tRFC_MCB) : tRFC_MCB :=
  {| mcb_state := mcb_state b; mcb_flow := mcb_flow b; peer_ready := peer_ready b;
     mcb_congested := mcb_congested b; mcb_cmd_q := mcb_cmd_q b; port_handles := port_handles b;
     is_disc_initiator := x; link := link b |}.
Definition set_mcb_state (x : tRFC_MX_STATE) (b : tRFC_MCB) : tRFC_MCB :=
  {| mcb_state := x; mcb_flow := mcb_flow b; peer_ready := peer_ready b;
     mcb_congested := mcb_congested b; mcb_cmd_q := mcb_cmd_q b; port_handles := port_handles b;
     is_disc_initiator := is_disc_initiator b; link := link b |}.
Definition set_link (f : Link -> Link) (b : tRFC_MCB) : tRFC_MCB :=
  {| mcb_state := mcb_state b; mcb_flow := mcb_flow b; peer_ready := peer_ready b;
     mcb_congested := mcb_congested b; mcb_cmd_q := mcb_cmd_q b; port_handles := port_handles b;
     is_disc_initiator := is_disc_initiator b; link := f (link b) |}.
Definition set_lcid (x : Z) (l : Link) : Link :=
  {| bd_addr := bd_addr l; lcid := x; peer_l2cap_mtu := peer_l2cap_mtu l;
     mux_initiator := mux_initiator l; restart_required := restart_required l;
     pending_lcid := pending_lcid l; pending_configure_complete := pending_configure_complete l;
     pending_cfg_info := pending_cfg_info l;
     collision_outgoing_lcid := collision_outgoing_lcid l;
     collision_outgoing_conn_cnf := collision_outgoing_conn_cnf l;
     collision_outgoing_cfg_complete := collision_outgoing_cfg_complete l;
     collision_cfg_info := collision_cfg_info l |}.
Definition set_peer_l2cap_mtu (x : Z) (l : Link) : Link :=
  {| bd_addr := bd_addr l; lcid := lcid l; peer_l2cap_mtu := x;
     mux_initiator := mux_initiator l; restart_required := restart_required l;
     pending_lcid := pending_lcid l; pending_configure_complete := pending_configure_complete l;
     pending_cfg_info := pending_cfg_info l;
     collision_outgoing_lcid := collision_outgoing_lcid l;
     collision_outgoing_conn_cnf := collision_outgoing_conn_cnf l;
     collision_outgoing_cfg_complete := collision_outgoing_cfg_complete l;
     collision_cfg_info := collision_cfg_info l |}.
Definition set_mux_initiator (x : bool) (l : Link) : Link :=
  {| bd_addr := bd_addr l; lcid := lcid l; peer_l2cap_mtu := peer_l2cap_mtu l;
     mux_initiator := x; restart_required := restart_required l; pending_lcid := pending_lcid l;
     pending_configure_complete := pending_configure_complete l;
     pending_cfg_info := pending_cfg_info l;
     collision_outgoing_lcid := collision_outgoing_lcid l;
     collision_outgoing_conn_cnf := collision_outgoing_conn_cnf l;
     collision_outgoing_cfg_complete := collision_outgoing_cfg_complete l;
     collision_cfg_info := collision_cfg_info l |}.
Definition set_restart_required (x : bool) (l : Link) : Link :=
  {| bd_addr := bd_addr l; lcid := lcid l; peer_l2cap_mtu := peer_l2cap_mtu l;
     mux_initiator := mux_initiator l; restart_required := x; pending_lcid := pending_lcid l;
     pending_configure_complete := pending_configure_complete l;
     pending_cfg_info := pending_cfg_info l;
     collision_outgoing_lcid := collision_outgoing_lcid l;
     collision_outgoing_conn_cnf := collision_outgoing_conn_cnf l;
     collision_outgoing_cfg_complete := collision_outgoing_cfg_complete l;
     collision_cfg_info := collision_cfg_info l |}.
Definition set_pending_lcid (x : Z) (l : Link) : Link :=
  {| bd_addr := bd_addr l; lcid := lcid l; peer_l2cap_mtu := peer_l2cap_mtu l;
     mux_initiator := mux_initiator l; restart_required := restart_required l;
     pending_lcid := x; pending_configure_complete := pending_configure_complete l;
     pending_cfg_info := pending_cfg_info l;
     collision_outgoing_lcid := collision_outgoing_lcid l;
     collision_outgoing_conn_cnf := collision_outgoing_conn_cnf l;
     collision_outgoing_cfg_complete := collision_outgoing_cfg_complete l;
     collision_cfg_info := collision_cfg_info l |}.
Definition set_collision_outgoing_lcid (x : Z) (l : Link) : Link :=
  {| bd_addr := bd_addr l; lcid := lcid l; peer_l2cap_mtu := peer_l2cap_mtu l;
     mux_initiator := mux_initiator l; restart_required := restart_required l;
     pending_lcid := pending_lcid l; pending_configure_complete := pending_configure_complete l;
     pending_cfg_info := pending_cfg_info l; collision_outgoing_lcid := x;
     collision_outgoing_conn_cnf := collision_outgoing_conn_cnf l;
     collision_outgoing_cfg_complete := collision_outgoing_cfg_complete l;
     collision_cfg_info := collision_cfg_info l |}.
Definition set_collision_outgoing_conn_cnf (x : bool) (l : Link) : Link :=
  {| bd_addr := bd_addr l; lcid := lcid l; peer_l2cap_mtu := peer_l2cap_mtu l;
     mux_initiator := mux_initiator l; restart_required := restart_required l;
     pending_lcid := pending_lcid l; pending_configure_complete := pending_configure_complete l;
     pending_cfg_info := pending_cfg_info l;
     collision_outgoing_lcid := collision_outgoing_lcid l; collision_outgoing_conn_cnf := x;
     collision_outgoing_cfg_complete := collision_outgoing_cfg_complete l;
     collision_cfg_info := collision_cfg_info l |}.
Definition set_pending_cfg (complete : bool) (cfg : option Z) (l : Link) : Link :=
  {| bd_addr := bd_addr l; lcid := lcid l; peer_l2cap_mtu := peer_l2cap_mtu l;
     mux_initiator := mux_initiator l; restart_required := restart_required l;
     pending_lcid := pending_lcid l; pending_configure_complete := complete;
     pending_cfg_info := cfg; collision_outgoing_lcid := collision_outgoing_lcid l;
     collision_outgoing_conn_cnf := collision_outgoing_conn_cnf l;
     collision_outgoing_cfg_complete := collision_outgoing_cfg_complete l;
     collision_cfg_info := collision_cfg_info l |}.
Definition set_collision_cfg (complete : bool) (cfg : option Z) (l : Link) : Link :=
  {| bd_addr := bd_addr l; lcid := lcid l; peer_l2cap_mtu := peer_l2cap_mtu l;
     mux_initiator := mux_initiator l; restart_required := restart_required l;
     pending_lcid := pending_lcid l; pending_configure_complete := pending_configure_complete l;
     pending_cfg_info := pending_cfg_info l;
     collision_outgoing_lcid := collision_outgoing_lcid l;
     collision_outgoing_conn_cnf := collision_outgoing_conn_cnf l;
     collision_outgoing_cfg_complete := complete; collision_cfg_info := cfg |}.


Definition with_port (k : nat) (f : tPORT -> tPORT) (s : tRFC_CB) : tRFC_CB :=
  {| tables := tables s; peer_rx_disabled := peer_rx_disabled s; ports := alter f k (ports s); mcbs := mcbs s;
     out := out s |}.
Definition with_mcb (m : nat) (f : tRFC_MCB -> tRFC_MCB) (s : tRFC_CB) : tRFC_CB :=
  {| tables := tables s; peer_rx_disabled := peer_rx_disabled s; ports := ports s; mcbs := alter f m (mcbs s);
     out := out s |}.
Definition emit (o : Output) (s : tRFC_CB) : tRFC_CB :=
  {| tables := tables s; peer_rx_disabled := peer_rx_disabled s; ports := ports s; mcbs := mcbs s;
     out := out s ++ [o] |}.
Definition with_tables (f : Tables -> Tables) (s : tRFC_CB) : tRFC_CB :=
  {| tables := f (tables s); peer_rx_disabled := peer_rx_disabled s; ports := ports s;
     mcbs := mcbs s; out := out s |}.
Definition set_peer_rx_disabled (b : bool) (s : tRFC_CB) : tRFC_CB :=
  {| tables := tables s; peer_rx_disabled := b; ports := ports s; mcbs := mcbs s; out := out s |}.

(** Bits of a mask. *)
Definition has (x bits : Z) : bool := negb (Z.land x bits =? 0).
Definition clear (x bits : Z) : Z := Z.land x (Z.lnot bits).
Definition size (l : list Z) : Z := Z.of_nat (length l).
Definition count (q : list (list Z)) : Z := Z.of_nat (length q).

(** ** Looking things up *)

Definition mcb_of (p : tPORT) (s : tRFC_CB) : option tRFC_MCB := m ← p_mcb p; mcbs s !! m.

Definition port_find_mcb_dlci_port (m : nat) (d : Z) (s : tRFC_CB) : option nat :=
  if RFCOMM_MAX_DLCI <? d then None
  else
    b ← mcbs s !! m;
    handle ← port_handles b !! Z.to_nat d;
    if handle =? 0 then None else Some (Z.to_nat (handle - 1)).

(** The first port without a multiplexer on the channel, or on the even channel before
    it, which then becomes the channel. *)
Fixpoint find_dlci (d : Z) (k : nat) (l : list tPORT) : option (nat * Z) :=
  match l with
  | [] => None
  | p :: l =>
      if in_use p && (match p_mcb p with None => true | Some _ => false end) then
        if port_dlci p =? d then Some (k, port_dlci p)
        else if has d 0x01 && (port_dlci p =? d - 1) then Some (k, port_dlci p + 1)
        else find_dlci d (S k) l
      else find_dlci d (S k) l
  end.

Definition port_find_dlci_port (d : Z) (s : tRFC_CB) : option nat * tRFC_CB :=
  match find_dlci d 0 (ports s) with
  | None => (None, s)
  | Some (k, d') => (Some k, with_port k (set_port_dlci d') s)
  end.

Definition get_port_from_handle (handle : Z) (s : tRFC_CB) : option nat :=
  if (handle =? 0) || (Z.of_nat (length (ports s)) <? handle) then None
  else Some (Z.to_nat (handle - 1)).

(** The application is told about events it may have asked for. *)
Definition callback (k : nat) (events : Z) (s : tRFC_CB) : tRFC_CB :=
  match ports s !! k with
  | Some p => if p_callback p && negb (events =? 0) then emit (Callback k events) s else s
  | None => s
  end.

Definition ev_mask_of (k : nat) (s : tRFC_CB) : Z :=
  match ports s !! k with Some p => ev_mask p | None => 0 end.

