(* ===== verification/RfcommPort.v ===== *)
(** * RFCOMM ports: data, credits and flow control

    Model of the data path of RFCOMM ports ([src/system/stack/rfcomm]): writing and
    reading ([port_api.cc]), the flow control of [port_utils.cc] and [rfc_utils.cc],
    the indications of [port_rfc.cc], the requests of [rfc_port_if.cc], the messages
    about a channel of [rfc_port_fsm.cc], and the frames of an open channel of
    [rfc_l2cap_if.cc].

    The state is the control block [rfc_cb]: the ports, the multiplexers, and the
    list [out] of what the layer has done outside (frames given to L2CAP, callbacks,
    timers).  A port or a multiplexer is its index in the array.  Frames are the ones
    of [RfcommFrames.v], before they are written to octets; a buffer is the octets it
    holds.  L2CAP takes frames until its channel is congested, which it reports while
    it takes the frame, and refuses them until the congestion is over.

    The parameters are: when L2CAP reports congestion ([congests]), what the callback
    of an application with its own flow control answers ([co_callback]), the flag that
    delays the indication of a connection ([after_msc]), and the packet size of a
    link ([max_packet_size]). *)

From stdpp Require Import base list option.
From Stdlib Require Import ZArith Lia.
From S2P Require Import Prelude.
From S2P Require Import RfcommFrames.
From S2P Require Import RfcommMessages.
From S2P Require Import RfcommPortState.

Open Scope Z_scope.

Section port.
Context (congests : list Output -> bool) (co_callback : list Output -> bool).
Context (after_msc : bool) (max_packet_size : nat -> Z).

(** ** Flow control of the user *)

Definition port_flow_control_user (k : nat) (s : tRFC_CB) : Z * tRFC_CB :=
  match ports s !! k with
  | None => (0, s)
  | Some p =>
      let ready := match mcb_of p s with Some b => peer_ready b | None => false end in
      let fc := peer_fc (tx p) || negb ready || (PORT_TX_HIGH_WM <? queue_size (tx p)) ||
                (PORT_TX_BUF_HIGH_WM <? count (queue (tx p))) in
      if Bool.eqb (user_fc (tx p)) fc then (0, s)
      else (if fc then PORT_EV_FC else Z.lor PORT_EV_FC PORT_EV_FCS,
            with_port k (set_tx (set_user_fc fc (tx p))) s)
  end.

(** ** Sending what is queued

    [RFCOMM_DataReq] is an argument [data_req], because L2CAP may report congestion
    while it takes a frame, and the report runs [PORT_FlowInd]. *)

Section send.
Context (data_req : nat -> Z -> list Z -> tRFC_CB -> tPORT_RESULT * tRFC_CB).

(** The loop of [port_rfc_send_tx_data]; a round takes a buffer from the queue, so
    that the length of the queue and one more round are enough. *)
Fixpoint send_tx_loop (fuel : nat) (k : nat) (events : Z) (s : tRFC_CB) : Z * tRFC_CB :=
  match fuel, ports s !! k with
  | S fuel, Some p =>
      match p_mcb p, mcb_of p s with
      | Some m, Some b =>
          if peer_fc (tx p) || negb (peer_ready b) then (events, s)
          else
            match queue (tx p) with
            | [] => (Z.lor events PORT_EV_TXEMPTY, s)
            | buf :: rest =>
                let s := with_port k (set_tx (set_queue rest (u32 (queue_size (tx p) - size buf)) (tx p))) s in
                let '(rc, s) := data_req m (port_dlci p) buf s in
                if decide (rc = PORT_SUCCESS) then
                  let events := Z.lor events PORT_EV_TXCHAR in
                  match ports s !! k with
                  | Some p =>
                      if queue_size (tx p) =? 0 then (Z.lor events PORT_EV_TXEMPTY, s)
                      else send_tx_loop fuel k events s
                  | None => (events, s)
                  end
                else (events, s)
            end
      | _, _ => (events, s)
      end
  | _, _ => (events, s)
  end.

Definition send_tx_data (k : nat) (s : tRFC_CB) : Z * tRFC_CB :=
  match ports s !! k with
  | None => (0, s)
  | Some p =>
      let '(events, s) :=
        if 0 <? queue_size (tx p) then
          let '(events, s) := send_tx_loop (S (length (queue (tx p)))) k 0 s in
          let '(e, s) := port_flow_control_user k s in
          (Z.lor events e, s)
        else (0, s) in
      (Z.land events (ev_mask p), s)
  end.

(** What [PORT_FlowInd] does for a port. *)
Definition flow_ind_port (k : nat) (s : tRFC_CB) : tRFC_CB :=
  let '(e1, s) := port_flow_control_user k s in
  let '(e2, s) := send_tx_data k s in
  callback k (Z.land (Z.lor e1 e2) (ev_mask_of k s)) s.

(** The ports of the multiplexer that are open, in the order of the array. *)
Definition flow_ind_all (m : nat) (s : tRFC_CB) : tRFC_CB :=
  fold_left (fun s k =>
      match ports s !! k with
      | Some p =>
          if in_use p && bool_decide (p_mcb p = Some m) && bool_decide (sm_state p = RFC_STATE_OPENED)
          then flow_ind_port k s else s
      | None => s
      end) (seq 0 (length (ports s))) s.

Definition flow_ind (m : nat) (d : Z) (enable_data : bool) (s : tRFC_CB) : tRFC_CB :=
  if d =? 0 then flow_ind_all m (with_mcb m (set_peer_ready enable_data) s)
  else
    match port_find_mcb_dlci_port m d s with
    | None => s
    | Some k =>
        flow_ind_port k (with_port k (fun p => set_tx (set_peer_fc (negb enable_data) (tx p)) p) s)
    end.
End send.

(** The report of congestion; the peer is not ready from then on, so that nothing is sent
    while the report runs. *)
Definition congestion_started (m : nat) (s : tRFC_CB) : tRFC_CB :=
  let s := with_mcb m (set_congested true) s in
  if peer_rx_disabled s then s
  else flow_ind (fun _ _ _ s => (PORT_SUCCESS, s)) m 0 false s.

Definition L2CA_DataWrite (m : nat) (f : Frame) (s : tRFC_CB) : tRFC_CB :=
  match mcbs s !! m with
  | None => s
  | Some b =>
      if mcb_congested b then emit (Refused m f) s
      else
        let s := emit (Sent m f) s in
        if congests (out s) then congestion_started m s else s
  end.

(** The loop of [rfc_check_send_cmd]. *)
Fixpoint send_commands (m : nat) (q : list Frame) (s : tRFC_CB) : tRFC_CB :=
  match mcbs s !! m with
  | None => s
  | Some b =>
      if mcb_congested b then with_mcb m (set_cmd_q q) s
      else
        match q with
        | [] => with_mcb m (set_cmd_q []) s
        | f :: q => send_commands m q (L2CA_DataWrite m f s)
        end
  end.

Definition rfc_check_send_cmd (m : nat) (f : option Frame) (s : tRFC_CB) : tRFC_CB :=
  match mcbs s !! m with
  | None => s
  | Some b => send_commands m (mcb_cmd_q b ++ match f with Some f => [f] | None => [] end) s
  end.

(** A message, a credit or a disconnected mode frame is a command. *)
Definition send_cmd (m : nat) (f : Frame) (s : tRFC_CB) : tRFC_CB := rfc_check_send_cmd m (Some f) s.

(** ** Sending data *)

Definition rfc_dec_credit (k : nat) (s : tRFC_CB) : tRFC_CB :=
  match p ← ports s !! k; mcb_of p s with
  | None => s
  | Some b =>
      if mcb_flow b =? PORT_FC_CREDIT then
        with_port k (fun p =>
          let c := if 0 <? credit_tx p then credit_tx p - 1 else credit_tx p in
          let p := set_credit_tx c p in
          if c =? 0 then set_tx (set_peer_fc true (tx p)) p else p) s
      else s
  end.

(** The event [RFC_PORT_EVENT_DATA]. *)
Definition rfc_port_sm_data (k : nat) (info : list Z) (s : tRFC_CB) : tRFC_CB :=
  match p ← ports s !! k; m ← p_mcb p; b ← mcbs s !! m; Some (p, m, b) with
  | None => s
  | Some (p, m, b) =>
      if decide (sm_state p = RFC_STATE_OPENED) then
        let grant := (mcb_flow b =? PORT_FC_CREDIT) && (size info <? peer_mtu p) &&
                     negb (user_fc (rx p)) && (credit_rx p <? credit_rx_max p) in
        let credits := if grant then u8 (credit_rx_max p - credit_rx p) else 0 in
        let s := if grant then with_port k (set_credit_rx (credit_rx_max p)) s else s in
        rfc_dec_credit k (L2CA_DataWrite m (Uih (port_dlci p) credits info) s)
      else emit (Dropped k info) s
  end.

Definition RFCOMM_DataReq (m : nat) (d : Z) (info : list Z) (s : tRFC_CB) : tPORT_RESULT * tRFC_CB :=
  match port_find_mcb_dlci_port m d s with
  | None => (PORT_LOCAL_CLOSED, s)
  | Some k => (PORT_SUCCESS, rfc_port_sm_data k info s)
  end.

Definition port_rfc_send_tx_data (k : nat) (s : tRFC_CB) : Z * tRFC_CB := send_tx_data RFCOMM_DataReq k s.

Definition PORT_FlowInd (m : nat) (d : Z) (enable_data : bool) (s : tRFC_CB) : tRFC_CB :=
  flow_ind RFCOMM_DataReq m d enable_data s.

Definition rfc_process_l2cap_congestion (m : nat) (is_congested : bool) (s : tRFC_CB) : tRFC_CB :=
  let s := with_mcb m (set_congested is_congested) s in
  let s := if is_congested then s else rfc_check_send_cmd m None s in
  if peer_rx_disabled s then s else PORT_FlowInd m 0 (negb is_congested) s.

Definition rfc_inc_credit (k : nat) (credit : Z) (s : tRFC_CB) : tRFC_CB :=
  match p ← ports s !! k; m ← p_mcb p; b ← mcbs s !! m; Some (p, m, b) with
  | None => s
  | Some (p, m, b) =>
      if mcb_flow b =? PORT_FC_CREDIT then
        let s := with_port k (set_credit_tx (u16 (credit_tx p + credit))) s in
        if peer_fc (tx p) then PORT_FlowInd m (port_dlci p) true s else s
      else s
  end.

(** ** Requests of the port *)

(** The port is open for the application and for the state machine. *)
Definition opened (p : tPORT) : bool :=
  bool_decide (port_state p = PORT_CONNECTION_STATE_OPENED) &&
  bool_decide (sm_state p = RFC_STATE_OPENED).

Definition rfc_port_timer_start (k : nat) (timeout : Z) (s : tRFC_CB) : tRFC_CB :=
  emit (PortTimerStart k timeout) s.
Definition rfc_port_timer_stop (k : nat) (s : tRFC_CB) : tRFC_CB := emit (PortTimerStop k) s.

Definition RFCOMM_ControlReq (m : nat) (d : Z) (pars : tPORT_CTRL) (s : tRFC_CB) : tRFC_CB :=
  match k ← port_find_mcb_dlci_port m d s; p ← ports s !! k; Some (k, p) with
  | None => s
  | Some (k, p) =>
      if opened p then
        let s := with_port k (fun p => set_expected_rsp (Z.lor (expected_rsp p) RFC_RSP_MSC)
                                (set_port_ctrl (Z.lor (port_ctrl p) PORT_CTRL_REQ_SENT) p)) s in
        rfc_port_timer_start k RFC_T2_TIMEOUT (send_cmd m (Mx (Msc d pars) true) s)
      else s
  end.

Definition RFCOMM_FlowReq (m : nat) (d : Z) (enable : bool) (s : tRFC_CB) : tRFC_CB :=
  match k ← port_find_mcb_dlci_port m d s; p ← ports s !! k; Some (k, p) with
  | None => s
  | Some (k, p) =>
      if opened p then
        let ctrl := set_fc (negb enable) (local_ctrl p) in
        let s := with_port k (fun p => set_expected_rsp (Z.lor (expected_rsp p) RFC_RSP_MSC)
                                (set_local_ctrl ctrl p)) s in
        rfc_port_timer_start k RFC_T2_TIMEOUT (send_cmd m (Mx (Msc d ctrl) true) s)
      else s
  end.

Definition RFCOMM_LineStatusReq (m : nat) (d status : Z) (s : tRFC_CB) : tRFC_CB :=
  match k ← port_find_mcb_dlci_port m d s; p ← ports s !! k; Some (k, p) with
  | None => s
  | Some (k, p) =>
      if opened p then
        let s := with_port k (fun p => set_expected_rsp (Z.lor (expected_rsp p) RFC_RSP_RLS) p) s in
        rfc_port_timer_start k RFC_T2_TIMEOUT (send_cmd m (Mx (Rls d status) true) s)
      else s
  end.

Definition port_start_control (k : nat) (s : tRFC_CB) : tRFC_CB :=
  match p ← ports s !! k; m ← p_mcb p; Some (p, m) with
  | None => s
  | Some (p, m) => RFCOMM_ControlReq m (port_dlci p) (local_ctrl p) s
  end.

(** ** Flow control of the peer *)

Definition port_flow_control_peer (k : nat) (enable : bool) (n : Z) (s : tRFC_CB) : tRFC_CB :=
  match p ← ports s !! k; m ← p_mcb p; b ← mcbs s !! m; Some (p, m, b) with
  | None => s
  | Some (p, m, b) =>
      let has_data_callback :=
        match data_callback p with no_data_callback => false | _ => true end in
      if mcb_flow b =? PORT_FC_CREDIT then
        if enable then
          let c := if credit_rx p <? n then 0 else credit_rx p - n in
          let s := with_port k (set_credit_rx c) s in
          if (c <=? credit_rx_low p) && negb (user_fc (rx p)) && (c <? credit_rx_max p) then
            let s := send_cmd m (Credit (port_dlci p) (u8 (credit_rx_max p - c))) s in
            with_port k (fun p => set_rx (set_peer_fc false (rx p)) (set_credit_rx (credit_rx_max p) p)) s
          else s
        else if has_data_callback || (credit_rx_max p <=? count (queue (rx p))) then
          with_port k (fun p => set_rx (set_peer_fc true (rx p)) p) s
        else s
      else if enable then
        if peer_fc (rx p) && (queue_size (rx p) <? PORT_RX_LOW_WM) &&
           (count (queue (rx p)) <? PORT_RX_BUF_LOW_WM) then
          let s := with_port k (fun p => set_rx (set_peer_fc false (rx p)) p) s in
          if user_fc (rx p) then s else RFCOMM_FlowReq m (port_dlci p) true s
        else s
      else if has_data_callback ||
              (((PORT_RX_HIGH_WM <? queue_size (rx p)) || (PORT_RX_BUF_HIGH_WM <? count (queue (rx p)))) &&
               negb (peer_fc (rx p))) then
        RFCOMM_FlowReq m (port_dlci p) false
          (with_port k (fun p => set_rx (set_peer_fc true (rx p)) p) s)
      else s
  end.

(** ** Received data *)

(** The application is told about the data in the queue. *)
Definition notify_data (k : nat) (flag : bool) (s : tRFC_CB) : tRFC_CB :=
  match ports s !! k with
  | None => s
  | Some p =>
      if user_fc (rx p) then if flag then with_port k (set_rx_flag_ev_pending true) s else s
      else callback k (Z.land (Z.lor (if flag then PORT_EV_RXFLAG else 0) PORT_EV_RXCHAR) (ev_mask p)) s
  end.

Definition PORT_DataInd (m : nat) (d : Z) (info : list Z) (s : tRFC_CB) : tRFC_CB :=
  match k ← port_find_mcb_dlci_port m d s; p ← ports s !! k; Some (k, p) with
  | None => s
  | Some (k, p) =>
      match data_callback p with
      | p_data_co_callback =>
          let s := emit (DataCo k (DATA_CO_CALLBACK_TYPE_INCOMING info)) s in
          if co_callback (out s) then port_flow_control_peer k true 1 s
          else port_flow_control_peer k false 0 s
      | p_data_callback => emit (Data k info) (port_flow_control_peer k true 1 s)
      | no_data_callback =>
          if (PORT_RX_CRITICAL_WM <? queue_size (rx p) + size info) ||
             (rx_buf_critical p <? count (queue (rx p)) + 1) then
            RFCOMM_LineStatusReq m d LINE_STATUS_OVERRUN (emit (Overrun k info) s)
          else
            let c := rx_char1 (user_port_settings p) in
            let flag := negb (c =? 0) && has (ev_mask p) PORT_EV_RXFLAG && bool_decide (c ∈ info) in
            let s := with_port k (fun p => set_rx (set_queue (queue (rx p) ++ [info])
                                     (u32 (queue_size (rx p) + size info)) (rx p)) p) s in
            notify_data k flag (port_flow_control_peer k false 0 s)
      end
  end.

Definition rfc_port_uplink_data (k : nat) (info : list Z) (s : tRFC_CB) : tRFC_CB :=
  match p ← ports s !! k; m ← p_mcb p; Some (p, m) with
  | None => s
  | Some (p, m) => PORT_DataInd m (port_dlci p) info s
  end.

(** The event [RFC_PORT_EVENT_UIH]. *)
Definition rfc_port_sm_uih (k : nat) (info : list Z) (s : tRFC_CB) : tRFC_CB :=
  match p ← ports s !! k; m ← p_mcb p; Some (p, m) with
  | None => s
  | Some (p, m) =>
      match sm_state p with
      | RFC_STATE_OPENED => rfc_port_uplink_data k info s
      | RFC_STATE_CLOSED | RFC_STATE_DISC_WAIT_UA => send_cmd m (Dm (port_dlci p) false) s
      | _ => s
      end
  end.

(** [RFCOMM_BufDataInd] on an information frame of a channel: [command] is the meaning of
    its C/R bit, [final] its P/F bit. *)
Definition RFCOMM_BufDataInd_uih (m : nat) (d credit : Z) (command final : bool) (info : list Z)
    (s : tRFC_CB) : tRFC_CB :=
  match k ← port_find_mcb_dlci_port m d s; p ← ports s !! k; _ ← p_mcb p; Some k with
  | None => if command then send_cmd m (Dm d final) s else s
  | Some k =>
      let s := if 0 <? size info then rfc_port_sm_uih k info s else s in
      if credit =? 0 then s else rfc_inc_credit k credit s
  end.

(** ** Operations of the application *)

(** The port of a handle that can be used. *)
Definition usable (handle : Z) (s : tRFC_CB) : tPORT_RESULT + nat * tPORT :=
  match k ← get_port_from_handle handle s; p ← ports s !! k; Some (k, p) with
  | None => inl PORT_BAD_HANDLE
  | Some (k, p) =>
      if negb (in_use p) || bool_decide (port_state p = PORT_CONNECTION_STATE_CLOSED)
      then inl PORT_NOT_OPENED else inr (k, p)
  end.

Definition PORT_FlowControl_MaxCredit (handle : Z) (enable : bool) (s : tRFC_CB)
    : tPORT_RESULT * tRFC_CB :=
  match usable handle s with
  | inl e => (e, s)
  | inr (k, p) =>
      match mcb_of p s with
      | None => (PORT_NOT_OPENED, s)
      | Some b =>
          let s := with_port k (fun p => set_rx (set_user_fc (negb enable) (rx p)) p) s in
          let s :=
            if mcb_flow b =? PORT_FC_CREDIT then
              if enable then port_flow_control_peer k true (credit_rx p) s else s
            else
              let fc' := negb enable || peer_fc (rx p) in
              let s := with_port k (fun p => set_local_ctrl (set_fc fc' (local_ctrl p)) p) s in
              if Bool.eqb fc' (fc (local_ctrl p)) then s else port_start_control k s in
          match ports s !! k with
          | Some p =>
              if enable && negb (queue_size (rx p) =? 0) then
                let flag := rx_flag_ev_pending p in
                let s := if flag then with_port k (set_rx_flag_ev_pending false) s else s in
                let events := Z.lor PORT_EV_RXCHAR (if flag then PORT_EV_RXFLAG else 0) in
                (PORT_SUCCESS, callback k (Z.land events (ev_mask p)) s)
              else (PORT_SUCCESS, s)
          | None => (PORT_SUCCESS, s)
          end
      end
  end.

(** The loop of [PORT_ReadData] on the receive queue: what is read, the buffers that are
    done, what stays, and the size of the queue. *)
Fixpoint read_loop (q : list (list Z)) (max_len n qsize : Z) : list Z * Z * list (list Z) * Z :=
  match q with
  | [] => ([], n, [], qsize)
  | b :: q =>
      if max_len =? 0 then ([], n, b :: q, qsize)
      else if max_len <? size b then
        (take (Z.to_nat max_len) b, n, drop (Z.to_nat max_len) b :: q, u32 (qsize - max_len))
      else
        let '(l, n, q, qsize) := read_loop q (max_len - size b) (n + 1) (u32 (qsize - size b)) in
        (b ++ l, n, q, qsize)
  end.

Definition PORT_ReadData (handle max_len : Z) (s : tRFC_CB) : tPORT_RESULT * list Z * tRFC_CB :=
  match usable handle s with
  | inl e => (e, [], s)
  | inr (k, p) =>
      if negb (line_status p =? 0) then (PORT_LINE_ERR, [], s)
      else
        match queue (rx p) with
        | [] => (PORT_SUCCESS, [], s)
        | _ =>
            let '(l, n, q, qsize) := read_loop (queue (rx p)) max_len 0 (queue_size (rx p)) in
            let s := with_port k (set_rx (set_queue q qsize (rx p))) s in
            (PORT_SUCCESS, l, port_flow_control_peer k true n s)
        end
  end.

(** Data waits for the peer, for the multiplexer, or for the opening of the port. *)
Definition tx_blocked (p : tPORT) (s : tRFC_CB) : bool :=
  let ready := match mcb_of p s with Some b => peer_ready b | None => false end in
  peer_fc (tx p) || negb ready || negb (bool_decide (sm_state p = RFC_STATE_OPENED)) ||
  negb (Z.land (port_ctrl p) (Z.lor PORT_CTRL_REQ_SENT PORT_CTRL_IND_RECEIVED) =?
        Z.lor PORT_CTRL_REQ_SENT PORT_CTRL_IND_RECEIVED).

Definition port_write (k : nat) (info : list Z) (s : tRFC_CB) : tPORT_RESULT * tRFC_CB :=
  match ports s !! k with
  | None => (PORT_BAD_HANDLE, s)
  | Some p =>
      if is_server p && negb (bool_decide (sm_state p = RFC_STATE_OPENED)) then (PORT_CLOSED, s)
      else if tx_blocked p s then
        if (PORT_TX_CRITICAL_WM <? queue_size (tx p)) ||
           (PORT_TX_BUF_CRITICAL_WM <? count (queue (tx p))) then
          (PORT_TX_FULL, if has (ev_mask p) PORT_EV_ERR then callback k PORT_EV_ERR s else s)
        else
          (PORT_CMD_PENDING,
           with_port k (set_tx (set_queue (queue (tx p) ++ [info])
                          (u32 (queue_size (tx p) + size info)) (tx p))) s)
      else
        match p_mcb p with
        | Some m => RFCOMM_DataReq m (port_dlci p) info s
        | None => (PORT_LOCAL_CLOSED, s)
        end
  end.

(** Octets added to the last buffer. *)
Fixpoint append_last (q : list (list Z)) (l : list Z) : list (list Z) :=
  match q with
  | [] => []
  | [b] => [b ++ l]
  | b :: q => b :: append_last q l
  end.

(** The data fits into the last buffer of the queue. *)
Definition fits_last (p : tPORT) (n : Z) : bool :=
  match list.last (queue (tx p)) with
  | Some b => (size b + n <=? peer_mtu p) && (size b + n <=? RFCOMM_DATA_LENGTH)
  | None => false
  end.

Definition tx_high (p : tPORT) : bool :=
  (PORT_TX_HIGH_WM <? queue_size (tx p)) || (PORT_TX_BUF_HIGH_WM <? count (queue (tx p))).

(** How the loop of a write ended: the octets left, the result of the last write, the
    events, the octets written; or a callback that failed. *)
Record Loop := {
  rest : list Z;
  rc : tPORT_RESULT;
  events : Z;
  p_len : Z;
  failed : bool;
}.

(** The length of the next buffer. *)
Definition round_length (p : tPORT) (l : list Z) (n : Z) : Z :=
  let n := if peer_mtu p <? n then peer_mtu p else n in
  if size l <? n then size l else n.

(** The loop of [PORT_WriteData], and of [PORT_WriteDataCO] when [co]; a round writes
    an octet at least.  [n] is the variable [length]. *)
Fixpoint write_loop (fuel : nat) (co : bool) (k : nat) (l : list Z) (n : Z) (r : tPORT_RESULT)
    (ev len : Z) (s : tRFC_CB) : Loop * tRFC_CB :=
  match fuel, l, ports s !! k with
  | S fuel, _ :: _, Some p =>
      if tx_high p then
        if co then
          let '(_, s) := port_flow_control_user k s in
          ({| rest := l; rc := r; events := Z.lor ev PORT_EV_FC; p_len := len; failed := false |}, s)
        else ({| rest := l; rc := r; events := ev; p_len := len; failed := false |}, s)
      else
        let n := round_length p l n in
        let s := if co then emit (DataCo k (DATA_CO_CALLBACK_TYPE_OUTGOING n)) s else s in
        if co && negb (co_callback (out s)) then
          ({| rest := l; rc := r; events := ev; p_len := len; failed := true |}, s)
        else
          let '(r, s) := port_write k (take (Z.to_nat n) l) s in
          let '(e, s) := port_flow_control_user k s in
          let ev := Z.lor (Z.lor ev e) (if decide (r = PORT_SUCCESS) then PORT_EV_TXCHAR else 0) in
          if decide (r = PORT_SUCCESS \/ r = PORT_CMD_PENDING) then
            write_loop fuel co k (drop (Z.to_nat n) l) n r ev (len + n) s
          else ({| rest := l; rc := r; events := ev; p_len := len; failed := false |}, s)
  | _, _, _ => ({| rest := l; rc := r; events := ev; p_len := len; failed := false |}, s)
  end.

(** The events at the end of a write. *)
Definition write_end (k : nat) (w : Loop) (s : tRFC_CB) : tRFC_CB :=
  let ev :=
    match rest w with
    | [] => if decide (rc w = PORT_CMD_PENDING \/ rc w = PORT_TX_QUEUE_DISABLED) then events w
            else Z.lor (events w) PORT_EV_TXEMPTY
    | _ => events w
    end in
  callback k (Z.land ev (ev_mask_of k s)) s.

(** The result, the number of octets taken, and the state. *)
Definition PORT_WriteData (handle : Z) (l : list Z) (s : tRFC_CB) : tPORT_RESULT * Z * tRFC_CB :=
  match usable handle s with
  | inl e => (e, 0, s)
  | inr (k, p) =>
      if (size l =? 0) || (peer_mtu p =? 0) then (PORT_UNKNOWN_ERROR, 0, s)
      else if fits_last p (size l) then
        (PORT_SUCCESS, size l,
         with_port k (set_tx (set_queue (append_last (queue (tx p)) l)
                        (u32 (queue_size (tx p) + size l)) (tx p))) s)
      else
        let '(w, s) := write_loop (S (length l)) false k l RFCOMM_DATA_LENGTH PORT_SUCCESS 0 0 s in
        (PORT_SUCCESS, p_len w, write_end k w s)
  end.

(** [l] is what the application has to send. *)
Definition PORT_WriteDataCO (handle : Z) (l : list Z) (s : tRFC_CB) : tPORT_RESULT * Z * tRFC_CB :=
  match usable handle s with
  | inl e => (e, 0, s)
  | inr (k, p) =>
      if peer_mtu p =? 0 then (PORT_UNKNOWN_ERROR, 0, s)
      else
        let s := emit (DataCo k DATA_CO_CALLBACK_TYPE_OUTGOING_SIZE) s in
        if negb (co_callback (out s)) then (PORT_UNKNOWN_ERROR, 0, s)
        else if size l =? 0 then (PORT_SUCCESS, 0, s)
        else if fits_last p (size l) then
          let s := emit (DataCo k (DATA_CO_CALLBACK_TYPE_OUTGOING (size l))) s in
          if negb (co_callback (out s)) then (PORT_UNKNOWN_ERROR, 0, s)
          else
            (PORT_SUCCESS, size l,
             with_port k (set_tx (set_queue (append_last (queue (tx p)) l)
                            (u32 (queue_size (tx p) + size l)) (tx p))) s)
        else
          let '(w, s) := write_loop (S (length l)) true k l RFCOMM_DATA_LENGTH PORT_SUCCESS 0 0 s in
          if failed w then (PORT_UNKNOWN_ERROR, p_len w, s)
          else (PORT_SUCCESS, p_len w, write_end k w s)
  end.

(** ** Messages about a channel *)

Definition port_get_signal_changes (mask old_signals signal : Z) : Z :=
  let changed := Z.lxor signal old_signals in
  let change (bit ev state : Z) :=
    if has changed bit then Z.lor ev (if has signal bit then state else 0) else 0 in
  Z.land mask
    (Z.lor (Z.lor (Z.lor (change PORT_DTRDSR_ON PORT_EV_DSR PORT_EV_DSRS)
      (change PORT_CTSRTS_ON PORT_EV_CTS PORT_EV_CTSS)) (change PORT_RING_ON PORT_EV_RING 0))
      (change PORT_DCD_ON PORT_EV_RLSD PORT_EV_RLSDS)).

(** The end of [PORT_ControlInd] and [PORT_ControlCnf]. *)
Definition indicate_connection (k : nat) (s : tRFC_CB) : tRFC_CB :=
  match ports s !! k with
  | Some p =>
      if after_msc && hardware_offload p && (port_ctrl p =? PORT_CTRL_SETUP_COMPLETED) &&
         p_mgmt_callback p
      then emit (MgmtCallback k PORT_SUCCESS) s else s
  | None => s
  end.

Definition PORT_ControlInd (m : nat) (d : Z) (pars : tPORT_CTRL) (s : tRFC_CB) : tRFC_CB :=
  match k ← port_find_mcb_dlci_port m d s; p ← ports s !! k; Some (k, p) with
  | None => s
  | Some (k, p) =>
      let event := port_get_signal_changes (ev_mask p) (modem_signal (peer_ctrl p)) (modem_signal pars) in
      let s := with_port k (set_peer_ctrl pars) s in
      let '(event, s) :=
        if negb (has (port_ctrl p) PORT_CTRL_REQ_SENT) then
          (event, match p_mcb p with
                  | Some m => RFCOMM_ControlReq m (port_dlci p) (local_ctrl p) s
                  | None => s
                  end)
        else
          let event := if has (port_ctrl p) PORT_CTRL_IND_RECEIVED then event
                       else Z.lor event (Z.land PORT_EV_CONNECTED (ev_mask p)) in
          if has (port_ctrl p) PORT_CTRL_REQ_CONFIRMED then
            let '(e, s) := port_rfc_send_tx_data k s in (Z.lor event e, s)
          else (event, s) in
      let s := with_port k (fun p => set_port_ctrl
        (Z.lor (port_ctrl p) (Z.lor PORT_CTRL_IND_RECEIVED PORT_CTRL_IND_RESPONDED)) p) s in
      let event := if break_signal pars =? 0 then event
                   else Z.lor event (Z.land PORT_EV_BREAK (ev_mask p)) in
      indicate_connection k (callback k event s)
  end.

Definition PORT_ControlCnf (m : nat) (d : Z) (s : tRFC_CB) : tRFC_CB :=
  match k ← port_find_mcb_dlci_port m d s; p ← ports s !! k; Some (k, p) with
  | None => s
  | Some (k, p) =>
      let confirmed := has (port_ctrl p) PORT_CTRL_REQ_CONFIRMED in
      let received := has (port_ctrl p) PORT_CTRL_IND_RECEIVED in
      let event := if negb confirmed && received then Z.land (ev_mask p) PORT_EV_CONNECTED else 0 in
      let s := if confirmed then s
               else with_port k (set_port_ctrl (Z.lor (port_ctrl p) PORT_CTRL_REQ_CONFIRMED)) s in
      let '(event, s) :=
        if received then let '(e, s) := port_rfc_send_tx_data k s in (Z.lor event e, s)
        else (event, s) in
      indicate_connection k (callback k event s)
  end.

Definition PORT_LineStatusInd (m : nat) (d status : Z) (s : tRFC_CB) : tRFC_CB :=
  match k ← port_find_mcb_dlci_port m d s; p ← ports s !! k; Some (k, p) with
  | None => s
  | Some (k, p) =>
      let s := with_port k (set_line_status (Z.lor (line_status p) status)) s in
      let event := Z.lor (Z.lor (if has status PORT_ERR_OVERRUN then PORT_EV_OVERRUN else 0)
                     (if has status PORT_ERR_BREAK then PORT_EV_BREAK else 0))
                     (if has status (Z.lnot (Z.lor PORT_ERR_OVERRUN PORT_ERR_BREAK))
                      then PORT_EV_ERR else 0) in
      callback k (Z.land (ev_mask p) event) s
  end.

Definition rfc_process_msc (m : nat) (is_command : bool) (d : Z) (msc : msc_pars) (s : tRFC_CB)
    : tRFC_CB :=
  match k ← port_find_mcb_dlci_port m d s; p ← ports s !! k; m' ← p_mcb p; b ← mcbs s !! m';
        Some (k, p, m', b) with
  | None => s
  | Some (k, p, m', b) =>
      let pars := msc_ctrl msc in
      if is_command then
        let s := send_cmd m (Mx (Msc d pars) false) s in
        let s :=
          if mcb_flow b =? PORT_FC_CREDIT then s
          else
            let s := with_port k (fun p => set_peer_ctrl (set_fc (fc pars) (peer_ctrl p)) p) s in
            if Bool.eqb (fc pars) (peer_fc (tx p)) then s else PORT_FlowInd m d (negb (fc pars)) s in
        PORT_ControlInd m d pars s
      else if has (expected_rsp p) RFC_RSP_MSC then
        let s := with_port k (set_expected_rsp (clear (expected_rsp p) RFC_RSP_MSC)) s in
        PORT_ControlCnf m' (port_dlci p) (rfc_port_timer_stop k s)
      else s
  end.

Definition rfc_process_rls (m : nat) (is_command : bool) (d status : Z) (s : tRFC_CB) : tRFC_CB :=
  if is_command then send_cmd m (Mx (Rls d status) false) (PORT_LineStatusInd m d status s)
  else
    match k ← port_find_mcb_dlci_port m d s; p ← ports s !! k; Some (k, p) with
    | None => s
    | Some (k, p) =>
        if has (expected_rsp p) RFC_RSP_RLS then
          rfc_port_timer_stop k
            (with_port k (set_expected_rsp (clear (expected_rsp p) RFC_RSP_RLS)) s)
        else s
    end.

Definition rfc_process_fcon (m : nat) (is_command : bool) (s : tRFC_CB) : tRFC_CB :=
  if is_command then
    let s := send_cmd m (Mx Fcon false) (set_peer_rx_disabled false s) in
    match mcbs s !! m with
    | Some b => if mcb_congested b then s else PORT_FlowInd m 0 true s
    | None => s
    end
  else s.

Definition rfc_process_fcoff (m : nat) (is_command : bool) (s : tRFC_CB) : tRFC_CB :=
  if is_command then
    let s := set_peer_rx_disabled true s in
    let s := match mcbs s !! m with
             | Some b => if mcb_congested b then s else PORT_FlowInd m 0 false s
             | None => s
             end in
    send_cmd m (Mx Fcoff false) s
  else s.
End port.
