(* ===== verification/RfcommFsm.v ===== *)
(** * RFCOMM: the state machines of ports and multiplexers

    Model of how RFCOMM connections are set up and released
    ([src/system/stack/rfcomm]): the state machine of a port ([rfc_port_fsm.cc]) and of
    a multiplexer ([rfc_mx_fsm.cc]), the callbacks of L2CAP ([rfc_l2cap_if.cc]), the
    indications and confirmations between the two layers ([port_rfc.cc],
    [rfc_port_if.cc]), and the operations that create and remove a connection
    ([port_api.cc], [port_utils.cc], [rfc_utils.cc]).  The data path is the one of
    [RfcommPort.v], frames are read by [RfcommFrames.v].

    What the layer asks of L2CAP, of the security manager and of the timers are outputs;
    what they answer are inputs ([Input], [step]).  The security manager may call back
    while it is asked: the request is always the last thing that a call does, so that
    this is the same as an input that follows.  A null pointer that is followed is the
    output [Crash].  Callbacks of applications return before the layer is used again.

    The parameters are those of [RfcommPort.v], the flags
    [fix_socket_connection_failed_no_callback] ([fix_start]) and
    [rfcomm_fix_mux_collision_handling] ([fix_collision]), the packet size of a link
    ([max_packet_size]), the channel that [L2CA_ConnectReq] returns ([connect]), the
    clock ([boot_time]), and what earlier messages have left in the frame where an RPN
    request has no parameters ([stale_rpn]). *)

From stdpp Require Import base list option.
From Stdlib Require Import ZArith Lia.
From S2P Require Import Prelude.
From S2P Require Import RfcommFrames.
From S2P Require Import RfcommMessages.
From S2P Require Import RfcommPortState.
From S2P Require Import RfcommPort.

Open Scope Z_scope.

(** ** Constants *)

Definition MAX_RFC_PORTS : nat := 30.
Definition MAX_BD_CONNECTIONS : nat := 16.
Definition RFCOMM_MAX_SCN := 30.
Definition RFCOMM_SUCCESS := 0.
Definition RFCOMM_ERROR := 1.
Definition RFCOMM_SECURITY_ERR := 112.
Definition L2CAP_DEFAULT_MTU := 672.
Definition L2CAP_CONN_INTERNAL_MASK := 0xF000.
Definition L2CAP_CFG_FAILED_NO_REASON := 2.
Definition LINE_STATUS_FAILED := 0x10.
Definition PORT_EV_CONNECT_ERR := 0x00008000.
Definition RFC_RSP_RPN_REPLY := 0x02.
Definition RFC_RSP_RPN := 0x04.
Definition RFC_T1_TIMEOUT := 20.
Definition RFC_PORT_T1_TIMEOUT := 60.
Definition RFC_DISC_TIMEOUT := 3.
Definition RFCOMM_CONN_TIMEOUT := 120.
Definition RFC_MCB_INIT_INACT_TIMER := 60.
Definition UUID_SERVCLASS_DIALUP_NETWORKING := 0x1103.
Definition UUID_SERVCLASS_FAX := 0x1111.
(** Flow control on input and output. *)
Definition RFCOMM_FC_RTR := 0x0C.
Definition RFCOMM_FC_RTC := 0x30.
Definition RFCOMM_RPN_PM_RTR := 0x0C00.
Definition RFCOMM_RPN_PM_RTC := 0x3000.
(** [RawAddress::kAny] and [RawAddress::kEmpty]. *)
Definition kAny := 0xFFFFFFFFFFFF.
Definition kEmpty := 0.

(** ** Events *)

Inductive tRFC_PORT_EVENT :=
| RFC_PORT_EVENT_SABME
| RFC_PORT_EVENT_UA
| RFC_PORT_EVENT_DM
| RFC_PORT_EVENT_DISC
| RFC_PORT_EVENT_UIH (info : list Z)
| RFC_PORT_EVENT_TIMEOUT
| RFC_PORT_EVENT_OPEN
| RFC_PORT_EVENT_ESTABLISH_RSP (result : Z)
| RFC_PORT_EVENT_CLOSE
| RFC_PORT_EVENT_CLEAR
| RFC_PORT_EVENT_DATA (info : list Z)
| RFC_PORT_EVENT_SEC_COMPLETE (success : bool).

Inductive tRFC_MX_EVENT :=
| RFC_MX_EVENT_SABME
| RFC_MX_EVENT_UA
| RFC_MX_EVENT_DM
| RFC_MX_EVENT_DISC
| RFC_MX_EVENT_UIH
| RFC_MX_EVENT_TIMEOUT
| RFC_MX_EVENT_START_REQ
| RFC_MX_EVENT_START_RSP (result : Z)
| RFC_MX_EVENT_CLOSE_REQ
| RFC_MX_EVENT_CONN_CNF (result : Z)
| RFC_MX_EVENT_CONN_IND
| RFC_MX_EVENT_CONF_CNF
| RFC_MX_EVENT_CONF_IND (cfg : option Z)
| RFC_MX_EVENT_QOS_VIOLATION_IND
| RFC_MX_EVENT_DISC_IND
| RFC_MX_EVENT_COLLISION.

(** ** Control blocks that are not used *)

Definition no_ctrl : tPORT_CTRL := {| modem_signal := 0; break_signal := 0; fc := false |}.
Definition no_data : tPORT_DATA := {| queue := []; queue_size := 0; peer_fc := false; user_fc := false |}.

Definition default_port_settings : PortSettings :=
  {| baud_rate := 0x03; byte_size := 0x03; stop_bits := 0; parity := 0; parity_type := 0;
     fc_type := 0; rx_char1 := 0; xon_char := 0x11; xoff_char := 0x13 |}.

Definition no_settings : PortSettings :=
  {| baud_rate := 0; byte_size := 0; stop_bits := 0; parity := 0; parity_type := 0; fc_type := 0;
     rx_char1 := 0; xon_char := 0; xoff_char := 0 |}.

Definition zero_port : tPORT :=
  {| in_use := false; port_state := PORT_CONNECTION_STATE_CLOSED; port_dlci := 0; is_server := false;
     line_status := 0; mtu := 0; peer_mtu := 0; tx := no_data; rx := no_data;
     user_port_settings := no_settings; peer_port_settings := no_settings; local_ctrl := no_ctrl;
     peer_ctrl := no_ctrl; port_ctrl := 0; rx_flag_ev_pending := false;
     sm_state := RFC_STATE_CLOSED; expected_rsp := 0; p_mcb := None; ev_mask := 0;
     p_callback := false; p_mgmt_callback := false; data_callback := no_data_callback;
     credit_tx := 0; credit_rx := 0; credit_rx_max := 0; credit_rx_low := 0; rx_buf_critical := 0;
     init_credit := None; hardware_offload := false;
     owner := {| port_addr := kEmpty; uuid := 0; keep_port_handle := false; keep_mtu := 0;
                 sec_mask := 0; default_signal_state := 0 |} |}.

Definition zero_link (addr : Z) (initiator : bool) : Link :=
  {| bd_addr := addr; lcid := 0; peer_l2cap_mtu := 0; mux_initiator := initiator;
     restart_required := false; pending_lcid := 0; pending_configure_complete := false;
     pending_cfg_info := None; collision_outgoing_lcid := 0; collision_outgoing_conn_cnf := false;
     collision_outgoing_cfg_complete := false; collision_cfg_info := None |}.

Definition zero_mcb (addr : Z) (initiator : bool) : tRFC_MCB :=
  {| mcb_state := RFC_MX_STATE_IDLE; mcb_flow := PORT_FC_UNDEFINED; peer_ready := false;
     mcb_congested := false; mcb_cmd_q := [];
     port_handles := replicate (Z.to_nat (RFCOMM_MAX_DLCI + 1)) 0; is_disc_initiator := false;
     link := zero_link addr initiator |}.

Definition port_set_defaults (p : tPORT) : tPORT :=
  {| in_use := in_use p; port_state := port_state p; port_dlci := port_dlci p;
     is_server := is_server p; line_status := 0; mtu := mtu p; peer_mtu := RFCOMM_DEFAULT_MTU;
     tx := no_data; rx := no_data; user_port_settings := default_port_settings;
     peer_port_settings := default_port_settings; local_ctrl := no_ctrl; peer_ctrl := no_ctrl;
     port_ctrl := 0; rx_flag_ev_pending := false; sm_state := sm_state p;
     expected_rsp := expected_rsp p; p_mcb := p_mcb p; ev_mask := 0; p_callback := false;
     p_mgmt_callback := p_mgmt_callback p; data_callback := data_callback p; credit_tx := 0;
     credit_rx := 0; credit_rx_max := credit_rx_max p; credit_rx_low := credit_rx_low p;
     rx_buf_critical := rx_buf_critical p; init_credit := init_credit p;
     hardware_offload := hardware_offload p; owner := owner p |}.

Definition set_modem_signal (x : Z) (c : tPORT_CTRL) : tPORT_CTRL :=
  {| modem_signal := x; break_signal := break_signal c; fc := fc c |}.
Definition set_fc_type (x : Z) (s : PortSettings) : PortSettings :=
  {| baud_rate := baud_rate s; byte_size := byte_size s; stop_bits := stop_bits s;
     parity := parity s; parity_type := parity_type s; fc_type := x; rx_char1 := rx_char1 s;
     xon_char := xon_char s; xoff_char := xoff_char s |}.
Definition set_port_addr (x : Z) (o : Owner) : Owner :=
  {| port_addr := x; uuid := uuid o; keep_port_handle := keep_port_handle o;
     keep_mtu := keep_mtu o; sec_mask := sec_mask o;
     default_signal_state := default_signal_state o |}.
Definition set_keep (x : bool) (o : Owner) : Owner :=
  {| port_addr := port_addr o; uuid := uuid o; keep_port_handle := x; keep_mtu := keep_mtu o;
     sec_mask := sec_mask o; default_signal_state := default_signal_state o |}.

(** ** Ports and channels of a multiplexer *)

Definition rfc_timer_start (m : nat) (timeout : Z) (s : tRFC_CB) : tRFC_CB := emit (MxTimerStart m timeout) s.
Definition rfc_timer_stop (m : nat) (s : tRFC_CB) : tRFC_CB := emit (MxTimerStop m) s.

Definition rfc_set_state (x : tRFC_PORT_STATE) (k : nat) (s : tRFC_CB) : tRFC_CB :=
  with_port k (set_sm_state x) s.

Definition rfc_save_lcid_mcb (m : option nat) (c : Z) (s : tRFC_CB) : tRFC_CB :=
  with_tables (fun t =>
    {| last_port_index := last_port_index t; last_mux := last_mux t;
       rfc_lcid_mcb := (c, m) :: filter (fun e => fst e <> c) (rfc_lcid_mcb t) |}) s.

(** The entry of a channel that is not in the table is null. *)
Fixpoint lcid_entry (c : Z) (l : list (Z * option nat)) : option nat :=
  match l with
  | [] => None
  | (c', m) :: l => if c' =? c then m else lcid_entry c l
  end.

Definition rfc_find_lcid_mcb (c : Z) (s : tRFC_CB) : option nat :=
  m ← lcid_entry c (rfc_lcid_mcb (tables s));
  b ← mcbs s !! m;
  if lcid (link b) =? c then Some m else None.

(** A multiplexer of the table with the property; the code goes through the table in an order
    that is not specified. *)
Fixpoint find_entry (f : tRFC_MCB -> bool) (l : list (Z * option nat)) (s : tRFC_CB) : option nat :=
  match l with
  | [] => None
  | (_, m) :: l =>
      match (m ← m; b ← mcbs s !! m; if f b then Some m else None) with
      | Some m => Some m
      | None => find_entry f l s
      end
  end.

(** The multiplexer of a port, or a crash. *)
Definition on_mcb (k : nat) (f : nat -> tRFC_MCB -> tPORT -> tRFC_CB -> tRFC_CB) (s : tRFC_CB) : tRFC_CB :=
  match ports s !! k with
  | None => s
  | Some p =>
      match m ← p_mcb p; b ← mcbs s !! m; Some (m, b) with
      | Some (m, b) => f m b p s
      | None => emit Crash s
      end
  end.

(** Something is done for each port of a multiplexer, or for each port without one. *)
Definition for_ports (m : option nat) (f : nat -> tRFC_CB -> tRFC_CB) (s : tRFC_CB) : tRFC_CB :=
  fold_left (fun s k =>
      match ports s !! k with
      | Some p => if decide (p_mcb p = m) then f k s else s
      | None => s
      end) (seq 0 (length (ports s))) s.

Section fsm.
Context (congests : list Output -> bool) (co_callback : list Output -> bool).
Context (after_msc : bool) (max_packet_size : Z -> Z).
Context (fix_start fix_collision : bool).
Context (connect : list Output -> Z) (boot_time : list Output -> Z).
Context (stale_rpn : list Output -> rpn_pars).

#[local] Abbreviation send_cmd := (send_cmd congests).
#[local] Abbreviation RFCOMM_ControlReq := (RFCOMM_ControlReq congests).

(** The event [RFC_MX_EVENT_CLOSE_REQ]. *)
Definition rfc_mx_sm_close_req (m : nat) (s : tRFC_CB) : tRFC_CB :=
  match mcbs s !! m with
  | Some b =>
      if decide (mcb_state b = RFC_MX_STATE_CONNECTED) then
        let s := rfc_timer_start m RFC_DISC_TIMEOUT s in
        send_cmd m (Disc RFCOMM_MX_DLCI) (with_mcb m (set_mcb_state RFC_MX_STATE_DISC_WAIT_UA) s)
      else s
  | None => s
  end.

Definition rfc_check_mcb_active (m : nat) (s : tRFC_CB) : tRFC_CB :=
  match mcbs s !! m with
  | None => s
  | Some b =>
      let s := with_mcb m (set_disc_initiator false) s in
      if existsb (fun h => negb (h =? 0)) (take (Z.to_nat RFCOMM_MAX_DLCI) (port_handles b)) then s
      else if is_disc_initiator b then rfc_mx_sm_close_req m s
      else rfc_timer_start m RFC_MCB_RELEASE_INACT_TIMER s
  end.

(** [p_mcb->port_handles[d] = h]: the array has an element for each DLCI up to
    [RFCOMM_MAX_DLCI], and a write outside of it is undefined. *)
Definition write_port_handle (m : nat) (d h : Z) (s : tRFC_CB) : tRFC_CB :=
  if (0 <=? d) && (d <=? RFCOMM_MAX_DLCI) then with_mcb m (set_port_handle d h) s else emit Crash s.

(** The channel of the port is gone from its multiplexer. *)
Definition clear_handle (m : nat) (d : Z) (s : tRFC_CB) : tRFC_CB :=
  rfc_check_mcb_active m (write_port_handle m d 0 s).

(** ** Releasing *)

Definition empty_queues (p : tPORT) : tPORT :=
  set_tx (set_queue [] 0 (tx p)) (set_rx (set_queue [] 0 (rx p)) p).

(** A server listens again. *)
Definition listen_again (p : tPORT) : tPORT :=
  let p' := set_ev_mask (ev_mask p) (set_p_callback (p_callback p)
              (set_user_port_settings (user_port_settings p) (port_set_defaults p))) in
  let p' := set_p_mcb None (set_port_state PORT_CONNECTION_STATE_OPENING
              (set_mtu (keep_mtu (owner p)) p')) in
  let p' := if is_server p then set_port_dlci (Z.land (port_dlci p) 0xfe) p' else p' in
  set_owner (set_port_addr kAny (owner p))
    (set_local_ctrl (set_modem_signal (default_signal_state (owner p)) (local_ctrl p')) p').

Definition port_release_port (k : nat) (s : tRFC_CB) : tRFC_CB :=
  let s := rfc_port_timer_stop k (with_port k empty_queues s) in
  let s := with_port k (set_port_state PORT_CONNECTION_STATE_CLOSED) s in
  match ports s !! k with
  | None => s
  | Some p =>
      if decide (sm_state p = RFC_STATE_CLOSED) then
        let s := match p_mcb p with Some m => clear_handle m (port_dlci p) s | None => s end in
        let s := rfc_port_timer_stop k s in
        if keep_port_handle (owner p) then with_port k listen_again s
        else with_port k (fun _ => zero_port) s
      else s
  end.

(** The signals of the peer are dropped, and the events for that. *)
Definition drop_signals (k : nat) (p : tPORT) (s : tRFC_CB) : Z * tRFC_CB :=
  let old_signals := modem_signal (peer_ctrl p) in
  let signals := clear old_signals (Z.lor (Z.lor PORT_DTRDSR_ON PORT_CTSRTS_ON) PORT_DCD_ON) in
  (Z.lor (port_get_signal_changes (ev_mask p) old_signals signals)
     (Z.land (ev_mask p) PORT_EV_CONNECT_ERR),
   with_port k (fun p => set_peer_ctrl (set_modem_signal signals (peer_ctrl p))
                  (set_line_status (Z.lor (line_status p) LINE_STATUS_FAILED) p)) s).

Definition mgmt_callback (k : nat) (res : tPORT_RESULT) (s : tRFC_CB) : tRFC_CB :=
  match ports s !! k with
  | Some p => if p_mgmt_callback p then emit (MgmtCallback k res) s else s
  | None => s
  end.

Definition port_rfc_closed (k : nat) (res : tPORT_RESULT) (s : tRFC_CB) : tRFC_CB :=
  match ports s !! k with
  | None => s
  | Some p =>
      if bool_decide (port_state p = PORT_CONNECTION_STATE_OPENING) && is_server p then
        let s := rfc_set_state RFC_STATE_CLOSED k (rfc_port_timer_stop k s) in
        let s := match p_mcb p with
                 | Some m => with_port k (set_p_mcb None) (clear_handle m (port_dlci p) s)
                 | None => s
                 end in
        with_port k (fun p => set_port_dlci (Z.land (port_dlci p) 0xfe) p) s
      else
        let '(events, s) :=
          if decide (port_state p = PORT_CONNECTION_STATE_CLOSING \/
                     port_state p = PORT_CONNECTION_STATE_CLOSED)
          then (0, s) else drop_signals k p s in
        let s := mgmt_callback k res (callback k events s) in
        port_release_port k (rfc_set_state RFC_STATE_CLOSED k s)
  end.

Definition rfc_port_closed (k : nat) (s : tRFC_CB) : tRFC_CB :=
  match ports s !! k with
  | None => s
  | Some p =>
      let s := rfc_set_state RFC_STATE_CLOSED k (rfc_port_timer_stop k s) in
      let s := match p_mcb p with Some m => clear_handle m (port_dlci p) s | None => s end in
      port_rfc_closed k PORT_CLOSED s
  end.

Definition rfc_release_multiplexer_channel (m : nat) (s : tRFC_CB) : tRFC_CB :=
  match mcbs s !! m with
  | None => s
  | Some b =>
      let s := rfc_save_lcid_mcb None (lcid (link b)) s in
      let s := for_ports (Some m) (fun k => with_port k (set_p_mcb None)) s in
      with_mcb m (fun _ => zero_mcb kEmpty false) (rfc_timer_stop m s)
  end.

Definition PORT_CloseInd (m : nat) (s : tRFC_CB) : tRFC_CB :=
  rfc_release_multiplexer_channel m
    (for_ports (Some m) (fun k => port_rfc_closed k PORT_PEER_CONNECTION_FAILED) s).

Definition PORT_TimeOutCloseMux (m : option nat) (s : tRFC_CB) : tRFC_CB :=
  for_ports m (fun k => port_rfc_closed k PORT_PEER_TIMEOUT) s.

Definition PORT_DlcReleaseInd (m : nat) (d : Z) (s : tRFC_CB) : tRFC_CB :=
  match port_find_mcb_dlci_port m d s with
  | None => s
  | Some k => port_rfc_closed k PORT_CLOSED s
  end.

(** ** Closing a channel *)

(** [RFC_PORT_EVENT_CLOSE] of a channel that the peer knows. *)
Definition start_disc (k : nat) (s : tRFC_CB) : tRFC_CB :=
  let s := rfc_port_timer_start k RFC_DISC_TIMEOUT s in
  on_mcb k (fun m _ p s =>
    let s := with_port k (set_expected_rsp 0) (send_cmd m (Disc (port_dlci p)) s) in
    rfc_set_state RFC_STATE_DISC_WAIT_UA k s) s.

(** [RFC_PORT_EVENT_CLOSE] before the peer has been asked. *)
Definition abort_open (k : nat) (s : tRFC_CB) : tRFC_CB :=
  on_mcb k (fun _ b _ s => rfc_port_closed k (emit (SecAbort (bd_addr (link b))) s)) s.

(** The event [RFC_PORT_EVENT_CLOSE]. *)
Definition rfc_port_sm_close (k : nat) (s : tRFC_CB) : tRFC_CB :=
  match ports s !! k with
  | None => s
  | Some p =>
      match sm_state p with
      | RFC_STATE_SABME_WAIT_UA | RFC_STATE_OPENED => start_disc k s
      | RFC_STATE_ORIG_WAIT_SEC_CHECK => abort_open k s
      | RFC_STATE_CLOSED | RFC_STATE_TERM_WAIT_SEC_CHECK | RFC_STATE_DISC_WAIT_UA => s
      end
  end.

Definition RFCOMM_DlcReleaseReq (m : nat) (d : Z) (s : tRFC_CB) : tRFC_CB :=
  match port_find_mcb_dlci_port m d s with
  | None => s
  | Some k => rfc_port_sm_close k s
  end.

(** ** Parameters of the port *)

Definition RFCOMM_PortParameterNegotiationResponse (m : nat) (d : Z) (settings : PortSettings)
    (param_mask : Z) (s : tRFC_CB) : tRFC_CB :=
  match mcbs s !! m with
  | Some b => if decide (mcb_state b = RFC_MX_STATE_CONNECTED)
              then send_cmd m (Mx (Rpn d settings param_mask) false) s else s
  | None => s
  end.

Definition PORT_PortNegCnf (m : nat) (d result : Z) (s : tRFC_CB) : tRFC_CB :=
  match k ← port_find_mcb_dlci_port m d s; p ← ports s !! k; Some (k, p) with
  | None => s
  | Some (k, p) =>
      if result =? RFCOMM_SUCCESS then
        if has (port_ctrl p) PORT_CTRL_REQ_SENT then s
        else match p_mcb p with
             | Some m => RFCOMM_ControlReq m (port_dlci p) (local_ctrl p) s
             | None => s
             end
      else port_rfc_closed k PORT_PORT_NEG_FAILED (RFCOMM_DlcReleaseReq m (port_dlci p) s)
  end.

(** Without settings it asks for those of the peer. *)
Definition RFCOMM_PortParameterNegotiationRequest (m : nat) (d : Z) (settings : option PortSettings)
    (s : tRFC_CB) : tRFC_CB :=
  match mcbs s !! m with
  | None => s
  | Some b =>
      if decide (mcb_state b = RFC_MX_STATE_CONNECTED) then
        match port_find_mcb_dlci_port m d s with
        | None => s
        | Some k =>
            let rsp := match settings with None => RFC_RSP_RPN_REPLY | Some _ => RFC_RSP_RPN end in
            let msg := match settings with
                       | None => RpnRequest d
                       | Some x => Rpn d x RFCOMM_RPN_PM_MASK
                       end in
            let s := with_port k (fun p => set_expected_rsp (Z.lor (expected_rsp p) rsp) p) s in
            rfc_port_timer_start k RFC_T2_TIMEOUT (send_cmd m (Mx msg true) s)
        end
      else PORT_PortNegCnf m d RFCOMM_ERROR s
  end.

Definition port_start_par_neg (k : nat) (s : tRFC_CB) : tRFC_CB :=
  match p ← ports s !! k; m ← p_mcb p; Some (p, m) with
  | None => s
  | Some (p, m) =>
      RFCOMM_PortParameterNegotiationRequest m (port_dlci p) (Some (user_port_settings p)) s
  end.

(** ** A channel is established *)

(** The application is told, unless that has to wait for the modem status. *)
Definition indicate_established (k : nat) (s : tRFC_CB) : tRFC_CB :=
  match ports s !! k with
  | Some p => if after_msc && hardware_offload p then s else mgmt_callback k PORT_SUCCESS s
  | None => s
  end.

(** The MTU of L2CAP is smaller. *)
Definition limit_mtu (n : Z) (p : tPORT) : tPORT :=
  if negb (n =? 0) && (n <? peer_mtu p) then set_peer_mtu n p else p.

Definition notify_connected (k : nat) (s : tRFC_CB) : tRFC_CB :=
  callback k (Z.land (ev_mask_of k s) PORT_EV_CONNECTED) s.

Definition PORT_DlcEstablishCnf (m : nat) (d n result : Z) (s : tRFC_CB) : tRFC_CB :=
  match port_find_mcb_dlci_port m d s with
  | None => s
  | Some k =>
      if result =? RFCOMM_SUCCESS then
        let s := rfc_timer_stop m (with_port k (limit_mtu n) s) in
        let s := indicate_established k (notify_connected k s) in
        let s := with_port k (set_port_state PORT_CONNECTION_STATE_OPENED) s in
        match ports s !! k with
        | None => s
        | Some p =>
            if (uuid (owner p) =? UUID_SERVCLASS_DIALUP_NETWORKING) ||
               (uuid (owner p) =? UUID_SERVCLASS_FAX)
            then on_mcb k (fun m _ p => RFCOMM_PortParameterNegotiationRequest m (port_dlci p) None) s
            else match p_mcb p with
                 | Some m => RFCOMM_ControlReq m (port_dlci p) (local_ctrl p) s
                 | None => s
                 end
        end
      else port_rfc_closed k PORT_START_FAILED s
  end.

(** The event [RFC_PORT_EVENT_ESTABLISH_RSP], which reads one byte of the result. *)
Definition rfc_port_sm_establish_rsp (k : nat) (result : Z) (s : tRFC_CB) : tRFC_CB :=
  match ports s !! k with
  | None => s
  | Some p =>
      match sm_state p with
      | RFC_STATE_TERM_WAIT_SEC_CHECK =>
          if u8 result =? RFCOMM_SUCCESS then
            on_mcb k (fun m _ p s =>
              rfc_set_state RFC_STATE_OPENED k (send_cmd m (Ua (port_dlci p)) s)) s
          else match p_mcb p with
               | Some m => send_cmd m (Dm (port_dlci p) true) s
               | None => s
               end
      | _ => s
      end
  end.

Definition RFCOMM_DlcEstablishRsp (m : nat) (d result : Z) (s : tRFC_CB) : tRFC_CB :=
  match mcbs s !! m with
  | None => s
  | Some b =>
      if negb (bool_decide (mcb_state b = RFC_MX_STATE_CONNECTED)) && (result =? RFCOMM_SUCCESS)
      then PORT_DlcReleaseInd m d s
      else match port_find_mcb_dlci_port m d s with
           | None => s
           | Some k => rfc_port_sm_establish_rsp k result s
           end
  end.

(** The port of the channel, which may be one that waits for a connection. *)
Definition port_for_channel (m : nat) (d : Z) (s : tRFC_CB) : option nat * tRFC_CB :=
  match port_find_mcb_dlci_port m d s with
  | Some k => (Some k, s)
  | None =>
      match port_find_dlci_port d s with
      | (Some k, s) => (Some k, write_port_handle m d (Z.of_nat k + 1) s)
      | (None, s) => (None, s)
      end
  end.

Definition PORT_DlcEstablishInd (m : nat) (d n : Z) (s : tRFC_CB) : tRFC_CB :=
  match port_for_channel m d s with
  | (None, s) => RFCOMM_DlcEstablishRsp m d RFCOMM_ERROR s
  | (Some k, s) =>
      let s := rfc_timer_stop m (with_port k (limit_mtu n) s) in
      let s := RFCOMM_DlcEstablishRsp m d RFCOMM_SUCCESS s in
      let s := indicate_established k (notify_connected k s) in
      with_port k (set_port_state PORT_CONNECTION_STATE_OPENED) s
  end.

(** ** The state machine of a port *)

Definition request_security (k : nat) (is_originator : bool) (s : tRFC_CB) : tRFC_CB :=
  on_mcb k (fun _ b p => emit (SecRequest k (bd_addr (link b)) is_originator (sec_mask (owner p)))) s.

Definition send_port (k : nat) (f : Z -> Frame) (s : tRFC_CB) : tRFC_CB :=
  on_mcb k (fun m _ p => send_cmd m (f (port_dlci p))) s.

(** A frame of [RFC_PORT_EVENT_DATA] goes to [rfc_port_sm_data] and one of
    [RFC_PORT_EVENT_UIH] to [rfc_port_sm_uih], which look at the state themselves. *)
Definition rfc_port_sm_state_closed (k : nat) (event : tRFC_PORT_EVENT) (s : tRFC_CB) : tRFC_CB :=
  match event with
  | RFC_PORT_EVENT_OPEN => request_security k true (rfc_set_state RFC_STATE_ORIG_WAIT_SEC_CHECK k s)
  | RFC_PORT_EVENT_SABME =>
      let s := on_mcb k (fun m _ _ => rfc_timer_stop m) s in
      request_security k false (rfc_set_state RFC_STATE_TERM_WAIT_SEC_CHECK k s)
  | RFC_PORT_EVENT_DM => rfc_port_closed k s
  | RFC_PORT_EVENT_UIH info => rfc_port_sm_uih congests co_callback k info s
  | RFC_PORT_EVENT_DATA info => rfc_port_sm_data congests k info s
  | RFC_PORT_EVENT_DISC => send_port k (fun d => Dm d false) s
  | RFC_PORT_EVENT_TIMEOUT =>
      match ports s !! k with Some p => PORT_TimeOutCloseMux (p_mcb p) s | None => s end
  | RFC_PORT_EVENT_CLOSE | RFC_PORT_EVENT_CLEAR | RFC_PORT_EVENT_UA
  | RFC_PORT_EVENT_ESTABLISH_RSP _ | RFC_PORT_EVENT_SEC_COMPLETE _ => s
  end.

(** The confirmation with the MTU of L2CAP. *)
Definition establish_cnf (k : nat) (result : Z) (s : tRFC_CB) : tRFC_CB :=
  on_mcb k (fun m b p => PORT_DlcEstablishCnf m (port_dlci p) (peer_l2cap_mtu (link b)) result) s.

Definition disc_initiator (k : nat) (s : tRFC_CB) : tRFC_CB :=
  on_mcb k (fun m _ _ => with_mcb m (set_disc_initiator true)) s.

Definition rfc_port_sm_sabme_wait_ua (k : nat) (event : tRFC_PORT_EVENT) (s : tRFC_CB) : tRFC_CB :=
  match event with
  | RFC_PORT_EVENT_CLOSE => start_disc k s
  | RFC_PORT_EVENT_CLEAR => rfc_port_closed k s
  | RFC_PORT_EVENT_DATA info => rfc_port_sm_data congests k info s
  | RFC_PORT_EVENT_UA =>
      let s := rfc_set_state RFC_STATE_OPENED k (rfc_port_timer_stop k s) in
      establish_cnf k RFCOMM_SUCCESS s
  | RFC_PORT_EVENT_DM => rfc_port_closed k (establish_cnf k RFCOMM_ERROR (disc_initiator k s))
  | RFC_PORT_EVENT_DISC => rfc_port_closed k (establish_cnf k RFCOMM_ERROR (send_port k Ua s))
  | RFC_PORT_EVENT_SABME => send_port k Ua s
  | RFC_PORT_EVENT_UIH info => rfc_port_sm_uih congests co_callback k info s
  | RFC_PORT_EVENT_TIMEOUT => establish_cnf k RFCOMM_ERROR (rfc_set_state RFC_STATE_CLOSED k s)
  | RFC_PORT_EVENT_OPEN | RFC_PORT_EVENT_ESTABLISH_RSP _ | RFC_PORT_EVENT_SEC_COMPLETE _ => s
  end.

Definition abort_security (k : nat) (s : tRFC_CB) : tRFC_CB :=
  on_mcb k (fun _ b _ => emit (SecAbort (bd_addr (link b)))) s.

Definition rfc_port_sm_term_wait_sec_check (k : nat) (event : tRFC_PORT_EVENT) (s : tRFC_CB)
    : tRFC_CB :=
  match event with
  | RFC_PORT_EVENT_SEC_COMPLETE true =>
      on_mcb k (fun m b p => PORT_DlcEstablishInd m (port_dlci p) (peer_l2cap_mtu (link b))) s
  | RFC_PORT_EVENT_SEC_COMPLETE false =>
      match ports s !! k with
      | Some p =>
          match p_mcb p with
          | Some m =>
              let s := send_cmd m (Dm (port_dlci p) true) s in
              port_rfc_closed k PORT_SEC_FAILED (with_mcb m (set_disc_initiator true) s)
          | None => s
          end
      | None => s
      end
  | RFC_PORT_EVENT_CLEAR => rfc_port_closed k (abort_security k s)
  | RFC_PORT_EVENT_DATA info => rfc_port_sm_data congests k info s
  | RFC_PORT_EVENT_DISC =>
      let s := rfc_set_state RFC_STATE_CLOSED k (abort_security k s) in
      on_mcb k (fun m _ p => PORT_DlcReleaseInd m (port_dlci p)) (send_port k Ua s)
  | RFC_PORT_EVENT_UIH info => rfc_port_sm_uih congests co_callback k info s
  | RFC_PORT_EVENT_ESTABLISH_RSP result => rfc_port_sm_establish_rsp k result s
  | RFC_PORT_EVENT_OPEN | RFC_PORT_EVENT_CLOSE | RFC_PORT_EVENT_SABME | RFC_PORT_EVENT_UA
  | RFC_PORT_EVENT_DM | RFC_PORT_EVENT_TIMEOUT => s
  end.

Definition rfc_port_sm_orig_wait_sec_check (k : nat) (event : tRFC_PORT_EVENT) (s : tRFC_CB)
    : tRFC_CB :=
  match event with
  | RFC_PORT_EVENT_SEC_COMPLETE true =>
      let s := rfc_port_timer_start k RFC_PORT_T1_TIMEOUT (send_port k Sabme s) in
      rfc_set_state RFC_STATE_SABME_WAIT_UA k s
  | RFC_PORT_EVENT_SEC_COMPLETE false =>
      let s := disc_initiator k s in
      let s := on_mcb k (fun m _ p => PORT_DlcEstablishCnf m (port_dlci p) 0 RFCOMM_SECURITY_ERR) s in
      rfc_port_closed k s
  | RFC_PORT_EVENT_CLOSE => abort_open k s
  | RFC_PORT_EVENT_DATA info => rfc_port_sm_data congests k info s
  | RFC_PORT_EVENT_UIH info => rfc_port_sm_uih congests co_callback k info s
  | RFC_PORT_EVENT_OPEN | RFC_PORT_EVENT_SABME | RFC_PORT_EVENT_CLEAR | RFC_PORT_EVENT_UA
  | RFC_PORT_EVENT_DM | RFC_PORT_EVENT_DISC | RFC_PORT_EVENT_TIMEOUT
  | RFC_PORT_EVENT_ESTABLISH_RSP _ => s
  end.

Definition release_ind (k : nat) (s : tRFC_CB) : tRFC_CB :=
  on_mcb k (fun m _ p => PORT_DlcReleaseInd m (port_dlci p)) s.

Definition rfc_port_sm_opened (k : nat) (event : tRFC_PORT_EVENT) (s : tRFC_CB) : tRFC_CB :=
  match event with
  | RFC_PORT_EVENT_CLOSE => start_disc k s
  | RFC_PORT_EVENT_CLEAR => rfc_port_closed k s
  | RFC_PORT_EVENT_DATA info => rfc_port_sm_data congests k info s
  | RFC_PORT_EVENT_SABME => send_port k Ua s
  | RFC_PORT_EVENT_DM => rfc_port_closed k (release_ind k s)
  | RFC_PORT_EVENT_DISC =>
      let s := send_port k Ua (rfc_set_state RFC_STATE_CLOSED k s) in
      match ports s !! k with
      | Some p =>
          match queue (rx p) with
          | [] => release_ind k s
          | _ => rfc_port_timer_start k RFC_DISC_TIMEOUT s
          end
      | None => s
      end
  | RFC_PORT_EVENT_UIH info => rfc_port_sm_uih congests co_callback k info s
  | RFC_PORT_EVENT_TIMEOUT =>
      match ports s !! k with Some p => PORT_TimeOutCloseMux (p_mcb p) s | None => s end
  | RFC_PORT_EVENT_OPEN | RFC_PORT_EVENT_UA | RFC_PORT_EVENT_ESTABLISH_RSP _
  | RFC_PORT_EVENT_SEC_COMPLETE _ => s
  end.

Definition rfc_port_sm_disc_wait_ua (k : nat) (event : tRFC_PORT_EVENT) (s : tRFC_CB) : tRFC_CB :=
  match event with
  | RFC_PORT_EVENT_CLEAR | RFC_PORT_EVENT_TIMEOUT => rfc_port_closed k s
  | RFC_PORT_EVENT_UA | RFC_PORT_EVENT_DM => rfc_port_closed k (disc_initiator k s)
  | RFC_PORT_EVENT_SABME | RFC_PORT_EVENT_DISC => send_port k (fun d => Dm d true) s
  | RFC_PORT_EVENT_DATA info => rfc_port_sm_data congests k info s
  | RFC_PORT_EVENT_UIH info => rfc_port_sm_uih congests co_callback k info s
  | RFC_PORT_EVENT_OPEN | RFC_PORT_EVENT_CLOSE | RFC_PORT_EVENT_ESTABLISH_RSP _
  | RFC_PORT_EVENT_SEC_COMPLETE _ => s
  end.

Definition rfc_port_sm_execute (k : nat) (event : tRFC_PORT_EVENT) (s : tRFC_CB) : tRFC_CB :=
  match ports s !! k with
  | None => s
  | Some p =>
      match sm_state p with
      | RFC_STATE_CLOSED => rfc_port_sm_state_closed k event s
      | RFC_STATE_SABME_WAIT_UA => rfc_port_sm_sabme_wait_ua k event s
      | RFC_STATE_ORIG_WAIT_SEC_CHECK => rfc_port_sm_orig_wait_sec_check k event s
      | RFC_STATE_TERM_WAIT_SEC_CHECK => rfc_port_sm_term_wait_sec_check k event s
      | RFC_STATE_OPENED => rfc_port_sm_opened k event s
      | RFC_STATE_DISC_WAIT_UA => rfc_port_sm_disc_wait_ua k event s
      end
  end.

Definition rfcomm_port_timer_timeout (k : nat) (s : tRFC_CB) : tRFC_CB :=
  rfc_port_sm_execute k RFC_PORT_EVENT_TIMEOUT s.

Definition rfc_sec_check_complete (k : nat) (success : bool) (s : tRFC_CB) : tRFC_CB :=
  match ports s !! k with
  | None => s
  | Some p =>
      if in_use p && bool_decide (sm_state p = RFC_STATE_ORIG_WAIT_SEC_CHECK \/
                                  sm_state p = RFC_STATE_TERM_WAIT_SEC_CHECK)
      then rfc_port_sm_execute k (RFC_PORT_EVENT_SEC_COMPLETE success) s else s
  end.

Definition RFCOMM_DlcEstablishReq (m : nat) (d : Z) (s : tRFC_CB) : tRFC_CB :=
  match mcbs s !! m with
  | None => s
  | Some b =>
      if decide (mcb_state b = RFC_MX_STATE_CONNECTED) then
        match port_find_mcb_dlci_port m d s with
        | None => s
        | Some k => rfc_port_sm_execute k RFC_PORT_EVENT_OPEN s
        end
      else PORT_DlcEstablishCnf m d 0 RFCOMM_ERROR s
  end.

(** ** Negotiation of a channel *)

Definition port_select_mtu (k : nat) (s : tRFC_CB) : tRFC_CB :=
  match ports s !! k with
  | None => s
  | Some p =>
      let packet_size := max_packet_size (port_addr (owner p)) in
      let room := L2CAP_MTU_SIZE + L2CAP_PKT_OVERHEAD in
      let n :=
        if negb (mtu p =? 0) then mtu p
        else if packet_size =? 0 then RFCOMM_DEFAULT_MTU
        else if packet_size <=? room then
          u16 (room / packet_size * packet_size - RFCOMM_DATA_OVERHEAD - L2CAP_PKT_OVERHEAD)
        else L2CAP_MTU_SIZE - RFCOMM_DATA_OVERHEAD in
      let level (wm buffers : Z) := let c := u16 (wm / n) in if buffers <? c then buffers else c in
      with_port k (fun p => set_watermarks (level PORT_RX_HIGH_WM PORT_RX_BUF_HIGH_WM)
        (level PORT_RX_LOW_WM PORT_RX_BUF_LOW_WM)
        (level PORT_RX_CRITICAL_WM PORT_RX_BUF_CRITICAL_WM) (set_mtu n p)) s
  end.

Definition port_get_credits (k : nat) (c : Z) (s : tRFC_CB) : tRFC_CB :=
  with_port k (fun p =>
    let p := set_credit_tx c p in
    if c =? 0 then set_tx (set_peer_fc true (tx p)) p else p) s.

(** The credits for the peer in a PN message. *)
Definition initial_credits (p : tPORT) : Z :=
  match init_credit p with
  | Some c => u8 c
  | None => if credit_rx_max p <? RFCOMM_K_MAX then u8 (credit_rx_max p) else RFCOMM_K_MAX
  end.

Definition RFCOMM_ParameterNegotiationResponse (m : nat) (d n cl k : Z) (s : tRFC_CB) : tRFC_CB :=
  match mcbs s !! m with
  | Some b => if decide (mcb_state b = RFC_MX_STATE_CONNECTED)
              then send_cmd m (Mx (Pn d n cl k) false) s else s
  | None => s
  end.

Definition RFCOMM_ParameterNegotiationRequest (m : nat) (d n : Z) (s : tRFC_CB) : tRFC_CB :=
  match k ← port_find_mcb_dlci_port m d s; p ← ports s !! k; b ← mcbs s !! m; Some (k, p, b) with
  | None => s
  | Some (k, p, b) =>
      if decide (mcb_state b = RFC_MX_STATE_CONNECTED) then
        let flow := if mcb_flow b =? PORT_FC_UNDEFINED then PORT_FC_CREDIT else mcb_flow b in
        let credits := flow =? PORT_FC_CREDIT in
        let cl := if credits then RFCOMM_PN_CONV_LAYER_CBFC_I else RFCOMM_PN_CONV_LAYER_TYPE_1 in
        let c := if credits then initial_credits p else 0 in
        let s := if credits then with_port k (set_credit_rx c) s else s in
        let s := with_port k (fun p => set_expected_rsp (Z.lor (expected_rsp p) RFC_RSP_PN) p) s in
        rfc_port_timer_start k RFC_T2_TIMEOUT (send_cmd m (Mx (Pn d n cl c) true) s)
      else s
  end.

Definition PORT_ParNegInd (m : nat) (d n cl k : Z) (s : tRFC_CB) : tRFC_CB :=
  match port_for_channel m d s with
  | (None, s) => rfc_check_mcb_active m (send_cmd m (Dm d false) s)
  | (Some i, s) =>
      let addr := match mcbs s !! m with Some b => bd_addr (link b) | None => kEmpty end in
      let s := with_port i (fun p => set_owner (set_port_addr addr (owner p)) p) s in
      let s := port_select_mtu i s in
      let s := with_port i (fun p =>
        let x := if mtu p <? n then mtu p else n in
        set_peer_mtu x (set_mtu x (set_p_mcb (Some m) p))) s in
      let s := with_mcb m (fun b =>
        if mcb_flow b =? PORT_FC_UNDEFINED then
          set_flow (if cl =? RFCOMM_PN_CONV_LAYER_TYPE_1 then PORT_FC_TS710 else PORT_FC_CREDIT) b
        else b) s in
      match p ← ports s !! i; b ← mcbs s !! m; Some (p, b) with
      | None => s
      | Some (p, b) =>
          if negb (cl =? RFCOMM_PN_CONV_LAYER_TYPE_1) && (mcb_flow b =? PORT_FC_CREDIT) then
            let c := initial_credits p in
            let s := with_port i (set_credit_rx c) (port_get_credits i k s) in
            RFCOMM_ParameterNegotiationResponse m d (mtu p) RFCOMM_PN_CONV_LAYER_CBFC_R c s
          else RFCOMM_ParameterNegotiationResponse m d (mtu p) RFCOMM_PN_CONV_LAYER_TYPE_1 0 s
      end
  end.

Definition PORT_ParNegCnf (m : nat) (d n cl k : Z) (s : tRFC_CB) : tRFC_CB :=
  match port_find_mcb_dlci_port m d s with
  | None => s
  | Some i =>
      let s := with_mcb m (fun b =>
        if mcb_flow b =? PORT_FC_UNDEFINED then
          set_flow (if cl =? RFCOMM_PN_CONV_LAYER_CBFC_R then PORT_FC_CREDIT else PORT_FC_TS710) b
        else b) s in
      let s := with_port i (fun p =>
        let x := if mtu p <? n then mtu p else n in set_peer_mtu x (set_mtu x p)) s in
      match p ← ports s !! i; b ← mcbs s !! m; Some (p, b) with
      | None => s
      | Some (p, b) =>
          let s := if mcb_flow b =? PORT_FC_CREDIT then port_get_credits i k s else s in
          if decide (port_state p = PORT_CONNECTION_STATE_OPENING)
          then RFCOMM_DlcEstablishReq m (port_dlci p) s else s
      end
  end.

Definition rfc_process_pn (m : nat) (is_command : bool) (d : Z) (pn : pn_pars) (s : tRFC_CB)
    : tRFC_CB :=
  match mcbs s !! m with
  | None => s
  | Some b =>
      if is_command then
        if decide (mcb_state b = RFC_MX_STATE_DISC_WAIT_UA) then send_cmd m (Dm d false) s
        else PORT_ParNegInd m d (pn_mtu pn) (pn_conv_layer pn) (pn_k pn) s
      else
        match k ← port_find_mcb_dlci_port m d s; p ← ports s !! k; Some (k, p) with
        | None => s
        | Some (k, p) =>
            if has (expected_rsp p) RFC_RSP_PN then
              let s := with_port k (set_expected_rsp (clear (expected_rsp p) RFC_RSP_PN)) s in
              PORT_ParNegCnf m d (pn_mtu pn) (pn_conv_layer pn) (pn_k pn) (rfc_port_timer_stop k s)
            else s
        end
  end.

(** ** Port parameters from the peer *)

Definition PORT_PortNegInd (m : nat) (d : Z) (settings : PortSettings) (param_mask : Z) (s : tRFC_CB)
    : tRFC_CB :=
  match port_for_channel m d s with
  | (None, s) => RFCOMM_PortParameterNegotiationResponse m d settings 0 s
  | (Some k, s) =>
      RFCOMM_PortParameterNegotiationResponse m d settings param_mask
        (with_port k (set_peer_port_settings settings) s)
  end.

(** A proposal of the flow control [fc], with its bits in the mask. *)
Definition propose_fc (m k : nat) (d fc mask : Z) (s : tRFC_CB) : tRFC_CB :=
  let s := with_port k (fun p =>
    set_expected_rsp (Z.lor (expected_rsp p) RFC_RSP_RPN)
      (set_peer_port_settings (set_fc_type fc (peer_port_settings p)) p)) s in
  match ports s !! k with
  | None => s
  | Some p =>
      rfc_port_timer_start k RFC_T2_TIMEOUT
        (send_cmd m (Mx (Rpn d (peer_port_settings p) mask) true) s)
  end.

(** The response to an RPN command, whose mask is [mask]. *)
Definition rpn_response (m k : nat) (d mask : Z) (s : tRFC_CB) : tRFC_CB :=
  match ports s !! k with
  | None => s
  | Some p =>
      if (Z.land mask RFCOMM_RPN_PM_RTR =? RFCOMM_RPN_PM_RTR) ||
         (Z.land mask RFCOMM_RPN_PM_RTC =? RFCOMM_RPN_PM_RTC)
      then PORT_PortNegCnf m (port_dlci p) RFCOMM_SUCCESS s
      else if fc_type (peer_port_settings p) =? RFCOMM_FC_RTR then
        propose_fc m k d RFCOMM_FC_RTC RFCOMM_RPN_PM_RTC s
      else if fc_type (peer_port_settings p) =? RFCOMM_FC_RTC then
        PORT_PortNegCnf m (port_dlci p) RFCOMM_SUCCESS
          (with_port k (fun p => set_peer_port_settings (set_fc_type 0 (peer_port_settings p)) p) s)
      else s
  end.

(** [rpn] is what the frame holds. *)
Definition rfc_process_rpn (m : nat) (is_command is_request : bool) (d : Z) (rpn : rpn_pars)
    (s : tRFC_CB) : tRFC_CB :=
  match k ← port_find_mcb_dlci_port m d s; p ← ports s !! k; Some (k, p) with
  | None =>
      if is_command then
        PORT_PortNegInd m d (rfc_set_port_settings no_settings rpn) (rpn_param_mask rpn) s
      else s
  | Some (k, p) =>
      if is_command && is_request then send_cmd m (Mx (Rpn d (peer_port_settings p) 0) false) s
      else
        let settings := rfc_set_port_settings (peer_port_settings p) rpn in
        if is_command then PORT_PortNegInd m d settings (rpn_param_mask rpn) s
        else if has (expected_rsp p) (Z.lor RFC_RSP_RPN RFC_RSP_RPN_REPLY) then
          let s := rfc_port_timer_stop k s in
          if has (expected_rsp p) RFC_RSP_RPN_REPLY then
            let s := with_port k (fun p => set_peer_port_settings settings
                       (set_expected_rsp (clear (expected_rsp p) RFC_RSP_RPN_REPLY) p)) s in
            if (fc_type settings =? RFCOMM_FC_RTR) || (fc_type settings =? RFCOMM_FC_RTC)
            then rpn_response m k d RFCOMM_RPN_PM_MASK s
            else propose_fc m k d RFCOMM_FC_RTR RFCOMM_RPN_PM_RTR s
          else
            rpn_response m k d (rpn_param_mask rpn)
              (with_port k (fun p => set_expected_rsp (clear (expected_rsp p) RFC_RSP_RPN) p) s)
        else s
  end.

(** ** The multiplexer is started *)

(** What [PORT_StartCnf] does for a port when it failed. *)
Definition start_failed (m k : nat) (s : tRFC_CB) : tRFC_CB :=
  let s := if fix_start then s else rfc_release_multiplexer_channel m s in
  let s := callback k (Z.land (ev_mask_of k s) PORT_EV_CONNECT_ERR) s in
  port_release_port k (mgmt_callback k PORT_START_FAILED s).

Definition start_port (m : nat) (result : Z) (k : nat) (s : tRFC_CB) : tRFC_CB :=
  match ports s !! k with
  | None => s
  | Some p =>
      if result =? RFCOMM_SUCCESS
      then RFCOMM_ParameterNegotiationRequest m (port_dlci p) (mtu p) s
      else start_failed m k s
  end.

Definition PORT_StartCnf (m : nat) (result : Z) (s : tRFC_CB) : tRFC_CB :=
  (* the first of them is still there when the loop comes to it *)
  let no_ports_up := negb (existsb (fun p => bool_decide (p_mcb p = Some m)) (ports s)) in
  let s := for_ports (Some m) (start_port m result) s in
  if no_ports_up then rfc_check_mcb_active m s
  else if fix_start && negb (result =? RFCOMM_SUCCESS) then rfc_release_multiplexer_channel m s
  else s.

Definition clear_collision (l : Link) : Link :=
  set_collision_cfg false None (set_collision_outgoing_conn_cnf false (set_collision_outgoing_lcid 0 l)).

Definition mx_connected (m : nat) (s : tRFC_CB) : tRFC_CB :=
  with_mcb m (fun b => set_peer_ready true (set_mcb_state RFC_MX_STATE_CONNECTED b)) s.

(** The event [RFC_MX_EVENT_START_RSP]. *)
Definition rfc_mx_sm_start_rsp (m : nat) (result : Z) (s : tRFC_CB) : tRFC_CB :=
  match mcbs s !! m with
  | None => s
  | Some b =>
      if decide (mcb_state b = RFC_MX_STATE_WAIT_SABME) then
        if result =? RFCOMM_SUCCESS then
          let s := mx_connected m (send_cmd m (Ua RFCOMM_MX_DLCI) s) in
          let s := if fix_collision then with_mcb m (set_link clear_collision) s else s in
          PORT_StartCnf m RFCOMM_SUCCESS s
        else send_cmd m (Dm RFCOMM_MX_DLCI true) s
      else s
  end.

Definition RFCOMM_StartRsp (m : nat) (result : Z) (s : tRFC_CB) : tRFC_CB :=
  rfc_mx_sm_start_rsp m result s.

Definition PORT_StartInd (m : nat) (s : tRFC_CB) : tRFC_CB :=
  if existsb (fun p => bool_decide (p_mcb p = None) || bool_decide (p_mcb p = Some m)) (ports s)
  then RFCOMM_StartRsp m RFCOMM_SUCCESS s else RFCOMM_StartRsp m RFCOMM_ERROR s.

(** ** The state machine of a multiplexer *)

Definition disconnect (m : nat) (s : tRFC_CB) : tRFC_CB :=
  match mcbs s !! m with
  | Some b => emit (DisconnectReq (lcid (link b))) s
  | None => s
  end.

Definition rfc_mx_conf_ind (cfg : option Z) (m : nat) (s : tRFC_CB) : tRFC_CB :=
  let n := match cfg with Some n => n | None => L2CAP_DEFAULT_MTU end in
  with_mcb m (set_link (set_peer_l2cap_mtu (u16 (n - RFCOMM_MIN_OFFSET - 1)))) s.

Definition rfc_mx_conf_cnf (m : nat) (s : tRFC_CB) : tRFC_CB :=
  match mcbs s !! m with
  | None => s
  | Some b =>
      if decide (mcb_state b = RFC_MX_STATE_CONFIGURE) then
        if mux_initiator (link b) then
          let s := with_mcb m (set_mcb_state RFC_MX_STATE_SABME_WAIT_UA) s in
          rfc_timer_start m RFC_T1_TIMEOUT (send_cmd m (Sabme RFCOMM_MX_DLCI) s)
        else
          rfc_timer_start m RFCOMM_CONN_TIMEOUT
            (with_mcb m (set_mcb_state RFC_MX_STATE_WAIT_SABME) s)
      else s
  end.

(** The port of channel [d] is moved to channel [d + delta]. *)
Definition move_channel (m : nat) (delta : Z) (s : tRFC_CB) (d : Z) : tRFC_CB :=
  match b ← mcbs s !! m; port_handles b !! Z.to_nat d with
  | None => s
  | Some handle =>
      if handle =? 0 then s
      else
        let s := write_port_handle m (d + delta) handle (write_port_handle m d 0 s) in
        with_port (Z.to_nat (handle - 1)) (fun p => set_port_dlci (u8 (port_dlci p + delta)) p) s
  end.

(** The channels [from], [from + 2] and so on. *)
Definition every_second (from : Z) : list Z :=
  (fun i => from + 2 * Z.of_nat i) <$> seq 0 31.

Definition rfc_mx_swap_directions (m : nat) (s : tRFC_CB) : tRFC_CB :=
  match mcbs s !! m with
  | None => s
  | Some b =>
      let initiator := mux_initiator (link b) in
      let s := if initiator then fold_left (move_channel m 1) (every_second 0) s
               else fold_left (move_channel m (-1)) (every_second 1) s in
      with_mcb m (set_link (set_mux_initiator (negb initiator))) s
  end.

(** The multiplexer takes the channel [c]. *)
Definition take_lcid (m : nat) (c : Z) (s : tRFC_CB) : tRFC_CB :=
  match mcbs s !! m with
  | None => s
  | Some b =>
      let s := rfc_save_lcid_mcb None (lcid (link b)) s in
      rfc_save_lcid_mcb (Some m) c (with_mcb m (set_link (set_lcid c)) s)
  end.

Definition rfc_mx_retry_with_cached_lcid (m : nat) (s : tRFC_CB) : tRFC_CB :=
  match mcbs s !! m with
  | None => s
  | Some b =>
      let s := take_lcid m (collision_outgoing_lcid (link b)) (disconnect m s) in
      let s := with_mcb m (fun b => set_mcb_state RFC_MX_STATE_WAIT_CONN_CNF
                 (set_link (set_collision_outgoing_lcid 0) b)) s in
      let s := rfc_mx_swap_directions m s in
      let s := if collision_outgoing_conn_cnf (link b) then
                 with_mcb m (fun b => set_mcb_state RFC_MX_STATE_CONFIGURE
                   (set_link (set_collision_outgoing_conn_cnf false) b)) s
               else s in
      if collision_outgoing_cfg_complete (link b) then
        let s := with_mcb m (set_link (set_collision_cfg false (collision_cfg_info (link b)))) s in
        rfc_mx_conf_cnf m (rfc_mx_conf_ind (collision_cfg_info (link b)) m s)
      else s
  end.

Definition rfc_mx_handle_invalid_collision (m : nat) (s : tRFC_CB) : tRFC_CB :=
  with_mcb m (set_link (fun l => set_collision_outgoing_lcid 0 (set_lcid (collision_outgoing_lcid l) l)))
    (disconnect m s).

(** The channel that [L2CA_ConnectReq] returns becomes the one of the multiplexer; false if
    there is none. *)
Definition connect_req (m : nat) (s : tRFC_CB) : bool * tRFC_CB :=
  let c := connect (out s) in
  let s := emit (ConnectReq m c) s in
  if c =? 0 then
    let s := match mcbs s !! m with
             | Some b => rfc_save_lcid_mcb None (lcid (link b)) s
             | None => s
             end in
    (false, PORT_StartCnf m RFCOMM_ERROR (with_mcb m (set_link (set_lcid 0)) s))
  else (true, rfc_save_lcid_mcb (Some m) c (with_mcb m (set_link (set_lcid c)) s)).

(** The event [RFC_MX_EVENT_CONN_IND] of an idle multiplexer. *)
Definition conn_ind (m : nat) (s : tRFC_CB) : tRFC_CB :=
  with_mcb m (set_mcb_state RFC_MX_STATE_CONFIGURE) (rfc_timer_start m RFCOMM_CONN_TIMEOUT s).

(** The event [RFC_MX_EVENT_COLLISION] of an idle multiplexer. *)
Definition idle_collision (m : nat) (s : tRFC_CB) : tRFC_CB :=
  match mcbs s !! m with
  | None => s
  | Some b =>
      if collision_outgoing_lcid (link b) =? 0 then s
      else with_mcb m (set_mcb_state RFC_MX_STATE_CONFIGURE)
             (rfc_timer_start m (u16 (boot_time (out s) mod 10 + 4)) s)
  end.

Definition rfc_mx_sm_state_idle (m : nat) (event : tRFC_MX_EVENT) (s : tRFC_CB) : tRFC_CB :=
  match event with
  | RFC_MX_EVENT_START_REQ =>
      let s := with_mcb m (set_link (set_peer_l2cap_mtu (L2CAP_DEFAULT_MTU - RFCOMM_MIN_OFFSET - 1))) s in
      let '(connected, s) := connect_req m s in
      if connected then with_mcb m (set_mcb_state RFC_MX_STATE_WAIT_CONN_CNF) s else s
  | RFC_MX_EVENT_CONN_IND => conn_ind m s
  | RFC_MX_EVENT_DISC => send_cmd m (Dm RFCOMM_MX_DLCI true) s
  | RFC_MX_EVENT_UIH => send_cmd m (Dm RFCOMM_MX_DLCI false) s
  | RFC_MX_EVENT_COLLISION => idle_collision m s
  | _ => s
  end.

Definition mx_idle (m : nat) (s : tRFC_CB) : tRFC_CB := with_mcb m (set_mcb_state RFC_MX_STATE_IDLE) s.

(** The connection request of the peer is taken instead of the own one. *)
Definition retry_as_acceptor (m : nat) (pending : Z) (s : tRFC_CB) : tRFC_CB :=
  let s := with_mcb m (set_link (set_mux_initiator false)) (take_lcid m pending s) in
  conn_ind m (rfc_mx_swap_directions m s).

Definition rfc_mx_sm_state_wait_conn_cnf (m : nat) (event : tRFC_MX_EVENT) (s : tRFC_CB) : tRFC_CB :=
  match mcbs s !! m with
  | None => s
  | Some b =>
      match event with
      | RFC_MX_EVENT_CONF_IND cfg => rfc_mx_conf_ind cfg m s
      | RFC_MX_EVENT_CONN_CNF result =>
          if result =? 0 then with_mcb m (set_mcb_state RFC_MX_STATE_CONFIGURE) s
          else PORT_StartCnf m result (mx_idle m s)
      | RFC_MX_EVENT_DISC_IND => PORT_CloseInd m (mx_idle m s)
      | RFC_MX_EVENT_TIMEOUT =>
          let s := disconnect m (mx_idle m s) in
          if pending_lcid (link b) =? 0 then PORT_CloseInd m s
          else retry_as_acceptor m (pending_lcid (link b)) s
      | RFC_MX_EVENT_COLLISION =>
          if collision_outgoing_lcid (link b) =? 0 then s
          else
            let s := rfc_mx_swap_directions m (rfc_save_lcid_mcb (Some m) (lcid (link b)) s) in
            idle_collision m (mx_idle m s)
      | _ => s
      end
  end.

Definition rfc_mx_sm_state_configure (m : nat) (event : tRFC_MX_EVENT) (s : tRFC_CB) : tRFC_CB :=
  match event with
  | RFC_MX_EVENT_CONF_IND cfg => rfc_mx_conf_ind cfg m s
  | RFC_MX_EVENT_CONF_CNF => rfc_mx_conf_cnf m s
  | RFC_MX_EVENT_DISC_IND => PORT_CloseInd m (mx_idle m s)
  | RFC_MX_EVENT_TIMEOUT =>
      let s := PORT_StartCnf m RFCOMM_ERROR (disconnect m (mx_idle m s)) in
      match mcbs s !! m with
      | Some b =>
          if fix_collision && negb (collision_outgoing_lcid (link b) =? 0)
          then rfc_mx_retry_with_cached_lcid m s else s
      | None => s
      end
  | RFC_MX_EVENT_COLLISION => rfc_mx_handle_invalid_collision m s
  | _ => s
  end.

Definition rfc_mx_sm_sabme_wait_ua (m : nat) (event : tRFC_MX_EVENT) (s : tRFC_CB) : tRFC_CB :=
  match event with
  | RFC_MX_EVENT_DISC_IND => PORT_CloseInd m (mx_idle m s)
  | RFC_MX_EVENT_UA => PORT_StartCnf m RFCOMM_SUCCESS (mx_connected m (rfc_timer_stop m s))
  | RFC_MX_EVENT_DM =>
      PORT_StartCnf m RFCOMM_ERROR (disconnect m (mx_idle m (rfc_timer_stop m s)))
  | RFC_MX_EVENT_CONF_IND _ | RFC_MX_EVENT_CONF_CNF | RFC_MX_EVENT_TIMEOUT =>
      PORT_StartCnf m RFCOMM_ERROR (disconnect m (mx_idle m s))
  | RFC_MX_EVENT_COLLISION => rfc_mx_handle_invalid_collision m s
  | _ => s
  end.

Definition rfc_mx_sm_state_wait_sabme (m : nat) (event : tRFC_MX_EVENT) (s : tRFC_CB) : tRFC_CB :=
  match mcbs s !! m with
  | None => s
  | Some b =>
      match event with
      | RFC_MX_EVENT_DISC_IND => PORT_CloseInd m (mx_idle m s)
      | RFC_MX_EVENT_SABME =>
          if pending_lcid (link b) =? 0 then PORT_StartInd m (rfc_timer_stop m s)
          else
            let s := send_cmd m (Ua RFCOMM_MX_DLCI) (with_mcb m (set_link (set_pending_lcid 0)) s) in
            PORT_StartCnf m RFCOMM_SUCCESS (mx_connected m (rfc_timer_stop m s))
      | RFC_MX_EVENT_START_RSP result => rfc_mx_sm_start_rsp m result s
      | RFC_MX_EVENT_CONF_IND _ | RFC_MX_EVENT_CONF_CNF | RFC_MX_EVENT_TIMEOUT =>
          let s := mx_idle m s in
          if fix_collision && negb (collision_outgoing_lcid (link b) =? 0)
          then rfc_mx_retry_with_cached_lcid m s
          else PORT_CloseInd m (disconnect m s)
      | RFC_MX_EVENT_COLLISION => rfc_mx_handle_invalid_collision m s
      | _ => s
      end
  end.

Definition rfc_mx_sm_state_connected (m : nat) (event : tRFC_MX_EVENT) (s : tRFC_CB) : tRFC_CB :=
  match event with
  | RFC_MX_EVENT_TIMEOUT | RFC_MX_EVENT_CLOSE_REQ => rfc_mx_sm_close_req m s
  | RFC_MX_EVENT_DISC_IND => PORT_CloseInd m (mx_idle m s)
  | RFC_MX_EVENT_DISC =>
      let s := send_cmd m (Ua RFCOMM_MX_DLCI) s in
      let s := match mcbs s !! m with
               | Some b => if mux_initiator (link b) then disconnect m s else s
               | None => s
               end in
      PORT_CloseInd m s
  | RFC_MX_EVENT_COLLISION => rfc_mx_handle_invalid_collision m s
  | _ => s
  end.

(** The multiplexer is used again for a start that was asked for in the meantime. *)
Definition restart (m : nat) (s : tRFC_CB) : tRFC_CB :=
  let '(connected, s) := connect_req m s in
  if connected then
    let s := rfc_timer_start m RFC_MCB_INIT_INACT_TIMER (with_mcb m (set_cmd_q []) s) in
    with_mcb m (fun b => set_mcb_state RFC_MX_STATE_WAIT_CONN_CNF
      (set_link (fun l => set_restart_required false (set_mux_initiator true l)) b)) s
  else s.

Definition rfc_mx_sm_state_disc_wait_ua (m : nat) (event : tRFC_MX_EVENT) (s : tRFC_CB) : tRFC_CB :=
  match event with
  | RFC_MX_EVENT_UA | RFC_MX_EVENT_DM | RFC_MX_EVENT_TIMEOUT =>
      let s := disconnect m s in
      match mcbs s !! m with
      | Some b => if restart_required (link b) then restart m s
                  else rfc_release_multiplexer_channel m s
      | None => s
      end
  | RFC_MX_EVENT_DISC => send_cmd m (Ua RFCOMM_MX_DLCI) s
  | RFC_MX_EVENT_UIH => send_cmd m (Dm RFCOMM_MX_DLCI false) s
  | RFC_MX_EVENT_START_REQ => with_mcb m (set_link (set_restart_required true)) s
  | RFC_MX_EVENT_DISC_IND => PORT_CloseInd m (mx_idle m s)
  | RFC_MX_EVENT_COLLISION => rfc_mx_handle_invalid_collision m s
  | _ => s
  end.

Definition rfc_mx_sm_execute (m : nat) (event : tRFC_MX_EVENT) (s : tRFC_CB) : tRFC_CB :=
  match mcbs s !! m with
  | None => s
  | Some b =>
      match mcb_state b with
      | RFC_MX_STATE_IDLE => rfc_mx_sm_state_idle m event s
      | RFC_MX_STATE_WAIT_CONN_CNF => rfc_mx_sm_state_wait_conn_cnf m event s
      | RFC_MX_STATE_CONFIGURE => rfc_mx_sm_state_configure m event s
      | RFC_MX_STATE_SABME_WAIT_UA => rfc_mx_sm_sabme_wait_ua m event s
      | RFC_MX_STATE_WAIT_SABME => rfc_mx_sm_state_wait_sabme m event s
      | RFC_MX_STATE_CONNECTED => rfc_mx_sm_state_connected m event s
      | RFC_MX_STATE_DISC_WAIT_UA => rfc_mx_sm_state_disc_wait_ua m event s
      end
  end.

Definition rfcomm_mcb_timer_timeout (m : nat) (s : tRFC_CB) : tRFC_CB :=
  rfc_mx_sm_execute m RFC_MX_EVENT_TIMEOUT s.

Definition RFCOMM_StartReq (m : nat) (s : tRFC_CB) : tRFC_CB :=
  rfc_mx_sm_execute m RFC_MX_EVENT_START_REQ s.

(** ** Callbacks of L2CAP *)

Definition with_link (m : nat) (f : Link -> Link) (s : tRFC_CB) : tRFC_CB := with_mcb m (set_link f) s.

(** The multiplexer whose outgoing connection of a collision is [c]. *)
Definition find_collision (c : Z) (s : tRFC_CB) : option nat :=
  find_entry (fun b => collision_outgoing_lcid (link b) =? c) (rfc_lcid_mcb (tables s)) s.

(** [rfc_alloc_multiplexer_channel]: the multiplexer of the device, or else the next free one. *)
Definition rfc_alloc_multiplexer_channel (addr : Z) (initiator : bool) (s : tRFC_CB)
    : option nat * tRFC_CB :=
  let n := length (mcbs s) in
  match list_find (fun b => mcb_state b <> RFC_MX_STATE_IDLE /\ bd_addr (link b) = addr) (mcbs s) with
  | Some (m, b) =>
      (Some m, if decide (mcb_state b = RFC_MX_STATE_CONNECTED) then rfc_timer_stop m s else s)
  | None =>
      let first := S (last_mux (tables s)) in
      let first := if (n <=? first)%nat then 0%nat else first in
      match list_find (fun m => mcb_state <$> mcbs s !! m = Some RFC_MX_STATE_IDLE)
              (seq first (n - first) ++ seq 0 first) with
      | Some (_, m) =>
          let s := with_mcb m (fun _ => zero_mcb addr initiator) s in
          let s := rfc_timer_start m RFC_MCB_INIT_INACT_TIMER s in
          (Some m, with_tables (fun t =>
             {| last_port_index := last_port_index t; last_mux := m;
                rfc_lcid_mcb := rfc_lcid_mcb t |}) s)
      | None => (None, s)
      end
  end.

(** The channel is saved for the multiplexer, or disconnected if there is none. *)
Definition accept_channel (m : option nat) (c : Z) (s : tRFC_CB) : tRFC_CB :=
  let s := rfc_save_lcid_mcb m c s in
  match m with
  | None => emit (DisconnectReq c) s
  | Some m => rfc_mx_sm_execute m RFC_MX_EVENT_CONN_IND (with_link m (set_lcid c) s)
  end.

Definition RFCOMM_ConnectInd (addr c : Z) (s : tRFC_CB) : tRFC_CB :=
  let '(m, s) := rfc_alloc_multiplexer_channel addr false s in
  match m ← m; b ← mcbs s !! m; Some (m, b) with
  | Some (m, b) =>
      let busy := mux_initiator (link b) && negb (bool_decide (mcb_state b = RFC_MX_STATE_IDLE)) in
      if fix_collision then
        if busy then
          rfc_mx_sm_execute m RFC_MX_EVENT_COLLISION
            (with_link m (fun l => set_lcid c (set_collision_outgoing_lcid (lcid l) l)) s)
        else accept_channel (Some m) c s
      else if mux_initiator (link b) && bool_decide (mcb_state b = RFC_MX_STATE_WAIT_CONN_CNF) then
        rfc_timer_start m (u16 (boot_time (out s) mod 10 + 2)) (with_link m (set_pending_lcid c) s)
      else if busy then emit (DisconnectReq c) s
      else accept_channel (Some m) c s
  | None => accept_channel None c s
  end.

Definition RFCOMM_ConnectCnf (c result : Z) (s : tRFC_CB) : tRFC_CB :=
  match m ← rfc_find_lcid_mcb c s; b ← mcbs s !! m; Some (m, b) with
  | None =>
      if fix_collision then
        match find_collision c s with
        | None => s
        | Some m =>
            if result =? 0 then with_link m (set_collision_outgoing_conn_cnf true) s
            else with_link m (set_collision_outgoing_lcid 0) s
        end
      else s
  | Some (m, b) =>
      if negb (pending_lcid (link b) =? 0) && negb (result =? 0) then s
      else
        let s := if pending_lcid (link b) =? 0 then s
                 else with_link m (set_pending_lcid 0)
                        (emit (DisconnectReq (pending_lcid (link b))) s) in
        rfc_mx_sm_execute m (RFC_MX_EVENT_CONN_CNF result) (with_link m (set_lcid c) s)
  end.

Definition RFCOMM_ConfigInd (c : Z) (cfg : option Z) (s : tRFC_CB) : tRFC_CB :=
  match rfc_find_lcid_mcb c s with
  | Some m => rfc_mx_sm_execute m (RFC_MX_EVENT_CONF_IND cfg) s
  | None =>
      if fix_collision then
        match find_collision c s with
        | Some m => with_link m (set_collision_cfg true cfg) s
        | None => s
        end
      else
        match find_entry (fun b => pending_lcid (link b) =? c) (rfc_lcid_mcb (tables s)) s with
        | Some m => with_link m (set_pending_cfg true cfg) s
        | None => s
        end
  end.

Definition RFCOMM_ConfigCnf (c : Z) (cfg : option Z) (s : tRFC_CB) : tRFC_CB :=
  let s := RFCOMM_ConfigInd c cfg s in
  match rfc_find_lcid_mcb c s with
  | Some m => rfc_mx_sm_execute m RFC_MX_EVENT_CONF_CNF s
  | None => s
  end.

Definition RFCOMM_DisconnectInd (c : Z) (s : tRFC_CB) : tRFC_CB :=
  match rfc_find_lcid_mcb c s with
  | Some m => rfc_mx_sm_execute m RFC_MX_EVENT_DISC_IND s
  | None =>
      if fix_collision then
        match find_collision c s with
        | Some m => with_link m clear_collision s
        | None => s
        end
      else s
  end.

Definition RFCOMM_CongestionStatusInd (c : Z) (is_congested : bool) (s : tRFC_CB) : tRFC_CB :=
  match rfc_find_lcid_mcb c s with
  | Some m => rfc_process_l2cap_congestion congests m is_congested s
  | None => s
  end.

(** The configuration that was done while the connection request of the peer waited. *)
Definition pending_configured (m : nat) (s : tRFC_CB) : tRFC_CB :=
  match mcbs s !! m with
  | None => s
  | Some b =>
      if pending_configure_complete (link b) then
        let s := with_link m (set_pending_cfg false (pending_cfg_info (link b))) s in
        rfc_mx_sm_execute m RFC_MX_EVENT_CONF_CNF
          (rfc_mx_sm_execute m (RFC_MX_EVENT_CONF_IND (pending_cfg_info (link b))) s)
      else s
  end.

Definition rfc_on_l2cap_error (c result : Z) (s : tRFC_CB) : tRFC_CB :=
  match m ← rfc_find_lcid_mcb c s; b ← mcbs s !! m; Some (m, b) with
  | None =>
      if fix_collision then
        match find_collision c s with
        | Some m => with_link m clear_collision s
        | None => s
        end
      else s
  | Some (m, b) =>
      if has result L2CAP_CONN_INTERNAL_MASK then
        if pending_lcid (link b) =? 0 then
          rfc_mx_sm_execute m (RFC_MX_EVENT_CONN_CNF result) (with_link m (set_lcid c) s)
        else pending_configured m (retry_as_acceptor m (pending_lcid (link b)) (mx_idle m s))
      else if result =? L2CAP_CFG_FAILED_NO_REASON then
        let s := if mux_initiator (link b) then disconnect m (PORT_StartCnf m result s) else s in
        rfc_release_multiplexer_channel m s
      else s
  end.

(** ** Frames *)

(** What the reader of frames needs of the multiplexer. *)
Definition frame_mcb (b : tRFC_MCB) : RfcommFrames.tRFC_MCB :=
  {| is_initiator := mux_initiator (link b); flow := mcb_flow b; l2cap_congested := mcb_congested b;
     cmd_q := []; written := [] |}.

Definition no_frame : MX_FRAME :=
  {| dlci := 0; type := 0; cr := 0; ea := 0; pf := 0; credit := 0; u := u_none |}.

(** The message [a] that was read from the control channel, with the frame [f]. *)
Definition mx_action (m : nat) (f : MX_FRAME) (a : MxAction) (s : tRFC_CB) : tRFC_CB :=
  match a with
  | mx_ignore | mx_process_nsc | mx_process_test_rsp _ => s
  | mx_process_pn is_command =>
      match u f with u_pn pn => rfc_process_pn m is_command (dlci f) pn s | _ => s end
  | mx_send_test b => send_cmd m (Mx (Test b) false) s
  | mx_process_fcon is_command => rfc_process_fcon congests m is_command s
  | mx_process_fcoff is_command => rfc_process_fcoff congests m is_command s
  | mx_process_msc is_command =>
      match u f with u_msc msc => rfc_process_msc congests after_msc m is_command (dlci f) msc s | _ => s end
  | mx_process_rpn is_command is_request =>
      match u f with
      | u_rpn r =>
          let rpn := match r with Some rpn => rpn | None => stale_rpn (out s) end in
          rfc_process_rpn m is_command is_request (dlci f) rpn s
      | _ => s
      end
  | mx_process_rls is_command =>
      match u f with u_rls status => rfc_process_rls congests m is_command (dlci f) status s | _ => s end
  | mx_send_nsc => send_cmd m (Nsc f) s
  end.

(** The events that frames have in common. *)
Definition mx_event (event : tRFC_EVENT) : tRFC_MX_EVENT :=
  match event with
  | RFC_EVENT_SABME => RFC_MX_EVENT_SABME
  | RFC_EVENT_UA => RFC_MX_EVENT_UA
  | RFC_EVENT_DM => RFC_MX_EVENT_DM
  | RFC_EVENT_DISC => RFC_MX_EVENT_DISC
  | RFC_EVENT_TIMEOUT => RFC_MX_EVENT_TIMEOUT
  | RFC_EVENT_UIH | RFC_EVENT_BAD_FRAME => RFC_MX_EVENT_UIH
  end.
Definition port_event (event : tRFC_EVENT) (info : list Z) : tRFC_PORT_EVENT :=
  match event with
  | RFC_EVENT_SABME => RFC_PORT_EVENT_SABME
  | RFC_EVENT_UA => RFC_PORT_EVENT_UA
  | RFC_EVENT_DM => RFC_PORT_EVENT_DM
  | RFC_EVENT_DISC => RFC_PORT_EVENT_DISC
  | RFC_EVENT_TIMEOUT => RFC_PORT_EVENT_TIMEOUT
  | RFC_EVENT_UIH | RFC_EVENT_BAD_FRAME => RFC_PORT_EVENT_UIH info
  end.

(** The port of a channel, which has a multiplexer. *)
Definition channel_port (m : nat) (d : Z) (s : tRFC_CB) : option nat :=
  k ← port_find_mcb_dlci_port m d s; p ← ports s !! k; _ ← p_mcb p; Some k.

(** A frame other than UIH on a channel. *)
Definition channel_frame (m : nat) (event : tRFC_EVENT) (f : MX_FRAME) (s : tRFC_CB) : tRFC_CB :=
  match channel_port m (dlci f) s with
  | Some k => rfc_port_sm_execute k (port_event event []) s
  | None =>
      if decide (event = RFC_EVENT_SABME) then
        match port_find_dlci_port (dlci f) s with
        | (None, s) => send_cmd m (Dm (dlci f) true) s
        | (Some k, s) =>
            let s := write_port_handle m (dlci f) (Z.of_nat k + 1) s in
            rfc_port_sm_execute k RFC_PORT_EVENT_SABME (with_port k (set_p_mcb (Some m)) s)
        end
      else
        match mcbs s !! m with
        | Some b =>
            if Bool.eqb (mux_initiator (link b)) (cr f =? 0)
            then send_cmd m (Dm (dlci f) (negb (pf f =? 0))) s else s
        | None => s
        end
  end.

(** A frame that was read, with the octets [info] it carries; UIH on a channel is the frame
    of [RfcommPort.v]. *)
Definition frame_ind (m : nat) (event : tRFC_EVENT) (f : MX_FRAME) (b : BT_HDR) (s : tRFC_CB) : tRFC_CB :=
  if dlci f =? RFCOMM_MX_DLCI then
    if decide (event = RFC_EVENT_UIH) then
      match rfc_process_mx_message f b with
      | Some (f, a) => mx_action m f a s
      | None => emit Crash s
      end
    else rfc_mx_sm_execute m (mx_event event) s
  else if decide (event = RFC_EVENT_UIH) then
    match mcbs s !! m with
    | Some x =>
        RFCOMM_BufDataInd_uih congests co_callback m (dlci f) (credit f)
          (Bool.eqb (mux_initiator (link x)) (cr f =? 0)) (negb (pf f =? 0)) (contents b) s
    | None => s
    end
  else channel_frame m event f s.

(** What the frame held before is overwritten where it is read. *)
Definition RFCOMM_BufDataInd (c : Z) (b : BT_HDR) (s : tRFC_CB) : tRFC_CB :=
  match m ← rfc_find_lcid_mcb c s; x ← mcbs s !! m; Some (m, x) with
  | None => s
  | Some (m, x) =>
      match rfc_parse_data (frame_mcb x) no_frame b with
      | None => emit Crash s
      | Some (RFC_EVENT_BAD_FRAME, _, _) => s
      | Some (event, f, b) => frame_ind m event f b s
      end
  end.

(** ** Operations of the application *)

(** What [RfcommCfgInfo] may set. *)
Record RfcommCfgInfo := {
  rx_mtu : option Z;
  cfg_init_credit : option Z;
  data_path_offload : bool;        (* [data_path] is [BTSOCK_DATA_PATH_HARDWARE_OFFLOAD] *)
}.

Definition port_find_mcb (addr : Z) (s : tRFC_CB) : option nat :=
  fst <$> list_find (fun b => mcb_state b <> RFC_MX_STATE_IDLE /\ bd_addr (link b) = addr) (mcbs s).

Definition port_find_port (d addr : Z) (s : tRFC_CB) : option nat :=
  fst <$> list_find (fun p => in_use p = true /\ port_dlci p = d /\ port_addr (owner p) = addr) (ports s).

Definition port_allocate_port (d addr : Z) (s : tRFC_CB) : option nat * tRFC_CB :=
  let n := length (ports s) in
  let first := S (last_port_index (tables s)) in
  let first := if (n <=? first)%nat then 0%nat else first in
  match list_find (fun k => in_use <$> ports s !! k = Some false) (seq first (n - first) ++ seq 0 first) with
  | None => (None, s)
  | Some (_, k) =>
      let p := set_owner (set_port_addr addr (owner zero_port)) (set_port_dlci d
                 (port_set_defaults (set_in_use true zero_port))) in
      (Some k, with_tables (fun t =>
         {| last_port_index := k; last_mux := last_mux t; rfc_lcid_mcb := rfc_lcid_mcb t |})
         (with_port k (fun _ => p) s))
  end.

Definition port_open_continue (k : nat) (s : tRFC_CB) : tPORT_RESULT * tRFC_CB :=
  match ports s !! k with
  | None => (PORT_NO_RESOURCES, s)
  | Some p =>
      match rfc_alloc_multiplexer_channel (port_addr (owner p)) true s with
      | (None, s) => (PORT_NO_RESOURCES, port_release_port k s)
      | (Some m, s) =>
          let s := with_port k (set_p_mcb (Some m)) s in
          let s := write_port_handle m (port_dlci p) (Z.of_nat k + 1) s in
          let s := port_select_mtu k s in
          (PORT_SUCCESS,
           match p ← ports s !! k; b ← mcbs s !! m; Some (p, b) with
           | None => s
           | Some (p, b) =>
               match mcb_state b with
               | RFC_MX_STATE_CONNECTED =>
                   RFCOMM_ParameterNegotiationRequest m (port_dlci p) (mtu p) s
               | RFC_MX_STATE_IDLE | RFC_MX_STATE_DISC_WAIT_UA => RFCOMM_StartReq m s
               | _ => s
               end
           end)
      end
  end.

(** [PORT_DUN_DEFAULT_SIGNAL_STATE], and the others. *)
Definition signal_state (service : Z) : Z :=
  if (service =? UUID_SERVCLASS_DIALUP_NETWORKING) || (service =? UUID_SERVCLASS_FAX)
  then Z.lor PORT_DTRDSR_ON PORT_CTSRTS_ON
  else Z.lor (Z.lor PORT_DTRDSR_ON PORT_CTSRTS_ON) PORT_DCD_ON.

(** A new port with what the application has asked for. *)
Definition configure_port (service : Z) (server : bool) (n addr : Z) (callback : bool) (mask : Z)
    (cfg : RfcommCfgInfo) (p : tPORT) : tPORT :=
  let rfcomm_mtu := L2CAP_MTU_SIZE - RFCOMM_DATA_OVERHEAD in
  let x := if n =? 0 then rfcomm_mtu else if n <? rfcomm_mtu then n else rfcomm_mtu in
  let x := match rx_mtu cfg with
           | Some r => if r <? rfcomm_mtu then r else rfcomm_mtu
           | None => x
           end in
  let ctrl := set_fc false (set_modem_signal (signal_state service) (local_ctrl p)) in
  let o := {| port_addr := addr; uuid := service; keep_port_handle := server;
              keep_mtu := if server then x else 0; sec_mask := mask;
              default_signal_state := signal_state service |} in
  set_owner o (set_p_mgmt_callback callback (set_local_ctrl ctrl
    (set_config (cfg_init_credit cfg) (data_path_offload cfg) (set_mtu x (set_ev_mask 0
      (set_is_server server (set_port_state PORT_CONNECTION_STATE_OPENING p))))))).

(** The result, the handle, and the state. *)
Definition RFCOMM_CreateConnectionWithSecurity (service scn : Z) (server : bool) (n addr : Z)
    (callback : bool) (mask : Z) (cfg : RfcommCfgInfo) (s : tRFC_CB) : tPORT_RESULT * Z * tRFC_CB :=
  if (scn =? 0) || (RFCOMM_MAX_SCN <? scn) then (PORT_INVALID_SCN, 0, s)
  else
    let acceptor := match m ← port_find_mcb addr s; mcbs s !! m with
                    | Some b => negb (mux_initiator (link b))
                    | None => false
                    end in
    let d := u8 (Z.shiftl scn 1 + if acceptor && negb server then 1 else 0) in
    let existing := if server then None else port_find_port d addr s in
    match k ← existing; p ← ports s !! k; if is_server p then None else Some k with
    | Some k => (PORT_ALREADY_OPENED, Z.of_nat k + 1, s)
    | None =>
        match port_allocate_port d addr s with
        | (None, s) => (PORT_NO_RESOURCES, 0, s)
        | (Some k, s) =>
            let s := with_port k (configure_port service server n addr callback mask cfg) s in
            if server then (PORT_SUCCESS, Z.of_nat k + 1, s)
            else let '(res, s) := port_open_continue k s in (res, Z.of_nat k + 1, s)
        end
    end.

Definition port_start_close (k : nat) (s : tRFC_CB) : tRFC_CB :=
  match ports s !! k with
  | None => s
  | Some p =>
      let '(events, s) := drop_signals k p s in
      let s := callback k (Z.lor events (Z.land (ev_mask p) PORT_EV_ERR)) s in
      match p_mcb p with
      | Some m =>
          if decide (sm_state p = RFC_STATE_CLOSED)
          then port_release_port k (mgmt_callback k PORT_CLOSED s)
          else RFCOMM_DlcReleaseReq m (port_dlci p) s
      | None => port_release_port k (mgmt_callback k PORT_CLOSED s)
      end
  end.

Definition RFCOMM_RemoveConnection (handle : Z) (s : tRFC_CB) : tPORT_RESULT * tRFC_CB :=
  match usable handle s with
  | inl PORT_NOT_OPENED => (PORT_SUCCESS, s)
  | inl e => (e, s)
  | inr (k, _) =>
      (PORT_SUCCESS, port_start_close k (with_port k (set_port_state PORT_CONNECTION_STATE_CLOSING) s))
  end.

Definition RFCOMM_RemoveServer (handle : Z) (s : tRFC_CB) : tPORT_RESULT * tRFC_CB :=
  match get_port_from_handle handle s with
  | None => (PORT_BAD_HANDLE, s)
  | Some k =>
      let s := with_port k (set_p_mgmt_callback false) s in
      match usable handle s with
      | inl _ => (PORT_SUCCESS, s)
      | inr _ =>
          let s := with_port k (fun p => set_port_state PORT_CONNECTION_STATE_CLOSING
                     (set_owner (set_keep false (owner p)) p)) s in
          (PORT_SUCCESS, port_start_close k s)
      end
  end.

Definition PORT_SetEventMaskAndCallback (handle mask : Z) (callback : bool) (s : tRFC_CB)
    : tPORT_RESULT * tRFC_CB :=
  match usable handle s with
  | inl e => (e, s)
  | inr (k, _) => (PORT_SUCCESS, with_port k (fun p => set_p_callback callback (set_ev_mask mask p)) s)
  end.

Definition PORT_ClearKeepHandleFlag (handle : Z) (s : tRFC_CB) : tPORT_RESULT * tRFC_CB :=
  match get_port_from_handle handle s with
  | None => (PORT_BAD_HANDLE, s)
  | Some k => (PORT_SUCCESS, with_port k (fun p => set_owner (set_keep false (owner p)) p) s)
  end.

(** No port has the other callback for data, which nothing sets. *)
Definition PORT_SetDataCOCallback (handle : Z) (set : bool) (s : tRFC_CB) : tPORT_RESULT * tRFC_CB :=
  match usable handle s with
  | inl e => (e, s)
  | inr (k, _) =>
      (PORT_SUCCESS,
       with_port k (set_data_callback (if set then p_data_co_callback else no_data_callback)) s)
  end.

(** The result, the address of the peer and the channel. *)
Definition PORT_CheckConnection (handle : Z) (s : tRFC_CB) : tPORT_RESULT * option (Z * Z) :=
  match usable handle s with
  | inl e => (e, None)
  | inr (_, p) =>
      match mcb_of p s with
      | Some b =>
          if peer_ready b && bool_decide (sm_state p = RFC_STATE_OPENED)
          then (PORT_SUCCESS, Some (bd_addr (link b), lcid (link b))) else (PORT_LINE_ERR, None)
      | None => (PORT_LINE_ERR, None)
      end
  end.

Definition RFCOMM_ControlReqFromBTSOCK (d addr : Z) (pars : tPORT_CTRL) (s : tRFC_CB)
    : tPORT_RESULT * tRFC_CB :=
  match port_find_mcb addr s with
  | None => (PORT_BAD_BD_ADDR, s)
  | Some m =>
      match port_find_mcb_dlci_port m d s with
      | None => (PORT_NOT_OPENED, s)
      | Some k => (PORT_SUCCESS, RFCOMM_ControlReq m d pars (with_port k (set_local_ctrl pars) s))
      end
  end.

Definition PORT_SetSettings (handle : Z) (settings : PortSettings) (s : tRFC_CB)
    : tPORT_RESULT * tRFC_CB :=
  match usable handle s with
  | inl e => (e, s)
  | inr (k, p) =>
      if negb (line_status p =? 0) then (PORT_LINE_ERR, s)
      else
        let s := with_port k (set_user_port_settings settings) s in
        (PORT_SUCCESS,
         if baud_rate (user_port_settings p) =? baud_rate settings then s else port_start_par_neg k s)
  end.

Definition PORT_GetSettings (handle : Z) (s : tRFC_CB) : tPORT_RESULT * option PortSettings :=
  match usable handle s with
  | inl e => (e, None)
  | inr (_, p) =>
      if negb (line_status p =? 0) then (PORT_LINE_ERR, None) else (PORT_SUCCESS, Some (user_port_settings p))
  end.

Definition PORT_GetSecurityMask (handle : Z) (s : tRFC_CB) : tPORT_RESULT * option Z :=
  match k ← get_port_from_handle handle s; ports s !! k with
  | None => (PORT_BAD_HANDLE, None)
  | Some p => (PORT_SUCCESS, Some (sec_mask (owner p)))
  end.

(** What the application learns about a channel. *)
Record ChannelInfo := {
  local_mtu : Z;
  remote_mtu : Z;
  local_credit : Z;
  remote_credit : Z;
  local_cid : Z;
  remote_cid : Z;
  channel_dlci : Z;
  max_frame_size : Z;
  acl_handle : Z;
  channel_initiator : bool;
}.

(** [get_remote_channel_id], [get_acl_handle] and [get_local_mtu] are the functions of L2CAP. *)
Definition PORT_GetChannelInfo (get_remote_channel_id get_acl_handle get_local_mtu : Z -> option Z)
    (handle : Z) (s : tRFC_CB) : tPORT_RESULT * option ChannelInfo :=
  match usable handle s with
  | inl e => (e, None)
  | inr (_, p) =>
      match mcb_of p s with
      | None => (PORT_LINE_ERR, None)
      | Some b =>
          if negb (line_status p =? 0) then (PORT_LINE_ERR, None)
          else
            match rcid ← get_remote_channel_id (lcid (link b)); ahandle ← get_acl_handle (lcid (link b));
                  lmtu ← get_local_mtu (lcid (link b)); Some (rcid, ahandle, lmtu) with
            | None => (PORT_PEER_FAILED, None)
            | Some (rcid, ahandle, lmtu) =>
                (PORT_SUCCESS, Some
                   {| local_mtu := lmtu; remote_mtu := u16 (peer_l2cap_mtu (link b) + RFCOMM_MIN_OFFSET + 1);
                      local_credit := credit_rx p; remote_credit := credit_tx p;
                      local_cid := lcid (link b); remote_cid := rcid; channel_dlci := port_dlci p;
                      max_frame_size := mtu p; acl_handle := ahandle;
                      channel_initiator := mux_initiator (link b) |})
            end
      end
  end.

(** [get_port_from_mcb]. *)
Definition get_port_from_mcb (m : nat) (s : tRFC_CB) : option tPORT :=
  snd <$> list_find (fun p => p_mcb p = Some m) (ports s).

(** The multiplexer [m] is being opened for the device; [closed_port] is the flag
    [donot_collide_with_closed_port]. *)
Definition is_opening (closed_port : bool) (addr : Z) (s : tRFC_CB) (m : nat) (b : tRFC_MCB) : bool :=
  if negb (bd_addr (link b) =? kEmpty) && negb (bd_addr (link b) =? addr) then false
  else if negb (mux_initiator (link b)) then false
  else
    match mcb_state b with
    | RFC_MX_STATE_WAIT_CONN_CNF | RFC_MX_STATE_CONFIGURE | RFC_MX_STATE_SABME_WAIT_UA
    | RFC_MX_STATE_WAIT_SABME => true
    | RFC_MX_STATE_CONNECTED =>
        match get_port_from_mcb m s with
        | None => true
        | Some p =>
            match sm_state p with
            | RFC_STATE_CLOSED => negb closed_port
            | RFC_STATE_SABME_WAIT_UA | RFC_STATE_ORIG_WAIT_SEC_CHECK | RFC_STATE_TERM_WAIT_SEC_CHECK => true
            | RFC_STATE_OPENED | RFC_STATE_DISC_WAIT_UA => false
            end
        end
    | RFC_MX_STATE_IDLE | RFC_MX_STATE_DISC_WAIT_UA => false
    end.

Definition PORT_IsCollisionDetected (closed_port : bool) (addr : Z) (s : tRFC_CB) : bool :=
  existsb (fun x => x) (imap (is_opening closed_port addr s) (mcbs s)).

(** [RFCOMM_Init]: [last_mux] is behind the last multiplexer. *)
Definition RFCOMM_Init : tRFC_CB :=
  {| tables := {| last_port_index := 0; last_mux := MAX_BD_CONNECTIONS; rfc_lcid_mcb := [] |};
     peer_rx_disabled := false; ports := replicate MAX_RFC_PORTS zero_port;
     mcbs := replicate MAX_BD_CONNECTIONS (zero_mcb kEmpty false); out := [] |}.

(** ** Runs *)

Inductive Input :=
| CreateConnection (service scn : Z) (server : bool) (n addr : Z) (callback : bool) (mask : Z)
    (cfg : RfcommCfgInfo)
| RemoveConnection (handle : Z)
| RemoveServer (handle : Z)
| SetEventMaskAndCallback (handle mask : Z) (callback : bool)
| ClearKeepHandleFlag (handle : Z)
| SetDataCOCallback (handle : Z) (set : bool)
| SetSettings (handle : Z) (settings : PortSettings)
| ControlReqFromBTSOCK (d addr : Z) (pars : tPORT_CTRL)
| FlowControlMaxCredit (handle : Z) (enable : bool)
| WriteData (handle : Z) (l : list Z)
| WriteDataCO (handle : Z) (l : list Z)
| ReadData (handle max_len : Z)
| ConnectInd (addr c : Z)
| ConnectCnf (c result : Z)
| ConfigInd (c : Z) (cfg : option Z)
| ConfigCnf (c : Z) (cfg : option Z)
| DisconnectInd (c : Z)
| BufDataInd (c : Z) (b : BT_HDR)
| CongestionStatusInd (c : Z) (is_congested : bool)
| L2capError (c result : Z)
| PortTimeout (k : nat)
| MxTimeout (m : nat)
| SecComplete (k : nat) (success : bool).

Definition step (i : Input) (s : tRFC_CB) : tRFC_CB :=
  match i with
  | CreateConnection service scn server n addr callback mask cfg =>
      snd (RFCOMM_CreateConnectionWithSecurity service scn server n addr callback mask cfg s)
  | RemoveConnection h => snd (RFCOMM_RemoveConnection h s)
  | RemoveServer h => snd (RFCOMM_RemoveServer h s)
  | SetEventMaskAndCallback h mask callback => snd (PORT_SetEventMaskAndCallback h mask callback s)
  | ClearKeepHandleFlag h => snd (PORT_ClearKeepHandleFlag h s)
  | SetDataCOCallback h set => snd (PORT_SetDataCOCallback h set s)
  | SetSettings h settings => snd (PORT_SetSettings h settings s)
  | ControlReqFromBTSOCK d addr pars => snd (RFCOMM_ControlReqFromBTSOCK d addr pars s)
  | FlowControlMaxCredit h enable => snd (PORT_FlowControl_MaxCredit congests h enable s)
  | WriteData h l => snd (PORT_WriteData congests co_callback h l s)
  | WriteDataCO h l => snd (PORT_WriteDataCO congests co_callback h l s)
  | ReadData h max_len => snd (PORT_ReadData congests h max_len s)
  | ConnectInd addr c => RFCOMM_ConnectInd addr c s
  | ConnectCnf c result => RFCOMM_ConnectCnf c result s
  | ConfigInd c cfg => RFCOMM_ConfigInd c cfg s
  | ConfigCnf c cfg => RFCOMM_ConfigCnf c cfg s
  | DisconnectInd c => RFCOMM_DisconnectInd c s
  | BufDataInd c b => RFCOMM_BufDataInd c b s
  | CongestionStatusInd c is_congested => RFCOMM_CongestionStatusInd c is_congested s
  | L2capError c result => rfc_on_l2cap_error c result s
  | PortTimeout k => rfcomm_port_timer_timeout k s
  | MxTimeout m => rfcomm_mcb_timer_timeout m s
  | SecComplete k success => rfc_sec_check_complete k success s
  end.

Definition run (ins : list Input) (s : tRFC_CB) : tRFC_CB := fold_left (fun s i => step i s) ins s.
End fsm.
