(* ===== verification/RfcommPortTrace.v ===== *)
(** * RFCOMM ports: what the data path leaves alone

    No operation of the data path takes back what the layer has done outside: the list
    of outputs grows at its end.  So the frames that a device has sent on a channel stay
    in order while more are sent.  Nor does it change the state of a connection: which
    ports and multiplexers are used, for what, and in which state. *)

From stdpp Require Import base list option.
From Stdlib Require Import ZArith.
From S2P Require Import Prelude.
From S2P Require Import RfcommFrames.
From S2P Require Import RfcommMessages.
From S2P Require Import RfcommPortState.
From S2P Require Import RfcommPort.

Open Scope Z_scope.

(** What makes the connection of a port, and of a multiplexer. *)
Definition connection (p : tPORT) :=
  (in_use p, port_state p, port_dlci p, is_server p, sm_state p, p_mcb p, p_mgmt_callback p, owner p).
Definition mx_connection (b : tRFC_MCB) := (mcb_state b, port_handles b, is_disc_initiator b, link b).

Record Steady (s s' : tRFC_CB) : Prop := {
  steady_out : out s `prefix_of` out s';
  steady_tables : tables s' = tables s;
  steady_ports : connection <$> ports s' = connection <$> ports s;
  steady_mcbs : mx_connection <$> mcbs s' = mx_connection <$> mcbs s;
}.

#[export] Instance steady_preorder : PreOrder Steady.
Proof.
  split; [done|]. intros s1 s2 s3 [O T P M] [O' T' P' M']. split; [by etransitivity|congruence..].
Qed.

Definition keeps_connection (f : tPORT -> tPORT) : Prop := forall p, connection (f p) = connection p.
Definition keeps_mx_connection (f : tRFC_MCB -> tRFC_MCB) : Prop :=
  forall b, mx_connection (f b) = mx_connection b.

Lemma fmap_alter_same {A B} (g : A -> B) (f : A -> A) (k : nat) (l : list A) :
  (forall x, g (f x) = g x) -> g <$> alter f k l = g <$> l.
Proof.
  intros H. apply list_eq. intros i. rewrite !list_lookup_fmap. destruct (decide (i = k)) as [-> | N].
  - rewrite list_lookup_alter_eq. destruct (l !! k); [|done]. cbn. by rewrite H.
  - by rewrite list_lookup_alter_ne.
Qed.

Lemma steady_port k f s : keeps_connection f -> Steady s (with_port k f s).
Proof. intros H. split; [done..|by apply fmap_alter_same|done]. Qed.

Lemma steady_mcb m f s : keeps_mx_connection f -> Steady s (with_mcb m f s).
Proof. intros H. split; [done..|by apply fmap_alter_same]. Qed.

Lemma steady_emit o s : Steady s (emit o s).
Proof. split; [by apply prefix_app_r|done..]. Qed.

Lemma steady_disabled b s : Steady s (set_peer_rx_disabled b s).
Proof. done. Qed.

Create HintDb steady.
#[export] Hint Resolve steady_port steady_mcb steady_emit steady_disabled : steady.
#[export] Hint Extern 1 (keeps_connection _) =>
  (intros ?; cbv zeta beta; repeat case_match; reflexivity) : steady.
#[export] Hint Extern 1 (keeps_mx_connection _) =>
  (intros ?; cbv zeta beta; repeat case_match; reflexivity) : steady.

(** Take apart the branches, then the operations from the last to the first; the relation
    is [Steady] or another preorder with lemmas in the same database. *)
Ltac steady :=
  cbv zeta; cbn [fst snd];
  match goal with
  | G : ?R ?s ?t |- ?R ?s ?t => exact G
  | G : ?R ?s1 ?t |- ?R _ ?t => transitivity s1; [|exact G]; clear G; steady
  | |- ?R ?s ?s => reflexivity
  | |- ?R _ (snd (match ?x with _ => _ end)) => branch R x
  | |- ?R _ (match ?x with _ => _ end) => branch R x
  | |- ?R _ _ => etransitivity; [|solve [auto with steady nocore]]; steady
  end
with branch R x :=
  lazymatch type of x with
  | (_ * tRFC_CB)%type =>
      let G := fresh "G" in
      lazymatch x with
      | match ?y with _ => _ end => branch R y
      | _ =>
          eassert (R _ (snd x)) as G by (solve [auto with steady nocore]);
          destruct x as [? ?]; cbn [snd] in G; steady
      end
  | _ => destruct x; steady
  end.

Section trace.
Context (congests : list Output -> bool) (co_callback : list Output -> bool).
Context (after_msc : bool).

Lemma steady_callback k e s : Steady s (callback k e s).
Proof. unfold callback. steady. Qed.
#[local] Hint Resolve steady_callback : steady.

Lemma steady_user k s : Steady s (snd (port_flow_control_user k s)).
Proof. unfold port_flow_control_user. steady. Qed.
#[local] Hint Resolve steady_user : steady.

Section send.
Context (dr : nat -> Z -> list Z -> tRFC_CB -> tPORT_RESULT * tRFC_CB).
Hypothesis steady_dr : forall m d l s, Steady s (snd (dr m d l s)).
#[local] Hint Resolve steady_dr : steady.

Lemma steady_tx_loop fuel k e s : Steady s (snd (send_tx_loop dr fuel k e s)).
Proof.
  revert e s. induction fuel as [|fuel IH]; intros e s; cbn [send_tx_loop]; [reflexivity|].
  steady.
Qed.
#[local] Hint Resolve steady_tx_loop : steady.

Lemma steady_tx_data k s : Steady s (snd (send_tx_data dr k s)).
Proof. unfold send_tx_data. steady. Qed.
#[local] Hint Resolve steady_tx_data : steady.

Lemma steady_ind_port k s : Steady s (flow_ind_port dr k s).
Proof. unfold flow_ind_port. steady. Qed.
#[local] Hint Resolve steady_ind_port : steady.

Lemma steady_ind_all m s : Steady s (flow_ind_all dr m s).
Proof.
  unfold flow_ind_all. generalize (seq 0 (length (ports s))). intros l. revert s.
  induction l as [|j l IH]; intros s; cbn [fold_left]; [reflexivity|]. etransitivity; [|apply IH]. steady.
Qed.
#[local] Hint Resolve steady_ind_all : steady.

Lemma steady_flow_ind m d b s : Steady s (flow_ind dr m d b s).
Proof. unfold flow_ind. steady. Qed.
End send.

Lemma steady_congestion_started m s : Steady s (congestion_started m s).
Proof.
  unfold congestion_started. cbv zeta. etransitivity; [by apply (steady_mcb m (set_congested true))|].
  case_match; [reflexivity|]. by apply steady_flow_ind.
Qed.
#[local] Hint Resolve steady_congestion_started : steady.

Lemma steady_write m f s : Steady s (L2CA_DataWrite congests m f s).
Proof. unfold L2CA_DataWrite. steady. Qed.
#[local] Hint Resolve steady_write : steady.

Lemma steady_commands m q s : Steady s (send_commands congests m q s).
Proof. revert s. induction q as [|f q IH]; intros s; cbn [send_commands]; steady. Qed.
#[local] Hint Resolve steady_commands : steady.

Lemma steady_check_send m f s : Steady s (rfc_check_send_cmd congests m f s).
Proof. unfold rfc_check_send_cmd. steady. Qed.
#[local] Hint Resolve steady_check_send : steady.

Lemma steady_cmd m f s : Steady s (send_cmd congests m f s).
Proof. unfold send_cmd. steady. Qed.
#[local] Hint Resolve steady_cmd : steady.

Lemma steady_dec_credit k s : Steady s (rfc_dec_credit k s).
Proof. unfold rfc_dec_credit. steady. Qed.
#[local] Hint Resolve steady_dec_credit : steady.

Lemma steady_sm_data k l s : Steady s (rfc_port_sm_data congests k l s).
Proof. unfold rfc_port_sm_data. steady. Qed.
#[local] Hint Resolve steady_sm_data : steady.

Lemma steady_data_req m d l s : Steady s (snd (RFCOMM_DataReq congests m d l s)).
Proof. unfold RFCOMM_DataReq. steady. Qed.
#[local] Hint Resolve steady_data_req : steady.

Lemma steady_send_tx k s : Steady s (snd (port_rfc_send_tx_data congests k s)).
Proof. apply steady_tx_data, steady_data_req. Qed.
#[local] Hint Resolve steady_send_tx : steady.

Lemma steady_PORT_FlowInd m d b s : Steady s (PORT_FlowInd congests m d b s).
Proof. apply steady_flow_ind, steady_data_req. Qed.
#[local] Hint Resolve steady_PORT_FlowInd : steady.

Lemma steady_congestion m b s : Steady s (rfc_process_l2cap_congestion congests m b s).
Proof. unfold rfc_process_l2cap_congestion. steady. Qed.

Lemma steady_inc_credit k c s : Steady s (rfc_inc_credit congests k c s).
Proof. unfold rfc_inc_credit. steady. Qed.
#[local] Hint Resolve steady_inc_credit : steady.

Lemma steady_timer k t s : Steady s (rfc_port_timer_start k t s).
Proof. apply steady_emit. Qed.

Lemma steady_timer_stop k s : Steady s (rfc_port_timer_stop k s).
Proof. apply steady_emit. Qed.
#[local] Hint Resolve steady_timer steady_timer_stop : steady.

Lemma steady_control m d p s : Steady s (RFCOMM_ControlReq congests m d p s).
Proof. unfold RFCOMM_ControlReq. steady. Qed.

Lemma steady_flow_req m d b s : Steady s (RFCOMM_FlowReq congests m d b s).
Proof. unfold RFCOMM_FlowReq. steady. Qed.

Lemma steady_line m d st s : Steady s (RFCOMM_LineStatusReq congests m d st s).
Proof. unfold RFCOMM_LineStatusReq. steady. Qed.
#[local] Hint Resolve steady_control steady_flow_req steady_line : steady.

Lemma steady_peer k b n s : Steady s (port_flow_control_peer congests k b n s).
Proof. unfold port_flow_control_peer. steady. Qed.
#[local] Hint Resolve steady_peer : steady.

Lemma steady_notify k f s : Steady s (notify_data k f s).
Proof. unfold notify_data. steady. Qed.
#[local] Hint Resolve steady_notify : steady.

Lemma steady_data_ind m d l s : Steady s (PORT_DataInd congests co_callback m d l s).
Proof. unfold PORT_DataInd. steady. Qed.
#[local] Hint Resolve steady_data_ind : steady.

Lemma steady_sm_uih k l s : Steady s (rfc_port_sm_uih congests co_callback k l s).
Proof. unfold rfc_port_sm_uih, rfc_port_uplink_data. steady. Qed.
#[local] Hint Resolve steady_sm_uih : steady.

Lemma steady_buf_data m d c cmd fin l s :
  Steady s (RFCOMM_BufDataInd_uih congests co_callback m d c cmd fin l s).
Proof. unfold RFCOMM_BufDataInd_uih. steady. Qed.

Lemma steady_start_control k s : Steady s (port_start_control congests k s).
Proof. unfold port_start_control. steady. Qed.
#[local] Hint Resolve steady_start_control : steady.

Lemma steady_max_credit h b s : Steady s (snd (PORT_FlowControl_MaxCredit congests h b s)).
Proof. unfold PORT_FlowControl_MaxCredit. steady. Qed.

Lemma steady_read h n s : Steady s (snd (PORT_ReadData congests h n s)).
Proof. unfold PORT_ReadData. steady. Qed.

Lemma steady_port_write k l s : Steady s (snd (port_write congests k l s)).
Proof. unfold port_write. steady. Qed.
#[local] Hint Resolve steady_port_write : steady.

Lemma steady_write_loop fuel co k l n r ev len s :
  Steady s (snd (write_loop congests co_callback fuel co k l n r ev len s)).
Proof.
  revert l n r ev len s. induction fuel as [|fuel IH]; intros; cbn [write_loop]; [reflexivity|]. steady.
Qed.
#[local] Hint Resolve steady_write_loop : steady.

Lemma steady_write_end k w s : Steady s (write_end k w s).
Proof. apply steady_callback. Qed.
#[local] Hint Resolve steady_write_end : steady.

Lemma steady_write_data h l s : Steady s (snd (PORT_WriteData congests co_callback h l s)).
Proof. unfold PORT_WriteData. steady. Qed.

Lemma steady_write_co h l s : Steady s (snd (PORT_WriteDataCO congests co_callback h l s)).
Proof. unfold PORT_WriteDataCO. steady. Qed.

Lemma steady_indicate k s : Steady s (indicate_connection after_msc k s).
Proof. unfold indicate_connection. steady. Qed.
#[local] Hint Resolve steady_indicate : steady.

Lemma steady_control_ind m d p s : Steady s (PORT_ControlInd congests after_msc m d p s).
Proof. unfold PORT_ControlInd. steady. Qed.

Lemma steady_control_cnf m d s : Steady s (PORT_ControlCnf congests after_msc m d s).
Proof. unfold PORT_ControlCnf. steady. Qed.

Lemma steady_line_ind m d st s : Steady s (PORT_LineStatusInd m d st s).
Proof. unfold PORT_LineStatusInd. steady. Qed.
#[local] Hint Resolve steady_control_ind steady_control_cnf steady_line_ind : steady.

Lemma steady_msc m cmd d p s : Steady s (rfc_process_msc congests after_msc m cmd d p s).
Proof. unfold rfc_process_msc. steady. Qed.

Lemma steady_rls m cmd d st s : Steady s (rfc_process_rls congests m cmd d st s).
Proof. unfold rfc_process_rls. steady. Qed.

Lemma steady_fcon m cmd s : Steady s (rfc_process_fcon congests m cmd s).
Proof. unfold rfc_process_fcon. steady. Qed.

Lemma steady_fcoff m cmd s : Steady s (rfc_process_fcoff congests m cmd s).
Proof. unfold rfc_process_fcoff. steady. Qed.
End trace.

#[export] Hint Resolve steady_congestion steady_buf_data steady_max_credit steady_read steady_write_data
  steady_write_co steady_msc steady_rls steady_fcon steady_fcoff steady_callback steady_cmd steady_control
  steady_sm_data steady_sm_uih steady_timer steady_timer_stop : steady.
