(* ===== verification/RfcommFsmSafety.v ===== *)
(** * RFCOMM: no channel is opened without a security check

    In every run, before a port is open the security manager was asked about the device of
    a multiplexer with the mask of a port that was closed, that port waited, the check
    was reported as passed, and since then the open port has only waited for the answer
    of the peer or been open.  The port that was checked is the one that is open, or
    one of the same channel of the same multiplexer: the table of channels may name
    another port by then.

    The proof separates what may happen to the state of a port: [Quiet] is everything
    that leaves it or brings it down; the other changes are few, and each of them is
    shown where it is made. *)

From stdpp Require Import base list option.
From Stdlib Require Import ZArith Lia.
From S2P Require Import Prelude.
From S2P Require Import RfcommFrames.
From S2P Require Import RfcommMessages.
From S2P Require Import RfcommPortState.
From S2P Require Import RfcommPort.
From S2P Require Import RfcommFsm.
From S2P Require Import RfcommPortTrace.

Open Scope Z_scope.

(** The state machine of port [k]; a port that is not there is closed. *)
Definition sm (k : nat) (s : tRFC_CB) : tRFC_PORT_STATE :=
  match ports s !! k with Some p => sm_state p | None => RFC_STATE_CLOSED end.

(** [y] is [x], or a state on the way down from [x]. *)
Definition down (x y : tRFC_PORT_STATE) : Prop :=
  y = x \/ y = RFC_STATE_CLOSED \/
  y = RFC_STATE_DISC_WAIT_UA /\ (x = RFC_STATE_OPENED \/ x = RFC_STATE_SABME_WAIT_UA).

#[export] Instance down_preorder : PreOrder down.
Proof. split; unfold down; red; [by left|]. intros x y z. destruct x, y; intuition congruence. Qed.

Record Quiet (s s' : tRFC_CB) : Prop := {
  quiet_out : out s `prefix_of` out s';
  quiet_sm : forall k, down (sm k s) (sm k s');
}.

#[export] Instance quiet_preorder : PreOrder Quiet.
Proof.
  split; [by split|]. intros s1 s2 s3 [O D] [O' D']. split; [by etransitivity|].
  intros k. by transitivity (sm k s2).
Qed.

Lemma steady_sm k s s' : Steady s s' -> sm k s' = sm k s.
Proof.
  intros [_ _ P _]. unfold sm. apply (f_equal (.!! k)) in P. rewrite !list_lookup_fmap in P.
  destruct (ports s !! k), (ports s' !! k); try done. cbn in P. injection P. congruence.
Qed.

Lemma steady_quiet s s' : Steady s s' -> Quiet s s'.
Proof. intros H. split; [apply H|]. intros k. rewrite (steady_sm k s s' H). by left. Qed.

Definition lowers (f : tPORT -> tPORT) : Prop := forall p, down (sm_state p) (sm_state (f p)).

Lemma sm_with_port k f s j :
  sm j (with_port k f s) =
  if decide (j = k) then match ports s !! k with Some p => sm_state (f p) | None => RFC_STATE_CLOSED end
  else sm j s.
Proof.
  unfold sm. cbn [ports with_port]. case_decide as E.
  - subst j. rewrite list_lookup_alter_eq. by destruct (ports s !! k).
  - by rewrite list_lookup_alter_ne.
Qed.

Lemma quiet_port k f s : lowers f -> Quiet s (with_port k f s).
Proof.
  intros H. split; [done|]. intros j. rewrite sm_with_port. case_decide as E; [subst j|by left].
  unfold sm. destruct (ports s !! k); [apply H|by left].
Qed.

Lemma quiet_mcb m f s : Quiet s (with_mcb m f s).
Proof. split; [done|]. by left. Qed.

Lemma quiet_tables f s : Quiet s (with_tables f s).
Proof. split; [done|]. by left. Qed.

Lemma quiet_emit o s : Quiet s (emit o s).
Proof. split; [by apply prefix_app_r|]. by left. Qed.

Lemma quiet_write_handle m d h s : Quiet s (write_port_handle m d h s).
Proof. unfold write_port_handle. case_match; [apply quiet_mcb|apply quiet_emit]. Qed.

#[export] Hint Resolve steady_quiet quiet_port quiet_mcb quiet_tables quiet_emit quiet_write_handle : steady.
#[export] Hint Extern 1 (lowers _) =>
  (intros ?; unfold down; cbv zeta beta; repeat case_match; cbn; tauto) : steady.

Lemma quiet_closed k s : Quiet s (rfc_set_state RFC_STATE_CLOSED k s).
Proof. apply quiet_port. intros p. right. by left. Qed.

Lemma quiet_fold {A} (f : tRFC_CB -> A -> tRFC_CB) l s : (forall k s, Quiet s (f s k)) -> Quiet s (fold_left f l s).
Proof.
  intros H. revert s. induction l as [|k l IH]; intros s; cbn [fold_left]; [reflexivity|].
  etransitivity; [apply H|apply IH].
Qed.

Lemma quiet_for_ports m f s : (forall k s, Quiet s (f k s)) -> Quiet s (for_ports m f s).
Proof. intros H. apply quiet_fold. intros k s'. repeat case_match; done || apply H. Qed.

Lemma quiet_on_mcb k f s : (forall m b p s, Quiet s (f m b p s)) -> Quiet s (on_mcb k f s).
Proof. intros H. unfold on_mcb. repeat case_match; try reflexivity; [apply H|apply quiet_emit]. Qed.

#[export] Hint Resolve quiet_closed : steady.
#[export] Hint Extern 2 (Quiet _ (for_ports _ _ _)) => (apply quiet_for_ports; intros; cbv beta; solve [steady]) : steady.
#[export] Hint Extern 2 (Quiet _ (on_mcb _ _ _)) => (apply quiet_on_mcb; intros; cbv beta; solve [steady]) : steady.

Section safety.
Context (congests : list Output -> bool) (co_callback : list Output -> bool).
Context (after_msc : bool) (max_packet_size : Z -> Z).
Context (connect : list Output -> Z) (boot_time : list Output -> Z).
Context (stale_rpn : list Output -> rpn_pars).

(** ** Releasing *)

Lemma quiet_mx_timer_start m t s : Quiet s (rfc_timer_start m t s).
Proof. apply quiet_emit. Qed.
Lemma quiet_mx_timer_stop m s : Quiet s (rfc_timer_stop m s).
Proof. apply quiet_emit. Qed.
Lemma quiet_save m c s : Quiet s (rfc_save_lcid_mcb m c s).
Proof. apply quiet_tables. Qed.
#[local] Hint Resolve quiet_mx_timer_start quiet_mx_timer_stop quiet_save : steady.

Lemma quiet_close_req m s : Quiet s (rfc_mx_sm_close_req congests m s).
Proof. unfold rfc_mx_sm_close_req. steady. Qed.
#[local] Hint Resolve quiet_close_req : steady.

Lemma quiet_check_active m s : Quiet s (rfc_check_mcb_active congests m s).
Proof. unfold rfc_check_mcb_active. steady. Qed.
#[local] Hint Resolve quiet_check_active : steady.

Lemma quiet_clear_handle m d s : Quiet s (clear_handle congests m d s).
Proof. unfold clear_handle. steady. Qed.
#[local] Hint Resolve quiet_clear_handle : steady.

Lemma lowers_listen : lowers listen_again.
Proof. intros p. left. unfold listen_again. by destruct (is_server p). Qed.
#[local] Hint Resolve lowers_listen : steady.

Lemma quiet_release k s : Quiet s (port_release_port congests k s).
Proof. unfold port_release_port. steady. Qed.
#[local] Hint Resolve quiet_release : steady.

Lemma quiet_drop k p s : Quiet s (snd (drop_signals k p s)).
Proof. unfold drop_signals. steady. Qed.
Lemma quiet_mgmt k r s : Quiet s (mgmt_callback k r s).
Proof. unfold mgmt_callback. steady. Qed.
#[local] Hint Resolve quiet_drop quiet_mgmt : steady.

Lemma quiet_rfc_closed k r s : Quiet s (port_rfc_closed congests k r s).
Proof. unfold port_rfc_closed. steady. Qed.
#[local] Hint Resolve quiet_rfc_closed : steady.

Lemma quiet_port_closed k s : Quiet s (rfc_port_closed congests k s).
Proof. unfold rfc_port_closed. steady. Qed.
#[local] Hint Resolve quiet_port_closed : steady.

Lemma quiet_release_mux m s : Quiet s (rfc_release_multiplexer_channel m s).
Proof. unfold rfc_release_multiplexer_channel. steady. Qed.
#[local] Hint Resolve quiet_release_mux : steady.

Lemma quiet_close_ind m s : Quiet s (PORT_CloseInd congests m s).
Proof. unfold PORT_CloseInd. steady. Qed.
Lemma quiet_timeout_mux m s : Quiet s (PORT_TimeOutCloseMux congests m s).
Proof. unfold PORT_TimeOutCloseMux. steady. Qed.
Lemma quiet_release_ind m d s : Quiet s (PORT_DlcReleaseInd congests m d s).
Proof. unfold PORT_DlcReleaseInd. steady. Qed.
#[local] Hint Resolve quiet_close_ind quiet_timeout_mux quiet_release_ind : steady.

(** ** Closing and opening a channel *)

(** The states from which the peer is told. *)
Definition up (x : tRFC_PORT_STATE) : Prop := x = RFC_STATE_OPENED \/ x = RFC_STATE_SABME_WAIT_UA.

Lemma quiet_start_disc k s : up (sm k s) -> Quiet s (start_disc congests k s).
Proof.
  intros U. unfold start_disc, on_mcb. cbv zeta.
  destruct (ports _ !! k) as [p|]; [|steady]. destruct (m ← p_mcb p; _) as [[m b]|]; [|steady].
  set (s1 := send_cmd _ _ _ _). assert (Steady s s1) as St by (subst s1; steady).
  split; [by destruct St|]. intros j. unfold rfc_set_state. rewrite !sm_with_port. case_decide as E.
  - subst j. right. right. split; [|exact U]. cbn [ports with_port]. rewrite list_lookup_alter_eq.
    destruct (ports s1 !! k) eqn:E; [done|].
    exfalso. rewrite <- (steady_sm k s s1 St) in U. unfold sm in U. rewrite E in U. by destruct U.
  - rewrite (steady_sm j s s1 St). by left.
Qed.

Lemma quiet_abort_open k s : Quiet s (abort_open congests k s).
Proof. unfold abort_open. steady. Qed.
#[local] Hint Resolve quiet_abort_open : steady.

Lemma quiet_sm_close k s : Quiet s (rfc_port_sm_close congests k s).
Proof.
  unfold rfc_port_sm_close. destruct (ports s !! k) as [p|] eqn:E; [|done].
  assert (sm k s = sm_state p) as Sm by (unfold sm; by rewrite E).
  destruct (sm_state p); try reflexivity; try apply quiet_abort_open;
    apply quiet_start_disc; rewrite Sm; unfold up; auto.
Qed.
#[local] Hint Resolve quiet_sm_close : steady.

Lemma quiet_release_req m d s : Quiet s (RFCOMM_DlcReleaseReq congests m d s).
Proof. unfold RFCOMM_DlcReleaseReq. steady. Qed.
#[local] Hint Resolve quiet_release_req : steady.

Lemma quiet_ppn_response m d x mask s :
  Quiet s (RFCOMM_PortParameterNegotiationResponse congests m d x mask s).
Proof. unfold RFCOMM_PortParameterNegotiationResponse. steady. Qed.
Lemma quiet_neg_cnf m d r s : Quiet s (PORT_PortNegCnf congests m d r s).
Proof. unfold PORT_PortNegCnf. steady. Qed.
#[local] Hint Resolve quiet_ppn_response quiet_neg_cnf : steady.

Lemma quiet_ppn_request m d x s : Quiet s (RFCOMM_PortParameterNegotiationRequest congests m d x s).
Proof. unfold RFCOMM_PortParameterNegotiationRequest. steady. Qed.
#[local] Hint Resolve quiet_ppn_request : steady.

Lemma quiet_par_neg k s : Quiet s (port_start_par_neg congests k s).
Proof. unfold port_start_par_neg. steady. Qed.
#[local] Hint Resolve quiet_par_neg : steady.

Lemma quiet_established k s : Quiet s (indicate_established after_msc k s).
Proof. unfold indicate_established. steady. Qed.
Lemma quiet_connected k s : Quiet s (notify_connected k s).
Proof. unfold notify_connected. steady. Qed.
Lemma lowers_limit n : lowers (limit_mtu n).
Proof. intros p. left. unfold limit_mtu. by case_match. Qed.
#[local] Hint Resolve quiet_established quiet_connected lowers_limit : steady.

Lemma quiet_establish_cnf m d n r s : Quiet s (PORT_DlcEstablishCnf congests after_msc m d n r s).
Proof. unfold PORT_DlcEstablishCnf. steady. Qed.
#[local] Hint Resolve quiet_establish_cnf : steady.

Lemma quiet_find d s : Quiet s (snd (port_find_dlci_port d s)).
Proof. unfold port_find_dlci_port. steady. Qed.
#[local] Hint Resolve quiet_find : steady.

Lemma quiet_for_channel m d s : Quiet s (snd (port_for_channel m d s)).
Proof. unfold port_for_channel. steady. Qed.
#[local] Hint Resolve quiet_for_channel : steady.

(** ** Events of a port that keep it or bring it down *)

Lemma quiet_send_port k f s : Quiet s (send_port congests k f s).
Proof. unfold send_port. steady. Qed.
Lemma quiet_cnf k r s : Quiet s (establish_cnf congests after_msc k r s).
Proof. unfold establish_cnf. steady. Qed.
Lemma quiet_disc_initiator k s : Quiet s (disc_initiator k s).
Proof. unfold disc_initiator. steady. Qed.
Lemma quiet_abort_security k s : Quiet s (abort_security k s).
Proof. unfold abort_security. steady. Qed.
Lemma quiet_ind k s : Quiet s (release_ind congests k s).
Proof. unfold release_ind. steady. Qed.
#[local] Hint Resolve quiet_send_port quiet_cnf quiet_disc_initiator quiet_abort_security quiet_ind : steady.

(** ** Negotiation *)

Lemma steady_select k s : Steady s (port_select_mtu max_packet_size k s).
Proof. unfold port_select_mtu. steady. Qed.
Lemma steady_credits k c s : Steady s (port_get_credits k c s).
Proof. unfold port_get_credits. steady. Qed.
Lemma steady_pn_response m d n cl k s :
  Steady s (RFCOMM_ParameterNegotiationResponse congests m d n cl k s).
Proof. unfold RFCOMM_ParameterNegotiationResponse. steady. Qed.
Lemma steady_pn_request m d n s : Steady s (RFCOMM_ParameterNegotiationRequest congests m d n s).
Proof. unfold RFCOMM_ParameterNegotiationRequest. steady. Qed.
#[local] Hint Resolve steady_select steady_credits steady_pn_response steady_pn_request : steady.

Lemma quiet_pn_ind m d n cl k s : Quiet s (PORT_ParNegInd congests max_packet_size m d n cl k s).
Proof. unfold PORT_ParNegInd. steady. Qed.
Lemma quiet_port_neg_ind m d x mask s : Quiet s (PORT_PortNegInd congests m d x mask s).
Proof. unfold PORT_PortNegInd. steady. Qed.
Lemma quiet_propose m k d x mask s : Quiet s (propose_fc congests m k d x mask s).
Proof. unfold propose_fc. steady. Qed.
#[local] Hint Resolve quiet_pn_ind quiet_port_neg_ind quiet_propose : steady.

Lemma quiet_rpn_response m k d mask s : Quiet s (rpn_response congests m k d mask s).
Proof. unfold rpn_response. steady. Qed.
#[local] Hint Resolve quiet_rpn_response : steady.

Lemma quiet_rpn m cmd req d rpn s : Quiet s (rfc_process_rpn congests m cmd req d rpn s).
Proof. unfold rfc_process_rpn. steady. Qed.
#[local] Hint Resolve quiet_rpn : steady.

(** ** The multiplexer *)

Lemma quiet_start_port (fix_start : bool) m r k s : Quiet s (start_port congests fix_start m r k s).
Proof. unfold start_port, start_failed. steady. Qed.
#[local] Hint Resolve quiet_start_port : steady.

Lemma quiet_start_cnf (fix_start : bool) m r s : Quiet s (PORT_StartCnf congests fix_start m r s).
Proof. unfold PORT_StartCnf. steady. Qed.
Lemma quiet_mx_connected m s : Quiet s (mx_connected m s).
Proof. apply quiet_mcb. Qed.
#[local] Hint Resolve quiet_start_cnf quiet_mx_connected : steady.

Lemma quiet_start_rsp (fix_start fix_collision : bool) m r s : Quiet s (rfc_mx_sm_start_rsp congests fix_start fix_collision m r s).
Proof. unfold rfc_mx_sm_start_rsp. steady. Qed.
#[local] Hint Resolve quiet_start_rsp : steady.

Lemma quiet_start_ind (fix_start fix_collision : bool) m s : Quiet s (PORT_StartInd congests fix_start fix_collision m s).
Proof. unfold PORT_StartInd, RFCOMM_StartRsp. steady. Qed.
Lemma quiet_disconnect m s : Quiet s (disconnect m s).
Proof. unfold disconnect. steady. Qed.
Lemma quiet_conf_ind c m s : Quiet s (rfc_mx_conf_ind c m s).
Proof. apply quiet_mcb. Qed.
Lemma quiet_conf_cnf m s : Quiet s (rfc_mx_conf_cnf congests m s).
Proof. unfold rfc_mx_conf_cnf. steady. Qed.
#[local] Hint Resolve quiet_start_ind quiet_disconnect quiet_conf_ind quiet_conf_cnf : steady.

Lemma quiet_move m x s d : Quiet s (move_channel m x s d).
Proof. unfold move_channel. steady. Qed.
#[local] Hint Resolve quiet_move : steady.

Lemma quiet_swap m s : Quiet s (rfc_mx_swap_directions m s).
Proof.
  unfold rfc_mx_swap_directions. destruct (mcbs s !! m) as [b|]; [|done]. cbv zeta.
  etransitivity; [|apply quiet_mcb]. destruct (mux_initiator _); apply quiet_fold; intros; apply quiet_move.
Qed.
#[local] Hint Resolve quiet_swap : steady.

Lemma quiet_take m c s : Quiet s (take_lcid m c s).
Proof. unfold take_lcid. steady. Qed.
#[local] Hint Resolve quiet_take : steady.

Lemma quiet_retry m s : Quiet s (rfc_mx_retry_with_cached_lcid congests m s).
Proof. unfold rfc_mx_retry_with_cached_lcid. steady. Qed.
Lemma quiet_invalid m s : Quiet s (rfc_mx_handle_invalid_collision m s).
Proof. unfold rfc_mx_handle_invalid_collision. steady. Qed.
Lemma quiet_connect (fix_start : bool) m s : Quiet s (snd (connect_req congests fix_start connect m s)).
Proof. unfold connect_req. steady. Qed.
Lemma quiet_conn_ind m s : Quiet s (conn_ind m s).
Proof. unfold conn_ind. steady. Qed.
Lemma quiet_idle_collision m s : Quiet s (idle_collision boot_time m s).
Proof. unfold idle_collision. steady. Qed.
Lemma quiet_idle m s : Quiet s (mx_idle m s).
Proof. apply quiet_mcb. Qed.
#[local] Hint Resolve quiet_retry quiet_invalid quiet_connect quiet_conn_ind quiet_idle_collision
  quiet_idle : steady.

Lemma quiet_acceptor m c s : Quiet s (retry_as_acceptor m c s).
Proof. unfold retry_as_acceptor. steady. Qed.
Lemma quiet_restart (fix_start : bool) m s : Quiet s (restart congests fix_start connect m s).
Proof. unfold restart. steady. Qed.
#[local] Hint Resolve quiet_acceptor quiet_restart : steady.

Lemma quiet_mx (fix_start fix_collision : bool) m e s :
  Quiet s (rfc_mx_sm_execute congests fix_start fix_collision connect boot_time m e s).
Proof.
  unfold rfc_mx_sm_execute. destruct (mcbs s !! m) as [b|]; [|done].
  unfold rfc_mx_sm_state_idle, rfc_mx_sm_state_wait_conn_cnf, rfc_mx_sm_state_configure,
    rfc_mx_sm_sabme_wait_ua, rfc_mx_sm_state_wait_sabme, rfc_mx_sm_state_connected,
    rfc_mx_sm_state_disc_wait_ua. destruct (mcb_state b), e; steady.
Qed.
#[local] Hint Resolve quiet_mx : steady.

(** ** Callbacks of L2CAP *)

Lemma quiet_link m f s : Quiet s (with_link m f s).
Proof. apply quiet_mcb. Qed.
Lemma quiet_alloc a i s : Quiet s (snd (rfc_alloc_multiplexer_channel a i s)).
Proof. unfold rfc_alloc_multiplexer_channel. steady. Qed.
#[local] Hint Resolve quiet_link quiet_alloc : steady.

Lemma quiet_accept (fix_start fix_collision : bool) m c s :
  Quiet s (accept_channel congests fix_start fix_collision connect boot_time m c s).
Proof. unfold accept_channel. steady. Qed.
Lemma quiet_pending_configured (fix_start fix_collision : bool) m s :
  Quiet s (pending_configured congests fix_start fix_collision connect boot_time m s).
Proof. unfold pending_configured. steady. Qed.
#[local] Hint Resolve quiet_accept quiet_pending_configured : steady.

Lemma quiet_connect_ind (fix_start fix_collision : bool) a c s :
  Quiet s (RFCOMM_ConnectInd congests fix_start fix_collision connect boot_time a c s).
Proof. unfold RFCOMM_ConnectInd. steady. Qed.
Lemma quiet_connect_cnf (fix_start fix_collision : bool) c r s :
  Quiet s (RFCOMM_ConnectCnf congests fix_start fix_collision connect boot_time c r s).
Proof. unfold RFCOMM_ConnectCnf. steady. Qed.
Lemma quiet_config_ind (fix_start fix_collision : bool) c x s :
  Quiet s (RFCOMM_ConfigInd congests fix_start fix_collision connect boot_time c x s).
Proof. unfold RFCOMM_ConfigInd. steady. Qed.
#[local] Hint Resolve quiet_connect_ind quiet_connect_cnf quiet_config_ind : steady.
Lemma quiet_config_cnf (fix_start fix_collision : bool) c x s :
  Quiet s (RFCOMM_ConfigCnf congests fix_start fix_collision connect boot_time c x s).
Proof. unfold RFCOMM_ConfigCnf. steady. Qed.
Lemma quiet_disconnect_ind (fix_start fix_collision : bool) c s :
  Quiet s (RFCOMM_DisconnectInd congests fix_start fix_collision connect boot_time c s).
Proof. unfold RFCOMM_DisconnectInd. steady. Qed.
Lemma quiet_congestion_ind c x s : Quiet s (RFCOMM_CongestionStatusInd congests c x s).
Proof. unfold RFCOMM_CongestionStatusInd. steady. Qed.
Lemma quiet_l2cap_error (fix_start fix_collision : bool) c r s :
  Quiet s (rfc_on_l2cap_error congests fix_start fix_collision connect boot_time c r s).
Proof. unfold rfc_on_l2cap_error. steady. Qed.

(** ** Operations of the application *)

Lemma quiet_allocate d a s : Quiet s (snd (port_allocate_port d a s)).
Proof. unfold port_allocate_port. steady. Qed.
Lemma quiet_start_req (fix_start fix_collision : bool) m s :
  Quiet s (RFCOMM_StartReq congests fix_start fix_collision connect boot_time m s).
Proof. apply quiet_mx. Qed.
#[local] Hint Resolve quiet_allocate quiet_start_req : steady.

Lemma quiet_open_continue (fix_start fix_collision : bool) k s :
  Quiet s (snd (port_open_continue congests max_packet_size fix_start fix_collision connect boot_time k s)).
Proof. unfold port_open_continue. steady. Qed.
Lemma quiet_start_close k s : Quiet s (port_start_close congests k s).
Proof. unfold port_start_close. steady. Qed.
#[local] Hint Resolve quiet_open_continue quiet_start_close : steady.

Lemma quiet_create (fix_start fix_collision : bool) u scn srv n a cb mask cfg s :
  Quiet s (snd (RFCOMM_CreateConnectionWithSecurity congests max_packet_size fix_start fix_collision
    connect boot_time u scn srv n a cb mask cfg s)).
Proof. unfold RFCOMM_CreateConnectionWithSecurity. steady. Qed.
Lemma quiet_remove h s : Quiet s (snd (RFCOMM_RemoveConnection congests h s)).
Proof. unfold RFCOMM_RemoveConnection. steady. Qed.
Lemma quiet_remove_server h s : Quiet s (snd (RFCOMM_RemoveServer congests h s)).
Proof. unfold RFCOMM_RemoveServer. steady. Qed.
Lemma quiet_set_mask h mask cb s : Quiet s (snd (PORT_SetEventMaskAndCallback h mask cb s)).
Proof. unfold PORT_SetEventMaskAndCallback. steady. Qed.
Lemma quiet_clear_keep h s : Quiet s (snd (PORT_ClearKeepHandleFlag h s)).
Proof. unfold PORT_ClearKeepHandleFlag. steady. Qed.
Lemma quiet_set_co h x s : Quiet s (snd (PORT_SetDataCOCallback h x s)).
Proof. unfold PORT_SetDataCOCallback. steady. Qed.
Lemma quiet_set_settings h x s : Quiet s (snd (PORT_SetSettings congests h x s)).
Proof. unfold PORT_SetSettings. steady. Qed.
Lemma quiet_control_req d a x s : Quiet s (snd (RFCOMM_ControlReqFromBTSOCK congests d a x s)).
Proof. unfold RFCOMM_ControlReqFromBTSOCK. steady. Qed.

(** ** The changes that bring a port up *)

Definition waits (x : tRFC_PORT_STATE) : Prop :=
  x = RFC_STATE_ORIG_WAIT_SEC_CHECK \/ x = RFC_STATE_TERM_WAIT_SEC_CHECK.

(** A closed port asks for its check: the device of its multiplexer, with its own mask. *)
Record Asked (k : nat) (s s' : tRFC_CB) : Prop := {
  asked_closed : sm k s = RFC_STATE_CLOSED;
  asked_waits : waits (sm k s');
  asked_about : exists p m b originator l,
    ports s' !! k = Some p /\ p_mcb p = Some m /\ mcbs s' !! m = Some b /\
    out s' = out s ++ l ++ [SecRequest k (bd_addr (link b)) originator (sec_mask (owner p))];
}.

(** The check of port [j], which has a channel of a multiplexer, is the one that port [k]
    waits for: [k] is the port of that channel. *)
Definition answers (j k : nat) (s : tRFC_CB) : Prop :=
  sm k s = RFC_STATE_TERM_WAIT_SEC_CHECK /\
  exists p m, ports s !! j = Some p /\ sm_state p = RFC_STATE_TERM_WAIT_SEC_CHECK /\ p_mcb p = Some m /\
    fst (port_for_channel m (port_dlci p) s) = Some k.

Inductive Move (k : nat) (i : Input) (s s' : tRFC_CB) : Prop :=
| move_down : down (sm k s) (sm k s') -> Move k i s s'
| move_ask : Asked k s s' -> Move k i s s'
| move_ua : sm k s = RFC_STATE_SABME_WAIT_UA -> down RFC_STATE_OPENED (sm k s') -> Move k i s s'
| move_orig : i = SecComplete k true -> sm k s = RFC_STATE_ORIG_WAIT_SEC_CHECK ->
    sm k s' = RFC_STATE_SABME_WAIT_UA -> Move k i s s'
| move_term j : i = SecComplete j true -> answers j k s -> down RFC_STATE_OPENED (sm k s') -> Move k i s s'.

Definition Moves (i : Input) (s s' : tRFC_CB) : Prop :=
  out s `prefix_of` out s' /\ (Crash ∈ out s' \/ forall k, Move k i s s').

Lemma quiet_moves i s s' : Quiet s s' -> Moves i s s'.
Proof. intros [O D]. split; [done|]. right. intros k. by apply move_down. Qed.

(** The state machines are as they were. *)
Definition same_sm (s s' : tRFC_CB) : Prop := out s `prefix_of` out s' /\ forall k, sm k s' = sm k s.

Lemma steady_same s s' : Steady s s' -> same_sm s s'.
Proof. intros H. split; [apply H|]. intros k. by apply steady_sm. Qed.

Lemma same_sm_port k f s : (forall p, sm_state (f p) = sm_state p) -> same_sm s (with_port k f s).
Proof.
  intros H. split; [done|]. intros j. rewrite sm_with_port. case_decide; [|done]. subst. unfold sm.
  destruct (ports s !! k); [apply H|done].
Qed.

#[local] Instance same_preorder : PreOrder same_sm.
Proof.
  split; [done|]. intros s1 s2 s3 [O D] [O' D']. split; [by etransitivity|]. congruence.
Qed.

(** Only [move_term] looks at more than the states. *)
Lemma moves_same i s s1 s' :
  same_sm s s1 -> (forall j, i <> SecComplete j true) -> Moves i s1 s' -> Moves i s s'.
Proof.
  intros [O E] N [P [C|M]]; (split; [by etransitivity|]); [by left|]. right. intros k.
  destruct (M k) as [D|[A B (p & m & b & o & l & H1 & H2 & H3 & H4)]|U D|I|j I].
  - apply move_down. by rewrite <- E.
  - apply move_ask. split; [by rewrite <- E|done|]. destruct O as [l0 El]. exists p, m, b, o, (l0 ++ l).
    repeat (split; [done|]). by rewrite H4, El, <- !app_assoc.
  - apply move_ua; [by rewrite <- E|done].
  - by destruct (N k).
  - by destruct (N j).
Qed.

Lemma ask_moves i k x o s :
  waits x -> sm k s = RFC_STATE_CLOSED -> Moves i s (request_security k o (rfc_set_state x k s)).
Proof.
  intros W C. unfold request_security, on_mcb, rfc_set_state.
  destruct (ports s !! k) as [p|] eqn:P; cycle 1.
  { assert (ports (with_port k (set_sm_state x) s) !! k = None) as ->
      by (cbn [ports with_port]; by rewrite list_lookup_alter_eq, P).
    split; [done|]. right. intros j. apply move_down. rewrite sm_with_port, P.
    case_decide; [right; by left|by left]. }
  assert (ports (with_port k (set_sm_state x) s) !! k = Some (set_sm_state x p)) as P1
    by (cbn [ports with_port]; by rewrite list_lookup_alter_eq, P).
  rewrite P1. cbn [p_mcb set_sm_state mcbs with_port].
  destruct (p_mcb p) as [m|] eqn:Pm; cbn [mbind option_bind]; [destruct (mcbs s !! m) as [b|] eqn:B|];
    cbn [mbind option_bind]; (split; [by apply prefix_app_r|]);
    [|left; cbn; apply elem_of_app; right; apply list_elem_of_here..].
  right. intros j. destruct (decide (j = k)) as [-> |N].
  - apply move_ask. split; [done| |].
    + change (sm k (emit ?o ?t)) with (sm k t). rewrite sm_with_port, decide_True, P by done. exact W.
    + exists (set_sm_state x p), m, b, o, []. repeat (split; [done|]). done.
  - apply move_down. change (sm j (emit ?o ?t)) with (sm j t). rewrite sm_with_port, decide_False by done. by left.
Qed.

Lemma same_on_mcb k f s : (forall m b p s, same_sm s (f m b p s)) -> same_sm s (on_mcb k f s).
Proof.
  intros H. unfold on_mcb. repeat case_match; try reflexivity; [apply H|]. apply steady_same, steady_emit.
Qed.

#[local] Abbreviation execute := (rfc_port_sm_execute congests co_callback after_msc).

(** The UA of the peer opens the channel. *)
Lemma ua_moves i k s : sm k s = RFC_STATE_SABME_WAIT_UA ->
  Moves i s (rfc_port_sm_sabme_wait_ua congests co_callback after_msc k RFC_PORT_EVENT_UA s).
Proof.
  intros S. cbn [rfc_port_sm_sabme_wait_ua]. cbv zeta. set (s1 := rfc_set_state _ _ _).
  destruct (quiet_cnf k RFCOMM_SUCCESS s1) as [O D]. split.
  { etransitivity; [|exact O]. by apply prefix_app_r. }
  right. intros j. destruct (decide (j = k)) as [-> | N].
  - apply move_ua; [done|]. transitivity (sm k s1); [|apply D]. left. subst s1. unfold rfc_set_state.
    rewrite sm_with_port, decide_True by done. unfold sm in S. cbn [ports rfc_port_timer_stop emit].
    destruct (ports s !! k); done.
  - apply move_down. transitivity (sm j s1); [|apply D]. left. subst s1. unfold rfc_set_state.
    by rewrite sm_with_port, decide_False.
Qed.

(** An event other than the completion of the check. *)
Definition checks (e : tRFC_PORT_EVENT) : bool :=
  match e with RFC_PORT_EVENT_SEC_COMPLETE true | RFC_PORT_EVENT_ESTABLISH_RSP _ => true | _ => false end.

Lemma execute_moves i k e s :
  checks e = false -> (forall j, i <> SecComplete j true) -> Moves i s (execute k e s).
Proof.
  intros C N. unfold rfc_port_sm_execute. destruct (ports s !! k) as [p|] eqn:P; [|by apply quiet_moves].
  assert (sm k s = sm_state p) as Sm by (unfold sm; by rewrite P).
  destruct (sm_state p).
  - destruct e as [| | | | | | | | | | |[]]; try done; cbn [rfc_port_sm_state_closed];
      try (apply quiet_moves; steady).
    + apply (moves_same i s (on_mcb k (fun m _ _ => rfc_timer_stop m) s)); [|done|].
      * apply same_on_mcb. intros. apply steady_same, steady_emit.
      * apply ask_moves; [by right|]. rewrite (proj2 (same_on_mcb k (fun m _ _ => rfc_timer_stop m) s
          (fun m b p s => steady_same _ _ (steady_emit (MxTimerStop m) s)))). done.
    + apply ask_moves; [by left|done].
  - destruct e as [| | | | | | | | | | |[]]; try done; try (by apply ua_moves);
      cbn [rfc_port_sm_sabme_wait_ua]; apply quiet_moves; try steady.
    apply quiet_start_disc. rewrite Sm. by right.
  - destruct e as [| | | | | | | | | | |[]]; try done; cbn [rfc_port_sm_orig_wait_sec_check];
      apply quiet_moves; steady.
  - destruct e as [| | | | | | | | | | |[]]; try done; cbn [rfc_port_sm_term_wait_sec_check];
      apply quiet_moves; steady.
  - destruct e as [| | | | | | | | | | |[]]; try done; cbn [rfc_port_sm_opened];
      apply quiet_moves; try steady. apply quiet_start_disc. rewrite Sm. by left.
  - destruct e as [| | | | | | | | | | |[]]; try done; cbn [rfc_port_sm_disc_wait_ua];
      apply quiet_moves; steady.
Qed.

(** ** The check is complete *)

Lemma find_dlci_same d s : same_sm s (snd (port_find_dlci_port d s)).
Proof. unfold port_find_dlci_port. repeat case_match; [|done]. by apply same_sm_port. Qed.

Lemma write_handle_same m d h s : same_sm s (write_port_handle m d h s).
Proof. unfold write_port_handle. case_match; [done|]. apply steady_same, steady_emit. Qed.

Lemma for_channel_same m d s : same_sm s (snd (port_for_channel m d s)).
Proof.
  unfold port_for_channel. pose proof (find_dlci_same d s) as F.
  destruct (port_find_mcb_dlci_port m d s); [done|]. destruct (port_find_dlci_port d s) as [[k|] s1]; [|done].
  etransitivity; [exact F|]. apply write_handle_same.
Qed.

(** The port that was found is then the one of the channel. *)
Lemma for_channel_find m d s k s1 j :
  port_for_channel m d s = (Some k, s1) -> port_find_mcb_dlci_port m d s1 = Some j -> j = k.
Proof.
  unfold port_for_channel. destruct (port_find_mcb_dlci_port m d s) as [k'|] eqn:F.
  { intros [= <- <-]. congruence. }
  assert (mcbs (snd (port_find_dlci_port d s)) = mcbs s) as M
    by (unfold port_find_dlci_port; by repeat case_match).
  destruct (port_find_dlci_port d s) as [[k'|] s2]; cbn [snd] in M; [|done]. intros [= <- <-].
  unfold write_port_handle. destruct (_ && _).
  2:{ unfold port_find_mcb_dlci_port in *. cbn [mcbs emit]. rewrite M, F. done. }
  unfold port_find_mcb_dlci_port. case_match; [done|]. cbn [mcbs with_mcb]. rewrite list_lookup_alter_eq.
  destruct (mcbs s2 !! m) as [b|]; [|done]. cbn [fmap option_fmap option_map mbind option_bind port_handles set_port_handle].
  destruct (<[Z.to_nat d := _]> _ !! Z.to_nat d) as [h|] eqn:L; [|done]. cbn [mbind option_bind].
  apply list_lookup_insert_Some in L as [(_ & <- & _)|[? _]]; [|done]. case_match; [done|].
  intros [= <-]. lia.
Qed.

(** Answering the peer opens no port but the one of the channel, and that one if it waits. *)
Lemma establish_rsp_sm m d r s :
  out s `prefix_of` out (RFCOMM_DlcEstablishRsp congests m d r s) /\
  forall j, down (sm j s) (sm j (RFCOMM_DlcEstablishRsp congests m d r s)) \/
    port_find_mcb_dlci_port m d s = Some j /\ sm j s = RFC_STATE_TERM_WAIT_SEC_CHECK /\
    sm j (RFCOMM_DlcEstablishRsp congests m d r s) = RFC_STATE_OPENED /\ u8 r = RFCOMM_SUCCESS.
Proof.
  assert (forall s', Quiet s s' -> out s `prefix_of` out s' /\
    forall j, down (sm j s) (sm j s') \/
      port_find_mcb_dlci_port m d s = Some j /\ sm j s = RFC_STATE_TERM_WAIT_SEC_CHECK /\
      sm j s' = RFC_STATE_OPENED /\ u8 r = RFCOMM_SUCCESS) as Q.
  { intros s' [O D]. split; [done|]. intros j. left. apply D. }
  unfold RFCOMM_DlcEstablishRsp. destruct (mcbs s !! m) as [b|]; [|by apply Q].
  case_match; [apply Q; steady|]. destruct (port_find_mcb_dlci_port m d s) as [k|]; [|by apply Q].
  unfold rfc_port_sm_establish_rsp. destruct (ports s !! k) as [p|] eqn:P; [|by apply Q].
  destruct (sm_state p) eqn:Sp; try by apply Q. destruct (Z.eqb_spec (u8 r) RFCOMM_SUCCESS) as [R|]; [|apply Q; steady].
  unfold on_mcb. rewrite P. destruct (m0 ← p_mcb p; _) as [[m1 b1]|]; [|apply Q; steady].
  set (s1 := send_cmd _ _ _ _). assert (Steady s s1) as St by (subst s1; steady).
  split; [by destruct St|]. intros j. unfold rfc_set_state. rewrite sm_with_port.
  destruct (decide (j = k)) as [-> | N].
  - right. split; [done|]. unfold sm. rewrite P. split; [done|].
    pose proof (steady_sm k s s1 St) as E1. unfold sm in E1. rewrite P, Sp in E1. by destruct (ports s1 !! k).
  - left. rewrite (steady_sm j s s1 St). by left.
Qed.

Lemma establish_ind_moves j m d n s p :
  ports s !! j = Some p -> sm_state p = RFC_STATE_TERM_WAIT_SEC_CHECK -> p_mcb p = Some m -> port_dlci p = d ->
  Moves (SecComplete j true) s (PORT_DlcEstablishInd congests after_msc m d n s).
Proof.
  intros P S M D. unfold PORT_DlcEstablishInd. pose proof (for_channel_same m d s) as [O1 E1].
  destruct (port_for_channel m d s) as [[k|] s1] eqn:F; cbn [snd] in *; cycle 1.
  { destruct (establish_rsp_sm m d RFCOMM_ERROR s1) as [O2 D2]. split; [by etransitivity|]. right.
    intros i. apply move_down. rewrite <- E1. by destruct (D2 i) as [?|(_ & _ & _ & [=])]. }
  cbv zeta. set (s2 := rfc_timer_stop _ _). set (s4 := with_port k _ _).
  assert (same_sm s1 s2) as [O2 E2].
  { etransitivity; [apply (same_sm_port k (limit_mtu n))|by apply steady_same, steady_emit].
    intros q. unfold limit_mtu. by case_match. }
  destruct (establish_rsp_sm m d RFCOMM_SUCCESS s2) as [O3 D3].
  set (s3 := RFCOMM_DlcEstablishRsp _ _ _ _ _) in *. assert (Quiet s3 s4) as [O4 D4] by (subst s4; steady).
  split; [by do 3 (etransitivity; [|done])|]. right. intros i.
  destruct (D3 i) as [Dn|(Fi & Ti & Oi & _)]; rewrite E2, E1 in *.
  - apply move_down. by transitivity (sm i s3).
  - assert (i = k) as -> by exact (for_channel_find m d s k s1 i F Fi).
    apply (move_term _ _ _ _ j); [done| |by rewrite <- Oi; apply D4].
    split; [done|]. exists p, m. by rewrite D, F.
Qed.

Lemma checked_moves j s : Moves (SecComplete j true) s (execute j (RFC_PORT_EVENT_SEC_COMPLETE true) s).
Proof.
  unfold rfc_port_sm_execute. destruct (ports s !! j) as [p|] eqn:P; [|by apply quiet_moves].
  assert (sm j s = sm_state p) as Sm by (unfold sm; by rewrite P).
  destruct (sm_state p) eqn:Sp; try (by apply quiet_moves).
  - cbn [rfc_port_sm_orig_wait_sec_check]. cbv zeta. set (s1 := rfc_port_timer_start _ _ _).
    assert (same_sm s s1) as [O1 E1].
    { etransitivity; [apply same_on_mcb|by apply steady_same, steady_emit]. intros. by apply steady_same, steady_cmd. }
    split; [done|]. right. intros i. unfold rfc_set_state. destruct (decide (i = j)) as [-> | N].
    + apply move_orig; [done..|]. rewrite sm_with_port, decide_True by done.
      specialize (E1 j). unfold sm in E1. rewrite P, Sp in E1. by destruct (ports s1 !! j).
    + apply move_down. rewrite sm_with_port, decide_False, E1 by done. by left.
  - cbn [rfc_port_sm_term_wait_sec_check]. unfold on_mcb. rewrite P.
    destruct (p_mcb p) as [m|] eqn:M; cbn [mbind option_bind]; [|apply quiet_moves; steady].
    destruct (mcbs s !! m) as [b|]; cbn [mbind option_bind]; [|apply quiet_moves; steady].
    by apply (establish_ind_moves j m _ _ s p).
Qed.

(** ** Frames *)

Lemma establish_req_moves i m d s : (forall j, i <> SecComplete j true) ->
  Moves i s (RFCOMM_DlcEstablishReq congests co_callback after_msc m d s).
Proof.
  intros N. unfold RFCOMM_DlcEstablishReq.
  repeat case_match; try (by apply quiet_moves); [by apply execute_moves|apply quiet_moves; steady].
Qed.

Lemma pn_moves i m cmd d pn s : (forall j, i <> SecComplete j true) ->
  Moves i s (rfc_process_pn congests co_callback after_msc max_packet_size m cmd d pn s).
Proof.
  intros N. unfold rfc_process_pn. destruct (mcbs s !! m) as [b|]; [|by apply quiet_moves].
  destruct cmd; [apply quiet_moves; steady|].
  case_match; [|by apply quiet_moves]. destruct p as [k p].
  case_match; [|by apply quiet_moves].
  cbv zeta. set (s1 := rfc_port_timer_stop _ _). apply (moves_same i s s1); [by apply steady_same; subst s1; steady|done|].
  unfold PORT_ParNegCnf. destruct (port_find_mcb_dlci_port m d s1) as [j|]; [|by apply quiet_moves].
  cbv zeta. set (s2 := with_port j _ _). apply (moves_same i s1 s2); [by apply steady_same; subst s2; steady|done|].
  case_match; [|by apply quiet_moves]. destruct p0 as [q c].
  set (s3 := if mcb_flow c =? PORT_FC_CREDIT then _ else _).
  apply (moves_same i s2 s3); [apply steady_same; subst s3; steady|done|].
  case_decide; [by apply establish_req_moves|by apply quiet_moves].
Qed.

Lemma channel_frame_moves i m e f s : (forall j, i <> SecComplete j true) ->
  Moves i s (channel_frame congests co_callback after_msc m e f s).
Proof.
  intros N. unfold channel_frame. destruct (channel_port m (dlci f) s) as [k|].
  { apply execute_moves; [by destruct e|done]. }
  case_decide; [|apply quiet_moves; steady].
  pose proof (find_dlci_same (dlci f) s) as Sf. destruct (port_find_dlci_port (dlci f) s) as [[k|] s1]; cbn [snd] in Sf.
  - cbv zeta. set (s2 := with_port k _ _). apply (moves_same i s s2); [|done|by apply execute_moves].
    etransitivity; [exact Sf|]. etransitivity; [apply (write_handle_same m (dlci f) (Z.of_nat k + 1))|].
    by apply (same_sm_port k (set_p_mcb (Some m))).
  - apply (moves_same i s s1); [done..|]. apply quiet_moves. steady.
Qed.

Lemma frame_moves (fix_start fix_collision : bool) i m e f b s : (forall j, i <> SecComplete j true) ->
  Moves i s (frame_ind congests co_callback after_msc max_packet_size fix_start fix_collision connect
    boot_time stale_rpn m e f b s).
Proof.
  intros N. unfold frame_ind. case_match.
  - case_decide; [|apply quiet_moves; steady].
    destruct (rfc_process_mx_message f b) as [[f' a]|]; [|apply quiet_moves; steady].
    destruct a; cbn [mx_action]; try (apply quiet_moves; steady).
    case_match; [by apply quiet_moves|by apply pn_moves|by apply quiet_moves..].
  - case_decide; [|by apply channel_frame_moves]. apply quiet_moves. steady.
Qed.

Lemma data_moves (fix_start fix_collision : bool) i c b s : (forall j, i <> SecComplete j true) ->
  Moves i s (RFCOMM_BufDataInd congests co_callback after_msc max_packet_size fix_start fix_collision connect
    boot_time stale_rpn c b s).
Proof.
  intros N. unfold RFCOMM_BufDataInd. case_match; [|by apply quiet_moves]. destruct p as [m x].
  destruct (rfc_parse_data _ _ _) as [[[e f] b']|]; [|apply quiet_moves; steady].
  destruct e; try (by apply frame_moves). by apply quiet_moves.
Qed.

(** ** Runs *)

Context (fix_start fix_collision : bool).
#[local] Abbreviation rfcomm_step := (step congests co_callback after_msc max_packet_size fix_start fix_collision
  connect boot_time stale_rpn).
#[local] Abbreviation rfcomm_run := (run congests co_callback after_msc max_packet_size fix_start fix_collision
  connect boot_time stale_rpn).

Lemma step_moves i s : Moves i s (rfcomm_step i s).
Proof.
  destruct i; cbn [step];
    try (apply quiet_moves; first
      [ apply quiet_create | apply quiet_remove | apply quiet_remove_server | apply quiet_set_mask
      | apply quiet_clear_keep | apply quiet_set_co | apply quiet_set_settings | apply quiet_control_req
      | apply quiet_connect_ind | apply quiet_connect_cnf | apply quiet_config_ind | apply quiet_config_cnf
      | apply quiet_disconnect_ind | apply quiet_congestion_ind | apply quiet_l2cap_error | apply quiet_mx
      | solve [apply steady_quiet; auto with steady nocore] ]).
  - by apply data_moves.
  - by apply execute_moves.
  - unfold rfc_sec_check_complete. case_match; [|by apply quiet_moves]. case_match; [|by apply quiet_moves].
    destruct success; [apply checked_moves|by apply execute_moves].
Qed.

Definition reached (l : list Input) : tRFC_CB := rfcomm_run l RFCOMM_Init.

Lemma reached_snoc l i : reached (l ++ [i]) = rfcomm_step i (reached l).
Proof. unfold reached, run. by rewrite fold_left_app. Qed.

(** [k] asked for its check at some time in [l], and has waited since. *)
Definition Waited (k : nat) (l : list Input) : Prop :=
  exists l0 i l1, l = l0 ++ i :: l1 /\ Asked k (reached l0) (reached (l0 ++ [i])) /\
    forall l', l' `prefix_of` l1 -> waits (sm k (reached (l0 ++ i :: l'))).

(** A check that [k] could wait for was passed at some time in [l], and [k] is up since. *)
Definition Checked (k : nat) (l : list Input) : Prop :=
  exists l1 j l2, l = l1 ++ SecComplete j true :: l2 /\ Waited j l1 /\ (j = k \/ answers j k (reached l1)) /\
    forall l', l' `prefix_of` l2 -> up (sm k (reached (l1 ++ SecComplete j true :: l'))).

Lemma prefix_snoc_inv {A} (l l' : list A) x : l' `prefix_of` l ++ [x] -> l' `prefix_of` l \/ l' = l ++ [x].
Proof.
  intros [r E]. destruct r as [|y r _] using rev_ind.
  - right. by rewrite app_nil_r in E.
  - left. rewrite app_assoc in E. apply app_inj_tail in E as [-> _]. by exists r.
Qed.

Lemma waited_snoc k l i : Waited k l -> waits (sm k (reached (l ++ [i]))) -> Waited k (l ++ [i]).
Proof.
  intros (l0 & i0 & l1 & -> & A & H) W. exists l0, i0, (l1 ++ [i]). rewrite <- app_assoc in *. cbn [app] in *.
  split; [done|]. split; [done|]. intros l' [P| ->]%prefix_snoc_inv; [by apply H|done].
Qed.

Lemma checked_snoc k l i : Checked k l -> up (sm k (reached (l ++ [i]))) -> Checked k (l ++ [i]).
Proof.
  intros (l1 & j & l2 & -> & W & A & H) U. exists l1, j, (l2 ++ [i]). rewrite <- app_assoc in *. cbn [app] in *.
  split; [done|]. split; [done|]. split; [done|]. intros l' [P| ->]%prefix_snoc_inv; [by apply H|done].
Qed.

Lemma init_closed k : sm k (reached []) = RFC_STATE_CLOSED.
Proof.
  unfold sm. cbn [reached run fold_left ports RFCOMM_Init]. destruct (replicate _ _ !! k) eqn:E; [|done].
  by apply lookup_replicate in E as [-> _].
Qed.

(** A state is reached as the last step has moved the port. *)
Lemma history_step k l i :
  (forall j, waits (sm j (reached l)) -> Waited j l) -> (up (sm k (reached l)) -> Checked k l) ->
  Move k i (reached l) (reached (l ++ [i])) ->
  (waits (sm k (reached (l ++ [i]))) -> Waited k (l ++ [i])) /\
  (up (sm k (reached (l ++ [i]))) -> Checked k (l ++ [i])).
Proof.
  intros Hw Hc [[E|[E|[E U]]]|A|S D| -> S E|j -> A D].
  - rewrite E. split; intros X; [apply waited_snoc|apply checked_snoc]; rewrite ?E; auto.
  - rewrite E. split; [by intros []|by intros []].
  - rewrite E. split; [by intros []|by intros []].
  - split; [intros _|intros U; destruct A as [_ [W|W] _], U; congruence].
    exists l, i, []. split; [done|]. split; [done|]. intros l' ->%prefix_nil_inv. apply A.
  - split; [intros W; exfalso; destruct D as [D|[D|[D _]]]; rewrite D in W; by destruct W|].
    intros U. apply checked_snoc; [|done]. apply Hc. by right.
  - rewrite E. split; [by intros []|]. intros _. exists l, k, []. split; [done|].
    split; [apply Hw; by left|]. split; [by left|]. intros l' ->%prefix_nil_inv. right. exact E.
  - split; [intros W; exfalso; destruct D as [D|[D|[D _]]]; rewrite D in W; by destruct W|].
    intros U. exists l, j, []. split; [done|]. split.
    { apply Hw. right. destruct A as (_ & p & m & P & S & _). unfold sm. by rewrite P. }
    split; [by right|]. by intros l' ->%prefix_nil_inv.
Qed.

Lemma history l : Crash ∉ out (reached l) ->
  forall k, (waits (sm k (reached l)) -> Waited k l) /\ (up (sm k (reached l)) -> Checked k l).
Proof.
  induction l as [|i l IH] using rev_ind; intros N k.
  { rewrite init_closed. split; by intros []. }
  pose proof (step_moves i (reached l)) as [O M]. rewrite <- reached_snoc in O, M.
  destruct M as [C|M]; [done|]. destruct O as [o O].
  assert (Crash ∉ out (reached l)) as N' by (intros C; apply N; rewrite O; apply elem_of_app; by left).
  apply history_step; [intros j; by apply IH|by apply IH|done].
Qed.

(** C6: in a run that does not crash, a port is open only after a security check: the security
    manager was asked, about the device of the multiplexer and with the mask of a port
    that was closed; that port waited; the check was reported as passed; and since then
    the open port has only waited for the UA of the peer or been open.  The port that
    was checked is the open one, or waited for the same channel of its multiplexer. *)
Theorem rfcomm_security_before_open (l : list Input) (k : nat) :
  Crash ∉ out (reached l) -> sm k (reached l) = RFC_STATE_OPENED ->
  exists l1 j l2, l = l1 ++ SecComplete j true :: l2 /\ Waited j l1 /\ (j = k \/ answers j k (reached l1)) /\
    forall l', l' `prefix_of` l2 -> up (sm k (reached (l1 ++ SecComplete j true :: l'))).
Proof. intros N O. apply (history l N k). by left. Qed.
End safety.
