(* ===== verification/RfcommPortSpec.v ===== *)
(** * RFCOMM ports: what a step keeps

    A port that is open with flow control by credits, among the other ports of the
    layer: [Same] says that a step leaves its data, its credits and the frames of its
    channel as they are.  Every operation on another port does, whatever L2CAP
    answers, and so do the callbacks, the timers and the other commands. *)

From stdpp Require Import base list option.
From Stdlib Require Import ZArith Lia.
From S2P Require Import Prelude.
From S2P Require Import RfcommFrames.
From S2P Require Import RfcommMessages.
From S2P Require Import RfcommPortState.
From S2P Require Import RfcommPort.

Open Scope Z_scope.

(** The fields of a port that the flow of its data depends on. *)
Record PortView := {
  v_open : bool * tPORT_CONNECTION_STATE * tRFC_PORT_STATE * DataCallback * bool;
  v_limits : Z * Z * Z * Z;
  v_ctrl : Z;
  v_tx : list (list Z) * Z * bool;
  v_rx : list (list Z) * Z * bool;
  v_credits : Z * Z;
}.

Definition setup_bits := Z.lor (Z.lor PORT_CTRL_REQ_SENT PORT_CTRL_REQ_CONFIRMED) PORT_CTRL_IND_RECEIVED.

Definition port_view (p : tPORT) : PortView :=
  {| v_open := (in_use p, port_state p, sm_state p, data_callback p, is_server p);
     v_limits := (peer_mtu p, credit_rx_max p, credit_rx_low p, rx_buf_critical p);
     v_ctrl := Z.land (port_ctrl p) setup_bits;
     v_tx := (queue (tx p), queue_size (tx p), peer_fc (tx p));
     v_rx := (queue (rx p), queue_size (rx p), user_fc (rx p));
     v_credits := (credit_tx p, credit_rx p) |}.

(** Which port is on which channel of which multiplexer. *)
Definition identity (p : tPORT) : option nat * Z := (p_mcb p, port_dlci p).
Definition ids (s : tRFC_CB) : list (option nat * Z) := identity <$> ports s.
Definition handles (s : tRFC_CB) : list (list Z * Z) := (fun b => (port_handles b, mcb_flow b)) <$> mcbs s.

(** A function that keeps the identity of a port. *)
Definition keeps_id (f : tPORT -> tPORT) : Prop := forall p, identity (f p) = identity p.

Lemma port_find_handles m d s s' : handles s = handles s' ->
  port_find_mcb_dlci_port m d s = port_find_mcb_dlci_port m d s'.
Proof.
  intros H. unfold port_find_mcb_dlci_port. destruct (RFCOMM_MAX_DLCI <? d); [done|].
  assert (handles s !! m = handles s' !! m) as E by by rewrite H.
  unfold handles in E. rewrite !list_lookup_fmap in E.
  destruct (mcbs s !! m) as [b|], (mcbs s' !! m) as [b'|]; cbn in *; try done.
  injection E as E _. by rewrite E.
Qed.

Lemma alter_fmap_id {A B} (g : A -> B) (f : A -> A) (i : nat) (l : list A) :
  (forall x, g (f x) = g x) -> g <$> alter f i l = g <$> l.
Proof.
  intros H. revert i. induction l as [|x l IH]; intros [|i]; cbn; try done; [by rewrite H|].
  f_equal. apply IH.
Qed.

Section focus.
Context (k m : nat) (d : Z).

(** The frames of the channel among the outputs, in order. *)
Definition chan (o : Output) : option Frame :=
  match o with
  | Sent m' (Uih d' c i) => if decide (m' = m /\ d' = d) then Some (Uih d' c i) else None
  | Sent m' (Credit d' c) => if decide (m' = m /\ d' = d) then Some (Credit d' c) else None
  | _ => None
  end.
Definition frames (o : list Output) : list Frame := omap chan o.

(** Data or credits of the channel that did not reach L2CAP or the application. *)
Definition lost (o : Output) : bool :=
  match o with
  | Refused m' (Uih d' _ _) => bool_decide (m' = m /\ d' = d)
  | Refused m' (Credit d' _) => bool_decide (m' = m /\ d' = d)
  | Dropped k' _ => bool_decide (k' = k)
  | Overrun k' _ => bool_decide (k' = k)
  | _ => false
  end.
Definition lossless (o : list Output) : Prop := existsb lost o = false.

(** Commands of the channel that wait. *)
Definition waiting (q : list Frame) : list Frame := frames (Sent m <$> q).

Lemma frames_app a b : frames (a ++ b) = frames a ++ frames b.
Proof. apply omap_app. Qed.

Lemma lossless_app a b : lossless (a ++ b) <-> lossless a /\ lossless b.
Proof. unfold lossless. rewrite existsb_app, orb_false_iff. done. Qed.

Lemma waiting_app a b : waiting (a ++ b) = waiting a ++ waiting b.
Proof. unfold waiting. by rewrite fmap_app, frames_app. Qed.

(** How the multiplexer of the port may change: the peer may become congested, and
    commands of other channels may be queued meanwhile. *)
Definition is_command (f : Frame) : Prop := match f with Uih _ _ _ => False | _ => True end.
Definition quiet_queue (b : tRFC_MCB) : Prop :=
  (mcb_congested b = false -> mcb_cmd_q b = []) /\ Forall is_command (mcb_cmd_q b).

Definition mcb_same (b b' : tRFC_MCB) : Prop :=
  waiting (mcb_cmd_q b') = waiting (mcb_cmd_q b) /\ (quiet_queue b -> quiet_queue b') /\
  ((mcb_congested b' = mcb_congested b /\ peer_ready b' = peer_ready b) \/
   (mcb_congested b' = true /\ peer_ready b' = false)).

Record Same (s s' : tRFC_CB) : Prop := {
  same_port : port_view <$> ports s' !! k = port_view <$> ports s !! k;
  same_ids : ids s' = ids s;
  same_handles : handles s' = handles s;
  same_mcb : option_Forall2 mcb_same (mcbs s !! m) (mcbs s' !! m);
  same_frames : frames (out s') = frames (out s);
  same_lossless : lossless (out s) -> lossless (out s');
  same_enabled : peer_rx_disabled s' = peer_rx_disabled s;
}.

Lemma mcb_same_refl b : mcb_same b b.
Proof. unfold mcb_same. auto. Qed.

Lemma mcb_same_trans b b1 b2 : mcb_same b b1 -> mcb_same b1 b2 -> mcb_same b b2.
Proof.
  intros (A1 & A2 & A3) (B1 & B2 & B3). split; [congruence|]. split; [auto|].
  destruct A3 as [[? ?]|[? ?]], B3 as [[? ?]|[? ?]]; [left|right|right|right]; split; congruence.
Qed.

Lemma same_refl s : Same s s.
Proof.
  constructor; try done. destruct (mcbs s !! m); constructor. apply mcb_same_refl.
Qed.

Lemma same_trans s s1 s2 : Same s s1 -> Same s1 s2 -> Same s s2.
Proof.
  intros [A1 A2 A3 A4 A5 A6 A7] [B1 B2 B3 B4 B5 B6 B7]. constructor; try congruence; auto.
  destruct A4 as [b b1 A4|]; inversion B4; subst; constructor. by eapply mcb_same_trans.
Qed.

#[export] Instance same_preorder : PreOrder Same.
Proof. split; red; [apply same_refl|apply same_trans]. Qed.

Lemma mcb_refl s : option_Forall2 mcb_same (mcbs s !! m) (mcbs s !! m).
Proof. destruct (mcbs s !! m); constructor. apply mcb_same_refl. Qed.

Lemma with_port_same j f s :
  keeps_id f -> (j = k -> forall p, ports s !! k = Some p -> port_view (f p) = port_view p) ->
  Same s (with_port j f s).
Proof.
  intros Hi H. constructor; cbn; try done; [|by apply alter_fmap_id|apply mcb_refl].
  destruct (decide (j = k)) as [->|N].
  - rewrite list_lookup_alter_eq. destruct (ports s !! k) as [p|]; [|done]. cbn. by rewrite H.
  - by rewrite list_lookup_alter_ne.
Qed.

Lemma emit_same o s : chan o = None -> lost o = false -> Same s (emit o s).
Proof.
  intros C L. constructor; cbn; try done; [apply mcb_refl| |].
  - rewrite frames_app. cbn. rewrite C. apply app_nil_r.
  - intros H. apply lossless_app. split; [done|]. unfold lossless. cbn. by rewrite L.
Qed.

Lemma with_mcb_same j f s :
  (forall b, (port_handles (f b), mcb_flow (f b)) = (port_handles b, mcb_flow b)) ->
  (j = m -> forall b, mcbs s !! m = Some b -> mcb_same b (f b)) -> Same s (with_mcb j f s).
Proof.
  intros Hh Hm. constructor; cbn; try done; [by apply alter_fmap_id|].
  destruct (decide (j = m)) as [->|N].
  - rewrite list_lookup_alter_eq. destruct (mcbs s !! m) eqn:E; constructor. by apply Hm.
  - rewrite list_lookup_alter_ne by done. apply mcb_refl.
Qed.

Lemma callback_same j e s : Same s (callback j e s).
Proof.
  unfold callback. destruct (ports s !! j); [|reflexivity]. case_match; [by apply emit_same|reflexivity].
Qed.

Lemma same_mcb_back s s' b' : Same s s' -> mcbs s' !! m = Some b' ->
  exists b, mcbs s !! m = Some b /\ mcb_same b b'.
Proof.
  intros S B'. pose proof (same_mcb _ _ S) as M. rewrite B' in M.
  inversion M as [b b0 M0 E|]; subst. by eexists.
Qed.

Lemma same_mcb_forward s s' b : Same s s' -> mcbs s !! m = Some b ->
  exists b', mcbs s' !! m = Some b' /\ mcb_same b b'.
Proof.
  intros S B. pose proof (same_mcb _ _ S) as M. rewrite B in M.
  inversion M as [b0 b' M0|]; subst. by eexists.
Qed.

(** ** The port and its channel belong together *)

Record Wf (s : tRFC_CB) : Prop := {
  wf_id : ids s !! k = Some (Some m, d);
  wf_find : port_find_mcb_dlci_port m d s = Some k;
  wf_only : forall m' d', port_find_mcb_dlci_port m' d' s = Some k -> m' = m /\ d' = d;
  wf_unique : forall j, ids s !! j = Some (Some m, d) -> j = k;
  wf_channels : forall j m' d', ids s !! j = Some (Some m', d') -> d' <> 0;
  wf_enabled : peer_rx_disabled s = false;
}.

Lemma wf_same s s' : Wf s -> Same s s' -> Wf s'.
Proof.
  intros [A B C D E F] S. pose proof (same_ids _ _ S) as I. pose proof (same_handles _ _ S) as H.
  constructor.
  - by rewrite I.
  - by rewrite (port_find_handles m d s' s H).
  - intros m' d'. rewrite (port_find_handles m' d' s' s H). apply C.
  - intros j. rewrite I. apply D.
  - intros j m' d'. rewrite I. apply E.
  - by rewrite (same_enabled _ _ S).
Qed.

(** The port on another index is on another channel. *)
Lemma wf_other s j p : Wf s -> ports s !! j = Some p -> j <> k -> identity p <> (Some m, d).
Proof.
  intros W P N E. apply N, (wf_unique s W). unfold ids. by rewrite list_lookup_fmap, P, <- E.
Qed.

Lemma flow_control_user_same j s : Same s (snd (port_flow_control_user j s)).
Proof.
  unfold port_flow_control_user. destruct (ports s !! j) as [p|] eqn:P; [|reflexivity].
  case_match; [reflexivity|]. cbn [snd].
  set (u := _ || _). apply (same_trans _ (with_port j (fun p => set_tx (set_user_fc u (tx p)) p) s)).
  - by apply with_port_same.
  - constructor; cbn; try done; [| |apply mcb_refl].
    + destruct (decide (j = k)) as [->|N]; [|by rewrite !list_lookup_alter_ne].
      by rewrite !list_lookup_alter_eq, P.
    + by rewrite !alter_fmap_id.
Qed.

(** ** Sending on other channels *)

Section other.
Context (dr : nat -> Z -> list Z -> tRFC_CB -> tPORT_RESULT * tRFC_CB).
Hypothesis dr_same : forall m' d' buf s, Wf s -> ~ (m' = m /\ d' = d) -> Same s (snd (dr m' d' buf s)).

Lemma send_tx_loop_other fuel j e s :
  j <> k -> Wf s -> Same s (snd (send_tx_loop dr fuel j e s)).
Proof.
  intros N. revert e s. induction fuel as [|fuel IH]; intros e s W; [reflexivity|]. cbn [send_tx_loop].
  destruct (ports s !! j) as [p|] eqn:P; [|reflexivity].
  destruct (p_mcb p) as [m'|] eqn:M; [|reflexivity]. destruct (mcb_of p s) as [b|]; [|reflexivity].
  case_match; [reflexivity|]. destruct (queue (tx p)) as [|buf rest]; [reflexivity|].
  set (s1 := with_port j _ s). assert (Same s s1) as S1 by (by apply with_port_same).
  assert (Same s1 (snd (dr m' (port_dlci p) buf s1))) as S2.
  { apply dr_same; [by eapply wf_same|]. intros [E1 E2]. apply (wf_other s j p W P N).
    unfold identity. by rewrite M, E1, E2. }
  destruct (dr m' (port_dlci p) buf s1) as [r s2] eqn:E. cbn [snd] in S2.
  assert (Same s s2) as S3 by by etransitivity. clear E.
  destruct (decide (r = PORT_SUCCESS)); [|done]. destruct (ports s2 !! j) as [p2|]; [|done].
  case_match; [done|]. etransitivity; [exact S3|]. apply IH. by eapply wf_same.
Qed.

Lemma send_tx_data_other j s : j <> k -> Wf s -> Same s (snd (send_tx_data dr j s)).
Proof.
  intros N W. unfold send_tx_data. destruct (ports s !! j) as [p|]; [|reflexivity].
  destruct (0 <? queue_size (tx p)); [|reflexivity].
  pose proof (send_tx_loop_other (S (length (queue (tx p)))) j 0 s N W) as S1.
  destruct (send_tx_loop dr _ j 0 s) as [e s1]. cbn [snd] in S1.
  pose proof (flow_control_user_same j s1) as S2.
  destruct (port_flow_control_user j s1) as [e' s2]. cbn [snd] in *. by etransitivity.
Qed.

Lemma flow_ind_port_other j s : j <> k -> Wf s -> Same s (flow_ind_port dr j s).
Proof.
  intros N W. unfold flow_ind_port. pose proof (flow_control_user_same j s) as S1.
  destruct (port_flow_control_user j s) as [e s1]. cbn [snd] in S1.
  pose proof (send_tx_data_other j s1 N (wf_same _ _ W S1)) as S2.
  destruct (send_tx_data dr j s1) as [e' s2]. cbn [snd] in S2.
  etransitivity; [exact S1|]. etransitivity; [exact S2|]. apply callback_same.
Qed.
End other.

(** ** A multiplexer that is not ready *)

Section stopped.
Context (m' : nat).
Definition stopped (s : tRFC_CB) : Prop := forall b, mcbs s !! m' = Some b -> peer_ready b = false.

Lemma flow_control_user_mcbs j s : mcbs (snd (port_flow_control_user j s)) = mcbs s.
Proof. unfold port_flow_control_user. by repeat case_match. Qed.

Lemma callback_mcbs j e s : mcbs (callback j e s) = mcbs s.
Proof. unfold callback. by repeat case_match. Qed.

Lemma ids_lookup s j p : ports s !! j = Some p -> ids s !! j = Some (identity p).
Proof. intros H. unfold ids. by rewrite list_lookup_fmap, H. Qed.

Lemma ids_port s j i : ids s !! j = Some i -> exists p, ports s !! j = Some p /\ identity p = i.
Proof.
  unfold ids. rewrite list_lookup_fmap. destruct (ports s !! j) as [p|]; [|done].
  intros [= <-]. by eexists.
Qed.

Lemma send_tx_loop_stopped dr fuel j e s p :
  ports s !! j = Some p -> p_mcb p = Some m' -> stopped s -> send_tx_loop dr fuel j e s = (e, s).
Proof.
  intros P M R. destruct fuel as [|fuel]; [done|]. cbn. rewrite P, M.
  destruct (mcb_of p s) as [b|] eqn:B; [|done]. unfold mcb_of in B. rewrite M in B.
  rewrite (R b B). by rewrite orb_true_r.
Qed.

Lemma send_tx_data_stopped dr j s p :
  ports s !! j = Some p -> p_mcb p = Some m' -> stopped s ->
  snd (send_tx_data dr j s) = s \/ snd (send_tx_data dr j s) = snd (port_flow_control_user j s).
Proof.
  intros P M R. unfold send_tx_data. rewrite P. destruct (0 <? queue_size (tx p)); [|by left].
  rewrite (send_tx_loop_stopped dr _ j 0 s p P M R).
  destruct (port_flow_control_user j s). by right.
Qed.

Lemma flow_ind_port_stopped dr j s p :
  ports s !! j = Some p -> p_mcb p = Some m' -> stopped s ->
  Same s (flow_ind_port dr j s) /\ mcbs (flow_ind_port dr j s) = mcbs s.
Proof.
  intros P M R. unfold flow_ind_port. pose proof (flow_control_user_same j s) as S1.
  pose proof (flow_control_user_mcbs j s) as M1.
  destruct (port_flow_control_user j s) as [e s1]. cbn [snd] in S1, M1.
  destruct (ids_port s1 j (identity p)) as (p1 & P1 & I1).
  { rewrite (same_ids _ _ S1). by apply ids_lookup. }
  assert (stopped s1) as R1 by (unfold stopped; by rewrite M1).
  assert (p_mcb p1 = Some m') as M2 by (unfold identity in I1; congruence).
  pose proof (send_tx_data_stopped dr j s1 p1 P1 M2 R1) as D.
  destruct (send_tx_data dr j s1) as [e' s2]. cbn [snd] in D.
  assert (Same s1 s2 /\ mcbs s2 = mcbs s1) as [S2 M3].
  { destruct D as [->| ->]; [split; [reflexivity|done]|].
    split; [apply flow_control_user_same|apply flow_control_user_mcbs]. }
  split; [|by rewrite callback_mcbs, M3]. etransitivity; [exact S1|].
  etransitivity; [exact S2|]. apply callback_same.
Qed.

Lemma flow_ind_all_stopped dr s :
  stopped s -> Same s (flow_ind_all dr m' s) /\ mcbs (flow_ind_all dr m' s) = mcbs s.
Proof.
  unfold flow_ind_all. generalize (seq 0 (length (ports s))). intros l. revert s.
  induction l as [|j l IH]; intros s R; [split; [reflexivity|done]|]. cbn [fold_left].
  set (s1 := match ports s !! j with Some _ => _ | None => _ end).
  assert (Same s s1 /\ mcbs s1 = mcbs s) as [S1 M1].
  { subst s1. destruct (ports s !! j) as [p|] eqn:P; [|split; [reflexivity|done]].
    case_match eqn:E; [|split; [reflexivity|done]].
    apply andb_prop in E as [E _]. apply andb_prop in E as [_ E]. apply bool_decide_eq_true in E.
    by apply (flow_ind_port_stopped dr j s p). }
  destruct (IH s1) as [S2 M2]; [unfold stopped; by rewrite M1|].
  split; [by etransitivity|congruence].
Qed.
End stopped.

(** ** L2CAP takes a frame of another channel *)

Lemma congestion_started_same m' s :
  peer_rx_disabled s = false -> Same s (congestion_started m' s).
Proof.
  intros D. unfold congestion_started. cbn [peer_rx_disabled with_mcb]. rewrite D.
  unfold flow_ind. change (0 =? 0) with true. cbv iota.
  set (s1 := with_mcb m' (set_peer_ready false) _).
  assert (Same s s1) as S1.
  { subst s1. unfold with_mcb. cbn. rewrite list_alter_alter_eq.
    apply (with_mcb_same m' (set_peer_ready false ∘ set_congested true)); [done|].
    intros -> b _. split; [done|]. split; [intros [_ H]; by split|]. by right. }
  etransitivity; [exact S1|]. apply flow_ind_all_stopped.
  intros b. subst s1. cbn. rewrite list_lookup_alter_eq.
  destruct (alter _ m' (mcbs s) !! m'); cbn; [|done]. by intros [= <-].
Qed.

(** A frame that is not data or credit of the channel. *)
Definition foreign (m' : nat) (f : Frame) : Prop :=
  match f with Uih d' _ _ | Credit d' _ => ~ (m' = m /\ d' = d) | _ => True end.

Lemma foreign_chan m' f : foreign m' f -> chan (Sent m' f) = None.
Proof. destruct f; cbn; intros H; by rewrite ?decide_False. Qed.

Lemma foreign_lost m' f : foreign m' f -> lost (Refused m' f) = false.
Proof. destruct f; cbn; intros H; by rewrite ?bool_decide_false. Qed.

Lemma waiting_foreign f : foreign m f -> waiting [f] = [].
Proof.
  intros F. pose proof (foreign_chan m f F) as E. unfold waiting, frames.
  cbn [fmap list_fmap omap list_omap]. by rewrite E.
Qed.

Section l2cap.
Context (congests co_callback : list Output -> bool) (after_msc : bool).

Lemma write_same m' f s : Wf s -> foreign m' f -> Same s (L2CA_DataWrite congests m' f s).
Proof.
  intros W F. unfold L2CA_DataWrite. destruct (mcbs s !! m') as [b|]; [|reflexivity].
  destruct (mcb_congested b); [by apply emit_same; [|apply foreign_lost]|].
  assert (Same s (emit (Sent m' f) s)) as S1 by (apply emit_same; [by apply foreign_chan|done]).
  case_match; [|done]. etransitivity; [exact S1|]. apply congestion_started_same, (wf_enabled s W).
Qed.

(** The commands of the multiplexer wait only while it is congested. *)
Definition settled (s : tRFC_CB) : Prop := forall b, mcbs s !! m = Some b -> quiet_queue b.

Lemma settled_same s s' : settled s -> Same s s' -> settled s'.
Proof.
  intros H S b' B'. destruct (same_mcb_back _ _ _ S B') as (b & B & M). apply M. by apply H.
Qed.

Lemma send_commands_other m' q s : m' <> m -> Wf s -> Same s (send_commands congests m' q s).
Proof.
  intros N. revert s. induction q as [|f q IH]; intros s W; cbn [send_commands];
    (destruct (mcbs s !! m') as [b|]; [|reflexivity]);
    (destruct (mcb_congested b); [by apply with_mcb_same; [|intros ->]|]);
    [by apply with_mcb_same; [|intros ->]|].
  assert (Same s (L2CA_DataWrite congests m' f s)) as S1.
  { apply write_same; [done|]. destruct f; cbn; tauto. }
  etransitivity; [exact S1|]. apply IH. by eapply wf_same.
Qed.

Lemma send_commands_congested m' b q s : mcbs s !! m' = Some b -> mcb_congested b = true ->
  send_commands congests m' q s = with_mcb m' (set_cmd_q q) s.
Proof. intros B C. destruct q; cbn [send_commands]; by rewrite B, C. Qed.

(** An empty queue may be written again. *)
Lemma clear_queue_same s : (forall b, mcbs s !! m = Some b -> waiting (mcb_cmd_q b) = []) ->
  Same s (with_mcb m (set_cmd_q []) s).
Proof.
  intros H. apply with_mcb_same; [done|]. intros _ b B. split; [by rewrite (H b B)|].
  split; [by split|by left].
Qed.

Lemma send_cmd_same m' f s :
  Wf s -> settled s -> foreign m' f -> is_command f -> Same s (send_cmd congests m' f s).
Proof.
  intros W Q F I. unfold send_cmd, rfc_check_send_cmd.
  destruct (mcbs s !! m') as [b|] eqn:B; [|reflexivity].
  destruct (decide (m' = m)) as [->|N]; [|by apply send_commands_other].
  destruct (mcb_congested b) eqn:C.
  - rewrite (send_commands_congested m b _ s B C). apply with_mcb_same; [done|].
    intros _ b0 B0. rewrite B in B0. injection B0 as <-. split; [|split; [|by left]].
    + cbn [set_cmd_q mcb_cmd_q]. by rewrite waiting_app, waiting_foreign, app_nil_r.
    + intros [_ H]. split; cbn; [congruence|]. apply Forall_app_2; [done|by constructor].
  - rewrite (proj1 (Q b B) C). cbn [app send_commands]. rewrite B, C.
    pose proof (write_same m f s W F) as S1. set (s1 := L2CA_DataWrite congests m f s) in *.
    assert (forall b, mcbs s1 !! m = Some b -> waiting (mcb_cmd_q b) = []) as E.
    { intros b1 B1. destruct (same_mcb_back _ _ _ S1 B1) as (b0 & B0 & -> & _).
      rewrite B in B0. injection B0 as <-. by rewrite (proj1 (Q b B) C). }
    etransitivity; [exact S1|]. apply clear_queue_same in E.
    destruct (mcbs s1 !! m) as [b1|]; [|reflexivity]. by destruct (mcb_congested b1).
Qed.

(** ** Operations on other ports *)

Lemma rfc_dec_credit_other j s : j <> k -> Same s (rfc_dec_credit j s).
Proof.
  intros N. unfold rfc_dec_credit. destruct (p ← _; _) as [b|]; [|reflexivity].
  case_match; [|reflexivity]. apply with_port_same; [|done]. intros p. cbv zeta. by destruct (_ =? 0).
Qed.

Lemma rfc_port_sm_data_other j info s : j <> k -> Wf s -> Same s (rfc_port_sm_data congests j info s).
Proof.
  intros N W. unfold rfc_port_sm_data. destruct (ports s !! j) as [p|] eqn:P; [|reflexivity].
  cbn [mbind option_bind]. destruct (p_mcb p) as [m'|] eqn:M; [|reflexivity]. cbn [mbind option_bind].
  destruct (mcbs s !! m') as [b|]; [|reflexivity]. cbn [mbind option_bind].
  destruct (decide _); [|by apply emit_same; [|cbn; rewrite bool_decide_false]].
  set (g := _ && _). set (s1 := if g then _ else s).
  assert (Same s s1) as S1 by (subst s1; destruct g; [by apply with_port_same|reflexivity]).
  etransitivity; [exact S1|]. etransitivity; [|by apply rfc_dec_credit_other].
  apply write_same; [by eapply wf_same|]. cbn. intros [E1 E2]. apply (wf_other s j p W P N).
  unfold identity. by rewrite M, E1, E2.
Qed.

Lemma RFCOMM_DataReq_other m' d' info s :
  Wf s -> ~ (m' = m /\ d' = d) -> Same s (snd (RFCOMM_DataReq congests m' d' info s)).
Proof.
  intros W N. unfold RFCOMM_DataReq.
  destruct (port_find_mcb_dlci_port m' d' s) as [j|] eqn:F; [|reflexivity]. cbn [snd].
  apply rfc_port_sm_data_other; [|done]. intros ->. by apply N, (wf_only s W).
Qed.

Lemma PORT_FlowInd_other m' d' en s :
  Wf s -> ~ (m' = m /\ d' = d) -> d' <> 0 -> Same s (PORT_FlowInd congests m' d' en s).
Proof.
  intros W N Z. unfold PORT_FlowInd, flow_ind. rewrite (proj2 (Z.eqb_neq d' 0) Z).
  destruct (port_find_mcb_dlci_port m' d' s) as [j|] eqn:F; [|reflexivity].
  assert (j <> k) as J by (intros ->; by apply N, (wf_only s W)).
  set (s1 := with_port j _ s). assert (Same s s1) as S1 by by apply with_port_same.
  etransitivity; [exact S1|]. apply flow_ind_port_other; [apply RFCOMM_DataReq_other|done|].
  by eapply wf_same.
Qed.

Definition ok (s : tRFC_CB) : Prop := Wf s /\ settled s.

Lemma ok_same s s' : ok s -> Same s s' -> ok s'.
Proof. intros [W Q] S. split; [by eapply wf_same|by eapply settled_same]. Qed.

(** One change after another. *)
Lemma same_then s s1 s2 : ok s -> Same s s1 -> (ok s1 -> Same s1 s2) -> Same s s2.
Proof. intros O S1 S2. etransitivity; [exact S1|]. by apply S2, (ok_same s). Qed.

Lemma cmd_same m' f s : ok s -> foreign m' f -> is_command f -> Same s (send_cmd congests m' f s).
Proof. intros [W Q]. by apply send_cmd_same. Qed.

Lemma timer_same j t s : Same s (rfc_port_timer_start j t s).
Proof. by apply emit_same. Qed.

(** The port of another channel. *)
Lemma find_other m' d' s j : ok s -> ~ (m' = m /\ d' = d) ->
  port_find_mcb_dlci_port m' d' s = Some j -> j <> k.
Proof. intros [W _] N F ->. by apply N, (wf_only s W). Qed.

Lemma id_other s j p m' : ok s -> ports s !! j = Some p -> j <> k -> p_mcb p = Some m' ->
  ~ (m' = m /\ port_dlci p = d).
Proof.
  intros [W _] P N M [E1 E2]. apply (wf_other s j p W P N). unfold identity. by rewrite M, E1, E2.
Qed.

(** Through the state [x]. *)
Ltac via x := apply (same_then _ x); [eassumption| |intros ?].

(** The requests of a port: a command and a timer. *)
Ltac request O N :=
  match goal with
  | |- Same ?s (match (_ ← ?x; _) with Some _ => _ | None => _ end) =>
      let F := fresh "F" in
      destruct x as [j|] eqn:F; [|reflexivity]; cbn [mbind option_bind];
      let P := fresh "P" in
      destruct (ports s !! j) as [p|] eqn:P; [|reflexivity]; cbn [mbind option_bind];
      let J := fresh "J" in
      pose proof (find_other _ _ _ _ O N F) as J;
      case_match; [|reflexivity];
      match goal with
      | |- Same _ (rfc_port_timer_start _ _ (send_cmd _ _ _ ?s1)) =>
          etransitivity; [|apply timer_same];
          via s1; [by apply with_port_same|apply cmd_same; [eassumption|exact I|exact I]]
      end
  end.

Lemma RFCOMM_ControlReq_other m' d' pars s :
  ok s -> ~ (m' = m /\ d' = d) -> Same s (RFCOMM_ControlReq congests m' d' pars s).
Proof. intros O N. unfold RFCOMM_ControlReq. request O N. Qed.

Lemma RFCOMM_FlowReq_other m' d' en s :
  ok s -> ~ (m' = m /\ d' = d) -> Same s (RFCOMM_FlowReq congests m' d' en s).
Proof. intros O N. unfold RFCOMM_FlowReq. request O N. Qed.

Lemma RFCOMM_LineStatusReq_other m' d' st s :
  ok s -> ~ (m' = m /\ d' = d) -> Same s (RFCOMM_LineStatusReq congests m' d' st s).
Proof. intros O N. unfold RFCOMM_LineStatusReq. request O N. Qed.

(** The multiplexer of a port, with the port. *)
Ltac own_mcb s j :=
  let P := fresh "P" in let M := fresh "M" in
  destruct (ports s !! j) as [p|] eqn:P; [|reflexivity]; cbn [mbind option_bind];
  destruct (p_mcb p) as [m'|] eqn:M; [|reflexivity]; cbn [mbind option_bind].

Lemma channel_nonzero s j p m' : ok s -> ports s !! j = Some p -> p_mcb p = Some m' -> port_dlci p <> 0.
Proof.
  intros [W _] P M. apply (wf_channels s W j m'). rewrite <- M. change (p_mcb p, port_dlci p) with (identity p).
  by apply ids_lookup.
Qed.

Lemma rfc_inc_credit_other j c s : j <> k -> ok s -> Same s (rfc_inc_credit congests j c s).
Proof.
  intros J O. unfold rfc_inc_credit. own_mcb s j. pose proof (id_other s j p m' O P J M) as N.
  destruct (mcbs s !! m') as [b|]; [|reflexivity]. cbn [mbind option_bind].
  case_match; [|reflexivity]. set (s1 := with_port j _ s).
  assert (Same s s1) as S1 by by apply with_port_same.
  case_match; [|done]. via s1; [exact S1|].
  apply PORT_FlowInd_other; [by eapply wf_same, S1; apply O|done|exact (channel_nonzero s j p m' O P M)].
Qed.

Lemma port_flow_control_peer_other j en n s :
  j <> k -> ok s -> Same s (port_flow_control_peer congests j en n s).
Proof.
  intros J O. unfold port_flow_control_peer. own_mcb s j. pose proof (id_other s j p m' O P J M) as N.
  destruct (mcbs s !! m') as [b|]; [|reflexivity]. cbn [mbind option_bind].
  destruct (mcb_flow b =? PORT_FC_CREDIT); [destruct en|destruct en].
  - set (c := if credit_rx p <? n then _ else _).
    set (s1 := with_port j _ s). via s1; [by apply with_port_same|].
    case_match; [|reflexivity]. etransitivity; [|by apply with_port_same]. apply cmd_same; [done|exact N|exact I].
  - case_match; [by apply with_port_same|reflexivity].
  - case_match; [|reflexivity]. set (s1 := with_port j _ s). via s1; [by apply with_port_same|].
    case_match; [reflexivity|by apply RFCOMM_FlowReq_other].
  - case_match; [|reflexivity]. set (s1 := with_port j _ s). via s1; [by apply with_port_same|].
    by apply RFCOMM_FlowReq_other.
Qed.

Lemma notify_data_same j flag s : Same s (notify_data j flag s).
Proof.
  unfold notify_data. destruct (ports s !! j) as [p|]; [|reflexivity].
  destruct (user_fc (rx p)); [|apply callback_same].
  destruct flag; [by apply with_port_same|reflexivity].
Qed.

Lemma PORT_DataInd_other m' d' info s :
  ok s -> ~ (m' = m /\ d' = d) -> Same s (PORT_DataInd congests co_callback m' d' info s).
Proof.
  intros O N. unfold PORT_DataInd. destruct (port_find_mcb_dlci_port m' d' s) as [j|] eqn:F; [|reflexivity].
  pose proof (find_other _ _ _ _ O N F) as J. cbn [mbind option_bind].
  destruct (ports s !! j) as [p|] eqn:P; [|reflexivity]. cbn [mbind option_bind].
  destruct (data_callback p).
  - case_match.
    + via (emit (Overrun j info) s); [apply emit_same; [done|cbn; by rewrite bool_decide_false]|].
      by apply RFCOMM_LineStatusReq_other.
    + set (s1 := with_port j _ s). via s1; [by apply with_port_same|].
      etransitivity; [|apply notify_data_same]. by apply port_flow_control_peer_other.
  - etransitivity; [|by apply emit_same]. by apply port_flow_control_peer_other.
  - set (s1 := emit _ s). via s1; [by apply emit_same|].
    case_match; by apply port_flow_control_peer_other.
Qed.

Lemma rfc_port_sm_uih_other j info s :
  j <> k -> ok s -> Same s (rfc_port_sm_uih congests co_callback j info s).
Proof.
  intros J O. unfold rfc_port_sm_uih. own_mcb s j. pose proof (id_other s j p m' O P J M) as N.
  destruct (sm_state p); try reflexivity; try (by apply cmd_same).
  unfold rfc_port_uplink_data. rewrite P. cbn [mbind option_bind]. rewrite M. cbn [mbind option_bind].
  by apply PORT_DataInd_other.
Qed.

Lemma RFCOMM_BufDataInd_uih_other m' d' c cmd fin info s :
  ok s -> ~ (m' = m /\ d' = d) -> Same s (RFCOMM_BufDataInd_uih congests co_callback m' d' c cmd fin info s).
Proof.
  intros O N. unfold RFCOMM_BufDataInd_uih.
  destruct (j ← port_find_mcb_dlci_port m' d' s; _) as [j|] eqn:F.
  - assert (j <> k) as J.
    { apply bind_Some in F as (j' & F & G). apply bind_Some in G as (? & _ & G).
      apply bind_Some in G as (? & _ & [= <-]). by apply (find_other m' d' s). }
    set (s1 := if _ <? _ then _ else s).
    assert (Same s s1) as S1 by (subst s1; case_match; [by apply rfc_port_sm_uih_other|reflexivity]).
    case_match; [done|]. via s1; [exact S1|]. by apply rfc_inc_credit_other.
  - destruct cmd; [by apply cmd_same|reflexivity].
Qed.

(** The operations of the application. *)
Lemma usable_port h s j p : usable h s = inr (j, p) ->
  j = Z.to_nat (h - 1) /\ h <> 0 /\ ports s !! j = Some p.
Proof.
  unfold usable, get_port_from_handle. destruct (Z.eqb_spec h 0); [done|]. cbn [orb].
  destruct (_ <? h); [done|]. cbn [mbind option_bind].
  destruct (ports s !! Z.to_nat (h - 1)) as [q|] eqn:Q; [|done]. cbn [mbind option_bind].
  case_match; [done|]. by intros [= <- <-].
Qed.

Lemma usable_other h s j p : 0 <= h -> h <> Z.of_nat k + 1 -> usable h s = inr (j, p) ->
  j <> k /\ ports s !! j = Some p.
Proof. intros H0 H U. destruct (usable_port h s j p U) as (-> & ? & ?). split; [lia|done]. Qed.

Lemma PORT_ReadData_other h n s :
  0 <= h -> h <> Z.of_nat k + 1 -> ok s -> Same s (snd (PORT_ReadData congests h n s)).
Proof.
  intros H0 H O. unfold PORT_ReadData. destruct (usable h s) as [e|[j p]] eqn:U; [reflexivity|].
  destruct (usable_other h s j p H0 H U) as [J P]. case_match; [reflexivity|].
  destruct (queue (rx p)) as [|b q]; [reflexivity|].
  destruct (read_loop (b :: q) n 0 (queue_size (rx p))) as [[[l c] q'] sz]. cbn [snd].
  set (s1 := with_port j _ s). via s1; [by apply with_port_same|]. by apply port_flow_control_peer_other.
Qed.

Lemma port_start_control_other j s : j <> k -> ok s -> Same s (port_start_control congests j s).
Proof.
  intros J O. unfold port_start_control. own_mcb s j.
  apply RFCOMM_ControlReq_other; [done|]. by apply (id_other s j p).
Qed.

Lemma PORT_FlowControl_MaxCredit_other h en s :
  0 <= h -> h <> Z.of_nat k + 1 -> ok s -> Same s (snd (PORT_FlowControl_MaxCredit congests h en s)).
Proof.
  intros H0 H O. unfold PORT_FlowControl_MaxCredit. destruct (usable h s) as [e|[j p]] eqn:U; [reflexivity|].
  destruct (usable_other h s j p H0 H U) as [J P]. destruct (mcb_of p s) as [b|]; [|reflexivity].
  set (s1 := with_port j _ s). assert (Same s s1) as S1 by by apply with_port_same.
  set (s2 := if mcb_flow b =? PORT_FC_CREDIT then _ else _).
  assert (Same s s2) as S2.
  { via s1; [done|]. subst s2. case_match.
    - destruct en; [by apply port_flow_control_peer_other|reflexivity].
    - set (s3 := with_port j _ s1). assert (Same s1 s3) as S3 by by apply with_port_same.
      case_match; [done|]. via s3; [done|]. by apply port_start_control_other. }
  destruct (ports s2 !! j) as [p2|]; [|done]. case_match; [|done]. cbn [snd].
  etransitivity; [exact S2|]. etransitivity; [|apply callback_same].
  case_match; [by apply with_port_same|reflexivity].
Qed.

Lemma port_write_other j info s : j <> k -> ok s -> Same s (snd (port_write congests j info s)).
Proof.
  intros J O. unfold port_write. destruct (ports s !! j) as [p|] eqn:P; [|reflexivity].
  case_match; [reflexivity|]. destruct (tx_blocked p s).
  - case_match; cbn [snd]; [|by apply with_port_same].
    case_match; [apply callback_same|reflexivity].
  - destruct (p_mcb p) as [m'|] eqn:M; [|reflexivity].
    apply RFCOMM_DataReq_other; [apply O|by apply (id_other s j p)].
Qed.

Lemma write_loop_other fuel co j l n r ev len s :
  j <> k -> ok s -> Same s (snd (write_loop congests co_callback fuel co j l n r ev len s)).
Proof.
  intros J. revert l n r ev len s. induction fuel as [|fuel IH]; intros l n r ev len s O; [reflexivity|].
  cbn [write_loop]. destruct l as [|x l]; [reflexivity|]. destruct (ports s !! j) as [p|]; [|reflexivity].
  destruct (tx_high p).
  - destruct co; [|reflexivity]. pose proof (flow_control_user_same j s) as S.
    by destruct (port_flow_control_user j s).
  - set (s1 := if co then _ else s).
    assert (Same s s1) as S1 by (subst s1; destruct co; [by apply emit_same|reflexivity]).
    case_match; [done|]. pose proof (ok_same s s1 O S1) as O1.
    match goal with |- context [port_write congests j ?x s1] =>
      pose proof (port_write_other j x s1 J O1) as S2; destruct (port_write congests j x s1) as [r2 s2] end.
    cbn [snd] in S2. pose proof (flow_control_user_same j s2) as S3.
    destruct (port_flow_control_user j s2) as [e3 s3]. cbn [snd] in S3.
    assert (Same s s3) as S by (etransitivity; [|exact S3]; by etransitivity).
    case_match; [|done]. via s3; [done|]. by apply IH.
Qed.

Lemma write_end_same j w s : Same s (write_end j w s).
Proof. apply callback_same. Qed.

Lemma PORT_WriteData_other h l s :
  0 <= h -> h <> Z.of_nat k + 1 -> ok s -> Same s (snd (PORT_WriteData congests co_callback h l s)).
Proof.
  intros H0 H O. unfold PORT_WriteData. destruct (usable h s) as [e|[j p]] eqn:U; [reflexivity|].
  destruct (usable_other h s j p H0 H U) as [J P]. case_match; [reflexivity|].
  case_match; [by apply with_port_same|].
  pose proof (write_loop_other (S (length l)) false j l RFCOMM_DATA_LENGTH PORT_SUCCESS 0 0 s J O) as S1.
  destruct (write_loop _ _ _ _ _ _ _ _ _ _ s) as [w s1]. cbn [snd] in *.
  etransitivity; [exact S1|]. apply write_end_same.
Qed.

Lemma PORT_WriteDataCO_other h l s :
  0 <= h -> h <> Z.of_nat k + 1 -> ok s -> Same s (snd (PORT_WriteDataCO congests co_callback h l s)).
Proof.
  intros H0 H O. unfold PORT_WriteDataCO. destruct (usable h s) as [e|[j p]] eqn:U; [reflexivity|].
  destruct (usable_other h s j p H0 H U) as [J P]. case_match; [reflexivity|].
  set (s1 := emit _ s). assert (Same s s1) as S1 by by apply emit_same.
  case_match; [done|]. case_match; [done|]. case_match.
  - set (s2 := emit _ s1). assert (Same s s2) as S2 by (etransitivity; [exact S1|by apply emit_same]).
    case_match; [done|]. cbn [snd]. etransitivity; [exact S2|]. by apply with_port_same.
  - pose proof (ok_same s s1 O S1) as O1.
    pose proof (write_loop_other (S (length l)) true j l RFCOMM_DATA_LENGTH PORT_SUCCESS 0 0 s1 J O1) as S2.
    destruct (write_loop _ _ _ _ _ _ _ _ _ _ s1) as [w s2]. cbn [snd] in *.
    case_match; cbn [snd]; [by etransitivity|].
    etransitivity; [exact S1|]. etransitivity; [exact S2|]. apply write_end_same.
Qed.

(** Messages and congestion. *)
Lemma indicate_connection_same j s : Same s (indicate_connection after_msc j s).
Proof.
  unfold indicate_connection. destruct (ports s !! j) as [p|]; [|reflexivity].
  case_match; [by apply emit_same|reflexivity].
Qed.

Lemma port_rfc_send_tx_data_other j s :
  j <> k -> ok s -> Same s (snd (port_rfc_send_tx_data congests j s)).
Proof. intros J [W _]. apply send_tx_data_other; [apply RFCOMM_DataReq_other|done|done]. Qed.

Lemma PORT_ControlCnf_other m' d' s :
  ok s -> ~ (m' = m /\ d' = d) -> Same s (PORT_ControlCnf congests after_msc m' d' s).
Proof.
  intros O N. unfold PORT_ControlCnf. destruct (port_find_mcb_dlci_port m' d' s) as [j|] eqn:F; [|reflexivity].
  pose proof (find_other _ _ _ _ O N F) as J. cbn [mbind option_bind].
  destruct (ports s !! j) as [p|] eqn:P; [|reflexivity]. cbn [mbind option_bind].
  set (s1 := if has _ _ then s else _).
  assert (Same s s1) as S1 by (subst s1; case_match; [reflexivity|by apply with_port_same]).
  pose proof (port_rfc_send_tx_data_other j s1 J (ok_same s s1 O S1)) as S2.
  destruct (port_rfc_send_tx_data congests j s1) as [e s2]. cbn [snd] in S2.
  destruct (has (port_ctrl p) PORT_CTRL_IND_RECEIVED);
    (etransitivity; [|apply indicate_connection_same]); (etransitivity; [|apply callback_same]);
    [by etransitivity|done].
Qed.

Lemma PORT_ControlInd_other m' d' pars s :
  ok s -> ~ (m' = m /\ d' = d) -> Same s (PORT_ControlInd congests after_msc m' d' pars s).
Proof.
  intros O N. unfold PORT_ControlInd. destruct (port_find_mcb_dlci_port m' d' s) as [j|] eqn:F; [|reflexivity].
  pose proof (find_other _ _ _ _ O N F) as J. cbn [mbind option_bind].
  destruct (ports s !! j) as [p|] eqn:P; [|reflexivity]. cbn [mbind option_bind].
  set (s1 := with_port j _ s). assert (Same s s1) as S1 by by apply with_port_same.
  pose proof (ok_same s s1 O S1) as O1.
  match goal with |- Same s (let '(_, _) := ?x in _) => assert (Same s (snd x)) as S2; [|destruct x as [e s2]] end.
  { case_match; cbn [snd].
    - via s1; [done|]. destruct (p_mcb p) as [m2|] eqn:M; [|reflexivity].
      apply RFCOMM_ControlReq_other; [done|]. by apply (id_other s j p).
    - case_match; [|done]. pose proof (port_rfc_send_tx_data_other j s1 J O1) as S2.
      destruct (port_rfc_send_tx_data congests j s1) as [e s2]. cbn [snd] in *. by etransitivity. }
  cbn [snd] in S2. etransitivity; [exact S2|]. etransitivity; [|apply indicate_connection_same].
  etransitivity; [|apply callback_same]. by apply with_port_same.
Qed.

Lemma rfc_process_msc_other m' cmd d' msc s :
  ok s -> ~ (m' = m /\ d' = d) -> d' <> 0 -> Same s (rfc_process_msc congests after_msc m' cmd d' msc s).
Proof.
  intros O N Z. unfold rfc_process_msc. destruct (port_find_mcb_dlci_port m' d' s) as [j|] eqn:F; [|reflexivity].
  pose proof (find_other _ _ _ _ O N F) as J. cbn [mbind option_bind].
  destruct (ports s !! j) as [p|] eqn:P; [|reflexivity]. cbn [mbind option_bind].
  destruct (p_mcb p) as [m2|] eqn:M; [|reflexivity]. cbn [mbind option_bind].
  destruct (mcbs s !! m2) as [b|]; [|reflexivity]. cbn [mbind option_bind]. destruct cmd.
  - set (s1 := send_cmd _ _ _ s). assert (Same s s1) as S1 by by apply cmd_same.
    set (s2 := if mcb_flow b =? _ then s1 else _).
    assert (Same s s2) as S2.
    { via s1; [done|]. subst s2. case_match; [reflexivity|]. set (s3 := with_port j _ s1).
      assert (Same s1 s3) as S3 by by apply with_port_same. case_match; [done|].
      etransitivity; [exact S3|]. apply PORT_FlowInd_other; [|done|done].
      by apply (ok_same s1). }
    via s2; [done|]. by apply PORT_ControlInd_other.
  - case_match; [|reflexivity]. set (s1 := rfc_port_timer_stop j _).
    via s1; [|apply PORT_ControlCnf_other; [done|by apply (id_other s j p)]].
    etransitivity; [|by apply emit_same]. by apply with_port_same.
Qed.

Lemma PORT_LineStatusInd_same m' d' st s : Same s (PORT_LineStatusInd m' d' st s).
Proof.
  unfold PORT_LineStatusInd. destruct (j ← _; _) as [[j p]|]; [|reflexivity].
  etransitivity; [|apply callback_same]. by apply with_port_same.
Qed.

Lemma rfc_process_rls_same m' cmd d' st s : ok s -> Same s (rfc_process_rls congests m' cmd d' st s).
Proof.
  intros O. unfold rfc_process_rls. destruct cmd.
  - via (PORT_LineStatusInd m' d' st s); [apply PORT_LineStatusInd_same|by apply cmd_same].
  - destruct (j ← _; _) as [[j p]|]; [|reflexivity]. case_match; [|reflexivity].
    etransitivity; [|by apply emit_same]. by apply with_port_same.
Qed.

Lemma flow_ind_all_other m' s : m' <> m -> Wf s -> Same s (flow_ind_all (RFCOMM_DataReq congests) m' s).
Proof.
  intros N. unfold flow_ind_all. generalize (seq 0 (length (ports s))). intros l. revert s.
  induction l as [|j l IH]; intros s W; [reflexivity|]. cbn [fold_left].
  set (s1 := match ports s !! j with Some _ => _ | None => _ end).
  assert (Same s s1) as S1.
  { subst s1. destruct (ports s !! j) as [p|] eqn:P; [|reflexivity]. case_match eqn:E; [|reflexivity].
    apply andb_prop in E as [E _]. apply andb_prop in E as [_ E]. apply bool_decide_eq_true in E.
    apply flow_ind_port_other; [apply RFCOMM_DataReq_other| |done]. intros ->.
    pose proof (wf_id s W) as I. rewrite (ids_lookup s k p P) in I. unfold identity in I. congruence. }
  etransitivity; [exact S1|]. apply IH. by eapply wf_same.
Qed.

Lemma congestion_other m' c s : m' <> m -> ok s -> Same s (rfc_process_l2cap_congestion congests m' c s).
Proof.
  intros N O. unfold rfc_process_l2cap_congestion.
  set (s1 := with_mcb m' _ s). assert (Same s s1) as S1 by by apply with_mcb_same.
  set (s2 := if c then s1 else _).
  assert (Same s s2) as S2.
  { via s1; [done|]. subst s2. destruct c; [reflexivity|]. unfold rfc_check_send_cmd.
    destruct (mcbs s1 !! m') as [b|]; [|reflexivity]. apply send_commands_other; [done|by apply (ok_same s)]. }
  via s2; [done|]. case_match; [reflexivity|]. unfold PORT_FlowInd, flow_ind.
  change (0 =? 0) with true. cbv iota. set (s3 := with_mcb m' _ s2).
  via s3; [by apply with_mcb_same|]. apply flow_ind_all_other; [done|]. eapply wf_same; [apply O|].
  etransitivity; [exact S2|by apply with_mcb_same].
Qed.
End l2cap.
End focus.
