(* ===== verification/RfcommPortExample.v ===== *)
(** * RFCOMM ports: example states

    Control blocks with two open ports on one multiplexer, on which the theorems about
    ports are evaluated. *)

From stdpp Require Import base list option.
From Stdlib Require Import ZArith Lia.
From S2P Require Import Prelude.
From S2P Require Import RfcommFrames.
From S2P Require Import RfcommMessages.
From S2P Require Import RfcommPortState.
From S2P Require Import RfcommPort.
From S2P Require Import RfcommPortSpec.

Open Scope Z_scope.

Definition no_settings : PortSettings :=
  {| baud_rate := 0; byte_size := 0; stop_bits := 0; parity := 0; parity_type := 0; fc_type := 0;
     rx_char1 := 0; xon_char := 0; xoff_char := 0 |}.
Definition no_signals : tPORT_CTRL := {| modem_signal := 0; break_signal := 0; fc := false |}.
Definition no_owner : Owner :=
  {| port_addr := 0; uuid := 0; keep_port_handle := false; keep_mtu := 0; sec_mask := 0;
     default_signal_state := 0 |}.
Definition no_link : Link :=
  {| bd_addr := 0; lcid := 0; peer_l2cap_mtu := 0; mux_initiator := true; restart_required := false;
     pending_lcid := 0; pending_configure_complete := false; pending_cfg_info := None;
     collision_outgoing_lcid := 0; collision_outgoing_conn_cnf := false;
     collision_outgoing_cfg_complete := false; collision_cfg_info := None |}.
Definition no_tables : Tables := {| last_port_index := 0; last_mux := 0; rfc_lcid_mcb := [] |}.
Definition empty_data : tPORT_DATA := {| queue := []; queue_size := 0; peer_fc := false; user_fc := false |}.

(** An open port with credits to send [c] frames and [c'] given to the peer, of at most [max]. *)
Definition open_port (d n c c' max : Z) : tPORT :=
  {| in_use := true; port_state := PORT_CONNECTION_STATE_OPENED; port_dlci := d; is_server := false;
     line_status := 0; mtu := n; peer_mtu := n; tx := empty_data; rx := empty_data;
     user_port_settings := no_settings; peer_port_settings := no_settings; local_ctrl := no_signals;
     peer_ctrl := no_signals; port_ctrl := PORT_CTRL_SETUP_COMPLETED; rx_flag_ev_pending := false;
     sm_state := RFC_STATE_OPENED; expected_rsp := 0; p_mcb := Some 0%nat; ev_mask := 0; p_callback := false;
     p_mgmt_callback := false; data_callback := no_data_callback; credit_tx := c; credit_rx := c';
     credit_rx_max := max; credit_rx_low := 1; rx_buf_critical := PORT_RX_BUF_CRITICAL_WM; init_credit := None;
     hardware_offload := false; owner := no_owner |}.

Definition open_handles : list Z := <[2%nat := 1]> (<[4%nat := 2]> (replicate 62 0)).

Definition open_mux : tRFC_MCB :=
  {| mcb_state := RFC_MX_STATE_CONNECTED; mcb_flow := PORT_FC_CREDIT; peer_ready := true;
     mcb_congested := false; mcb_cmd_q := []; port_handles := open_handles; is_disc_initiator := false;
     link := no_link |}.

(** Channels 2 and 4. *)
Definition two_ports (p : tPORT) : tRFC_CB :=
  {| tables := no_tables; peer_rx_disabled := false; ports := [p; open_port 4 3 2 2 4]; mcbs := [open_mux]; out := [] |}.

(** L2CAP is congested by every third frame that it takes, data or command. *)
Definition is_sent (o : Output) : bool := match o with Sent _ _ => true | _ => false end.
Definition third_congests (o : list Output) : bool :=
  match list.last o with
  | Some (Sent _ _) => Z.of_nat (length (List.filter is_sent o)) mod 3 =? 0
  | _ => false
  end.
Definition never (o : list Output) : bool := false.

Lemma open_handles_lookup i h : open_handles !! i = Some h -> h <> 0 -> (i = 2%nat /\ h = 1) \/ (i = 4%nat /\ h = 2).
Proof.
  intros H N. unfold open_handles in H. apply list_lookup_insert_Some in H as [(<- & <- & _)|[N2 H]]; [by left|].
  apply list_lookup_insert_Some in H as [(<- & <- & _)|[N4 H]]; [by right|].
  apply lookup_replicate in H as [-> _]. done.
Qed.

Lemma two_ports_wf p : identity p = (Some 0%nat, 2) -> Wf 0 0 2 (two_ports p).
Proof.
  intros I. assert (forall m' d', port_find_mcb_dlci_port m' d' (two_ports p) = Some 0%nat -> m' = 0%nat /\ d' = 2) as Only.
  { intros m' d'. unfold port_find_mcb_dlci_port. case_match; [done|]. destruct m' as [|m']; [|done].
    cbn [mcbs two_ports lookup list_lookup mbind option_bind port_handles open_mux].
    destruct (open_handles !! Z.to_nat d') as [h|] eqn:Hh; [|done]. cbn [mbind option_bind].
    destruct (Z.eqb_spec h 0) as [|N]; [done|]. apply open_handles_lookup in Hh as [[Hd ->]|[Hd ->]]; [|done..].
    intros _. split; [done|]. lia. }
  constructor; try done.
  - unfold ids. cbn. by rewrite I.
  - intros j. unfold ids. cbn. destruct j as [|[|j]]; cbn; done.
  - intros j m' d'. unfold ids. cbn. destruct j as [|[|j]]; cbn; [|by intros [= <- <-]|done]. rewrite I. by intros [= <- <-].
Qed.
