(* ===== verification/RfcommPortStream.v ===== *)
(** * RFCOMM ports: the stream of a port

    The invariant of a port that is open with flow control by credits: the octets the
    application has written are those in its frames and in its transmit queue, the ones it
    has read and that wait are those it has received; a frame is sent for a credit, and
    the credits that were granted are those for the frames that may still come.
    Every event of the layer keeps it, also the ones of other ports and congestion. *)

From stdpp Require Import base list option.
From Stdlib Require Import ZArith Lia.
From S2P Require Import Prelude.
From S2P Require Import RfcommFrames.
From S2P Require Import RfcommMessages.
From S2P Require Import RfcommPortState.
From S2P Require Import RfcommPort.
From S2P Require Import RfcommPortSpec.

Open Scope Z_scope.

(** What a frame carries. *)
Definition info_of (f : Frame) : list Z := match f with Uih _ _ i => i | _ => [] end.
Definition credits_of (f : Frame) : Z :=
  match f with Uih _ c _ => c | Credit _ c => c | _ => 0 end.
Definition uses_of (f : Frame) : Z := match f with Uih _ _ _ => 1 | _ => 0 end.

Definition data (l : list Frame) : list Z := concat (info_of <$> l).
Definition total (q : list (list Z)) : Z := size (concat q).
Fixpoint sum (f : Frame -> Z) (l : list Frame) : Z :=
  match l with [] => 0 | x :: l => f x + sum f l end.

Lemma sum_app f a b : sum f (a ++ b) = sum f a + sum f b.
Proof. induction a as [|x a IH]; cbn; lia. Qed.

Lemma data_app a b : data (a ++ b) = data a ++ data b.
Proof. unfold data. by rewrite fmap_app, concat_app. Qed.

Lemma size_app a b : size (a ++ b) = size a + size b.
Proof. unfold size. rewrite length_app. lia. Qed.

Lemma size_nonneg l : 0 <= size l.
Proof. unfold size. lia. Qed.

Lemma octets_nil : total [] = 0.
Proof. done. Qed.

Lemma total_cons b q : total (b :: q) = size b + total q.
Proof. unfold total. cbn. apply size_app. Qed.

Lemma total_app a b : total (a ++ b) = total a + total b.
Proof. unfold total. rewrite concat_app. apply size_app. Qed.

Lemma count_cons b q : count (b :: q) = 1 + count q.
Proof. unfold count. cbn. lia. Qed.

Lemma count_app a b : count (a ++ b) = count a + count b.
Proof. unfold count. rewrite length_app. lia. Qed.

Lemma count_nonneg q : 0 <= count q.
Proof. unfold count. lia. Qed.

(** Buffers of bounded size. *)
Definition buffers (n : Z) (q : list (list Z)) : Prop := Forall (fun b => 0 < size b <= n) q.

Lemma total_bounds n q : buffers n q -> 0 <= total q <= count q * n /\ (total q = 0 -> q = []).
Proof.
  intros H. induction H as [|b q H _ IH]; [done|]. rewrite total_cons, count_cons.
  split; [lia|]. intros E. lia.
Qed.

(** What has passed through a port. *)
Record Ghost := {
  accepted : list Z;             (* octets taken from the application *)
  credits_got : Z;               (* credits that came from the peer *)
  received : list (list Z);      (* information of the frames that came *)
  delivered : list Z;            (* octets given to the application *)
}.

(** Where an operation is: octets in hand, a frame sent whose credit is not counted
    yet, credits granted that are not counted yet, and the least credit of the peer. *)
Record Progress := {
  hand : list Z;
  uncounted : Z;
  ungranted : Z;
  least : Z;
}.
Definition at_rest : Progress := {| hand := []; uncounted := 0; ungranted := 0; least := 1 |}.

Section stream.
Context (k m : nat) (d : Z).
Context (congests co_callback : list Output -> bool) (after_msc : bool).

(** Limits of the port: the frames it sends, the frames it receives, the credits it gives;
    the credits at the start. *)
Context (mtu_tx mtu_rx maxc tx0 rx0 : Z).

Hypothesis mtu_tx_range : 0 < mtu_tx < 2 ^ 16.
Hypothesis mtu_rx_range : 0 < mtu_rx < 2 ^ 16.
Hypothesis maxc_range : 0 < maxc < 2 ^ 8.
Hypothesis room : maxc * mtu_rx <= PORT_RX_CRITICAL_WM.

Abbreviation frames := (frames m d).
Abbreviation waiting := (waiting m d).
Abbreviation Same := (Same k m d).
Abbreviation Wf := (Wf k m d).
Abbreviation ok := (ok k m d).

Definition frame_ok (f : Frame) : Prop :=
  match f with
  | Uih _ c i => 0 <= c < 2 ^ 8 /\ 0 < size i <= mtu_tx
  | Credit _ c => 0 < c < 2 ^ 8
  | _ => True
  end.

(** [w] are the commands of the channel that wait. *)
Record CoreP (x : Progress) (g : Ghost) (w : list Frame) (p : tPORT) (b : tRFC_MCB)
    (o : list Output) : Prop := {
  c_open : in_use p = true /\ port_state p = PORT_CONNECTION_STATE_OPENED /\
           sm_state p = RFC_STATE_OPENED /\ data_callback p = no_data_callback;
  c_limits : peer_mtu p = mtu_tx /\ credit_rx_max p = maxc /\ 0 <= credit_rx_low p /\
             maxc <= rx_buf_critical p;
  c_ctrl : Z.land (port_ctrl p) setup_bits = setup_bits;
  c_flow : mcb_flow b = PORT_FC_CREDIT;
  c_ready : peer_ready b = true -> mcb_congested b = false;
  c_txq : buffers (Z.min mtu_tx RFCOMM_DATA_LENGTH) (queue (tx p)) /\
          count (queue (tx p)) <= PORT_TX_BUF_CRITICAL_WM + 1 /\
          queue_size (tx p) = total (queue (tx p));
  c_rxq : buffers mtu_rx (queue (rx p)) /\ queue_size (rx p) = total (queue (rx p)) /\
          user_fc (rx p) = false;
  c_tx_credit : uncounted x <= credit_tx p /\ 0 <= uncounted x /\
                peer_fc (tx p) = (credit_tx p =? 0);
  c_rx_credit : 0 <= least x <= credit_rx p /\ credit_rx p <= maxc;
  c_accepted : accepted g = data (frames o) ++ hand x ++ concat (queue (tx p));
  c_used : credit_tx p + sum uses_of (frames o) = tx0 + credits_got g + uncounted x;
  c_received : concat (received g) = delivered g ++ concat (queue (rx p));
  c_granted : credit_rx p + count (received g) + ungranted x =
              rx0 + sum credits_of (frames o) + sum credits_of w + count (queue (rx p));
  c_obeyed : count (received g) <= rx0 + sum credits_of (frames o);
  c_frames : Forall frame_ok (frames o ++ w);
  c_lossless : lossless k m d o;
}.

Definition Core (x : Progress) (g : Ghost) (w : list Frame) (s : tRFC_CB) : Prop :=
  exists p b, ports s !! k = Some p /\ mcbs s !! m = Some b /\ CoreP x g w p b (out s).

(** The channel is in place; [w] waits in the queue of commands, and the peer is ready
    while L2CAP is not congested. *)
Definition Aux (w : list Frame) (s : tRFC_CB) : Prop :=
  ok s /\ forall b, mcbs s !! m = Some b ->
    waiting (mcb_cmd_q b) = w /\ peer_ready b = negb (mcb_congested b).

(** What is queued waits for credits or for the peer. *)
Definition Blocked (s : tRFC_CB) : Prop := forall p b,
  ports s !! k = Some p -> mcbs s !! m = Some b -> queue (tx p) <> [] ->
  peer_fc (tx p) = true \/ peer_ready b = false.

(** The invariant between operations. *)
Definition Inv (g : Ghost) (s : tRFC_CB) : Prop :=
  exists w, Aux w s /\ Core at_rest g w s /\ Blocked s.

(** The view decides the invariant. *)
Lemma CoreP_view x g w p b o p' b' o' :
  CoreP x g w p b o -> port_view p' = port_view p -> mcb_flow b' = mcb_flow b ->
  (peer_ready b' = true -> mcb_congested b' = false) -> frames o' = frames o ->
  lossless k m d o' -> CoreP x g w p' b' o'.
Proof.
  intros [A B C D E F G H I J K L M N O Q] V Fl R Fr Lo. unfold port_view in V.
  injection V; clear V; intros.
  constructor; rewrite ?Fr; try done; try congruence; intuition congruence.
Qed.

Lemma same_view s s' p : Same s s' -> ports s !! k = Some p ->
  exists p', ports s' !! k = Some p' /\ port_view p' = port_view p.
Proof.
  intros S P. pose proof (same_port _ _ _ _ _ S) as V. rewrite P in V.
  destruct (ports s' !! k) as [p'|]; [|done]. cbn in V. exists p'. split; [done|congruence].
Qed.

Lemma same_flow s s' b b' : Same s s' -> mcbs s !! m = Some b -> mcbs s' !! m = Some b' ->
  mcb_flow b' = mcb_flow b.
Proof.
  intros S B B'. assert (handles s' !! m = handles s !! m) as H by by rewrite (same_handles _ _ _ _ _ S).
  unfold handles in H. rewrite !list_lookup_fmap, B, B' in H. cbn in H. by injection H.
Qed.

Lemma core_same x g w s s' : Core x g w s -> Same s s' -> Core x g w s'.
Proof.
  intros (p & b & P & B & C) S. destruct (same_view s s' p S P) as (p' & P' & V).
  destruct (same_mcb_forward _ _ _ _ _ _ S B) as (b' & B' & M).
  exists p', b'. split; [done|]. split; [done|].
  apply (CoreP_view x g w p b (out s)); [done|done| | | |].
  - exact (same_flow s s' b b' S B B').
  - destruct M as (_ & _ & [[-> ->]|[_ ->]]); [apply (c_ready _ _ _ _ _ _ C)|done].
  - exact (same_frames _ _ _ _ _ S).
  - apply (same_lossless _ _ _ _ _ S), (c_lossless _ _ _ _ _ _ C).
Qed.

Lemma aux_same w s s' : Aux w s -> Same s s' -> Aux w s'.
Proof.
  intros [O A] S. split; [by eapply ok_same|]. intros b' B'.
  destruct (same_mcb_back _ _ _ _ _ _ S B') as (b & B & W & _ & M). destruct (A b B) as [<- R].
  split; [done|]. by destruct M as [[-> ->]|[-> ->]].
Qed.

Lemma blocked_same s s' : Blocked s -> Same s s' -> Blocked s'.
Proof.
  intros H S p' b' P' B' N. destruct (same_mcb_back _ _ _ _ _ _ S B') as (b & B & _ & _ & M).
  pose proof (same_port _ _ _ _ _ S) as V. rewrite P' in V. destruct (ports s !! k) as [p|] eqn:P; [|done].
  cbn in V. unfold port_view in V. injection V as ? ? ? ? ? ? ? ? ? ? Q ? Pf ? ? ? ? ?.
  rewrite Q in N. rewrite Pf. destruct M as [[_ ->]|[_ ->]]; [by eapply H|by right].
Qed.

Lemma port_inv_same g s s' : Inv g s -> Same s s' -> Inv g s'.
Proof.
  intros (w & A & C & B) S. exists w.
  split; [by eapply aux_same|]. split; [by eapply core_same|by eapply blocked_same].
Qed.

(** Changes of the port itself, and outputs. *)
Lemma wf_port j f s : keeps_id f -> Wf s -> Wf (with_port j f s).
Proof.
  intros K [A B C D E F]. assert (ids (with_port j f s) = ids s) as I by by apply alter_fmap_id.
  constructor; rewrite ?I; done.
Qed.

Lemma aux_port w j f s : keeps_id f -> Aux w s -> Aux w (with_port j f s).
Proof. intros K [[W Q] A]. split; [split; [by apply wf_port|done]|done]. Qed.

Lemma aux_emit w o s : Aux w s -> Aux w (emit o s).
Proof. intros [[[A B C D E F] Q] H]. done. Qed.

Lemma core_port x g w x' g' f s :
  Core x g w s -> (forall p b o, CoreP x g w p b o -> CoreP x' g' w (f p) b o) ->
  Core x' g' w (with_port k f s).
Proof.
  intros (p & b & P & B & C) H. exists (f p), b. cbn. rewrite list_lookup_alter_eq, P.
  split; [done|]. split; [done|]. by apply H.
Qed.

(** The facts of the core, one by one. *)
Ltac core C :=
  let A := fresh "Co" in let B := fresh "Cl" in let D := fresh "Cc" in let E := fresh "Cf" in
  let F := fresh "Cr" in let G := fresh "Ct" in let H := fresh "Cx" in let I := fresh "Ctc" in
  let J := fresh "Crc" in let K := fresh "Ca" in let L := fresh "Cu" in let M := fresh "Cv" in
  let N := fresh "Cg" in let O := fresh "Cob" in let P := fresh "Cfr" in let Q := fresh "Clo" in
  destruct C as [A B D E F G H I J K L M N O P Q].

Lemma chan_uih c i : chan m d (Sent m (Uih d c i)) = Some (Uih d c i).
Proof. cbn. by rewrite decide_True. Qed.

Lemma chan_credit c : chan m d (Sent m (Credit d c)) = Some (Credit d c).
Proof. cbn. by rewrite decide_True. Qed.

Lemma frames_snoc o out f : chan m d o = Some f -> frames (out ++ [o]) = frames out ++ [f].
Proof. intros H. rewrite frames_app. unfold RfcommPortSpec.frames at 2. cbn. by rewrite H. Qed.

(** A frame with the octets in hand. *)
Lemma core_send_uih x g w s c :
  Core x g w s -> uncounted x = 0 -> 0 <= c < 2 ^ 8 -> 0 < size (hand x) <= mtu_tx ->
  (forall p, ports s !! k = Some p -> 1 <= credit_tx p) ->
  Core {| hand := []; uncounted := 1; ungranted := ungranted x + c; least := least x |} g w
    (emit (Sent m (Uih d c (hand x))) s).
Proof.
  intros (p & b & P & B & C) U Hc Hi H1. exists p, b. split; [done|]. split; [done|].
  specialize (H1 p P). core C. cbn [out emit].
  constructor; cbn [hand uncounted ungranted least]; try done;
    rewrite ?(frames_snoc _ _ _ (chan_uih c (hand x))), ?sum_app, ?data_app; cbn [sum credits_of uses_of].
  - intuition lia.
  - rewrite Ca. unfold data at 3. cbn. by rewrite app_nil_r, <- app_assoc.
  - lia.
  - lia.
  - lia.
  - rewrite Forall_app in Cfr |- *. destruct Cfr as [F1 F2]. rewrite Forall_app.
    split; [split; [done|]|done]. by constructor; [cbn|constructor].
  - apply lossless_app. done.
Qed.

(** The credit for a frame. *)
Lemma core_dec_credit x g w s :
  Core x g w s -> Aux w s -> uncounted x = 1 ->
  Core {| hand := hand x; uncounted := 0; ungranted := ungranted x; least := least x |} g w
    (rfc_dec_credit k s).
Proof.
  intros C A U. pose proof C as (p & b & P & B & CP). unfold rfc_dec_credit. rewrite P. cbn [mbind option_bind].
  assert (mcb_of p s = Some b) as ->.
  { unfold mcb_of. destruct A as [[W _] _]. pose proof (wf_id _ _ _ s W) as I.
    rewrite (ids_lookup s k p P) in I. injection I as -> _. done. }
  rewrite (c_flow _ _ _ _ _ _ CP). change (PORT_FC_CREDIT =? PORT_FC_CREDIT) with true. cbv iota.
  eapply core_port; [exact C|]. clear -U. intros p b o C. cbv zeta. core C.
  destruct (Z.ltb_spec 0 (credit_tx p)); [|lia].
  destruct (Z.eqb_spec (credit_tx p - 1) 0); constructor; cbn; try done; try lia.
  destruct Ctc as (_ & _ & ->). split; [lia|]. split; [lia|].
  destruct (Z.eqb_spec (credit_tx p) 0), (Z.eqb_spec (credit_tx p - 1) 0); lia.
Qed.

(** The port of the channel, in a state of the invariant. *)
Lemma aux_lookup w s p b :
  Aux w s -> ports s !! k = Some p -> mcbs s !! m = Some b ->
  p_mcb p = Some m /\ port_dlci p = d /\ mcb_of p s = Some b /\ port_find_mcb_dlci_port m d s = Some k.
Proof.
  intros [[W _] _] P B. pose proof (wf_id _ _ _ s W) as I. rewrite (ids_lookup s k p P) in I.
  injection I as M D. unfold mcb_of. rewrite M. cbn. auto using wf_find.
Qed.

(** Data in hand leaves the port: it is not held back, so L2CAP takes it. *)
Definition holding (l : list Z) : Progress := {| hand := l; uncounted := 0; ungranted := 0; least := 1 |}.

(** What an operation on the channel does not change: the queue of the port. *)
Definition queue_of (s : tRFC_CB) : option (list (list Z)) := (fun p => queue (tx p)) <$> ports s !! k.

Lemma queue_same s s' : Same s s' -> queue_of s' = queue_of s.
Proof.
  intros S. pose proof (same_port _ _ _ _ _ S) as V. unfold queue_of.
  destruct (ports s !! k) as [p|], (ports s' !! k) as [p'|]; try done. cbn in *.
  unfold port_view in V. injection V as ? ? ? ? ? ? ? ? ? ? Q ? ? ? ? ? ? ?. by rewrite Q.
Qed.

Lemma queue_port f s : (forall p, queue (tx (f p)) = queue (tx p)) -> queue_of (with_port k f s) = queue_of s.
Proof.
  intros H. unfold queue_of. cbn. rewrite list_lookup_alter_eq. destruct (ports s !! k); cbn; [|done]. by rewrite H.
Qed.

Lemma dec_credit_queue s : queue_of (rfc_dec_credit k s) = queue_of s.
Proof.
  unfold rfc_dec_credit. destruct (p ← _; _); [|done]. case_match; [|done].
  apply queue_port. intros p. cbv zeta. by destruct (_ =? 0).
Qed.

Lemma dec_credit_aux w s : Aux w s -> Aux w (rfc_dec_credit k s).
Proof.
  intros A. unfold rfc_dec_credit. destruct (p ← _; _); [|done]. case_match; [|done].
  apply aux_port; [|done]. intros p. cbv zeta. by destruct (_ =? 0).
Qed.

(** L2CAP takes a frame and may report congestion. *)
Lemma write_focus w s f b :
  Aux w s -> mcbs s !! m = Some b -> mcb_congested b = false ->
  Same (emit (Sent m f) s) (L2CA_DataWrite congests m f s).
Proof.
  intros [[W _] _] B C. unfold L2CA_DataWrite. rewrite B, C. cbv zeta.
  case_match; [apply congestion_started_same, (wf_enabled _ _ _ s W)|reflexivity].
Qed.

(** The credits that go with a frame. *)
Lemma grant_focus g w s l p (c := u8 (credit_rx_max p - credit_rx p)) :
  Aux w s -> Core (holding l) g w s -> ports s !! k = Some p -> credit_rx p < credit_rx_max p ->
  0 <= c < 2 ^ 8 /\
  Core {| hand := l; uncounted := 0; ungranted := - c; least := 1 |} g w
    (with_port k (set_credit_rx (credit_rx_max p)) s).
Proof.
  intros A (p0 & b & P0 & B & C) P H. rewrite P in P0. injection P0 as <-.
  assert (c = credit_rx_max p - credit_rx p) as E.
  { subst c. apply wrap_small. unfold in_range. core C. cbn in *. lia. }
  clearbody c. subst c. split; [core C; cbn in *; lia|].
  exists (set_credit_rx (credit_rx_max p) p), b. cbn. rewrite list_lookup_alter_eq, P.
  split; [done|]. split; [done|]. core C. cbn in *. constructor; cbn; try done; lia.
Qed.

Lemma sm_data_focus g w s l p b (s' := rfc_port_sm_data congests k l s) :
  Aux w s -> Core (holding l) g w s -> ports s !! k = Some p -> mcbs s !! m = Some b ->
  peer_ready b = true -> peer_fc (tx p) = false -> 0 < size l <= mtu_tx ->
  Aux w s' /\ Core at_rest g w s' /\ queue_of s' = queue_of s.
Proof.
  intros A C P B R F L. subst s'. destruct (aux_lookup w s p b A P B) as (M & D & _ & _).
  pose proof C as (p0 & b0 & P0 & B0 & CP). rewrite P in P0. rewrite B in B0.
  injection P0 as <-. injection B0 as <-.
  assert (1 <= credit_tx p) as H1.
  { core CP. cbn in *. destruct Ctc as (? & _ & E). rewrite F in E. symmetry in E. apply Z.eqb_neq in E. lia. }
  unfold rfc_port_sm_data. rewrite P. cbn [mbind option_bind]. rewrite M. cbn [mbind option_bind].
  rewrite B. cbn [mbind option_bind]. rewrite decide_True by apply CP. rewrite D.
  set (gr := _ && _). set (s1 := if gr then _ else s). set (c := if gr then _ else 0).
  assert (0 <= c < 2 ^ 8 /\ Core {| hand := l; uncounted := 0; ungranted := - c; least := 1 |} g w s1 /\
    Aux w s1 /\ queue_of s1 = queue_of s /\ mcbs s1 = mcbs s /\
    forall q, ports s1 !! k = Some q -> 1 <= credit_tx q) as (Hc & C1 & A1 & Q1 & M1 & T1).
  { subst s1 c. destruct gr eqn:G.
    - apply andb_prop in G as [_ G]. apply Z.ltb_lt in G.
      destruct (grant_focus g w s l p A C P G) as [G1 G2]. split; [done|]. split; [done|].
      split; [by apply aux_port|]. split; [by apply queue_port|]. split; [done|].
      intros q. cbn. rewrite list_lookup_alter_eq, P. by intros [= <-].
    - split; [done|]. split; [exact C|]. split; [done|]. split; [done|]. split; [done|].
      intros q Pq. rewrite P in Pq. by injection Pq as <-. }
  clearbody s1 c. pose proof (core_send_uih _ g w s1 c C1 eq_refl Hc L T1) as C2. cbn [hand ungranted least] in C2.
  replace (- c + c) with 0 in C2 by lia.
  assert (mcb_congested b = false) as Cg by exact (c_ready _ _ _ _ _ _ CP R).
  rewrite <- M1 in B. pose proof (write_focus w s1 (Uih d c l) b A1 B Cg) as S.
  pose proof (core_same _ _ _ _ _ C2 S) as C3.
  pose proof (aux_same _ _ _ (aux_emit w _ s1 A1) S) as A3.
  split; [by apply dec_credit_aux|]. split; [exact (core_dec_credit _ g w _ C3 A3 eq_refl)|].
  rewrite dec_credit_queue, (queue_same _ _ S). exact Q1.
Qed.

Lemma data_req_focus g w s l p b :
  Aux w s -> Core (holding l) g w s -> ports s !! k = Some p -> mcbs s !! m = Some b ->
  peer_ready b = true -> peer_fc (tx p) = false -> 0 < size l <= mtu_tx ->
  exists s', RFCOMM_DataReq congests m d l s = (PORT_SUCCESS, s') /\
    Aux w s' /\ Core at_rest g w s' /\ queue_of s' = queue_of s.
Proof.
  intros A C P B R F L. unfold RFCOMM_DataReq.
  destruct (aux_lookup w s p b A P B) as (_ & _ & _ & ->). eexists. split; [done|].
  by apply (sm_data_focus g w s l p b).
Qed.

(** A buffer taken from the queue. *)
Lemma take_buffer g w s p buf rest
    (s' := with_port k (set_tx (set_queue rest (u32 (queue_size (tx p) - size buf)) (tx p))) s) :
  Aux w s -> Core at_rest g w s -> ports s !! k = Some p -> queue (tx p) = buf :: rest ->
  Aux w s' /\ Core (holding buf) g w s' /\ queue_of s' = Some rest /\ 0 < size buf <= mtu_tx /\
  exists p', ports s' !! k = Some p' /\ peer_fc (tx p') = peer_fc (tx p).
Proof.
  intros A (p0 & b & P0 & B & C) P Q. rewrite P in P0. injection P0 as <-. subst s'.
  split; [by apply aux_port|]. unfold queue_of. cbn. rewrite list_lookup_alter_eq, P. cbn.
  core C. rewrite Q in *. destruct Ct as (Bq & Cq & Sq).
  inversion Bq as [|? ? Hb Br]; subst. rewrite total_cons in Sq. rewrite count_cons in Cq.
  destruct (total_bounds _ _ Br) as [Tb _]. pose proof (count_nonneg rest) as Cn.
  assert (total rest < 2 ^ 32) as Tr.
  { unfold RFCOMM_DATA_LENGTH, PORT_TX_BUF_CRITICAL_WM in *. nia. }
  assert (u32 (queue_size (tx p) - size buf) = total rest) as Eq.
  { rewrite Sq. replace (size buf + total rest - size buf) with (total rest) by lia.
    apply wrap_small. unfold in_range. lia. }
  split; [|split; [done|split; [lia|by eexists]]].
  eexists _, b. cbn. rewrite list_lookup_alter_eq, P. split; [done|]. split; [done|].
  rewrite Eq. constructor; cbn; try done. split; [done|]. split; [lia|done].
Qed.

Lemma blocked_empty s : queue_of s = Some [] -> Blocked s.
Proof.
  intros H p b P _ N. unfold queue_of in H. rewrite P in H. cbn in H. congruence.
Qed.

Lemma send_tx_loop_focus fuel g w e s p :
  Aux w s -> Core at_rest g w s -> ports s !! k = Some p -> (length (queue (tx p)) < fuel)%nat ->
  let s' := snd (send_tx_loop (RFCOMM_DataReq congests) fuel k e s) in
  Aux w s' /\ Core at_rest g w s' /\ Blocked s'.
Proof.
  revert e s p. induction fuel as [|fuel IH]; intros e s p A C P L; [lia|]. cbn [send_tx_loop].
  rewrite P. pose proof C as (p0 & b & P0 & B & CP). rewrite P in P0. injection P0 as <-.
  destruct (aux_lookup w s p b A P B) as (M & D & -> & _). rewrite M, D.
  destruct (peer_fc (tx p) || negb (peer_ready b)) eqn:R; cbn [snd].
  { split; [done|]. split; [done|]. intros p1 b1 P1 B1 _. rewrite P in P1. rewrite B in B1.
    injection P1 as <-. injection B1 as <-. apply orb_prop in R as [?|R]; [by left|right]. by destruct (peer_ready b). }
  apply orb_false_elim in R as [R1 R2]. apply negb_false_iff in R2.
  destruct (queue (tx p)) as [|buf rest] eqn:Q; cbn [snd].
  { split; [done|]. split; [done|]. apply blocked_empty. unfold queue_of. rewrite P. cbn. by rewrite Q. }
  destruct (take_buffer g w s p buf rest A C P Q) as (A1 & C1 & Q1 & Lb & p1 & P1 & F1).
  set (s1 := with_port k _ s) in *. rewrite R1 in F1.
  destruct (data_req_focus g w s1 buf p1 b A1 C1 P1 B R2 F1 Lb) as (s2 & -> & A2 & C2 & Q2).
  rewrite decide_True by done. rewrite Q1 in Q2. destruct C2 as (p2 & b2 & P2 & B2 & CP2). rewrite P2.
  assert (queue (tx p2) = rest) as Er by (unfold queue_of in Q2; rewrite P2 in Q2; cbn in Q2; congruence).
  assert (Core at_rest g w s2) as C2 by by exists p2, b2.
  case_match eqn:Z0; cbn [snd].
  - split; [done|]. split; [done|]. apply blocked_empty. rewrite Q2. f_equal.
    apply Z.eqb_eq in Z0. destruct (c_txq _ _ _ _ _ _ CP2) as (Bq & _ & Sq). rewrite Er in *.
    apply (total_bounds _ _ Bq). lia.
  - apply (IH _ s2 p2 A2 C2 P2). rewrite Er. cbn in L. lia.
Qed.

(** What waits is sent as far as the peer allows. *)
Lemma send_tx_data_focus g w s :
  Aux w s -> Core at_rest g w s -> Inv g (snd (send_tx_data (RFCOMM_DataReq congests) k s)).
Proof.
  intros A C. unfold send_tx_data. pose proof C as (p & b & P & B & CP). rewrite P.
  destruct (Z.ltb_spec 0 (queue_size (tx p))) as [Hq|Hq]; cbn [snd].
  - pose proof (send_tx_loop_focus (S (length (queue (tx p)))) g w 0 s p A C P ltac:(lia)) as H.
    destruct (send_tx_loop _ _ k 0 s) as [e s1]. cbn [snd] in H.
    pose proof (flow_control_user_same k m d k s1) as S.
    destruct (port_flow_control_user k s1) as [e' s2]. cbn [snd] in *.
    apply (port_inv_same g s1); [|done]. by exists w.
  - exists w. split; [done|]. split; [done|]. apply blocked_empty. unfold queue_of. rewrite P. cbn. f_equal.
    destruct (c_txq _ _ _ _ _ _ CP) as (Bq & _ & Sq). destruct (total_bounds _ _ Bq) as [? E]. apply E. lia.
Qed.

Lemma flow_ind_port_focus g w s :
  Aux w s -> Core at_rest g w s -> Inv g (flow_ind_port (RFCOMM_DataReq congests) k s).
Proof.
  intros A C. unfold flow_ind_port. pose proof (flow_control_user_same k m d k s) as S1.
  destruct (port_flow_control_user k s) as [e1 s1]. cbn [snd] in S1.
  pose proof (send_tx_data_focus g w s1 (aux_same _ _ _ A S1) (core_same _ _ _ _ _ C S1)) as I.
  destruct (send_tx_data _ k s1) as [e2 s2]. cbn [snd] in I.
  apply (port_inv_same g s2); [done|]. apply callback_same.
Qed.

(** All ports of the multiplexer are told. *)
Definition Near (g : Ghost) (s : tRFC_CB) : Prop := exists w, Aux w s /\ Core at_rest g w s.

Lemma inv_near g s : Inv g s -> Near g s.
Proof. intros (w & A & C & _). by exists w. Qed.

Lemma near_same g s s' : Near g s -> Same s s' -> Near g s'.
Proof. intros (w & A & C) S. exists w. split; [by eapply aux_same|by eapply core_same]. Qed.

Lemma flow_ind_all_focus g s : Near g s -> Inv g (flow_ind_all (RFCOMM_DataReq congests) m s).
Proof.
  intros H. unfold flow_ind_all. assert (k ∈ seq 0 (length (ports s))) as K.
  { destruct H as (w & _ & p & b & P & _). apply elem_of_seq. apply lookup_lt_Some in P. lia. }
  assert (k ∈ seq 0 (length (ports s)) \/ Inv g s) as I by by left. clear K. revert H I.
  generalize (seq 0 (length (ports s))). intros l. revert s.
  induction l as [|j l IH]; intros s H I; [destruct I as [I|I]; [by apply not_elem_of_nil in I|done]|].
  cbn [fold_left]. set (s1 := match ports s !! j with Some _ => _ | None => _ end).
  destruct (decide (j = k)) as [->|N].
  - assert (Inv g s1) as I1; [|apply IH; [by apply inv_near|by right]].
    destruct H as (w & A & C). pose proof C as (p & b & P & B & CP). subst s1. rewrite P.
    destruct (aux_lookup w s p b A P B) as (M & _). destruct (c_open _ _ _ _ _ _ CP) as (-> & _ & -> & _).
    rewrite M, !bool_decide_true by done. cbn [andb]. by apply (flow_ind_port_focus g w).
  - assert (Same s s1) as S.
    { subst s1. destruct (ports s !! j) as [p|]; [|reflexivity]. case_match; [|reflexivity].
      destruct H as (w & [[W _] _] & _). apply flow_ind_port_other; [apply RFCOMM_DataReq_other|done|done]. }
    apply IH; [by eapply near_same|]. destruct I as [I|I]; [left|right; by eapply port_inv_same].
    apply elem_of_cons in I as [I|I]; [congruence|done].
Qed.

(** Commands of the channel carry no data. *)
Lemma waiting_cons f q : waiting (f :: q) = waiting [f] ++ waiting q.
Proof. apply (waiting_app m d [f] q). Qed.

Lemma waiting_one f : waiting [f] = [] \/ waiting [f] = [f].
Proof.
  unfold RfcommPortSpec.waiting, RfcommPortSpec.frames. destruct f; cbn; try (by left); case_decide; auto.
Qed.

Lemma waiting_commands q : Forall is_command q -> data (waiting q) = [] /\ sum uses_of (waiting q) = 0.
Proof.
  induction 1 as [|f q F _ [IH1 IH2]]; [done|]. rewrite waiting_cons, data_app, sum_app, IH1, IH2.
  destruct (waiting_one f) as [->| ->]; [done|]. by destruct f.
Qed.

Lemma sum_credits l : Forall frame_ok l -> 0 <= sum credits_of l.
Proof. induction 1 as [|f l F _ IH]; cbn; [done|]. destruct f; cbn in *; lia. Qed.

(** L2CAP takes the commands [q] after the outputs [o] without congestion. *)
Fixpoint fits (q : list Frame) (o : list Output) : bool :=
  match q with
  | [] => true
  | f :: q => negb (congests (o ++ [Sent m f])) && fits q (o ++ [Sent m f])
  end.

(** Commands that waited are sent, if they do not congest the channel. *)
Definition emits (l : list Output) (s : tRFC_CB) : tRFC_CB :=
  {| tables := tables s; peer_rx_disabled := peer_rx_disabled s; ports := ports s; mcbs := mcbs s;
     out := out s ++ l |}.

Lemma send_commands_all q s b :
  mcbs s !! m = Some b -> mcb_congested b = false -> fits q (out s) = true ->
  send_commands congests m q s = with_mcb m (set_cmd_q []) (emits (Sent m <$> q) s).
Proof.
  intros B C. revert s B. induction q as [|f q IH]; intros s B F; cbn [send_commands]; rewrite B, C.
  - unfold emits. cbn. rewrite app_nil_r. by destruct s.
  - cbn [fits] in F. apply andb_prop in F as [F1%negb_true_iff F2].
    unfold L2CA_DataWrite. rewrite B, C. cbv zeta. cbn [emit out]. rewrite F1.
    rewrite IH by done. unfold emits, emit. cbn. by rewrite <- app_assoc.
Qed.

Lemma lossless_sent q : lossless k m d (Sent m <$> q).
Proof. induction q as [|f q IH]; [done|]. unfold lossless in *. cbn. by rewrite IH. Qed.

Lemma core_flush x g q w s :
  Core x g (waiting q ++ w) s -> Forall is_command q -> Core x g w (emits (Sent m <$> q) s).
Proof.
  intros (p & b & P & B & C) F. exists p, b. split; [done|]. split; [done|]. cbn [out emits].
  destruct (waiting_commands q F) as [D U].
  assert (frames (out s ++ (Sent m <$> q)) = frames (out s) ++ waiting q) as E by apply frames_app.
  core C. rewrite sum_app in Cg. assert (0 <= sum credits_of (waiting q)) as Z.
  { rewrite !Forall_app in Cfr. apply sum_credits, Cfr. }
  constructor; rewrite ?E, ?data_app, ?sum_app, ?D, ?U, ?app_nil_r; try done; try lia.
  - by rewrite <- app_assoc.
  - apply lossless_app. split; [done|apply lossless_sent].
Qed.

Lemma core_mcb x g w f s :
  (forall b, mcbs s !! m = Some b -> mcb_flow (f b) = mcb_flow b /\
     (peer_ready (f b) = true -> mcb_congested (f b) = false)) ->
  Core x g w s -> Core x g w (with_mcb m f s).
Proof.
  intros H (p & b & P & B & C). exists p, (f b). cbn. rewrite list_lookup_alter_eq, B.
  split; [done|]. split; [done|]. destruct (H b B) as [H1 H2]. core C. constructor; try done; congruence.
Qed.

Lemma wf_mcb j f s :
  (forall b, (port_handles (f b), mcb_flow (f b)) = (port_handles b, mcb_flow b)) ->
  Wf s -> Wf (with_mcb j f s).
Proof.
  intros H [A B C D E F]. assert (handles (with_mcb j f s) = handles s) as I by by apply alter_fmap_id.
  constructor; try done.
  - by rewrite (port_find_handles m d _ s I).
  - intros m' d'. rewrite (port_find_handles m' d' _ s I). apply C.
Qed.

Lemma wf_emits l s : Wf s -> Wf (emits l s).
Proof. by intros []. Qed.

(** The multiplexer of the channel after a change. *)
Lemma aux_mcb w w' f s b :
  (forall b, (port_handles (f b), mcb_flow (f b)) = (port_handles b, mcb_flow b)) ->
  Aux w s -> mcbs s !! m = Some b -> quiet_queue (f b) -> waiting (mcb_cmd_q (f b)) = w' ->
  peer_ready (f b) = negb (mcb_congested (f b)) -> Aux w' (with_mcb m f s).
Proof.
  intros H [[W Q] A] B Qb Wb R. split.
  - split; [by apply wf_mcb|]. intros b'. cbn. rewrite list_lookup_alter_eq, B. by intros [= <-].
  - intros b'. cbn. rewrite list_lookup_alter_eq, B. by intros [= <-].
Qed.

(** The congestion of the channel is over, and there is room for the commands that wait. *)
Definition has_room (s : tRFC_CB) : bool :=
  match mcbs s !! m with Some b => fits (mcb_cmd_q b) (out s) | None => true end.

Lemma uncongested_focus g s : Inv g s -> has_room s = true ->
  Inv g (rfc_process_l2cap_congestion congests m false s).
Proof.
  intros (w & A & C & _) Hr. pose proof C as (p & b & P & B & CP).
  unfold rfc_process_l2cap_congestion, rfc_check_send_cmd.
  set (s1 := with_mcb m (set_congested false) s).
  assert (mcbs s1 !! m = Some (set_congested false b)) as B1 by (cbn; by rewrite list_lookup_alter_eq, B).
  rewrite B1. cbn [mcb_cmd_q set_congested]. rewrite app_nil_r.
  pose proof (proj2 (proj2 (proj1 A) b B)) as Fc.
  unfold has_room in Hr. rewrite B in Hr. rewrite (send_commands_all _ s1 _ B1 eq_refl Hr).
  cbn [peer_rx_disabled with_mcb emits s1]. rewrite (wf_enabled _ _ _ s (proj1 (proj1 A))).
  unfold PORT_FlowInd, flow_ind. change (0 =? 0) with true. cbv iota. cbn [negb]. apply flow_ind_all_focus.
  set (f := set_peer_ready true ∘ set_cmd_q [] ∘ set_congested false).
  assert (with_mcb m (set_peer_ready true) (with_mcb m (set_cmd_q []) (emits (Sent m <$> mcb_cmd_q b) s1)) =
    emits (Sent m <$> mcb_cmd_q b) (with_mcb m f s)) as ->.
  { subst s1. unfold emits, with_mcb. cbn. by rewrite !list_alter_alter_eq. }
  exists []. destruct (proj2 A b B) as [Wb _]. split.
  - assert (Aux [] (with_mcb m f s)) as [[W Q] A'] by by apply (aux_mcb w [] f s b).
    split; [split; [by apply wf_emits|done]|done].
  - apply core_flush; [|done]. rewrite app_nil_r, Wb. by apply core_mcb.
Qed.

(** A credit for the peer: sent, or queued behind the other commands. *)
Definition granted (c : Z) (x : Progress) : Progress :=
  {| hand := hand x; uncounted := uncounted x; ungranted := ungranted x + c; least := least x |}.

Lemma waiting_credit c : waiting [Credit d c] = [Credit d c].
Proof. unfold RfcommPortSpec.waiting, RfcommPortSpec.frames. cbn. by rewrite decide_True. Qed.

Lemma core_send_credit x g s c :
  Core x g [] s -> 0 < c < 2 ^ 8 -> Core (granted c x) g [] (emit (Sent m (Credit d c)) s).
Proof.
  intros (p & b & P & B & C) Hc. exists p, b. split; [done|]. split; [done|].
  core C. cbn [out emit]. constructor; cbn [hand uncounted ungranted least granted]; try done;
    rewrite ?(frames_snoc _ _ _ (chan_credit c)), ?sum_app, ?data_app; cbn [sum credits_of uses_of] in *;
    try lia.
  - rewrite Ca. unfold data at 3. cbn. by rewrite app_nil_r.
  - rewrite app_nil_r in *. apply Forall_app_2; [done|]. by constructor.
  - apply lossless_app. done.
Qed.

Lemma core_queue_credit x g w s c :
  Core x g w s -> 0 < c < 2 ^ 8 -> Core (granted c x) g (w ++ [Credit d c]) s.
Proof.
  intros (p & b & P & B & C) Hc. exists p, b. split; [done|]. split; [done|]. core C.
  constructor; cbn [hand uncounted ungranted least granted]; try done.
  - rewrite sum_app. cbn [sum credits_of]. lia.
  - rewrite app_assoc. apply Forall_app_2; [done|]. by constructor.
Qed.

Lemma blocked_mcb f s : (forall b, peer_ready (f b) = peer_ready b) -> Blocked s -> Blocked (with_mcb m f s).
Proof.
  intros H Bl p b P. cbn. rewrite list_lookup_alter_eq. destruct (mcbs s !! m) as [b0|] eqn:B; [|done].
  intros [= <-] N. rewrite H. by apply (Bl p b0 P B).
Qed.

Lemma send_credit_focus x g w s c (s' := send_cmd congests m (Credit d c) s) :
  Aux w s -> Core x g w s -> 0 < c < 2 ^ 8 ->
  exists w', Aux w' s' /\ Core (granted c x) g w' s' /\ (Blocked s -> Blocked s') /\
    forall p, ports s !! k = Some p -> exists p', ports s' !! k = Some p' /\ port_view p' = port_view p.
Proof.
  intros A C Hc. subst s'. pose proof C as (p & b & P & B & CP). destruct (proj2 A b B) as [Wb Rb].
  pose proof (proj2 (proj1 A) b B) as Qb. unfold send_cmd, rfc_check_send_cmd. rewrite B.
  destruct (mcb_congested b) eqn:Cg.
  - rewrite (send_commands_congested congests m b _ s B Cg).
    set (f := set_cmd_q (mcb_cmd_q b ++ [Credit d c])). exists (w ++ [Credit d c]). split.
    { apply (aux_mcb w _ f s b); [done|done|done| | |by cbn; rewrite Cg].
      - split; cbn; [congruence|]. apply Forall_app_2; [apply Qb|by constructor].
      - subst f. cbn [set_cmd_q mcb_cmd_q]. by rewrite waiting_app, Wb, waiting_credit. }
    split; [|split; [by apply blocked_mcb|by eauto]]. apply core_mcb; [|by apply core_queue_credit].
    intros b0 B0. rewrite B in B0. injection B0 as <-. split; [done|]. cbn in Rb |- *. congruence.
  - rewrite (proj1 Qb Cg) in *. cbn [app waiting] in *.
    assert (w = []) as -> by done. exists [].
    pose proof (write_focus [] s (Credit d c) b A B Cg) as S.
    set (s1 := L2CA_DataWrite congests m (Credit d c) s) in *.
    assert (send_commands congests m [Credit d c] s = with_mcb m (set_cmd_q []) s1) as ->.
    { cbn [send_commands]. rewrite B, Cg. fold s1.
      destruct (same_mcb_forward _ _ _ (emit (Sent m (Credit d c)) s) s1 b S B) as (b1 & -> & _).
      by destruct (mcb_congested b1). }
    pose proof (aux_same _ _ _ (aux_emit [] (Sent m (Credit d c)) s A) S) as A1.
    pose proof (core_same _ _ _ _ _ (core_send_credit x g s c C Hc) S) as C1.
    pose proof C1 as (p1 & b1 & P1 & B1 & _). destruct (proj2 A1 b1 B1) as [_ R1].
    split; [by apply (aux_mcb [] [] (set_cmd_q []) s1 b1)|].
    split; [apply core_mcb; [|done]; intros b2 B2; rewrite B1 in B2; injection B2 as <-|].
    { split; [done|]. cbn. rewrite R1. by destruct (mcb_congested b1). }
    split; [intros Bl; apply blocked_mcb; [done|]; by apply (blocked_same (emit (Sent m (Credit d c)) s))|].
    intros p2 P2. exact (same_view (emit (Sent m (Credit d c)) s) s1 p2 S P2).
Qed.

(** The clause on the transmit queue looks at these only. *)
Lemma blocked_eq s s' :
  Blocked s ->
  (forall p', ports s' !! k = Some p' -> exists p, ports s !! k = Some p /\
     queue (tx p') = queue (tx p) /\ peer_fc (tx p') = peer_fc (tx p)) ->
  (forall b', mcbs s' !! m = Some b' -> exists b, mcbs s !! m = Some b /\ peer_ready b' = peer_ready b) ->
  Blocked s'.
Proof.
  intros H Hp Hb p' b' P' B' N. destruct (Hp p' P') as (p & P & Q & F). destruct (Hb b' B') as (b & B & R).
  rewrite F, R. apply (H p b P B). congruence.
Qed.

Lemma blocked_port f s :
  (forall p, queue (tx (f p)) = queue (tx p) /\ peer_fc (tx (f p)) = peer_fc (tx p)) ->
  Blocked s -> Blocked (with_port k f s).
Proof.
  intros H Bl. apply (blocked_eq s); [done| |by eauto]. intros p'. cbn. rewrite list_lookup_alter_eq.
  destruct (ports s !! k) as [p|]; [|done]. intros [= <-]. exists p. split; [done|]. apply H.
Qed.

(** Where the credits for frames that were read are still to be given. *)
Definition owing (n : Z) : Progress := {| hand := []; uncounted := 0; ungranted := - n; least := 1 |}.
Definition between (u : Z) : Progress := {| hand := []; uncounted := 0; ungranted := u; least := 0 |}.

Lemma owing_credit n g w p b o : CoreP (owing n) g w p b o -> 0 <= n ->
  (if credit_rx p <? n then 0 else credit_rx p - n) = credit_rx p - n /\
  CoreP (between 0) g w (set_credit_rx (credit_rx p - n) p) b o /\ 0 <= credit_rx p - n <= maxc.
Proof.
  intros C N. core C. cbn in *.
  assert (0 <= sum credits_of w) as Z by (apply sum_credits; rewrite Forall_app in Cfr; apply Cfr).
  pose proof (count_nonneg (queue (rx p))).
  destruct (Z.ltb_spec (credit_rx p) n); [lia|]. split; [done|]. split; [|lia].
  constructor; cbn; try done; lia.
Qed.

(** The peer has its credits back up to the maximum. *)
Lemma refill g w p b o :
  CoreP (between (maxc - credit_rx p)) g w p b o ->
  CoreP at_rest g w (set_rx (set_peer_fc false (rx p)) (set_credit_rx maxc p)) b o.
Proof. intros C. core C. cbn in *. constructor; cbn; try done; lia. Qed.

Lemma give_credits g w s n :
  Aux w s -> Core (owing n) g w s -> 0 <= n -> Blocked s ->
  Inv g (port_flow_control_peer congests k true n s).
Proof.
  intros A C N Bl. pose proof C as (p & b & P & B & CP).
  destruct (aux_lookup w s p b A P B) as (M & D & _ & _).
  destruct (owing_credit n g w p b _ CP N) as (E & CP1 & Hc).
  destruct (c_limits _ _ _ _ _ _ CP) as (_ & Mx & Lo & _). destruct (c_rxq _ _ _ _ _ _ CP) as (_ & _ & Uf).
  unfold port_flow_control_peer. rewrite P. cbn [mbind option_bind]. rewrite M. cbn [mbind option_bind].
  rewrite B. cbn [mbind option_bind]. rewrite (c_flow _ _ _ _ _ _ CP).
  change (PORT_FC_CREDIT =? PORT_FC_CREDIT) with true. cbv iota. rewrite E, Mx, D, Uf. clear E.
  set (c := credit_rx p - n) in *. set (s1 := with_port k (set_credit_rx c) s).
  assert (ports s1 !! k = Some (set_credit_rx c p)) as P1 by (cbn; by rewrite list_lookup_alter_eq, P).
  assert (Core (between 0) g w s1) as C1 by by exists (set_credit_rx c p), b.
  assert (Aux w s1) as A1 by by apply aux_port.
  assert (Blocked s1) as Bl1 by by apply blocked_port.
  destruct ((c <=? credit_rx_low p) && negb false && (c <? maxc)) eqn:G.
  - apply andb_prop in G as [_ G]. apply Z.ltb_lt in G.
    assert (u8 (maxc - c) = maxc - c) as -> by (apply wrap_small; unfold in_range; lia).
    destruct (send_credit_focus (between 0) g w s1 (maxc - c) A1 C1 ltac:(lia))
      as (w2 & A2 & C2 & Bl2 & V2).
    destruct (V2 _ P1) as (p2 & P2 & V). set (s2 := send_cmd congests m _ s1) in *.
    exists w2. split; [by apply aux_port|]. split; [|by apply blocked_port; [|apply Bl2]].
    destruct C2 as (p2' & b2 & Pp2 & Bb2 & C2). rewrite P2 in Pp2. injection Pp2 as <-.
    assert (credit_rx p2 = c /\ credit_rx_max p2 = maxc) as [Ec Em].
    { unfold port_view in V. injection V as ? ? ? ? ? ? ? ? ? ? ? ? ? ? ? ? ? ?. cbn in *. lia. }
    eexists _, b2. cbn [ports with_port]. rewrite list_lookup_alter_eq, P2. split; [reflexivity|].
    split; [done|]. rewrite Em. apply refill. rewrite Ec. exact C2.
  - exists w. split; [done|]. split; [|done]. exists (set_credit_rx c p), b. split; [done|]. split; [done|].
    assert (1 <= c) as H1.
    { rewrite andb_true_r in G. apply andb_false_iff in G as [G|G]; [apply Z.leb_gt in G|apply Z.ltb_ge in G]; lia. }
    core CP1. cbn in *. constructor; cbn; try done. lia.
Qed.

(** *** The application reads *)

Lemma read_loop_spec q n c qs l c' q' qs' :
  read_loop q n c qs = (l, c', q', qs') -> buffers mtu_rx q -> 0 <= n -> qs = total q -> total q < 2 ^ 32 ->
  concat q = l ++ concat q' /\ qs' = total q' /\ buffers mtu_rx q' /\
  c' - c = count q - count q' /\ c <= c' /\ size l = Z.min n (total q).
Proof.
  revert n c qs l c' q' qs'.
  induction q as [|b q IH]; intros n c qs l c' q' qs' R Bq N -> T; cbn [read_loop] in R.
  { injection R as <- <- <- <-. cbn. repeat split; try done; try lia. unfold total, size. cbn. lia. }
  inversion Bq as [|? ? Hb Br]; subst. rewrite total_cons, ?count_cons in *.
  destruct (total_bounds _ _ Br) as [Tb _].
  destruct (Z.eqb_spec n 0) as [->|N0].
  { injection R as <- <- <- <-. rewrite total_cons, count_cons. repeat split; try done; try lia. unfold size at 1. cbn. lia. }
  destruct (Z.ltb_spec n (size b)) as [L|L].
  { injection R as <- <- <- <-. rewrite total_cons, count_cons.
    assert (size (take (Z.to_nat n) b) = n /\ size (drop (Z.to_nat n) b) = size b - n) as [E1 E2].
    { unfold size in *. rewrite length_take, length_drop. lia. }
    rewrite E1, E2. cbn [concat]. rewrite app_assoc, take_drop. split; [done|]. split.
    { rewrite wrap_small; [lia|]. unfold in_range. lia. }
    split; [constructor; [lia|done]|]. lia. }
  destruct (read_loop q _ _ _) as [[[l1 c1] q1] qs1] eqn:R1. injection R as <- <- <- <-.
  apply IH in R1; [|done|lia| |lia].
  2: { rewrite wrap_small; [lia|]. unfold in_range. lia. }
  destruct R1 as (E & -> & B1 & C1 & C2 & Sz). cbn [concat]. rewrite E, app_assoc, size_app. repeat split; try done; lia.
Qed.

(** The frames in the receive queue are within the credits. *)
Lemma rx_queue_bound x g w p b o : CoreP x g w p b o -> ungranted x = 0 -> count (queue (rx p)) <= maxc.
Proof.
  intros C U. core C. assert (0 <= sum credits_of w) as Z by (apply sum_credits; rewrite Forall_app in Cfr; apply Cfr).
  lia.
Qed.

Lemma rx_total_bound x g w p b o :
  CoreP x g w p b o -> ungranted x = 0 -> 0 <= total (queue (rx p)) <= maxc * mtu_rx.
Proof.
  intros C U. pose proof (rx_queue_bound _ _ _ _ _ _ C U). destruct (c_rxq _ _ _ _ _ _ C) as (Bq & _).
  destruct (total_bounds _ _ Bq). nia.
Qed.

Lemma critical_small : PORT_RX_CRITICAL_WM < 2 ^ 32.
Proof. done. Qed.

Definition give (l : list Z) (g : Ghost) : Ghost :=
  {| accepted := accepted g; credits_got := credits_got g; received := received g;
     delivered := delivered g ++ l |}.

Lemma usable_focus w s p b x g :
  Aux w s -> ports s !! k = Some p -> CoreP x g w p b (out s) -> usable (Z.of_nat k + 1) s = inr (k, p).
Proof.
  intros A P C. unfold usable, get_port_from_handle. apply lookup_lt_Some in P as L.
  destruct (Z.eqb_spec (Z.of_nat k + 1) 0); [lia|]. destruct (Z.ltb_spec (Z.of_nat (length (ports s))) (Z.of_nat k + 1)); [lia|].
  cbn [orb mbind option_bind]. replace (Z.to_nat (Z.of_nat k + 1 - 1)) with k by lia. rewrite P.
  cbn [mbind option_bind]. destruct (c_open _ _ _ _ _ _ C) as (-> & -> & _). done.
Qed.

(** A read takes the oldest octets, as many as are asked for and there, and gives the peer
    credits for the buffers it empties. *)
Lemma PORT_ReadData_focus g s n r l s' :
  Inv g s -> 0 <= n -> PORT_ReadData congests (Z.of_nat k + 1) n s = (r, l, s') ->
  Inv (give l g) s' /\
  forall p, ports s !! k = Some p ->
    if line_status p =? 0 then r = PORT_SUCCESS /\ size l = Z.min n (total (queue (rx p)))
    else r = PORT_LINE_ERR /\ l = [].
Proof.
  intros (w & A & C & Bl) N. pose proof C as (p & b & P & B & CP). unfold PORT_ReadData.
  rewrite (usable_focus w s p b _ g A P CP).
  assert (give [] g = g) as G0 by (unfold give; rewrite app_nil_r; by destruct g).
  destruct (Z.eqb_spec (line_status p) 0) as [E|E]; cbn [negb].
  2: { intros [= <- <- <-]. rewrite G0. split; [by exists w|]. intros p0 P0. rewrite P in P0. injection P0 as <-.
       destruct (Z.eqb_spec (line_status p) 0); done. }
  destruct (queue (rx p)) as [|f q] eqn:Q.
  { intros [= <- <- <-]. rewrite G0. split; [by exists w|]. intros p0 P0. rewrite P in P0. injection P0 as <-.
    rewrite E, Q. cbn. unfold total, size. cbn. split; [done|lia]. }
  rewrite <- Q. clear f q Q. destruct (read_loop _ _ _ _) as [[[l1 c1] q1] qs1] eqn:R.
  pose proof (rx_total_bound _ _ _ _ _ _ CP eq_refl) as Tb. pose proof critical_small.
  core CP. cbn [ungranted at_rest] in Cg. destruct Cx as (Bq & Sq & Uf).
  destruct (read_loop_spec _ _ _ _ _ _ _ _ R Bq N Sq) as (E1 & -> & B1 & C1 & C2 & Sz); [lia|].
  intros [= <- <- <-]. split.
  2: { intros p0 P0. rewrite P in P0. injection P0 as <-. by rewrite E. }
  apply (give_credits (give l1 g) w); [by apply aux_port| |lia|].
  2: { apply (blocked_eq s); [done| |by eauto]. intros p'. cbn. rewrite list_lookup_alter_eq, P. intros [= <-]. by exists p. }
  eexists _, b. cbn. rewrite list_lookup_alter_eq, P. split; [done|]. split; [done|].
  constructor; cbn; try done; try lia.
  rewrite Cv, E1. by rewrite app_assoc.
Qed.

(** *** Credits from the peer *)

Definition get_credits (c : Z) (g : Ghost) : Ghost :=
  {| accepted := accepted g; credits_got := credits_got g + c; received := received g;
     delivered := delivered g |}.

Lemma aux_nonzero w s : Aux w s -> d <> 0.
Proof. intros [[W _] _]. exact (wf_channels _ _ _ s W k _ _ (wf_id _ _ _ s W)). Qed.

(** Credits wake up the port, which sends what waited for them. *)
Lemma rfc_inc_credit_focus g s c :
  Inv g s -> 0 < c -> (forall p, ports s !! k = Some p -> credit_tx p + c < 2 ^ 16) ->
  Inv (get_credits c g) (rfc_inc_credit congests k c s).
Proof.
  intros (w & A & C & Bl) H0 H1. pose proof C as (p & b & P & B & CP). specialize (H1 p P).
  destruct (aux_lookup w s p b A P B) as (M & D & _ & F).
  unfold rfc_inc_credit. rewrite P. cbn [mbind option_bind]. rewrite M. cbn [mbind option_bind]. rewrite B.
  cbn [mbind option_bind]. rewrite (c_flow _ _ _ _ _ _ CP), D. change (PORT_FC_CREDIT =? PORT_FC_CREDIT) with true.
  cbv iota. assert (u16 (credit_tx p + c) = credit_tx p + c) as ->.
  { apply wrap_small. unfold in_range. core CP. cbn in *. lia. }
  set (s1 := with_port k (set_credit_tx (credit_tx p + c)) s).
  assert (Aux w s1) as A1 by by apply aux_port. core CP.
  cbn [hand uncounted ungranted at_rest] in *. destruct Ctc as (Z1 & _ & Z2).
  destruct (peer_fc (tx p)) eqn:Fc.
  - unfold PORT_FlowInd, flow_ind. destruct (Z.eqb_spec d 0) as [E|_]; [by apply (aux_nonzero w s A) in E|].
    change (port_find_mcb_dlci_port m d s1) with (port_find_mcb_dlci_port m d s). rewrite F.
    apply (flow_ind_port_focus _ w); [by apply aux_port|].
    eexists _, b. cbn. rewrite !list_lookup_alter_eq, P. split; [done|]. split; [done|].
    constructor; cbn; try done; lia.
  - exists w. split; [done|]. split; [|by apply blocked_port].
    eexists _, b. cbn. rewrite !list_lookup_alter_eq, P. split; [done|]. split; [done|].
    constructor; cbn; try done; rewrite ?Fc; lia.
Qed.

(** *** Data from the peer *)

Definition receive (l : list Z) (g : Ghost) : Ghost :=
  {| accepted := accepted g; credits_got := credits_got g; received := received g ++ [l];
     delivered := delivered g |}.

(** The port of the channel is found, and its multiplexer. *)
Lemma data_ind_focus g s l :
  Inv g s -> 0 < size l <= mtu_rx -> count (received g) < rx0 + sum credits_of (frames (out s)) ->
  let s' := PORT_DataInd congests co_callback m d l s in
  Inv (receive l g) s' /\ frames (out s') = frames (out s).
Proof.
  intros (w & A & C & Bl) L H. pose proof C as (p & b & P & B & CP).
  destruct (aux_lookup w s p b A P B) as (M & D & _ & F).
  unfold PORT_DataInd. rewrite F. cbn [mbind option_bind]. rewrite P. cbn [mbind option_bind].
  destruct (c_open _ _ _ _ _ _ CP) as (_ & _ & _ & ->).
  pose proof (count_nonneg (queue (rx p))) as Cn. destruct (c_limits _ _ _ _ _ _ CP) as (_ & _ & _ & Cr).
  assert (count (queue (rx p)) + 1 <= maxc) as Hc.
  { core CP. assert (0 <= sum credits_of w) by (apply sum_credits; rewrite Forall_app in Cfr; apply Cfr).
    cbn [ungranted at_rest least] in *. lia. }
  destruct (c_rxq _ _ _ _ _ _ CP) as (Bq & Sq & Uf). destruct (total_bounds _ _ Bq) as [Tb _].
  assert (total (queue (rx p)) + size l <= PORT_RX_CRITICAL_WM) as Ht by nia.
  pose proof critical_small as Cs.
  destruct (Z.ltb_spec PORT_RX_CRITICAL_WM (queue_size (rx p) + size l)); [lia|].
  destruct (Z.ltb_spec (rx_buf_critical p) (count (queue (rx p)) + 1)); [lia|]. cbn [orb]. cbv zeta.
  match goal with |- Inv _ (notify_data k ?f (port_flow_control_peer _ _ _ _ ?x)) /\ _ => set (s1 := x); set (fl := f) end.
  assert (Same s1 (notify_data k fl (port_flow_control_peer congests k false 0 s1))) as S.
  { etransitivity; [|apply notify_data_same].
    unfold port_flow_control_peer. destruct (p' ← _; _) as [[[p' m'] b']|] eqn:E; [|reflexivity].
    assert (mcb_flow b' = PORT_FC_CREDIT) as ->.
    { subst s1. cbn in E. rewrite list_lookup_alter_eq, P in E. cbn in E. rewrite M in E. cbn in E.
      rewrite B in E. injection E as _ _ <-. apply CP. }
    change (PORT_FC_CREDIT =? PORT_FC_CREDIT) with true. cbv iota.
    case_match; [by apply with_port_same|reflexivity]. }
  split; [|by rewrite (same_frames _ _ _ _ _ S)]. apply (port_inv_same _ s1); [|done].
  exists w. split; [by apply aux_port|]. split; [|by apply blocked_port].
  subst s1. eexists _, b. cbn. rewrite list_lookup_alter_eq, P. split; [done|]. split; [done|].
  core CP. cbn [hand uncounted ungranted at_rest] in *. constructor; cbn; try done; try lia.
  - split; [apply Forall_app_2; [done|by constructor]|]. split; [|done].
    rewrite total_app, total_cons, octets_nil. rewrite wrap_small; [lia|]. unfold in_range. lia.
  - rewrite !concat_app, Cv. cbn. by rewrite !app_nil_r, app_assoc.
  - rewrite !count_app. lia.
  - rewrite count_app, count_cons. change (count []) with 0. lia.
Qed.

(** A frame of the channel that comes from the peer. *)
Definition from_peer (f : Frame) (s : tRFC_CB) : tRFC_CB :=
  RFCOMM_BufDataInd_uih congests co_callback m d (credits_of f) true false (info_of f) s.

Definition arrive (f : Frame) (g : Ghost) : Ghost :=
  {| accepted := accepted g; credits_got := credits_got g + credits_of f;
     received := received g ++ match f with Uih _ _ i => [i] | _ => [] end;
     delivered := delivered g |}.

(** What the peer may send. *)
Definition allowed (f : Frame) (g : Ghost) (s : tRFC_CB) : Prop :=
  tx0 + credits_got g + credits_of f - sum uses_of (frames (out s)) < 2 ^ 16 /\
  match f with
  | Uih _ c i => 0 <= c /\ 0 < size i <= mtu_rx /\ count (received g) < rx0 + sum credits_of (frames (out s))
  | Credit _ c => 0 < c
  | _ => False
  end.

Lemma inc_credits_focus g s c :
  Inv g s -> 0 <= c -> tx0 + credits_got g + c - sum uses_of (frames (out s)) < 2 ^ 16 ->
  Inv (get_credits c g) (if c =? 0 then s else rfc_inc_credit congests k c s).
Proof.
  intros I H0 H1. destruct (Z.eqb_spec c 0) as [->|N].
  - unfold get_credits. rewrite Z.add_0_r. by destruct g.
  - apply rfc_inc_credit_focus; [done|lia|]. intros p P. destruct I as (w & _ & (p0 & b & P0 & _ & C) & _).
    rewrite P in P0. injection P0 as <-. core C. cbn [uncounted at_rest] in *. lia.
Qed.

Lemma from_peer_focus g s f : Inv g s -> allowed f g s -> Inv (arrive f g) (from_peer f s).
Proof.
  intros I [H1 H2]. pose proof I as (w & A & (p & b & P & B & CP) & _).
  destruct (aux_lookup w s p b A P B) as (M & D & _ & F).
  unfold from_peer, RFCOMM_BufDataInd_uih. rewrite F. cbn [mbind option_bind]. rewrite P. cbn [mbind option_bind].
  rewrite M. cbn [mbind option_bind]. destruct f as [d' c i|d' c| | | | | |]; try done; cbn [info_of credits_of] in *.
  - destruct H2 as (H2 & L & R). destruct (Z.ltb_spec 0 (size i)); [|lia].
    destruct (data_ind_focus g s i I L R) as [I1 F1].
    assert (rfc_port_sm_uih congests co_callback k i s = PORT_DataInd congests co_callback m d i s) as ->.
    { unfold rfc_port_sm_uih, rfc_port_uplink_data. rewrite P. cbn [mbind option_bind]. rewrite M.
      cbn [mbind option_bind]. destruct (c_open _ _ _ _ _ _ CP) as (_ & _ & -> & _). by rewrite D. }
    change (arrive (Uih d' c i) g) with (get_credits c (receive i g)).
    apply inc_credits_focus; [done|done|]. by rewrite F1.
  - unfold arrive. cbn [credits_of]. rewrite app_nil_r. apply inc_credits_focus; [done|lia|done].
Qed.

(** *** The application writes *)

Definition take_in (l : list Z) (g : Ghost) : Ghost :=
  {| accepted := accepted g ++ l; credits_got := credits_got g; received := received g;
     delivered := delivered g |}.

Lemma take_in_nil g : take_in [] g = g.
Proof. unfold take_in. rewrite app_nil_r. by destruct g. Qed.

Lemma take_in_app a b g : take_in b (take_in a g) = take_in (a ++ b) g.
Proof. unfold take_in. cbn. by rewrite app_assoc. Qed.

Lemma queue_size_small x g w p b o n :
  CoreP x g w p b o -> 0 <= n <= RFCOMM_DATA_LENGTH -> 0 <= total (queue (tx p)) + n < 2 ^ 32.
Proof.
  intros C N. destruct (c_txq _ _ _ _ _ _ C) as (Bq & Cq & _). destruct (total_bounds _ _ Bq) as [Tb _].
  pose proof (count_nonneg (queue (tx p))). change RFCOMM_DATA_LENGTH with 4085 in *.
  change PORT_TX_BUF_CRITICAL_WM with 15 in *.
  assert (count (queue (tx p)) * Z.min mtu_tx 4085 <= 16 * 4085) by (apply Z.mul_le_mono_nonneg; lia). lia.
Qed.

(** What holds data back, of a port that is open. *)
Lemma tx_blocked_focus g w s p b x :
  Aux w s -> ports s !! k = Some p -> mcbs s !! m = Some b -> CoreP x g w p b (out s) ->
  tx_blocked p s = peer_fc (tx p) || negb (peer_ready b).
Proof.
  intros A P B C. unfold tx_blocked. destruct (aux_lookup w s p b A P B) as (_ & _ & -> & _).
  destruct (c_open _ _ _ _ _ _ C) as (_ & _ & -> & _). rewrite bool_decide_true by done.
  assert (Z.land (port_ctrl p) (Z.lor PORT_CTRL_REQ_SENT PORT_CTRL_IND_RECEIVED) =
          Z.lor PORT_CTRL_REQ_SENT PORT_CTRL_IND_RECEIVED) as ->; [|cbn; by rewrite !orb_false_r].
  change (Z.lor PORT_CTRL_REQ_SENT PORT_CTRL_IND_RECEIVED)
    with (Z.land setup_bits (Z.lor PORT_CTRL_REQ_SENT PORT_CTRL_IND_RECEIVED)) at 1.
  by rewrite Z.land_assoc, (c_ctrl _ _ _ _ _ _ C).
Qed.

(** A buffer is sent, or is queued behind the others. *)
Lemma port_write_focus g s p l :
  Inv g s -> ports s !! k = Some p -> tx_high p = false ->
  0 < size l <= Z.min mtu_tx RFCOMM_DATA_LENGTH ->
  exists r s', port_write congests k l s = (r, s') /\ (r = PORT_SUCCESS \/ r = PORT_CMD_PENDING) /\
    Inv (take_in l g) s'.
Proof.
  intros (w & A & C & Bl) P Hi L. pose proof C as (p0 & b & P0 & B & CP). rewrite P in P0. injection P0 as <-.
  destruct (aux_lookup w s p b A P B) as (M & D & _ & _).
  unfold port_write. rewrite P. destruct (c_open _ _ _ _ _ _ CP) as (_ & _ & -> & _).
  rewrite bool_decide_true, andb_false_r by done. rewrite (tx_blocked_focus g w s p b _ A P B CP).
  apply orb_false_elim in Hi as [Hi1 Hi2]. apply Z.ltb_ge in Hi1, Hi2.
  destruct (peer_fc (tx p) || negb (peer_ready b)) eqn:R.
  - assert ((PORT_TX_CRITICAL_WM <? queue_size (tx p)) || (PORT_TX_BUF_CRITICAL_WM <? count (queue (tx p))) = false) as ->.
    { apply orb_false_intro; apply Z.ltb_ge; unfold PORT_TX_CRITICAL_WM, PORT_TX_HIGH_WM,
        PORT_TX_BUF_CRITICAL_WM, PORT_TX_BUF_HIGH_WM, BTA_RFC_MTU_SIZE, L2CAP_MTU_SIZE,
        L2CAP_MIN_OFFSET, RFCOMM_DATA_OVERHEAD, RFCOMM_MIN_OFFSET in *; lia. }
    eexists _, _. split; [done|]. split; [by right|]. exists w. split; [by apply aux_port|]. split.
    + pose proof (queue_size_small _ _ _ _ _ _ (size l) CP ltac:(lia)) as Sm.
      eexists _, b. cbn. rewrite list_lookup_alter_eq, P. split; [done|]. split; [done|].
      core CP. destruct Ct as (Bq & Cq & Sq). cbn [hand at_rest] in *. constructor; cbn; try done.
      * split; [apply Forall_app_2; [done|by constructor]|]. rewrite count_app, count_cons. change (count []) with 0.
        split; [unfold PORT_TX_BUF_CRITICAL_WM, PORT_TX_BUF_HIGH_WM in *; lia|].
        rewrite total_app, total_cons, octets_nil, Sq, wrap_small; [lia|]. unfold in_range. lia.
      * rewrite Ca, concat_app. cbn. by rewrite app_nil_r, app_assoc.
    + intros p1 b1. cbn. rewrite list_lookup_alter_eq, P, B. intros [= <-] [= <-] _. cbn.
      apply orb_prop in R as [?|R]; [by left|right]. by destruct (peer_ready b).
  - apply orb_false_elim in R as [R1 R2]. apply negb_false_iff in R2.
    assert (queue (tx p) = []) as Q.
    { destruct (queue (tx p)) eqn:Q; [done|]. destruct (Bl p b P B) as [?|?]; congruence. }
    rewrite M, D. destruct (data_req_focus (take_in l g) w s l p b A) as (s' & -> & A' & C' & Q'); try done; [|lia|].
    { exists p, b. split; [done|]. split; [done|]. core CP. rewrite Q in *. cbn [hand at_rest concat] in *.
      constructor; rewrite ?Q; cbn; try done. rewrite Ca. by rewrite !app_nil_r. }
    eexists _, _. split; [done|]. split; [by left|]. exists w. split; [done|]. split; [done|].
    apply blocked_empty. rewrite Q'. unfold queue_of. rewrite P. cbn. by rewrite Q.
Qed.

(** The queue has reached its limit. *)
Definition full (s : tRFC_CB) : Prop := exists p, ports s !! k = Some p /\ tx_high p = true.

Lemma write_loop_focus fuel g l n r ev len s lp s' :
  Inv g s -> 0 < n <= RFCOMM_DATA_LENGTH -> (length l < fuel)%nat ->
  write_loop congests co_callback fuel false k l n r ev len s = (lp, s') ->
  exists t, l = t ++ rest lp /\ p_len lp = len + size t /\ Inv (take_in t g) s' /\
    (rest lp = [] \/ full s').
Proof.
  revert g l n r ev len s. induction fuel as [|fuel IH]; intros g l n r ev len s I N L; [lia|].
  assert (size [] = 0) as S0 by done. cbn [write_loop].
  destruct l as [|x l0].
  { intros [= <- <-]. exists []. rewrite take_in_nil. cbn [rest p_len]. split; [done|]. split; [lia|]. by split; [|left]. }
  set (l := x :: l0) in *. assert (0 < size l) as Ll by (unfold size; cbn; lia).
  pose proof I as (w & A & (p & b & P & B & CP) & _). rewrite P.
  destruct (tx_high p) eqn:Hi.
  { intros [= <- <-]. exists []. rewrite take_in_nil. cbn [rest p_len]. split; [done|]. split; [lia|].
    split; [done|]. right. by exists p. }
  cbn [andb]. cbv zeta. set (n1 := round_length p l n).
  assert (0 < n1 <= Z.min mtu_tx RFCOMM_DATA_LENGTH /\ n1 <= size l) as [N1 N2].
  { destruct (c_limits _ _ _ _ _ _ CP) as (E & _). subst n1. unfold round_length. rewrite E.
    destruct (Z.ltb_spec mtu_tx n), (Z.ltb_spec (size l) n), (Z.ltb_spec (size l) mtu_tx); lia. }
  assert (size (take (Z.to_nat n1) l) = n1) as St by (unfold size in *; rewrite length_take; lia).
  destruct (port_write_focus g s p (take (Z.to_nat n1) l) I P Hi) as (r1 & s1 & -> & R1 & I1); [lia|].
  pose proof (flow_control_user_same k m d k s1) as S. destruct (port_flow_control_user k s1) as [e2 s2].
  cbn [snd] in S. rewrite (decide_True _ _ R1). intros E.
  apply IH with (g := take_in (take (Z.to_nat n1) l) g) in E as (t & Et & Pt & It & Ft); [|by eapply port_inv_same|lia|].
  2: { rewrite length_drop. unfold size in *. lia. }
  exists (take (Z.to_nat n1) l ++ t). rewrite <- app_assoc, <- Et, take_drop, <- take_in_app, size_app. split; [done|].
  split; [lia|done].
Qed.

Lemma append_last_spec q l c : list.last q = Some c ->
  concat (append_last q l) = concat q ++ l /\ count (append_last q l) = count q /\
  total (append_last q l) = total q + size l /\
  (forall n, buffers n q -> size c + size l <= n -> buffers n (append_last q l)).
Proof.
  induction q as [|a q IH]; [done|]. intros H. destruct q as [|a' q].
  - injection H as ->. cbn [append_last]. rewrite !total_cons, octets_nil, size_app. cbn. rewrite !app_nil_r.
    split; [done|]. split; [done|]. split; [lia|]. intros n Bq Hn. inversion Bq; subst.
    constructor; [|done]. rewrite size_app. pose proof (size_nonneg l). lia.
  - destruct (IH H) as (E1 & E2 & E3 & E4). set (q1 := a' :: q) in *.
    change (append_last (a :: q1) l) with (a :: append_last q1 l). cbn [concat].
    rewrite E1, <- app_assoc, !count_cons, !total_cons, E2, E3. split; [done|]. split; [done|]. split; [lia|].
    intros n Bq Hn. inversion Bq; subst. constructor; [done|]. by apply E4.
Qed.

(** A write takes the octets from the front: all of them, or as many as the queue has room for. *)
Lemma PORT_WriteData_focus g s l r n s' :
  Inv g s -> PORT_WriteData congests co_callback (Z.of_nat k + 1) l s = (r, n, s') ->
  0 <= n <= size l /\ Inv (take_in (take (Z.to_nat n) l) g) s' /\ (n = size l \/ full s') /\
  r = (if size l =? 0 then PORT_UNKNOWN_ERROR else PORT_SUCCESS).
Proof.
  intros I. pose proof I as (w & A & C & Bl). pose proof C as (p & b & P & B & CP).
  unfold PORT_WriteData. rewrite (usable_focus w s p b _ g A P CP).
  destruct (c_limits _ _ _ _ _ _ CP) as (Em & _). pose proof (size_nonneg l) as Nn.
  assert ((peer_mtu p =? 0) = false) as -> by (apply Z.eqb_neq; lia). rewrite orb_false_r.
  destruct (Z.eqb_spec (size l) 0) as [E|E].
  { intros [= <- <- <-]. rewrite take_0, take_in_nil. split; [lia|]. split; [done|]. split; [by left|done]. }
  destruct (fits_last p (size l)) eqn:Fl.
  - intros [= <- <- <-]. split; [lia|].
    assert (take (Z.to_nat (size l)) l = l) as -> by (apply take_ge; unfold size; lia).
    split; [|split; [by left|done]].
    unfold fits_last in Fl. destruct (list.last (queue (tx p))) as [c|] eqn:La; [|done].
    apply andb_prop in Fl as [F1 F2]. apply Z.leb_le in F1, F2. rewrite Em in F1.
    destruct (append_last_spec _ l c La) as (E1 & E2 & E3 & E4).
    pose proof (size_nonneg c). pose proof (queue_size_small _ _ _ _ _ _ (size l) CP ltac:(lia)) as Sm.
    exists w. split; [by apply aux_port|]. split.
    + eexists _, b. cbn. rewrite list_lookup_alter_eq, P. split; [done|]. split; [done|].
      core CP. destruct Ct as (Bq & Cq & Sq). cbn [hand at_rest] in *. constructor; cbn; try done.
      * split; [by apply E4; [|lia]|]. rewrite E2, E3, Sq, wrap_small; [done|]. unfold in_range. lia.
      * rewrite E1, Ca. cbn [app]. by rewrite app_assoc.
    + intros p1 b1. cbn. rewrite list_lookup_alter_eq, P, B. intros [= <-] [= <-] _. cbn.
      apply (Bl p b P B). intros Q. by rewrite Q in La.
  - destruct (write_loop _ _ _ _ _ _ _ _ _ _ _) as [lp s1] eqn:W. intros [= <- <- <-].
    apply (write_loop_focus _ g) in W as (t & -> & Pt & It & Ft); [|done|change RFCOMM_DATA_LENGTH with 4085; lia|lia].
    rewrite Pt, size_app. pose proof (size_nonneg t). pose proof (size_nonneg (rest lp)).
    split; [lia|]. replace (Z.to_nat (0 + size t)) with (length t) by (unfold size; lia). rewrite take_app_length.
    pose proof (write_end_same k m d k lp s1) as S. split; [by eapply port_inv_same|]. split; [|done].
    destruct Ft as [->|(p1 & P1 & F1)]; [left; unfold size; cbn; lia|right].
    destruct (same_view s1 _ p1 S P1) as (p2 & P2 & V). exists p2. split; [done|]. unfold tx_high in *.
    unfold port_view in V. injection V as ? ? ? ? ? ? ? ? ? ? Q Qs ? ? ? ? ? ?. by rewrite Q, Qs.
Qed.

(** *** Congestion and modem status *)

Lemma congested_same s : ok s -> Same s (rfc_process_l2cap_congestion congests m true s).
Proof.
  intros O. pose proof (wf_enabled _ _ _ s (proj1 O)) as D.
  unfold rfc_process_l2cap_congestion, PORT_FlowInd. cbn [peer_rx_disabled with_mcb]. rewrite D.
  unfold flow_ind. change (0 =? 0) with true. cbv iota. cbn [negb].
  set (s1 := with_mcb m (set_peer_ready false) _).
  assert (Same s s1) as S1.
  { subst s1. unfold with_mcb. cbn. rewrite list_alter_alter_eq.
    apply (with_mcb_same k m d m (set_peer_ready false ∘ set_congested true)); [done|].
    intros _ b _. split; [done|]. split; [intros [_ H]; by split|]. by right. }
  etransitivity; [exact S1|]. apply flow_ind_all_stopped.
  intros b. subst s1. cbn. rewrite list_lookup_alter_eq.
  destruct (alter _ m (mcbs s) !! m); cbn; [|done]. by intros [= <-].
Qed.

Lemma send_tx_focus g s : Near g s -> Inv g (snd (port_rfc_send_tx_data congests k s)).
Proof. intros (w & A & C). by apply (send_tx_data_focus g w). Qed.

(** The bits of a port that is set up. *)
Lemma setup_has c b : Z.land c setup_bits = setup_bits -> Z.land setup_bits b = b -> b <> 0 -> has c b = true.
Proof.
  intros H E N. unfold has. apply negb_true_iff, Z.eqb_neq. intros Z. apply N.
  rewrite <- E, <- H, <- Z.land_assoc, (Z.land_comm setup_bits b), Z.land_assoc, Z. done.
Qed.

Lemma setup_or g s x :
  Inv g s -> Same s (with_port k (fun p => set_port_ctrl (Z.lor (port_ctrl p) x) p) s).
Proof.
  intros (w & _ & (p & b & P & B & C) & _). apply with_port_same; [done|]. intros _ p0 P0.
  rewrite P in P0. injection P0 as <-. unfold port_view. cbn. f_equal.
  rewrite Z.land_lor_distr_l, (c_ctrl _ _ _ _ _ _ C).
  apply Z.bits_inj'. intros n _. rewrite Z.lor_spec, Z.land_spec.
  destruct (Z.testbit setup_bits n); [done|]. by rewrite andb_false_r.
Qed.

Lemma control_ind_focus g s pars : Inv g s -> Inv g (PORT_ControlInd congests after_msc m d pars s).
Proof.
  intros I. pose proof I as (w & A & (p & b & P & B & C) & _).
  destruct (aux_lookup w s p b A P B) as (_ & _ & _ & F). unfold PORT_ControlInd. rewrite F.
  cbn [mbind option_bind]. rewrite P. cbn [mbind option_bind]. pose proof (c_ctrl _ _ _ _ _ _ C) as Cc.
  rewrite !(setup_has _ _ Cc) by done. cbn [negb].
  set (s1 := with_port k (set_peer_ctrl pars) s).
  assert (Inv g s1) as I1 by (apply (port_inv_same g s); [done|by apply with_port_same]).
  pose proof (send_tx_focus g s1 (inv_near g s1 I1)) as I2.
  destruct (port_rfc_send_tx_data congests k s1) as [e s2]. cbn [snd] in I2.
  eapply port_inv_same; [|apply indicate_connection_same]. eapply port_inv_same; [|apply callback_same].
  eapply port_inv_same; [exact I2|by apply (setup_or g)].
Qed.

Lemma control_cnf_focus g s : Inv g s -> Inv g (PORT_ControlCnf congests after_msc m d s).
Proof.
  intros I. pose proof I as (w & A & (p & b & P & B & C) & _).
  destruct (aux_lookup w s p b A P B) as (_ & _ & _ & F). unfold PORT_ControlCnf. rewrite F.
  cbn [mbind option_bind]. rewrite P. cbn [mbind option_bind]. pose proof (c_ctrl _ _ _ _ _ _ C) as Cc.
  rewrite !(setup_has _ _ Cc) by done. pose proof (send_tx_focus g s (inv_near g s I)) as I2.
  destruct (port_rfc_send_tx_data congests k s) as [e s2]. cbn [snd] in I2.
  eapply port_inv_same; [|apply indicate_connection_same]. by eapply port_inv_same; [|apply callback_same].
Qed.

Lemma process_msc_focus g s cmd pars : Inv g s -> Inv g (rfc_process_msc congests after_msc m cmd d pars s).
Proof.
  intros I. pose proof I as (w & A & (p & b & P & B & C) & _).
  destruct (aux_lookup w s p b A P B) as (M & D & _ & F). unfold rfc_process_msc. rewrite F.
  cbn [mbind option_bind]. rewrite P. cbn [mbind option_bind]. rewrite M. cbn [mbind option_bind]. rewrite B.
  cbn [mbind option_bind]. rewrite (c_flow _ _ _ _ _ _ C), D. change (PORT_FC_CREDIT =? PORT_FC_CREDIT) with true.
  cbv iota. destruct cmd.
  - apply control_ind_focus. apply (port_inv_same g s); [done|]. apply cmd_same; [apply A|done|done].
  - destruct (has _ _); [|done]. apply control_cnf_focus. apply (port_inv_same g s); [done|].
    etransitivity; [|by apply emit_same]. by apply with_port_same.
Qed.
End stream.
