(* ===== verification/RfcommPortWorld.v ===== *)
(** * RFCOMM ports: a channel between two devices

    Two devices, each with its control block, its applications and its L2CAP, and a
    channel between a port of the one and a port of the other.  The frames of the
    channel that a device has given to L2CAP arrive at the other device in order;
    the applications of the two ports read and write, the applications of other ports
    do what they like, frames come for other channels, modem and line status for any
    channel, and the L2CAP channels are congested and not, by data and by commands,
    at any time.  What is left out: the port is not closed, its application does not
    use [PORT_WriteDataCO] and [PORT_FlowControl_MaxCredit], and no peer of the device
    sends FCON or FCOFF; and L2CAP reports the end of congestion only when
    it has room for the commands that wait.  [RfcommPortRuns.v] shows what goes wrong
    otherwise.  The octets that the application of a device writes
    are the ones that the application of the other reads, none is lost, no
    frame is sent without a credit, and data does not wait for ever. *)

From stdpp Require Import base list option.
From Stdlib Require Import ZArith Lia.
From S2P Require Import Prelude.
From S2P Require Import RfcommFrames.
From S2P Require Import RfcommMessages.
From S2P Require Import RfcommPortState.
From S2P Require Import RfcommPort.
From S2P Require Import RfcommPortTrace.
From S2P Require Import RfcommPortSpec.
From S2P Require Import RfcommPortExample.
From S2P Require Import RfcommPortStream.

Open Scope Z_scope.

(** A device and its end of the channel: the port, the multiplexer, and what
    surrounds the layer; the largest information it sends, the credits it gives at
    most, and the credits it has at the start. *)
Record Side := {
  s_port : nat;
  s_mux : nat;
  s_congests : list Output -> bool;
  s_callback : list Output -> bool;
  s_after_msc : bool;
  s_mtu : Z;
  s_credits : Z;
  s_start : Z;
}.

Record Device := {
  cb : tRFC_CB;
  written : list Z;              (* octets that writes on the port have taken *)
  got : list Z;                  (* octets that reads on the port have returned *)
  arrived : nat;                 (* frames of the channel that have come *)
}.

(** What happens to a device. *)
Inductive Event :=
| Write (handle : Z) (l : list Z)
| WriteCo (handle : Z) (l : list Z)
| Read (handle max_len : Z)
| MaxCredit (handle : Z) (enable : bool)
| Information (m : nat) (d' credit : Z) (command final : bool) (info : list Z)
| ModemStatus (m : nat) (is_command : bool) (d' : Z) (pars : msc_pars)
| LineStatus (m : nat) (is_command : bool) (d' status : Z)
| Congestion (m : nat) (is_congested : bool)
| Arrive.                        (* the next frame of the channel *)

Definition World := bool -> Device.
Definition update (x : bool) (v : Device) (w : World) : World := fun y => if Bool.eqb y x then v else w y.

Section world.
Context (d : Z) (sides : bool -> Side).

(** The frames of the channel that a device has sent. *)
Definition sent (x : bool) (w : World) : list Frame := frames (s_mux (sides x)) d (out (cb (w x))).

Definition handle_of (x : bool) : Z := Z.of_nat (s_port (sides x)) + 1.

Definition set_cb (s : tRFC_CB) (v : Device) : Device :=
  {| cb := s; written := written v; got := got v; arrived := arrived v |}.

Definition step_device (x : bool) (e : Event) (next : option Frame) (v : Device) : Device :=
  let c := sides x in
  let s := cb v in
  match e with
  | Write h l =>
      let '(_, n, s) := PORT_WriteData (s_congests c) (s_callback c) h l s in
      {| cb := s; got := got v; arrived := arrived v;
         written := written v ++ (if h =? handle_of x then take (Z.to_nat n) l else []) |}
  | WriteCo h l => set_cb (snd (PORT_WriteDataCO (s_congests c) (s_callback c) h l s)) v
  | Read h n =>
      let '(_, l, s) := PORT_ReadData (s_congests c) h n s in
      {| cb := s; written := written v; arrived := arrived v;
         got := got v ++ (if h =? handle_of x then l else []) |}
  | MaxCredit h enable => set_cb (snd (PORT_FlowControl_MaxCredit (s_congests c) h enable s)) v
  | Information m d' credit command final info =>
      set_cb (RFCOMM_BufDataInd_uih (s_congests c) (s_callback c) m d' credit command final info s) v
  | ModemStatus m is_command d' pars =>
      set_cb (rfc_process_msc (s_congests c) (s_after_msc c) m is_command d' pars s) v
  | LineStatus m is_command d' status =>
      set_cb (rfc_process_rls (s_congests c) m is_command d' status s) v
  | Congestion m is_congested => set_cb (rfc_process_l2cap_congestion (s_congests c) m is_congested s) v
  | Arrive =>
      match next with
      | Some f => {| cb := from_peer (s_mux c) d (s_congests c) (s_callback c) f s;
                     written := written v; got := got v; arrived := S (arrived v) |}
      | None => v
      end
  end.

Definition step (w : World) (xe : bool * Event) : World :=
  let '(x, e) := xe in
  update x (step_device x e (sent (negb x) w !! arrived (w x)) (w x)) w.

Definition run (w : World) (l : list (bool * Event)) : World := fold_left step l w.

(** The events that the channel is open to: its frames come from the other device,
    its port is used with [PORT_WriteData] and [PORT_ReadData], and when L2CAP reports
    the end of congestion it can take the commands that wait.  [v] is the device the
    event happens to. *)
Definition possible (x : bool) (e : Event) (v : Device) : Prop :=
  match e with
  | Write h _ => 0 <= h
  | WriteCo h _ => 0 <= h /\ h <> handle_of x
  | Read h n => 0 <= h /\ 0 <= n
  | MaxCredit h _ => 0 <= h /\ h <> handle_of x
  | Information m d' _ _ _ _ => ~ (m = s_mux (sides x) /\ d' = d)
  | ModemStatus _ _ d' _ => d' <> 0
  | Congestion m is_congested =>
      m = s_mux (sides x) -> is_congested = false ->
      has_room m (s_congests (sides x)) (cb v) = true
  | LineStatus _ _ _ _ | Arrive => True
  end.

Fixpoint possible_run (w : World) (l : list (bool * Event)) : Prop :=
  match l with
  | [] => True
  | (x, e) :: l => possible x e (w x) /\ possible_run (step w (x, e)) l
  end.

(** The port is open, with the credits that were negotiated and nothing queued. *)
Record Opened (x : bool) (s : tRFC_CB) : Prop := {
  o_wf : Wf (s_port (sides x)) (s_mux (sides x)) d s;
  o_out : out s = [];
  o_mux : exists b, mcbs s !! s_mux (sides x) = Some b /\ mcb_flow b = PORT_FC_CREDIT /\
    peer_ready b = true /\ mcb_congested b = false /\ mcb_cmd_q b = [];
  o_port : exists p, ports s !! s_port (sides x) = Some p /\
    in_use p = true /\ port_state p = PORT_CONNECTION_STATE_OPENED /\ sm_state p = RFC_STATE_OPENED /\
    data_callback p = no_data_callback /\ Z.land (port_ctrl p) setup_bits = setup_bits /\
    peer_mtu p = s_mtu (sides x) /\ credit_rx_max p = s_credits (sides x) /\
    0 <= credit_rx_low p /\ s_credits (sides x) <= rx_buf_critical p /\
    credit_tx p = s_start (sides x) /\ credit_rx p = s_start (sides (negb x)) /\
    queue (tx p) = [] /\ queue_size (tx p) = 0 /\ peer_fc (tx p) = (s_start (sides x) =? 0) /\
    queue (rx p) = [] /\ queue_size (rx p) = 0 /\ user_fc (rx p) = false;
}.

(** The limits of a side. *)
Record Limits (x : bool) : Prop := {
  l_mtu : 0 < s_mtu (sides x) < 2 ^ 16;
  l_credits : 0 < s_credits (sides x) < 2 ^ 8;
  l_start : 0 < s_start (sides x) <= s_credits (sides (negb x));
  l_room : s_credits (sides x) * s_mtu (sides (negb x)) <= PORT_RX_CRITICAL_WM;
}.

Definition start (w : World) : Prop := forall x,
  Opened x (cb (w x)) /\ written (w x) = [] /\ got (w x) = [] /\ arrived (w x) = 0%nat.

(** The queues of the port. *)
Definition tx_queue (x : bool) (w : World) : list (list Z) :=
  match ports (cb (w x)) !! s_port (sides x) with Some p => queue (tx p) | None => [] end.
Definition rx_queue (x : bool) (w : World) : list (list Z) :=
  match ports (cb (w x)) !! s_port (sides x) with Some p => queue (rx p) | None => [] end.

(** The frames that have been sent to a device and have not come. *)
Definition in_flight (x : bool) (w : World) : list Frame := drop (arrived (w x)) (sent (negb x) w).

Definition congested (x : bool) (w : World) : bool :=
  match mcbs (cb (w x)) !! s_mux (sides x) with Some b => mcb_congested b | None => false end.

(** *** The invariant of the two devices *)

Definition arrivals (l : list Frame) : list (list Z) := concat ((fun f => match f with Uih _ _ i => [i] | _ => [] end) <$> l).

Definition ghost_of (v : Device) (l : list Frame) : Ghost :=
  {| accepted := written v; credits_got := sum credits_of l; received := arrivals l;
     delivered := got v |}.

Definition ghost (x : bool) (w : World) : Ghost := ghost_of (w x) (take (arrived (w x)) (sent (negb x) w)).

Definition Port (x : bool) : Ghost -> tRFC_CB -> Prop :=
  Inv (s_port (sides x)) (s_mux (sides x)) d (s_mtu (sides x)) (s_mtu (sides (negb x)))
      (s_credits (sides x)) (s_start (sides x)) (s_start (sides (negb x))).

Definition Good (w : World) : Prop := forall x,
  Port x (ghost x w) (cb (w x)) /\ (arrived (w x) <= length (sent (negb x) w))%nat.

Hypothesis limits : forall x, Limits x.

Lemma start_good w : start w -> Good w.
Proof.
  intros H x. destruct (H x) as ([W O (b & B & Fl & R & Cg & Cq) (p & P & Hp)] & Hw & Hg & Ha).
  unfold ghost, ghost_of. rewrite Ha, Hw, Hg, take_0. split; [|lia]. destruct (limits x), (limits (negb x)).
  rewrite negb_involutive in *.
  exists []. split; [|split].
  - split; [split; [done|]|]; intros b0 B0; rewrite B in B0; injection B0 as <-.
    + unfold quiet_queue. rewrite Cq. by split.
    + rewrite Cq, R, Cg. done.
  - exists p, b. split; [done|]. split; [done|]. rewrite O. destruct Hp as (? & ? & ? & ? & ? & ? & ? & ? & ? & ? & ? & Q & Qs & ? & Q' & Qs' & ?).
    constructor; cbn [hand uncounted ungranted least at_rest accepted credits_got received delivered]; rewrite ?Q, ?Qs, ?Q', ?Qs'; try done; try lia.
    all: change (frames (s_mux (sides x)) d []) with (@nil Frame); change (arrivals []) with (@nil (list Z)).
    all: change (count []) with 0; change (total []) with 0; cbn [sum].
    + split; [constructor|]. by unfold PORT_TX_BUF_CRITICAL_WM.
    + split; [constructor|done].
    + split; [lia|]. split; [lia|]. congruence.
    + lia.
    + lia.
    + lia.
  - intros p0 b0 P0 _ N. rewrite P in P0. injection P0 as <-. tauto.
Qed.

(** *** The steps *)

Lemma device_steady x e next v : Steady (cb v) (cb (step_device x e next v)).
Proof.
  destruct e as [h l| |h n| | | | | |]; cbn [step_device set_cb cb]; try solve [auto with steady nocore].
  - pose proof (steady_write_data (s_congests (sides x)) (s_callback (sides x)) h l (cb v)) as G.
    by destruct (PORT_WriteData _ _ _ _ _) as [[r n] s].
  - pose proof (steady_read (s_congests (sides x)) h n (cb v)) as G.
    by destruct (PORT_ReadData _ _ _ _) as [[r l] s].
  - destruct next; [apply steady_buf_data|reflexivity].
Qed.

Lemma sent_prefix x w e next :
  sent x w `prefix_of` frames (s_mux (sides x)) d (out (cb (step_device x e next (w x)))).
Proof.
  destruct (device_steady x e next (w x)) as [[o E] _ _ _]. unfold sent. rewrite E, frames_app. by apply prefix_app_r.
Qed.

(** An event of a device, while the frames of the other stay as they are. *)
Lemma write_good x g s h l r n s' :
  Port x g s -> 0 <= h -> PORT_WriteData (s_congests (sides x)) (s_callback (sides x)) h l s = (r, n, s') ->
  Port x (take_in (if h =? handle_of x then take (Z.to_nat n) l else []) g) s'.
Proof.
  intros I H0 E. destruct (limits x), (limits (negb x)). destruct (Z.eqb_spec h (handle_of x)) as [->|N].
  - by eapply PORT_WriteData_focus in E as (_ & I' & _).
  - rewrite take_in_nil. eapply port_inv_same; [exact I|]. destruct I as (w & [O _] & _).
    pose proof (PORT_WriteData_other _ _ d (s_congests (sides x)) (s_callback (sides x)) h l s H0 N O) as S.
    by rewrite E in S.
Qed.

Lemma read_good x g s h n r l s' :
  Port x g s -> 0 <= h -> 0 <= n -> PORT_ReadData (s_congests (sides x)) h n s = (r, l, s') ->
  Port x (give (if h =? handle_of x then l else []) g) s'.
Proof.
  intros I H0 H1 E. destruct (limits x), (limits (negb x)). destruct (Z.eqb_spec h (handle_of x)) as [->|N].
  - by eapply PORT_ReadData_focus in E as (I' & _).
  - assert (give [] g = g) as -> by (unfold give; rewrite app_nil_r; by destruct g).
    eapply port_inv_same; [exact I|]. destruct I as (w & [O _] & _).
    pose proof (PORT_ReadData_other _ _ d (s_congests (sides x)) h n s H0 N O) as S. by rewrite E in S.
Qed.

Lemma msc_good x g s m cmd d' pars :
  Port x g s -> d' <> 0 ->
  Port x g (rfc_process_msc (s_congests (sides x)) (s_after_msc (sides x)) m cmd d' pars s).
Proof.
  intros I H. destruct (limits x), (limits (negb x)).
  destruct (decide (m = s_mux (sides x) /\ d' = d)) as [[-> ->]|N].
  - by apply process_msc_focus.
  - eapply port_inv_same; [exact I|]. destruct I as (w & [O _] & _). by apply rfc_process_msc_other.
Qed.

Lemma congestion_good x g s m b :
  Port x g s -> (m = s_mux (sides x) -> b = false -> has_room m (s_congests (sides x)) s = true) -> Port x g (rfc_process_l2cap_congestion (s_congests (sides x)) m b s).
Proof.
  intros I Hr. destruct (limits x), (limits (negb x)). pose proof I as (w & [O _] & _).
  destruct (decide (m = s_mux (sides x))) as [->|N]; [destruct b|].
  - eapply port_inv_same; [exact I|]. by apply congested_same.
  - by apply uncongested_focus; [..|apply Hr].
  - eapply port_inv_same; [exact I|]. by apply congestion_other.
Qed.

Lemma event_good x e v g : Port x g (cb v) -> possible x e v -> e <> Arrive ->
  exists a r, written (step_device x e None v) = written v ++ a /\ got (step_device x e None v) = got v ++ r /\
    arrived (step_device x e None v) = arrived v /\
    Port x (give r (take_in a g)) (cb (step_device x e None v)).
Proof.
  intros I H N. assert (forall g, give [] g = g) as G0.
  { intros g0. unfold give. rewrite app_nil_r. by destruct g0. }
  assert (forall s', Same (s_port (sides x)) (s_mux (sides x)) d (cb v) s' ->
    exists a r, written (set_cb s' v) = written v ++ a /\ got (set_cb s' v) = got v ++ r /\
    arrived (set_cb s' v) = arrived v /\ Port x (give r (take_in a g)) s') as Keep.
  { intros s' S. exists [], []. rewrite !app_nil_r, take_in_nil, G0. repeat split. by eapply port_inv_same. }
  pose proof I as (w & [O _] & _).
  destruct e; cbn [step_device possible] in *; [| | | | | | | |done].
  - destruct (PORT_WriteData _ _ _ _ _) as [[r n] s] eqn:E.
    exists (if handle =? handle_of x then take (Z.to_nat n) l else []), []. cbn. rewrite (app_nil_r (got v)), G0.
    repeat split. by eapply write_good.
  - apply Keep, PORT_WriteDataCO_other; [apply H|apply H|done].
  - destruct (PORT_ReadData _ _ _ _) as [[r l] s] eqn:E.
    exists [], (if handle =? handle_of x then l else []). cbn. rewrite (app_nil_r (written v)), take_in_nil.
    repeat split. by eapply read_good; [..|apply H|apply H|].
  - apply Keep, PORT_FlowControl_MaxCredit_other; [apply H|apply H|done].
  - by apply Keep, RFCOMM_BufDataInd_uih_other.
  - exists [], []. cbn. rewrite !app_nil_r, take_in_nil, G0. repeat split. by apply msc_good.
  - by apply Keep, rfc_process_rls_same.
  - exists [], []. cbn. rewrite !app_nil_r, take_in_nil, G0. repeat split. by apply congestion_good.
Qed.

(** *** What the counts of the two sides say about each other *)

Lemma arrivals_app a b : arrivals (a ++ b) = arrivals a ++ arrivals b.
Proof. unfold arrivals. by rewrite fmap_app, concat_app. Qed.

Lemma arrivals_count l : count (arrivals l) = sum uses_of l.
Proof.
  induction l as [|f l IH]; [done|]. change (f :: l) with ([f] ++ l).
  rewrite arrivals_app, count_app, sum_app, IH. by destruct f.
Qed.

Lemma arrivals_data l : concat (arrivals l) = data l.
Proof.
  induction l as [|f l IH]; [done|]. change (f :: l) with ([f] ++ l).
  rewrite arrivals_app, concat_app, data_app, IH. f_equal. destruct f; [|done..].
  unfold data. cbn. by rewrite !app_nil_r.
Qed.

Lemma sum_uses l : 0 <= sum uses_of l.
Proof. induction l as [|f l IH]; cbn; [done|]. destruct f; cbn; lia. Qed.

Lemma uses_prefix (l l' : list Frame) : l `prefix_of` l' -> sum uses_of l <= sum uses_of l'.
Proof. intros [r ->]. rewrite sum_app. pose proof (sum_uses r). lia. Qed.

Lemma credits_prefix n (l l' : list Frame) :
  Forall (frame_ok n) l' -> l `prefix_of` l' -> sum credits_of l <= sum credits_of l'.
Proof. intros F [r ->]. rewrite Forall_app in F. rewrite sum_app. pose proof (sum_credits n r (proj2 F)). lia. Qed.

(** The core of a side. *)
Lemma port_core x w : Good w -> exists p b q,
  ports (cb (w x)) !! s_port (sides x) = Some p /\ mcbs (cb (w x)) !! s_mux (sides x) = Some b /\
  waiting (s_mux (sides x)) d (mcb_cmd_q b) = q /\ peer_ready b = negb (mcb_congested b) /\
  (mcb_congested b = false -> mcb_cmd_q b = []) /\
  (queue (tx p) <> [] -> peer_fc (tx p) = true \/ peer_ready b = false) /\
  CoreP (s_port (sides x)) (s_mux (sides x)) d (s_mtu (sides x)) (s_mtu (sides (negb x)))
    (s_credits (sides x)) (s_start (sides x)) (s_start (sides (negb x))) at_rest (ghost x w) q p b
    (out (cb (w x))).
Proof.
  intros H. destruct (H x) as [(q & [[_ Q] A] & (p & b & P & B & C) & Bl) _]. destruct (A b B) as [E R].
  exists p, b, q. split; [done|]. split; [done|]. split; [done|]. split; [done|].
  split; [apply (Q b B)|]. split; [by apply Bl|done].
Qed.

(** The credits of a side: no more frames are sent than credits were got, which are no more
    than the other side has given, and those are within its maximum. *)
Lemma credit_counts x w : Good w ->
  sum uses_of (sent x w) <= s_start (sides x) + sum credits_of (take (arrived (w x)) (sent (negb x) w)) /\
  0 <= sum credits_of (take (arrived (w x)) (sent (negb x) w)) <= sum credits_of (sent (negb x) w) /\
  s_start (sides (negb x)) + sum credits_of (sent x w) <= s_credits (sides x) + sum uses_of (sent (negb x) w).
Proof.
  intros H. destruct (port_core x w H) as (p & b & q & _ & _ & _ & _ & _ & _ & C).
  destruct (port_core (negb x) w H) as (p' & b' & q' & _ & _ & _ & _ & _ & _ & C').
  assert (Forall (frame_ok (s_mtu (sides (negb x)))) (sent (negb x) w)) as F'
    by exact (proj1 (proj1 (Forall_app _ _ _) (c_frames _ _ _ _ _ _ _ _ _ _ _ _ _ _ C'))).
  pose proof (c_used _ _ _ _ _ _ _ _ _ _ _ _ _ _ C) as U. pose proof (c_tx_credit _ _ _ _ _ _ _ _ _ _ _ _ _ _ C) as T.
  pose proof (c_granted _ _ _ _ _ _ _ _ _ _ _ _ _ _ C) as Gr. pose proof (c_rx_credit _ _ _ _ _ _ _ _ _ _ _ _ _ _ C) as R.
  pose proof (c_frames _ _ _ _ _ _ _ _ _ _ _ _ _ _ C) as F. cbn [uncounted ungranted least at_rest ghost ghost_of credits_got received] in *.
  rewrite arrivals_count in Gr. rewrite Forall_app in F. pose proof (sum_credits _ q (proj2 F)) as Sq.
  pose proof (count_nonneg (queue (rx p))).
  pose proof (prefix_take (sent (negb x) w) (arrived (w x))) as Px. fold (sent x w) in *.
  split; [lia|]. split.
  - split; [apply (sum_credits (s_mtu (sides (negb x)))); by apply Forall_take|]. by apply (credits_prefix _ _ _ F').
  - assert (sum uses_of (take (arrived (w x)) (sent (negb x) w)) <= sum uses_of (sent (negb x) w)); [|lia].
    by apply uses_prefix.
Qed.

(** The next frame is one that the port may get. *)
Lemma arrival_allowed x w f : Good w -> sent (negb x) w !! arrived (w x) = Some f ->
  allowed (s_mux (sides x)) d (s_mtu (sides (negb x))) (s_start (sides x)) (s_start (sides (negb x)))
    f (ghost x w) (cb (w x)).
Proof.
  intros H Hf. destruct (credit_counts x w H) as (U & V & W). destruct (credit_counts (negb x) w H) as (U' & V' & W').
  rewrite negb_involutive in *. destruct (port_core (negb x) w H) as (p' & b' & q' & _ & _ & _ & _ & _ & _ & C').
  assert (frame_ok (s_mtu (sides (negb x))) f) as Fo.
  { pose proof (c_frames _ _ _ _ _ _ _ _ _ _ _ _ _ _ C') as F. rewrite Forall_app in F.
    exact (Forall_lookup_1 _ _ _ _ (proj1 F) Hf). }
  destruct (limits (negb x)). rewrite negb_involutive in *.
  pose proof (take_S_r _ _ _ Hf) as Ts.
  assert (sum credits_of (take (arrived (w x)) (sent (negb x) w)) + credits_of f <= sum credits_of (sent (negb x) w) /\
    sum uses_of (take (arrived (w x)) (sent (negb x) w)) + uses_of f <= sum uses_of (sent (negb x) w)) as [Sc Su].
  { pose proof (prefix_take (sent (negb x) w) (S (arrived (w x)))) as Px. rewrite Ts in Px.
    pose proof (c_frames _ _ _ _ _ _ _ _ _ _ _ _ _ _ C') as F. rewrite Forall_app in F.
    fold (sent (negb x) w) in F. apply (credits_prefix _ _ _ (proj1 F)) in Px as P1. apply uses_prefix in Px as P2. rewrite sum_app in P1, P2.
    cbn in P1, P2. lia. }
  unfold allowed. cbn [ghost ghost_of credits_got received]. rewrite arrivals_count. fold (sent x w).
  split; [lia|]. destruct f as [d' c i|d' c| | | | | |]; cbn in Fo, Su |- *; try lia.
  all: apply list_elem_of_lookup_2, list_elem_of_omap in Hf as (o & _ & Ho); destruct o; try done;
    cbn in Ho; destruct f; try done; by case_decide.
Qed.

Lemma step_good w x e : Good w -> possible x e (w x) -> Good (step w (x, e)).
Proof.
  intros H Hp. cbn [step]. set (next := sent (negb x) w !! arrived (w x)).
  set (v := step_device x e next (w x)).
  assert (sent (negb x) (update x v w) = sent (negb x) w) as Es.
  { unfold sent, update. by destruct x. }
  assert (sent x w `prefix_of` sent x (update x v w)) as Pr.
  { unfold sent at 2, update. rewrite Bool.eqb_reflx. apply sent_prefix. }
  assert (Port x (ghost_of v (take (arrived v) (sent (negb x) w))) (cb v) /\
    (arrived v <= length (sent (negb x) w))%nat) as [Hx Hl].
  { destruct (H x) as [Hx Hl]. assert (e = Arrive \/ e <> Arrive) as [->|N] by (destruct e; auto).
    - subst v. cbn [step_device]. destruct next as [f|] eqn:F; [|done]. cbn [cb arrived].
      apply lookup_lt_Some in F as L. split; [|lia].
      assert (ghost_of {| cb := cb (w x); written := written (w x); got := got (w x); arrived := S (arrived (w x)) |}
        (take (S (arrived (w x))) (sent (negb x) w)) = arrive f (ghost x w)) as E.
      { rewrite (take_S_r _ _ _ F). unfold ghost_of, arrive. cbn. rewrite sum_app, arrivals_app. cbn.
        rewrite Z.add_0_r. unfold arrivals at 2. cbn. by rewrite app_nil_r. }
      destruct (limits x), (limits (negb x)).
      pose proof (arrival_allowed x w f H F) as Al. unfold ghost_of in *. cbn [written got] in *. rewrite E.
      by apply from_peer_focus.
    - assert (v = step_device x e None (w x)) as -> by (subst v; by destruct e).
      destruct (event_good x e (w x) (ghost x w) Hx Hp N) as (a & r & Ea & Er & En & Ip). rewrite En. split; [|done].
      unfold ghost_of. rewrite Ea, Er. exact Ip. }
  intros y. destruct (decide (y = x)) as [->|Ny].
  - unfold ghost. rewrite Es. unfold update at 1 2 3 4. rewrite Bool.eqb_reflx. done.
  - assert (y = negb x) as -> by (by destruct x, y). destruct (H (negb x)) as [Hy Hly].
    rewrite negb_involutive in *. unfold ghost. rewrite negb_involutive.
    assert (update x v w (negb x) = w (negb x)) as -> by (unfold update; by destruct x).
    destruct Pr as [r Er]. rewrite Er, length_app, take_app_le by lia. split; [|lia].
    unfold ghost in Hy. by rewrite negb_involutive in Hy.
Qed.

Lemma run_good l w : Good w -> possible_run w l -> Good (run w l).
Proof.
  revert w. induction l as [|[x e] l IH]; intros w H F; [done|]. destruct F as [Hp F]. cbn [run fold_left].
  apply IH; [|done]. by apply step_good.
Qed.

(** *** What holds in every state *)

Lemma take_drop_all {A} n (l : list A) : drop n l = [] -> take n l = l.
Proof. intros E. rewrite <- (take_drop n l) at 2. by rewrite E, app_nil_r. Qed.

Lemma good_stream w x : Good w ->
  written (w x) = got (w (negb x)) ++ concat (rx_queue (negb x) w) ++ data (in_flight (negb x) w) ++
                  concat (tx_queue x w).
Proof.
  intros H. destruct (port_core x w H) as (p & b & q & P & _ & _ & _ & _ & _ & C).
  destruct (port_core (negb x) w H) as (p' & b' & q' & P' & _ & _ & _ & _ & _ & C').
  unfold tx_queue, rx_queue, in_flight. rewrite P, P', negb_involutive.
  pose proof (c_accepted _ _ _ _ _ _ _ _ _ _ _ _ _ _ C) as A.
  pose proof (c_received _ _ _ _ _ _ _ _ _ _ _ _ _ _ C') as R. cbn in A, R.
  rewrite negb_involutive, arrivals_data in R.
  rewrite A, app_assoc, <- R. fold (sent x w).
  rewrite <- (take_drop (arrived (w (negb x))) (sent x w)) at 1. by rewrite data_app, <- app_assoc.
Qed.

Lemma good_quiet w x : Good w ->
  congested x w = false -> congested (negb x) w = false -> in_flight x w = [] -> in_flight (negb x) w = [] ->
  rx_queue (negb x) w = [] -> tx_queue x w = [].
Proof.
  intros H. destruct (port_core x w H) as (p & b & q & P & B & _ & R & _ & Bl & C).
  destruct (port_core (negb x) w H) as (p' & b' & q' & P' & B' & Wq & _ & Q & _ & C').
  unfold congested, tx_queue, rx_queue. rewrite P, P', B, B'. intros N N' F F' Rq.
  rewrite N in R. cbn in R. rewrite Q in Wq by done. change (waiting (s_mux (sides (negb x))) d []) with (@nil Frame) in Wq.
  destruct (queue (tx p)) eqn:Tq; [done|]. destruct Bl as [Bl|Bl]; [done| |congruence].
  pose proof (c_used _ _ _ _ _ _ _ _ _ _ _ _ _ _ C) as U. pose proof (c_tx_credit _ _ _ _ _ _ _ _ _ _ _ _ _ _ C) as T.
  pose proof (c_granted _ _ _ _ _ _ _ _ _ _ _ _ _ _ C') as Gr. pose proof (c_rx_credit _ _ _ _ _ _ _ _ _ _ _ _ _ _ C') as Rc.
  cbn [uncounted ungranted least at_rest ghost ghost_of credits_got received] in *.
  rewrite negb_involutive in *. rewrite arrivals_count, <- Wq, Rq in Gr. change (count []) with 0 in Gr. cbn [sum] in Gr.
  unfold in_flight in F, F'. rewrite negb_involutive in F'.
  rewrite (take_drop_all _ _ F) in U. rewrite (take_drop_all _ _ F') in Gr. unfold sent in *. exfalso.
  destruct T as (_ & _ & T). rewrite Bl in T. symmetry in T. apply Z.eqb_eq in T. lia.
Qed.

(** C4: over every run of the events of this file (the port is open and set up with flow
    control by credits and is not closed; its applications use [PORT_WriteData] and [PORT_ReadData]; no peer sends
    FCON or FCOFF; data and commands congest L2CAP at any time, and it reports the end of congestion when it
    has room for the commands that wait), the octets that the one device has written
    are the ones that the other has read, then those in its receive queue, then those in
    the frames under way, then those in the transmit queue; no frame of the channel was
    refused, dropped or overran the receive queue; no more frames are sent than there
    are credits for; and the receive queue holds no more frames than the device gives
    credits. *)
Theorem rfcomm_data_stream (w : World) (l : list (bool * Event)) (x : bool) :
  start w -> possible_run w l ->
  let w' := run w l in
  written (w' x) = got (w' (negb x)) ++ concat (rx_queue (negb x) w') ++ data (in_flight (negb x) w') ++
                   concat (tx_queue x w') /\
  lossless (s_port (sides x)) (s_mux (sides x)) d (out (cb (w' x))) /\
  sum uses_of (sent x w') <= s_start (sides x) + sum credits_of (take (arrived (w' x)) (sent (negb x) w')) /\
  count (rx_queue x w') <= s_credits (sides x).
Proof.
  intros S F w'. assert (Good w') as H by (by apply run_good; [apply start_good|]).
  split; [by apply good_stream|]. destruct (port_core x w' H) as (p & b & q & P & _ & _ & _ & _ & _ & C).
  split; [apply (c_lossless _ _ _ _ _ _ _ _ _ _ _ _ _ _ C)|]. split; [by apply credit_counts|].
  unfold rx_queue. rewrite P. by apply (rx_queue_bound _ _ _ _ _ _ _ _ _ _ _ _ _ _ C).
Qed.

(** C5: no data is stuck in a run of C4 (in which no peer of the devices sends FCOFF):
    when neither L2CAP channel is congested, every frame has come and
    the reader has emptied its receive queue, the transmit queue is empty too, and
    everything that was written has been read. *)
Theorem rfcomm_data_not_stuck (w : World) (l : list (bool * Event)) (x : bool) :
  start w -> possible_run w l ->
  let w' := run w l in
  congested x w' = false -> congested (negb x) w' = false -> in_flight x w' = [] ->
  in_flight (negb x) w' = [] -> rx_queue (negb x) w' = [] ->
  tx_queue x w' = [] /\ got (w' (negb x)) = written (w' x).
Proof.
  intros S F w' N1 N2 F1 F2 R. assert (Good w') as H by (by apply run_good; [apply start_good|]).
  assert (tx_queue x w' = []) as T by by apply good_quiet. split; [done|].
  rewrite (good_stream w' x H), R, F2, T. by rewrite !app_nil_r.
Qed.
End world.

(** *** An example

    Channel 2 between ports that send at most 3 octets in a frame and give at most 4
    credits, with 2 credits at the start. *)
Definition example_side : Side :=
  {| s_port := 0; s_mux := 0; s_congests := third_congests; s_callback := never; s_after_msc := false;
     s_mtu := 3; s_credits := 4; s_start := 2 |}.
Definition example_sides (x : bool) : Side := example_side.
Definition example_world : World := fun _ =>
  {| cb := two_ports (open_port 2 3 2 2 4); written := []; got := []; arrived := 0 |}.

Lemma example_limits x : Limits example_sides x.
Proof. constructor; try (cbn; lia). by_decide. Qed.

Lemma example_start : start 2 example_sides example_world.
Proof.
  intros x. split; [|done]. constructor.
  - by apply two_ports_wf.
  - done.
  - by exists open_mux.
  - exists (open_port 2 3 2 2 4). cbn. repeat split; try done; by_decide.
Qed.

(** Ten octets are written, two are read while the rest is on its way, then all of it. *)
Definition ten : list Z := [10; 11; 12; 13; 14; 15; 16; 17; 18; 19].
Definition example_run : list (bool * Event) :=
  [(true, Write 1 ten); (true, Write 2 [1; 2]); (false, Arrive); (false, Read 1 2)].
Definition example_rest : list (bool * Event) :=
  [(false, Write 1 [7; 8]); (true, Congestion 0 false); (false, Arrive); (true, Arrive); (true, ModemStatus 0 true 4
     {| msc_signals := 0; msc_break_present := 0; msc_break_duration := 0 |}); (false, Read 1 100); (true, Arrive);
   (true, Congestion 0 false); (false, Arrive); (false, Arrive); (false, Read 1 100); (true, Arrive)].

Lemma possible_run_app d sides a b w :
  possible_run d sides w (a ++ b) <-> possible_run d sides w a /\ possible_run d sides (run d sides w a) b.
Proof.
  revert w. induction a as [|[x e] a IH]; intros w; [cbn; tauto|]. cbn [app possible_run run fold_left].
  rewrite IH. unfold run. tauto.
Qed.

Lemma example_possible : possible_run 2 example_sides example_world (example_run ++ example_rest).
Proof.
  cbn [example_run example_rest app possible_run possible handle_of example_sides example_side s_port s_mux].
  repeat (split; [first [exact I | lia | intros _ _; vm_compute; reflexivity]|]). exact I.
Qed.

Lemma rfcomm_data_stream_witness :
  let w := run 2 example_sides example_world example_run in
  written (w true) = got (w false) ++ concat (rx_queue example_sides false w) ++
    data (in_flight 2 example_sides false w) ++ concat (tx_queue example_sides true w) /\
  written (w true) = ten /\ got (w false) = [10; 11] /\ rx_queue example_sides false w = [[12]] /\
  data (in_flight 2 example_sides false w) = [13; 14; 15] /\ tx_queue example_sides true w = [[16; 17; 18]; [19]].
Proof.
  split.
  - apply (rfcomm_data_stream 2 example_sides example_limits example_world example_run true example_start).
    exact (proj1 (proj1 (possible_run_app _ _ _ _ _) example_possible)).
  - vm_compute. repeat split.
Defined.

Lemma rfcomm_data_not_stuck_witness :
  let w := run 2 example_sides example_world (example_run ++ example_rest) in
  (tx_queue example_sides true w = [] /\ got (w false) = written (w true)) /\ written (w true) = ten.
Proof.
  split; [|reflexivity].
  apply (rfcomm_data_not_stuck 2 example_sides example_limits example_world (example_run ++ example_rest) true
    example_start example_possible); reflexivity.
Defined.
