(* ===== verification/RfcommPortNegotiation.v ===== *)
(** * RFCOMM ports: negotiation of a channel

    The exchange of PN messages before a channel is opened: the device that opens it asks
    with [RFCOMM_ParameterNegotiationRequest], the other answers in [PORT_ParNegInd], and
    the first takes the answer in [PORT_ParNegCnf].  The two ports agree on the size of
    the information and on the credits with which each of them starts, and the
    receive queue has room for the frames that the credits stand for.

    L2CAP may be congested, and may become congested by any frame: a command is then
    queued, and the congestion is reported to the ports, which changes nothing that is
    negotiated ([Hush]). *)

From stdpp Require Import base list option.
From Stdlib Require Import ZArith Lia.
From S2P Require Import Prelude.
From S2P Require Import RfcommFrames.
From S2P Require Import RfcommMessages.
From S2P Require Import RfcommPortState.
From S2P Require Import RfcommPort.
From S2P Require Import RfcommFsm.
From S2P Require Import RfcommPortTrace.
From S2P Require Import RfcommPortSpec.
From S2P Require Import RfcommPortExample.
From S2P Require Import RfcommPortStream.

Open Scope Z_scope.

(** What a port and its multiplexer have to do with the negotiation. *)
Definition offer (p : tPORT) :=
  (mtu p, peer_mtu p, credit_tx p, credit_rx p, credit_rx_max p, init_credit p, expected_rsp p, p_mcb p,
   peer_fc (tx p)).
Definition mux_offer (b : tRFC_MCB) := (mcb_state b, mcb_flow b, port_handles b).

Lemma offer_eq q p : offer q = offer p ->
  mtu q = mtu p /\ peer_mtu q = peer_mtu p /\ credit_tx q = credit_tx p /\ credit_rx q = credit_rx p /\
  credit_rx_max q = credit_rx_max p /\ init_credit q = init_credit p /\ expected_rsp q = expected_rsp p /\
  p_mcb q = p_mcb p /\ peer_fc (tx q) = peer_fc (tx p).
Proof. unfold offer. intros E. injection E. auto 10. Qed.

(** A multiplexer that is connected, with credits or without a flow control yet. *)
Definition ready (b : tRFC_MCB) : Prop :=
  mcb_state b = RFC_MX_STATE_CONNECTED /\ (mcb_flow b = PORT_FC_UNDEFINED \/ mcb_flow b = PORT_FC_CREDIT).

(** The frames that L2CAP has taken from a multiplexer, and those it has issued: the ones
    that wait in its queue come after them. *)
Definition sent_on (m : nat) (o : Output) : option Frame :=
  match o with Sent m' f => if decide (m' = m) then Some f else None | _ => None end.
Definition issued (m : nat) (s : tRFC_CB) : list Frame :=
  omap (sent_on m) (out s) ++ match mcbs s !! m with Some b => mcb_cmd_q b | None => [] end.

(** Nothing is negotiated, sent or queued. *)
Record Hush (s s' : tRFC_CB) : Prop := {
  hush_ports : offer <$> ports s' = offer <$> ports s;
  hush_mcbs : (fun b => (mux_offer b, mcb_cmd_q b)) <$> mcbs s' = (fun b => (mux_offer b, mcb_cmd_q b)) <$> mcbs s;
  hush_sent m : omap (sent_on m) (out s') = omap (sent_on m) (out s);
}.

#[export] Instance hush_preorder : PreOrder Hush.
Proof. split; [done|]. intros s1 s2 s3 [P M O] [P' M' O']. split; [congruence..|]. intros m. by rewrite O', O. Qed.

Definition keeps_offer (f : tPORT -> tPORT) : Prop := forall p, offer (f p) = offer p.

Lemma hush_port k f s : keeps_offer f -> Hush s (with_port k f s).
Proof. intros H. split; [by apply fmap_alter_same|done..]. Qed.

(** A change of what the port has to send. *)
Lemma hush_tx k p x s : ports s !! k = Some p -> peer_fc x = peer_fc (tx p) -> Hush s (with_port k (set_tx x) s).
Proof.
  intros P E. split; [|done..]. cbn. apply list_eq. intros i. rewrite !list_lookup_fmap.
  destruct (decide (i = k)) as [-> | N]; [|by rewrite list_lookup_alter_ne].
  rewrite list_lookup_alter_eq, P. cbn. unfold offer. cbn. by rewrite E.
Qed.

Lemma hush_mcb m f s :
  (forall b, (mux_offer (f b), mcb_cmd_q (f b)) = (mux_offer b, mcb_cmd_q b)) -> Hush s (with_mcb m f s).
Proof. intros H. split; [done| |done]. by apply (fmap_alter_same (fun b => (mux_offer b, mcb_cmd_q b))). Qed.

Lemma hush_callback k e s : Hush s (callback k e s).
Proof.
  unfold callback. repeat case_match; [|done..]. split; [done..|]. intros m. cbn. by rewrite omap_app, app_nil_r.
Qed.

Lemma hush_user k s : Hush s (snd (port_flow_control_user k s)).
Proof.
  unfold port_flow_control_user. destruct (ports s !! k) as [p|] eqn:P; [|done]. cbv zeta. case_match; [done|].
  by apply (hush_tx _ p).
Qed.

(** While congestion is reported nothing is sent: the multiplexer is not ready. *)
Definition no_data_req (m : nat) (d : Z) (info : list Z) (s : tRFC_CB) : tPORT_RESULT * tRFC_CB := (PORT_SUCCESS, s).

Lemma hush_tx_loop fuel k e s : Hush s (snd (send_tx_loop no_data_req fuel k e s)).
Proof.
  revert e s. induction fuel as [|fuel IH]; intros e s; cbn [send_tx_loop]; [done|].
  destruct (ports s !! k) as [p|] eqn:P; [|done]. destruct (p_mcb p), (mcb_of p s); try done.
  case_match; [done|]. destruct (queue (tx p)) as [|buf rest]; [done|]. cbn [no_data_req]. rewrite decide_True by done.
  set (s1 := with_port _ _ s). assert (Hush s s1) as H1 by by apply (hush_tx _ p).
  destruct (ports s1 !! k) as [p1|]; [|done]. case_match; [done|]. etransitivity; [exact H1|apply IH].
Qed.

Lemma hush_ind_port k s : Hush s (flow_ind_port no_data_req k s).
Proof.
  unfold flow_ind_port. pose proof (hush_user k s) as H. destruct (port_flow_control_user k s) as [e s1].
  cbn in H. etransitivity; [exact H|]. clear H.
  assert (Hush s1 (snd (send_tx_data no_data_req k s1))) as H.
  { unfold send_tx_data. destruct (ports s1 !! k) as [p|]; [|done]. destruct (0 <? queue_size (tx p)); [|done].
    pose proof (hush_tx_loop (S (length (queue (tx p)))) k 0 s1) as H. destruct (send_tx_loop _ _ _ _ _) as [e2 s2].
    cbn in H. etransitivity; [exact H|]. pose proof (hush_user k s2) as H2.
    by destruct (port_flow_control_user k s2). }
  destruct (send_tx_data no_data_req k s1) as [e2 s2]. cbn in H. etransitivity; [exact H|]. apply hush_callback.
Qed.

Lemma hush_congestion_started m s : Hush s (congestion_started m s).
Proof.
  unfold congestion_started. cbv zeta. etransitivity; [by apply (hush_mcb m (set_congested true))|].
  case_match; [done|]. unfold flow_ind. cbn [Z.eqb]. etransitivity; [by apply (hush_mcb m (set_peer_ready false))|].
  unfold flow_ind_all. generalize (seq 0 (length (ports (with_mcb m (set_peer_ready false) (with_mcb m (set_congested true) s))))).
  set (s0 := with_mcb m _ (with_mcb m _ s)). clearbody s0. clear s H. intros l. revert s0.
  induction l as [|j l IH]; intros s0; cbn [fold_left]; [done|]. etransitivity; [|apply IH].
  repeat case_match; try done. apply hush_ind_port.
Qed.

(** Sending changes what is sent and what is queued. *)
Record Kept (s s' : tRFC_CB) : Prop := {
  kept_ports : offer <$> ports s' = offer <$> ports s;
  kept_mcbs : mux_offer <$> mcbs s' = mux_offer <$> mcbs s;
}.

#[export] Instance kept_preorder : PreOrder Kept.
Proof. split; [done|]. intros s1 s2 s3 [P M] [P' M']. split; congruence. Qed.

Lemma hush_kept s s' : Hush s s' -> Kept s s'.
Proof.
  intros [P M _]. split; [done|]. apply (f_equal (fmap fst)) in M. by rewrite <- !list_fmap_compose in M.
Qed.

Lemma kept_port k s s' p : Kept s s' -> ports s !! k = Some p -> exists q, ports s' !! k = Some q /\ offer q = offer p.
Proof.
  intros [H _] P. apply (f_equal (.!! k)) in H. rewrite !list_lookup_fmap, P in H.
  destruct (ports s' !! k) as [q|]; [|done]. apply (inj Some) in H. by exists q.
Qed.

Lemma kept_mcb m s s' b : Kept s s' -> mcbs s !! m = Some b -> exists b', mcbs s' !! m = Some b' /\ mux_offer b' = mux_offer b.
Proof.
  intros [_ H] B. apply (f_equal (.!! m)) in H. rewrite !list_lookup_fmap, B in H.
  destruct (mcbs s' !! m) as [b'|]; [|done]. apply (inj Some) in H. by exists b'.
Qed.

Lemma kept_find m d s s' : Kept s s' -> port_find_mcb_dlci_port m d s' = port_find_mcb_dlci_port m d s.
Proof.
  intros K. unfold port_find_mcb_dlci_port. case_match; [done|]. destruct (mcbs s !! m) as [b|] eqn:B.
  - destruct (kept_mcb m s s' b K B) as (b' & -> & E). unfold mux_offer in E. cbn. congruence.
  - destruct K as [_ K]. apply (f_equal (.!! m)) in K. rewrite !list_lookup_fmap, B in K. by destruct (mcbs s' !! m).
Qed.

Lemma ready_offer b b' : mux_offer b' = mux_offer b -> ready b -> ready b'.
Proof. intros E. unfold ready. unfold mux_offer in E. injection E as -> -> _. done. Qed.

Section negotiation.
Context (congests : list Output -> bool) (co_callback : list Output -> bool).
Context (after_msc : bool) (max_packet_size : Z -> Z).

Lemma data_write_spec m f s b :
  mcbs s !! m = Some b -> mcb_congested b = false ->
  let s1 := L2CA_DataWrite congests m f s in
  Kept s s1 /\ omap (sent_on m) (out s1) = omap (sent_on m) (out s) ++ [f].
Proof.
  intros B C. unfold L2CA_DataWrite. rewrite B, C. cbv zeta.
  assert (omap (sent_on m) (out (emit (Sent m f) s)) = omap (sent_on m) (out s) ++ [f]) as E.
  { cbn. rewrite omap_app. cbn. by rewrite decide_True. }
  destruct (congests _); [|done]. pose proof (hush_congestion_started m (emit (Sent m f) s)) as H.
  split; [by apply hush_kept in H as []|]. by rewrite (hush_sent _ _ H).
Qed.

Lemma send_commands_spec m q s b :
  mcbs s !! m = Some b ->
  let s1 := send_commands congests m q s in
  Kept s s1 /\ issued m s1 = omap (sent_on m) (out s) ++ q.
Proof.
  assert (forall q s b, mcbs s !! m = Some b -> Kept s (with_mcb m (set_cmd_q q) s) /\
    issued m (with_mcb m (set_cmd_q q) s) = omap (sent_on m) (out s) ++ q) as Q.
  { clear. intros q s b B. split; [split; [done|by apply fmap_alter_same]|].
    unfold issued. cbn. by rewrite list_lookup_alter_eq, B. }
  revert s b. induction q as [|f q IH]; intros s b B; cbn [send_commands]; rewrite B; destruct (mcb_congested b) eqn:C;
    try by eapply Q.
  destruct (data_write_spec m f s b B C) as [K E]. destruct (kept_mcb m _ _ b K B) as (b1 & B1 & _).
  destruct (IH _ b1 B1) as [K1 E1]. cbv zeta in *. split; [by etransitivity|]. by rewrite E1, E, <- app_assoc.
Qed.

(** A command is the last frame the multiplexer has issued, whether it is sent or queued. *)
Lemma send_cmd_spec m f s b :
  mcbs s !! m = Some b -> Kept s (send_cmd congests m f s) /\ issued m (send_cmd congests m f s) = issued m s ++ [f].
Proof.
  intros B. unfold send_cmd, rfc_check_send_cmd. rewrite B.
  destruct (send_commands_spec m (mcb_cmd_q b ++ [f]) s b B) as [K E]. split; [done|].
  rewrite E. unfold issued. by rewrite B, app_assoc.
Qed.

Lemma alter_lookup {A} (f : A -> A) (i : nat) (l : list A) x : l !! i = Some x -> alter f i l !! i = Some (f x).
Proof. intros H. by rewrite list_lookup_alter_eq, H. Qed.

(** With the multiplexer up, the request to establish a channel changes the state of a port
    and asks for the security check. *)
Lemma establish_req_keeps m d k s p b :
  mcbs s !! m = Some b -> mcb_state b = RFC_MX_STATE_CONNECTED -> ports s !! k = Some p ->
  let s1 := RFCOMM_DlcEstablishReq congests co_callback after_msc m d s in
  mcbs s1 = mcbs s /\ exists x, ports s1 !! k = Some (set_sm_state x p).
Proof.
  intros B C P s1. assert (exists x, set_sm_state x p = p) as [x Ex] by (exists (sm_state p); by destruct p).
  subst s1. unfold RFCOMM_DlcEstablishReq. rewrite B, decide_True by done.
  destruct (port_find_mcb_dlci_port m d s) as [j|]; [|by rewrite <- Ex in P; eauto].
  unfold rfc_port_sm_execute. destruct (ports s !! j) as [pj|] eqn:Pj; [|by rewrite <- Ex in P; eauto].
  destruct (sm_state pj); cbn; try by rewrite <- Ex in P; eauto.
  unfold request_security, on_mcb.
  assert (exists y, ports (rfc_set_state RFC_STATE_ORIG_WAIT_SEC_CHECK j s) !! k = Some (set_sm_state y p)) as [y Ey].
  { cbn [ports rfc_set_state with_port]. destruct (decide (j = k)) as [-> | N].
    - rewrite (alter_lookup _ k _ p P). eauto.
    - rewrite list_lookup_alter_ne, P by done. exists x. by rewrite Ex. }
  repeat case_match; cbn [mcbs emit]; split; done || eauto.
Qed.

(** The default size of the information fills whole packets of the link. *)
Lemma default_mtu x :
  0 < x <= L2CAP_MTU_SIZE + L2CAP_PKT_OVERHEAD ->
  let n := u16 ((L2CAP_MTU_SIZE + L2CAP_PKT_OVERHEAD) / x * x - RFCOMM_DATA_OVERHEAD - L2CAP_PKT_OVERHEAD) in
  0 < n <= PORT_RX_HIGH_WM.
Proof.
  change (L2CAP_MTU_SIZE + L2CAP_PKT_OVERHEAD) with 1695. change RFCOMM_DATA_OVERHEAD with 6. change L2CAP_PKT_OVERHEAD with 4.
  change PORT_RX_HIGH_WM with 16720. intros H n. subst n. pose proof (Z.div_mod 1695 x) as D.
  pose proof (Z.mod_pos_bound 1695 x) as M. assert (1 <= 1695 / x) as L by (apply Z.div_le_lower_bound; lia).
  assert (x <= 1695 / x * x) as L2 by nia. rewrite wrap_small; unfold in_range; lia.
Qed.

(** The watermarks that go with the size of the information. *)
Lemma port_select_mtu_spec k s p :
  ports s !! k = Some p -> exists n q,
  ports (port_select_mtu max_packet_size k s) !! k = Some q /\ mtu q = n /\
  (mtu p <> 0 -> n = mtu p) /\ (mtu p = 0 -> (forall a, 0 <= max_packet_size a) -> 0 < n <= PORT_RX_HIGH_WM) /\
  mcbs (port_select_mtu max_packet_size k s) = mcbs s /\
  out (port_select_mtu max_packet_size k s) = out s /\ init_credit q = init_credit p /\
  port_dlci q = port_dlci p /\ tx q = tx p /\ 0 <= credit_rx_max q /\
  (0 < n -> credit_rx_max q = Z.min PORT_RX_BUF_HIGH_WM (PORT_RX_HIGH_WM / n)).
Proof.
  intros P. unfold port_select_mtu. rewrite P. cbv zeta.
  match goal with |- context [set_mtu ?x _] => set (n := x) end. exists n. eexists. cbn [ports mcbs out with_port].
  rewrite list_lookup_alter_eq, P. split; [done|]. split; [done|]. split.
  { intros N. subst n. destruct (Z.eqb_spec (mtu p) 0); [done|]. done. }
  split.
  { intros N Hs. subst n. rewrite N. cbn [Z.eqb negb]. specialize (Hs (port_addr (owner p))).
    destruct (Z.eqb_spec (max_packet_size (port_addr (owner p))) 0); [done|].
    destruct (Z.leb_spec (max_packet_size (port_addr (owner p))) (L2CAP_MTU_SIZE + L2CAP_PKT_OVERHEAD)); [|done].
    apply default_mtu. lia. }
  do 5 (split; [done|]). split.
  { cbn. pose proof (wrap_range 16 (PORT_RX_HIGH_WM / n)) as Hb. case_match; [done|]. by apply Hb. }
  intros Hn. cbn.
  assert (0 <= PORT_RX_HIGH_WM / n < 2 ^ 16) as Hd.
  { change PORT_RX_HIGH_WM with 16720. split; [apply Z.div_pos; lia|].
    apply Z.le_lt_trans with 16720; [|lia]. apply Z.div_le_upper_bound; nia. }
  rewrite (wrap_small 16); [|unfold in_range; lia].
  destruct (Z.ltb_spec PORT_RX_BUF_HIGH_WM (PORT_RX_HIGH_WM / n)); lia.
Qed.

(** *** The three steps *)

(** The initiator waits for the answer: the multiplexer is up, and of the port nothing that
    is negotiated has changed. *)
Definition waits (m : nat) (d : Z) (k : nat) (p : tPORT) (t : tRFC_CB) : Prop :=
  port_find_mcb_dlci_port m d t = Some k /\ has (expected_rsp p) RFC_RSP_PN = true /\
  (exists b, mcbs t !! m = Some b /\ ready b) /\ exists q, ports t !! k = Some q /\ offer q = offer p.

Lemma request_spec m d n k s p b :
  port_find_mcb_dlci_port m d s = Some k -> ports s !! k = Some p -> mcbs s !! m = Some b -> ready b ->
  let c := initial_credits p in
  let s1 := RFCOMM_ParameterNegotiationRequest congests m d n s in
  issued m s1 = issued m s ++ [Mx (Pn d n RFCOMM_PN_CONV_LAYER_CBFC_I c) true] /\
  waits m d k (set_expected_rsp (Z.lor (expected_rsp p) RFC_RSP_PN) (set_credit_rx c p)) s1.
Proof.
  intros F P B R c s1. subst s1. unfold RFCOMM_ParameterNegotiationRequest. rewrite F. cbn [mbind option_bind].
  rewrite P. cbn [mbind option_bind]. rewrite B. cbn [mbind option_bind]. pose proof R as (St & Fl).
  rewrite decide_True by done. cbv zeta.
  set (flow := if mcb_flow b =? PORT_FC_UNDEFINED then PORT_FC_CREDIT else mcb_flow b).
  assert ((flow =? PORT_FC_CREDIT) = true) as -> by (subst flow; destruct Fl as [-> | ->]; done). cbv iota.
  set (s2 := with_port k _ _). assert (mcbs s2 !! m = Some b) as B2 by exact B.
  destruct (send_cmd_spec m (Mx (Pn d n RFCOMM_PN_CONV_LAYER_CBFC_I c) true) s2 b B2) as [K E].
  split.
  { unfold rfc_port_timer_start. unfold issued at 1. cbn [out emit mcbs]. rewrite omap_app. cbn [omap list_omap sent_on].
    rewrite app_nil_r. exact E. }
  split; [change (port_find_mcb_dlci_port m d (send_cmd congests m (Mx (Pn d n RFCOMM_PN_CONV_LAYER_CBFC_I c) true) s2) = Some k);
    by rewrite (kept_find m d s2)|].
  split; [cbn; unfold has; rewrite Z.land_lor_distr_l; apply negb_true_iff, Z.eqb_neq; intros E0;
    by apply Z.lor_eq_0_iff in E0 as [_ E0]|].
  split.
  - destruct (kept_mcb m _ _ b K B2) as (b1 & B1 & E1). exists b1. split; [exact B1|]. by apply (ready_offer b).
  - apply (kept_port k _ _ _ K). subst s2. cbn [ports with_port].
    by rewrite (alter_lookup _ k _ (set_credit_rx c p)) by by apply alter_lookup.
Qed.

Lemma response_spec m d k s s0 p b pn n c :
  port_for_channel m d s = (Some k, s0) -> ports s0 !! k = Some p -> mcbs s0 !! m = Some b -> ready b ->
  (exists b0, mcbs s !! m = Some b0 /\ mcb_state b0 = RFC_MX_STATE_CONNECTED) ->
  pn_received pn n RFCOMM_PN_CONV_LAYER_CBFC_I c ->
  let s1 := rfc_process_pn congests co_callback after_msc max_packet_size m true d pn s in
  exists n' q,
    issued m s1 = issued m s0 ++ [Mx (Pn d n' RFCOMM_PN_CONV_LAYER_CBFC_R (initial_credits q)) false] /\
    ports s1 !! k = Some q /\ peer_mtu q = n' /\ n' <= n /\
    credit_tx q = Z.land c 7 /\ credit_rx q = initial_credits q /\ init_credit q = init_credit p /\
    p_mcb q = Some m /\ (peer_fc (tx p) = false -> peer_fc (tx q) = (Z.land c 7 =? 0)) /\ 0 <= credit_rx_max q /\
    exists n1, n' <= n1 /\ (mtu p <> 0 -> n1 = mtu p) /\
      (mtu p = 0 -> (forall a, 0 <= max_packet_size a) -> 0 < n1 <= PORT_RX_HIGH_WM) /\
      (0 < n1 -> credit_rx_max q = Z.min PORT_RX_BUF_HIGH_WM (PORT_RX_HIGH_WM / n1)).
Proof.
  intros Fc P B R (b0 & B0 & Ds) (En & Ecl & Ec) s1. subst s1. unfold rfc_process_pn.
  rewrite B0, decide_False by by rewrite Ds. unfold PORT_ParNegInd.
  change (pn_conv_layer pn = RFCOMM_PN_CONV_LAYER_CBFC_I) in Ecl. rewrite Fc, En, Ecl, Ec. cbv zeta.
  set (sa := with_port k (fun p0 => set_owner (set_port_addr _ (owner p0)) p0) s0).
  destruct (port_select_mtu_spec k sa _ (alter_lookup _ k _ p P))
    as (n1 & q1 & P1 & M1 & N1 & N0 & B1 & O1 & C1 & _ & T1 & Z1 & W1).
  cbn [mtu init_credit tx set_owner] in N1, N0, C1, T1. set (s2 := port_select_mtu max_packet_size k sa) in *. pose proof R as (St & Fl).
  set (fb := fun b1 : tRFC_MCB => if mcb_flow b1 =? PORT_FC_UNDEFINED then _ else b1).
  set (n' := if mtu q1 <? n then mtu q1 else n). set (x := Z.land c 7) in *.
  set (q2 := set_peer_mtu n' (set_mtu n' (set_p_mcb (Some m) q1))).
  set (s3 := with_mcb m fb (with_port k _ s2)).
  assert (ports s3 !! k = Some q2) as P3 by (cbn; by rewrite (alter_lookup _ k _ q1)).
  assert (mcbs s3 !! m = Some (fb b)) as B3 by (cbn; rewrite B1; by apply alter_lookup).
  assert (mcb_state (fb b) = RFC_MX_STATE_CONNECTED /\ mcb_flow (fb b) = PORT_FC_CREDIT /\ mcb_cmd_q (fb b) = mcb_cmd_q b)
    as (S3 & F3 & Q3).
  { subst fb. cbn beta. destruct Fl as [E|E]; rewrite E; by cbn. }
  rewrite P3. cbn [mbind option_bind]. rewrite B3. cbn [mbind option_bind]. rewrite F3.
  change (negb (RFCOMM_PN_CONV_LAYER_CBFC_I =? RFCOMM_PN_CONV_LAYER_TYPE_1) && (PORT_FC_CREDIT =? PORT_FC_CREDIT)) with true.
  cbv iota. unfold RFCOMM_ParameterNegotiationResponse. cbn [mcbs with_port port_get_credits]. rewrite B3.
  rewrite decide_True by exact S3.
  set (get := fun p0 : tPORT => let p1 := set_credit_tx x p0 in if x =? 0 then set_tx (set_peer_fc true (tx p1)) p1 else p1).
  set (q := set_credit_rx (initial_credits q2) (get q2)).
  assert (initial_credits q = initial_credits q2) as Eq by (subst q get; cbn beta; unfold initial_credits; by destruct (x =? 0)).
  set (s4 := with_port k (set_credit_rx _) _).
  assert (ports s4 !! k = Some q) as P4.
  { cbn [s4 ports with_port port_get_credits]. rewrite (alter_lookup _ k _ (get q2)); [done|]. by apply alter_lookup. }
  assert (mcbs s4 !! m = Some (fb b)) as B4 by exact B3.
  assert (issued m s4 = issued m s0) as I4.
  { unfold issued. rewrite B4, B, Q3. change (out s4) with (out s2). by rewrite O1. }
  change (mtu q2) with n'. destruct (send_cmd_spec m (Mx (Pn d n' RFCOMM_PN_CONV_LAYER_CBFC_R (initial_credits q2)) false) s4 _ B4) as [K E].
  destruct (kept_port k _ _ q K P4) as (q5 & P5 & E5). apply offer_eq in E5 as (_ & E6 & E7 & E8 & E9 & E10 & _ & E12 & E13).
  assert (initial_credits q5 = initial_credits q2) as Eq5 by (rewrite <- Eq; unfold initial_credits; by rewrite E9, E10).
  exists n', q5. rewrite Eq5, E, I4. split; [done|]. split; [exact P5|]. rewrite E6, E7, E8, E9, E10, E12, E13.
  assert (forall {A} (f : tPORT -> A), (forall x y z p0, f (set_credit_rx x (set_tx z (set_credit_tx y p0))) = f p0) ->
    (forall x y p0, f (set_credit_rx x (set_credit_tx y p0)) = f p0) -> f q = f q2) as Keep.
  { intros A f H1 H2. subst q get. cbn beta zeta. destruct (x =? 0); auto. }
  rewrite (Keep _ peer_mtu), (Keep _ init_credit), (Keep _ p_mcb), (Keep _ credit_rx_max) by done.
  split; [done|]. split; [subst n'; rewrite M1; destruct (Z.ltb_spec n1 n); lia|].
  split; [subst q get; cbn beta zeta; by destruct (x =? 0)|].
  split; [done|]. split; [done|]. split; [done|]. split.
  { intros Ef. subst q get. cbn beta zeta. destruct (x =? 0) eqn:E0; [done|]. cbn. by rewrite T1. }
  split; [exact Z1|]. exists n1. split; [subst n'; rewrite M1; destruct (Z.ltb_spec n1 n); lia|]. split; [done|]. split; [done|]. exact W1.
Qed.

Lemma confirmation_spec m d k s p pn n c :
  waits m d k p s -> pn_received pn n RFCOMM_PN_CONV_LAYER_CBFC_R c ->
  let s1 := rfc_process_pn congests co_callback after_msc max_packet_size m false d pn s in
  exists q, ports s1 !! k = Some q /\ peer_mtu q = Z.min (mtu p) n /\
    credit_tx q = Z.land c 7 /\ credit_rx q = credit_rx p /\
    (peer_fc (tx p) = false -> peer_fc (tx q) = (Z.land c 7 =? 0)).
Proof.
  intros (F & E & (b & B & R) & p0 & P & Ep) (En & Ecl & Ec) s1. subst s1.
  apply offer_eq in Ep as (Em & _ & _ & Er & _ & _ & Ee & _ & Et). rewrite <- Em, <- Er, <- Et. rewrite <- Ee in E. clear Em Er Et Ee p.
  rename p0 into p. unfold rfc_process_pn. rewrite B, F. cbn [mbind option_bind].
  rewrite P. cbn [mbind option_bind]. rewrite E. unfold PORT_ParNegCnf.
  set (s2 := rfc_port_timer_stop k _). change (pn_conv_layer pn = RFCOMM_PN_CONV_LAYER_CBFC_R) in Ecl.
  assert (port_find_mcb_dlci_port m d s2 = Some k) as -> by exact F. rewrite En, Ecl, Ec. cbv zeta. set (x := Z.land c 7) in *.
  set (fb := fun b1 : tRFC_MCB => if mcb_flow b1 =? PORT_FC_UNDEFINED then _ else b1).
  set (fp := fun p0 : tPORT => set_peer_mtu _ _).
  set (s3 := with_port k fp (with_mcb m fb s2)).
  set (p2 := set_expected_rsp (clear (expected_rsp p) RFC_RSP_PN) p).
  assert (ports s3 !! k = Some (fp p2)) as P3 by (cbn; rewrite (alter_lookup _ k _ p2); [done|by apply alter_lookup]).
  assert (mcbs s3 !! m = Some (fb b)) as B3 by by apply alter_lookup.
  assert (mcb_flow (fb b) = PORT_FC_CREDIT /\ mcb_state (fb b) = RFC_MX_STATE_CONNECTED) as [F3 C3].
  { subst fb. cbn beta. destruct R as (St & [Fl | Fl]); rewrite Fl; by cbn. }
  rewrite P3. cbn [mbind option_bind]. rewrite B3. cbn [mbind option_bind]. rewrite F3.
  change (PORT_FC_CREDIT =? PORT_FC_CREDIT) with true. cbv iota.
  set (get := fun p0 : tPORT => let p1 := set_credit_tx x p0 in if x =? 0 then set_tx (set_peer_fc true (tx p1)) p1 else p1).
  assert (ports (port_get_credits k x s3) !! k = Some (get (fp p2))) as P4 by by apply alter_lookup.
  set (s4 := port_get_credits k x s3) in *.
  assert (mcbs s4 !! m = Some (fb b)) as B4 by exact B3.
  assert (exists y, ports (if decide (port_state (fp p2) = PORT_CONNECTION_STATE_OPENING)
      then RFCOMM_DlcEstablishReq congests co_callback after_msc m (port_dlci (fp p2)) s4 else s4) !! k =
      Some (set_sm_state y (get (fp p2)))) as (y & P5).
  { case_decide; [by eapply (establish_req_keeps m (port_dlci (fp p2)) k s4 _ _ B4 C3 P4)|].
    exists (sm_state (get (fp p2))). rewrite P4. by destruct (get (fp p2)). }
  exists (set_sm_state y (get (fp p2))). split; [exact P5|].
  assert ((if mtu p2 <? n then mtu p2 else n) = Z.min (mtu p) n) as Em.
  { subst p2. cbn. destruct (Z.ltb_spec (mtu p) n); lia. }
  subst get fp; cbn beta zeta; rewrite Em; destruct (x =? 0) eqn:E0; cbn; auto 10.
Qed.

Lemma room_for_credits q n n1 :
  init_credit q = None -> 0 < n1 <= PORT_RX_HIGH_WM -> n <= n1 ->
  credit_rx_max q = Z.min PORT_RX_BUF_HIGH_WM (PORT_RX_HIGH_WM / n1) ->
  0 < initial_credits q <= credit_rx_max q /\ credit_rx_max q * n <= PORT_RX_CRITICAL_WM.
Proof.
  intros I N L E. unfold initial_credits. rewrite I. change PORT_RX_HIGH_WM with 16720 in *.
  change PORT_RX_CRITICAL_WM with 25080. change PORT_RX_BUF_HIGH_WM with 10 in *. change RFCOMM_K_MAX with 7.
  assert (1 <= 16720 / n1) as D by (apply Z.div_le_lower_bound; lia).
  assert (n1 * (16720 / n1) <= 16720) as D2 by (apply Z.mul_div_le; lia).
  split; [|nia]. destruct (Z.ltb_spec (credit_rx_max q) 7); [|lia].
  rewrite wrap_small; [lia|]. unfold in_range. lia.
Qed.

(** The number of credits fits in its field of the PN message. *)
Definition small_init (p : tPORT) : Prop :=
  match init_credit p with Some i => 0 <= i <= RFCOMM_K_MAX | None => True end.

Lemma credits_carried p : small_init p -> 0 <= credit_rx_max p -> Z.land (initial_credits p) 7 = initial_credits p.
Proof.
  intros S C. assert (0 <= initial_credits p <= 7) as H.
  { unfold small_init in S. unfold initial_credits. change RFCOMM_K_MAX with 7 in *.
    destruct (init_credit p); [rewrite wrap_small; [lia|unfold in_range; lia]|].
    destruct (Z.ltb_spec (credit_rx_max p) 7); [rewrite wrap_small; [lia|unfold in_range; lia]|lia]. }
  change 7 with (Z.ones 3). rewrite Z.land_ones by lia. apply Z.mod_small. lia.
Qed.

(** C19: the exchange of the PN messages, with any congestion of L2CAP.  The request is issued
    with the size and the credits [c] of the port; once the peer reads it (with the lowest
    three bits of the credits) the peer issues the answer with a size [n] and credits
    [c']; and once the initiator reads that, whatever it did meanwhile on other channels,
    both ports have the same size [n], which is not more than was asked for.  Each port
    has the lowest three bits of the credits that the other has given; these are all the
    credits when the application has not asked for more than 7 initial credits.  A port
    without credits waits for them.  When the application of the peer has not set the
    credits, and its MTU is the default or not larger than PORT_RX_HIGH_WM, the credits are
    not zero and the receive queue has room for the frames they stand for. *)
Theorem rfcomm_negotiation_agrees (m m' k k' : nat) (d : Z) (s s' s0 : tRFC_CB) (p p' : tPORT) (b b' : tRFC_MCB) :
  port_find_mcb_dlci_port m d s = Some k -> ports s !! k = Some p -> mcbs s !! m = Some b -> ready b ->
  port_for_channel m' d s' = (Some k', s0) -> ports s0 !! k' = Some p' -> mcbs s0 !! m' = Some b' -> ready b' ->
  (exists b0, mcbs s' !! m' = Some b0 /\ mcb_state b0 = RFC_MX_STATE_CONNECTED) ->
  peer_fc (tx p) = false -> peer_fc (tx p') = false -> 0 <= credit_rx_max p ->
  let s1 := RFCOMM_ParameterNegotiationRequest congests m d (mtu p) s in
  exists c p1, issued m s1 = issued m s ++ [Mx (Pn d (mtu p) RFCOMM_PN_CONV_LAYER_CBFC_I c) true] /\
  waits m d k p1 s1 /\
  forall pn, pn_received pn (mtu p) RFCOMM_PN_CONV_LAYER_CBFC_I c ->
  let s1' := rfc_process_pn congests co_callback after_msc max_packet_size m' true d pn s' in
  exists n c', issued m' s1' = issued m' s0 ++ [Mx (Pn d n RFCOMM_PN_CONV_LAYER_CBFC_R c') false] /\
  forall t pn', waits m d k p1 t -> pn_received pn' n RFCOMM_PN_CONV_LAYER_CBFC_R c' ->
  let s2 := rfc_process_pn congests co_callback after_msc max_packet_size m false d pn' t in
  exists q q', ports s2 !! k = Some q /\ ports s1' !! k' = Some q' /\
    peer_mtu q = n /\ peer_mtu q' = n /\ n <= mtu p /\
    credit_rx q' = c' /\ credit_tx q = Z.land c' 7 /\ (small_init p' -> credit_tx q = credit_rx q') /\
    credit_rx q = c /\ credit_tx q' = Z.land c 7 /\ (small_init p -> credit_tx q' = credit_rx q) /\
    peer_fc (tx q) = (credit_tx q =? 0) /\ peer_fc (tx q') = (credit_tx q' =? 0) /\
    (init_credit p' = None -> 0 <= mtu p' <= PORT_RX_HIGH_WM -> (forall a, 0 <= max_packet_size a) ->
     0 < c' <= credit_rx_max q' /\ credit_rx_max q' * n <= PORT_RX_CRITICAL_WM).
Proof.
  intros F P B R F' P' B' R' Cn Fc Fc' Cm s1. destruct (request_spec m d (mtu p) k s p b F P B R) as (O1 & W).
  fold s1 in O1, W. eexists (initial_credits p), _. split; [exact O1|]. split; [exact W|]. intros pn Hpn s1'.
  destruct (response_spec m' d k' s' s0 p' b' pn _ _ F' P' B' R' Cn Hpn)
    as (n & q' & O1' & P1' & Hn & Ln & Ct & Cr & Ic & _ & Pf & Cm' & n1 & L1 & N1 & N0 & W1).
  exists n, (initial_credits q'). split; [exact O1'|]. intros t pn' Wt Hpn' s2.
  destruct (confirmation_spec m d k t _ pn' _ _ Wt Hpn') as (q & P2 & Pm & Qt & Qr & Qf). cbn in Pm, Qr, Qf.
  exists q, q'. split; [exact P2|]. split; [exact P1'|]. split; [lia|]. do 2 (split; [done|]). split; [exact Cr|]. split; [exact Qt|].
  split. { intros S. rewrite Qt, Cr. apply credits_carried; [|done]. unfold small_init in *. by rewrite Ic. }
  split; [exact Qr|]. split; [exact Ct|]. split; [intros S; rewrite Ct, Qr; by apply credits_carried|].
  rewrite Qt, Ct. split; [by apply Qf|]. split; [by apply Pf|].
  intros Hi Hm Hs. assert (0 < n1 <= PORT_RX_HIGH_WM) as H1.
  { destruct (Z.eq_dec (mtu p') 0) as [Z0|Nz]; [by apply N0|]. rewrite N1; lia. }
  apply (room_for_credits _ _ n1); [congruence|exact H1|exact L1|apply W1; lia].
Qed.
End negotiation.

(** Channel 2 of a device whose port offers 990 octets, and a port that waits for it. *)
Definition opening_port (n : Z) (m : option nat) (max : Z) : tPORT :=
  set_p_mcb m (set_mtu n (open_port 2 0 0 0 max)).
Definition opening_mux (handles : list Z) : tRFC_MCB :=
  {| mcb_state := RFC_MX_STATE_CONNECTED; mcb_flow := PORT_FC_UNDEFINED; peer_ready := true;
     mcb_congested := false; mcb_cmd_q := []; port_handles := handles; is_disc_initiator := false;
     link := no_link |}.
Definition opening_cb (n : Z) (m : option nat) (max : Z) (handles : list Z) : tRFC_CB :=
  {| tables := no_tables; peer_rx_disabled := false; ports := [opening_port n m max]; mcbs := [opening_mux handles]; out := [] |}.

Definition pn_message (n cl c : Z) : pn_pars :=
  {| pn_frame_type := 0; pn_conv_layer := cl; pn_priority := 0; pn_t1 := 0; pn_mtu := n; pn_n2 := 0; pn_k := c |}.

Lemma rfcomm_negotiation_agrees_witness :
  let s := opening_cb 990 (Some 0%nat) 5 open_handles in
  let s' := opening_cb 667 None 0 (replicate 62 0) in
  let s1 := RFCOMM_ParameterNegotiationRequest (fun _ => true) 0 2 990 s in
  let s1' := rfc_process_pn (fun _ => true) never false (fun _ => 0) 0 true 2 (pn_message 990 RFCOMM_PN_CONV_LAYER_CBFC_I 5) s' in
  let s2 := rfc_process_pn (fun _ => true) never false (fun _ => 0) 0 false 2 (pn_message 667 RFCOMM_PN_CONV_LAYER_CBFC_R 7) s1 in
  exists q q', ports s2 !! 0%nat = Some q /\ ports s1' !! 0%nat = Some q' /\ peer_mtu q = 667 /\ peer_mtu q' = 667 /\
    credit_tx q = 7 /\ credit_tx q' = 5 /\ credit_tx q = credit_rx q' /\ credit_rx_max q' * 667 <= PORT_RX_CRITICAL_WM.
Proof.
  intros s s' s1 s1' s2.
  destruct (rfcomm_negotiation_agrees (fun _ => true) never false (fun _ => 0) 0 0 0 0 2 s s'
    (snd (port_for_channel 0 2 s')) (opening_port 990 (Some 0%nat) 5) (opening_port 667 None 0)
    (opening_mux open_handles) (opening_mux (<[2%nat := 1]> (replicate 62 0)))) as (c & p1 & O & W & H);
    try done; try (by unfold ready; auto 10); [by exists (opening_mux (replicate 62 0))|].
  vm_compute in O. injection O as <-. specialize (H (pn_message 990 RFCOMM_PN_CONV_LAYER_CBFC_I 5)).
  destruct H as (n & c' & O' & H); [done|]. vm_compute in O'. injection O' as <- <-.
  destruct (H s1 (pn_message 667 RFCOMM_PN_CONV_LAYER_CBFC_R 7) W) as (q & q' & Q & Q' & H'); [done|].
  exists q, q'. destruct H' as (? & ? & _ & _ & ? & S & _ & ? & _ & _ & _ & Rm).
  do 6 (split; [done|]). split; [by apply S|]. apply Rm; [done|by_decide|done].
Defined.

(** An application that asks for 8 initial credits: the port counts 8 credits for the peer,
    which has read 0 of them and waits. *)
Theorem initial_credits_truncated :
  let p := set_config (Some 8) false (opening_port 990 (Some 0%nat) 5) in
  let s := with_port 0 (fun _ => p) (opening_cb 990 (Some 0%nat) 5 open_handles) in
  let s' := opening_cb 667 None 0 (replicate 62 0) in
  let s1 := RFCOMM_ParameterNegotiationRequest never 0 2 990 s in
  issued 0 s1 = [Mx (Pn 2 990 RFCOMM_PN_CONV_LAYER_CBFC_I 8) true] /\ credit_rx <$> ports s1 !! 0%nat = Some 8 /\
  forall pn, pn_received pn 990 RFCOMM_PN_CONV_LAYER_CBFC_I 8 ->
  let s1' := rfc_process_pn never never false (fun _ => 0) 0 true 2 pn s' in
  exists q', ports s1' !! 0%nat = Some q' /\ credit_tx q' = 0 /\ peer_fc (tx q') = true.
Proof.
  intros p s s' s1. split; [done|]. split; [done|]. intros [] (E1 & E2 & E3). cbn in E1, E2, E3. subst.
  eexists. split; [vm_compute; reflexivity|]. done.
Qed.
