(* ===== verification/RfcommPortRuns.v ===== *)
(** * RFCOMM ports: runs outside of the conditions of the stream

    Concrete runs that show why the theorems on a channel between two devices have the
    conditions they have: the channel is set up, its port is not used with
    [PORT_FlowControl_MaxCredit], no peer has sent FCOFF, and when the congestion of L2CAP
    is over there is room for the commands that wait.  Without them data is put out of
    order, lost or not sent. *)

From stdpp Require Import base list option.
From Stdlib Require Import ZArith.
From S2P Require Import Prelude.
From S2P Require Import RfcommFrames.
From S2P Require Import RfcommMessages.
From S2P Require Import RfcommPortState.
From S2P Require Import RfcommPort.
From S2P Require Import RfcommFsm.
From S2P Require Import RfcommPortSpec.
From S2P Require Import RfcommPortExample.

Open Scope Z_scope.

Definition no_msc : msc_pars := {| msc_signals := 0; msc_break_present := 0; msc_break_duration := 0 |}.
Definition write (h : Z) (l : list Z) (s : tRFC_CB) : tRFC_CB := snd (PORT_WriteData never never h l s).

(** The data of channel 2 that was sent. *)
Definition sent_data (s : tRFC_CB) : list (list Z) :=
  omap (fun f => match f with Uih _ _ i => Some i | _ => None end) (frames 0 2 (out s)).

Definition overruns (s : tRFC_CB) : list (list Z) :=
  omap (fun o => match o with Overrun _ i => Some i | _ => None end) (out s).
Definition refused (s : tRFC_CB) : list Frame :=
  omap (fun o => match o with Refused _ f => Some f | _ => None end) (out s).

(** The local modem status was sent and is not confirmed. *)
Definition opening : tRFC_CB :=
  two_ports (set_port_ctrl PORT_CTRL_REQ_SENT (set_expected_rsp RFC_RSP_MSC (open_port 2 3 5 5 5))).

(** Data that is written after the modem status of the peer and before the answer to the
    own one overtakes the data that was written earlier. *)
Theorem write_overtakes_while_opening :
  let s1 := write 1 [1; 2; 3] opening in
  let s2 := rfc_process_msc never false 0 true 2 no_msc s1 in
  let s3 := write 1 [4; 5; 6] s2 in
  let s4 := rfc_process_msc never false 0 false 2 no_msc s3 in
  sent_data s2 = [] /\ sent_data s4 = [[4; 5; 6]; [1; 2; 3]].
Proof. vm_compute. done. Qed.

(** A peer with all its credits gets as many again, and can then send more frames than the
    receive queue holds. *)
Theorem max_credit_exceeds_maximum :
  let s1 := snd (PORT_FlowControl_MaxCredit never 1 true (two_ports (open_port 2 3 10 10 10))) in
  let s2 := Nat.iter 20 (RFCOMM_BufDataInd_uih never never 0 2 0 true false [7]) s1 in
  frames 0 2 (out s1) = [Credit 2 10] /\ overruns s2 = replicate 5 [7] /\
  (count ∘ queue ∘ rx <$> ports s2 !! 0%nat) = Some PORT_RX_BUF_CRITICAL_WM.
Proof. vm_compute. done. Qed.

(** A multiplexer whose only channel is the last one counts as not active. *)
Theorem last_channel_not_active :
  let b := {| mcb_state := RFC_MX_STATE_CONNECTED; mcb_flow := PORT_FC_CREDIT; peer_ready := true;
              mcb_congested := false; mcb_cmd_q := []; port_handles := <[61%nat := 1]> (replicate 62 0);
              is_disc_initiator := true; link := no_link |} in
  let s := {| tables := no_tables; peer_rx_disabled := false; ports := [open_port 61 3 2 2 4]; mcbs := [b]; out := [] |} in
  port_find_mcb_dlci_port 0 61 s = Some 0%nat /\
  Sent 0 (Disc 0) ∈ out (rfc_check_mcb_active never 0 s).
Proof. split; [done|]. apply list_elem_of_In. vm_compute. auto. Qed.

(** After a Remote Line Status command a read returns the error and no data, also the data
    that comes later, and does not clear the error. *)
Theorem line_status_stays :
  let s1 := rfc_process_rls never 0 true 2 PORT_ERR_BREAK (two_ports (open_port 2 3 2 2 4)) in
  let s2 := RFCOMM_BufDataInd_uih never never 0 2 0 true false [7] s1 in
  PORT_ReadData never 1 100 s2 = (PORT_LINE_ERR, [], s2) /\
  (queue ∘ rx <$> ports s2 !! 0%nat) = Some [[7]].
Proof. vm_compute. done. Qed.

(** Two multiplexers with a port each; the L2CAP channel of the first is congested and its
    port has data to send. *)
Definition waiting_port : tPORT :=
  set_tx {| queue := [[1; 2; 3]]; queue_size := 3; peer_fc := false; user_fc := true |} (open_port 2 3 2 2 4).
Definition two_muxes : tRFC_CB :=
  {| tables := no_tables; peer_rx_disabled := false; ports := [waiting_port; set_p_mcb (Some 1%nat) (open_port 4 3 2 2 4)];
     mcbs := [set_peer_ready false (set_congested true open_mux); open_mux]; out := [] |}.

(** FCOFF from the one peer makes the end of the congestion of the other be missed, and FCON
    does not make up for it. *)
Theorem fcoff_stalls_other_peer :
  let s1 := rfc_process_fcoff never 1 true two_muxes in
  let s2 := rfc_process_l2cap_congestion never 0 false s1 in
  let s3 := rfc_process_fcon never 1 true s2 in
  sent_data (rfc_process_l2cap_congestion never 0 false two_muxes) = [[1; 2; 3]] /\
  sent_data s3 = [] /\ peer_rx_disabled s3 = false /\
  (mcb_congested <$> mcbs s3 !! 0%nat) = Some false /\ (peer_ready <$> mcbs s3 !! 0%nat) = Some false.
Proof. vm_compute. done. Qed.

(** L2CAP that is congested by the first command. *)
Definition command_congests (o : list Output) : bool :=
  match list.last o with Some (Sent _ (Mx _ _)) => true | _ => false end.
Definition command_waits : tRFC_CB :=
  {| tables := no_tables; peer_rx_disabled := false; ports := [waiting_port];
     mcbs := [set_cmd_q [Mx Fcon false] (set_peer_ready false (set_congested true open_mux))]; out := [] |}.

(** When a command that waited congests the channel again, the data that waited is sent after
    all, and L2CAP refuses it. *)
Theorem data_refused_after_command :
  let s := rfc_process_l2cap_congestion command_congests 0 false command_waits in
  sent_data s = [] /\ refused s = [Uih 2 0 [1; 2; 3]] /\ (queue ∘ tx <$> ports s !! 0%nat) = Some [].
Proof. vm_compute. done. Qed.
