(* ===== verification/RfcommFsmConnection.v ===== *)
(** * RFCOMM: connections between two devices

    A client connects to a server on another device that runs this implementation.  The
    frames that the one sends are written as octets ([RfcommFrames.v],
    [RfcommMessages.v]) and given to the other, which reads them; L2CAP connects the
    channel and configures it with the MTU that RFCOMM asks for; the security managers
    let a check pass or not.  What comes from L2CAP to a device comes in order; between
    the two devices, and between L2CAP and the security manager of a device, anything
    may come first.  All of these runs end, and they are explored one by one
    ([explore]); those in which each check has passed end in the state in
    which the theorems of [RfcommPortWorld.v] on the data of a channel begin.

    The applications use the default parameters; until the connection is there L2CAP
    is not congested, no timer expires and nobody disconnects. *)

From stdpp Require Import base list option.
From Stdlib Require Import ZArith Lia.
From S2P Require Import Prelude.
From S2P Require Import RfcommFrames.
From S2P Require Import RfcommMessages.
From S2P Require Import RfcommPortState.
From S2P Require Import RfcommPort.
From S2P Require Import RfcommFsm.
From S2P Require Import RfcommPortSpec.
From S2P Require Import RfcommPortExample.
From S2P Require Import RfcommPortStream.
From S2P Require Import RfcommPortWorld.

Open Scope Z_scope.

(** ** Octets *)

Definition zeros (n : nat) : list Z := replicate n 0.
Definition calm {A} (o : list A) : bool := false.

(** The octets of a frame that the multiplexer sends. *)
Definition wire (v : RfcommFrames.tRFC_MCB) (f : Frame) : list Z :=
  let rx := set_union (u_pn {| pn_frame_type := 0; pn_conv_layer := 0; pn_priority := 0; pn_t1 := 0;
              pn_mtu := 0; pn_n2 := 0; pn_k := 0 |}) no_frame in
  let sent := match f with
    | Uih d c info =>
        rfc_send_buf_uih calm d {| RfcommFrames.data := zeros 20 ++ info ++ [0]; offset := 20;
          len := Z.of_nat (length info); layer_specific := c |} v
    | Credit d c => rfc_send_credit zeros calm d c v
    | Dm d final => rfc_send_dm zeros calm d final v
    | Sabme d => rfc_send_sabme zeros calm d v
    | Ua d => rfc_send_ua zeros calm d v
    | Disc d => rfc_send_disc zeros calm d v
    | Nsc rx => rfc_send_nsc zeros calm rx v
    | Mx msg is_command => send_mx zeros calm rx msg is_command v
    end in
  match sent with Some m => default [] (list.last (RfcommFrames.written m)) | None => [] end.

Definition buffer (l : list Z) : BT_HDR :=
  {| RfcommFrames.data := l; offset := 0; len := Z.of_nat (length l); layer_specific := 0 |}.

(** ** Two devices

    The L2CAP channel is [0x40] on the one and [0x41] on the other; the first one connects. *)

Definition address (x : bool) : Z := if x then 0xB else 0xA.
Definition channel (x : bool) : Z := if x then 0x41 else 0x40.
Definition no_rpn : rpn_pars := {| rpn_settings := RfcommFsm.no_settings; rpn_param_mask := 0 |}.
Definition no_cfg : RfcommCfgInfo := {| rx_mtu := None; cfg_init_credit := None; data_path_offload := false |}.

(** A device: its control block, what L2CAP has for it, and the ports whose security
    is being checked. *)
Record Node := {
  block : tRFC_CB;
  from_l2cap : list Input;
  checks : list nat;
}.
Record Net := { client : Node; server : Node }.

(** What an output of device [x] leads to: inputs from L2CAP for itself, checks of its
    security, inputs from L2CAP for the other device. *)
Definition react (x : bool) (s : tRFC_CB) (o : Output) : list Input * list nat * list Input :=
  match o with
  | Sent m f =>
      match mcbs s !! m with
      | Some b => ([], [], [BufDataInd (channel (negb x)) (buffer (wire (frame_mcb b) f))])
      | None => ([], [], [])
      end
  | SecRequest k _ _ _ => ([], [k], [])
  | ConnectReq _ c =>
      ([ConnectCnf c 0; ConfigCnf c (Some L2CAP_MTU_SIZE)], [],
       [ConnectInd (address x) (channel (negb x)); ConfigCnf (channel (negb x)) (Some L2CAP_MTU_SIZE)])
  | DisconnectReq c => ([], [], [DisconnectInd (channel (negb x))])
  | _ => ([], [], [])
  end.

(** What may happen: the next input from L2CAP comes, or the next check is complete. *)
Inductive Move :=
| Deliver (x : bool)
| Check (x : bool) (passed : bool).

Section devices.
Context (fix_start fix_collision after_msc : bool).

Definition device_step : Input -> tRFC_CB -> tRFC_CB :=
  RfcommFsm.step calm calm after_msc (fun _ => 0) fix_start fix_collision (fun _ => channel false) (fun _ => 0)
    (fun _ => no_rpn).

(** Device [x] takes the input; [other] is the other device. *)
Definition deliver (x : bool) (i : Input) (v other : Node) : Node * Node :=
  let s := device_step i (block v) in
  let r := react x s <$> drop (length (out (block v))) (out s) in
  ({| block := s; from_l2cap := from_l2cap v ++ concat ((fun a => a.1.1) <$> r);
      checks := checks v ++ concat ((fun a => a.1.2) <$> r) |},
   {| block := block other; from_l2cap := from_l2cap other ++ concat (snd <$> r);
      checks := checks other |}).

Definition take_input (x : bool) (v other : Node) : option (Node * Node) :=
  match from_l2cap v with
  | [] => None
  | i :: r => Some (deliver x i {| block := block v; from_l2cap := r; checks := checks v |} other)
  end.
Definition complete_check (x passed : bool) (v other : Node) : option (Node * Node) :=
  match checks v with
  | [] => None
  | k :: r => Some (deliver x (SecComplete k passed)
                      {| block := block v; from_l2cap := from_l2cap v; checks := r |} other)
  end.

(** The server is the device [true]. *)
Definition net_of (x : bool) (r : Node * Node) : Net :=
  if x then {| client := snd r; server := fst r |} else {| client := fst r; server := snd r |}.
Definition on_net (x : bool) (f : Node -> Node -> option (Node * Node)) (n : Net) : option Net :=
  net_of x <$> (if x then f (server n) (client n) else f (client n) (server n)).

Definition net_step (mv : Move) (n : Net) : option Net :=
  match mv with
  | Deliver x => on_net x (take_input x) n
  | Check x passed => on_net x (complete_check x passed) n
  end.

Fixpoint net_run (l : list Move) (n : Net) : option Net :=
  match l with [] => Some n | mv :: l => n ← net_step mv n; net_run l n end.

(** Service 0x1101 listens on [scn] in the server, then the client connects to it. *)
Definition new_node : Node := {| block := RFCOMM_Init; from_l2cap := []; checks := [] |}.
Definition call (scn : Z) : Net :=
  let '(b, a) := deliver true (CreateConnection 0x1101 scn true 0 kAny true 0 no_cfg) new_node new_node in
  net_of false (deliver false (CreateConnection 0x1101 scn false 0 (address true) true 0 no_cfg) a b).

(** Nothing is left to happen. *)
Definition idle (v : Node) : bool :=
  match from_l2cap v, checks v with [], [] => true | _, _ => false end.
Definition quiet (n : Net) : bool := idle (client n) && idle (server n).

Definition passes (mv : Move) : bool := match mv with Check _ passed => passed | Deliver _ => true end.

(** Every run from [n] takes less than [fuel] moves and ends as [good] says, given
    whether each check has passed. *)
Definition moves : list Move :=
  [Deliver false; Deliver true; Check false true; Check false false; Check true true; Check true false].
Fixpoint explore (good : bool -> Net -> bool) (fuel : nat) (passed : bool) (n : Net) : bool :=
  match fuel with
  | O => false
  | S fuel =>
      if quiet n then good passed n
      else forallb (fun mv => match net_step mv n with
                              | Some n => explore good fuel (passed && passes mv) n
                              | None => true
                              end) moves
  end.

Lemma in_moves mv : In mv moves.
Proof. destruct mv as [[]|[] []]; cbn; tauto. Qed.

Lemma quiet_stops mv n : quiet n = true -> net_step mv n = None.
Proof.
  unfold quiet, idle. intros [A B]%andb_true_iff.
  destruct (from_l2cap (client n)) eqn:E1, (checks (client n)) eqn:E2; try done.
  destruct (from_l2cap (server n)) eqn:E3, (checks (server n)) eqn:E4; try done.
  destruct mv as [[]|[] []]; cbn [net_step]; unfold on_net, take_input, complete_check; by rewrite ?E1, ?E2, ?E3, ?E4.
Qed.

Lemma explore_sound good fuel : forall passed n, explore good fuel passed n = true ->
  forall l n', net_run l n = Some n' ->
    (length l < fuel)%nat /\
    (quiet n' = true -> good (passed && forallb passes l) n' = true).
Proof.
  induction fuel as [|fuel IH]; intros passed n H l n' R; [done|]. cbn [explore] in H.
  destruct l as [|mv l]; cbn [net_run] in R.
  { injection R as <-. split; [cbn; lia|]. intros Q. rewrite Q in H. cbn. by rewrite andb_true_r. }
  apply bind_Some in R as (n1 & S & R).
  destruct (quiet n) eqn:Q; [by rewrite (quiet_stops mv n Q) in S|].
  rewrite forallb_forall in H. specialize (H mv (in_moves mv)). rewrite S in H.
  destruct (IH _ _ H _ _ R) as [L G]. split; [cbn; lia|]. intros Qn. cbn [forallb].
  rewrite andb_assoc. by apply G.
Qed.
End devices.

(** ** The state that is reached *)

(** A decision procedure for [Wf]. *)
Definition handles_of (s : tRFC_CB) : list (nat * list Z) := imap (fun m b => (m, port_handles b)) (mcbs s).

Definition wf_check (k m : nat) (d : Z) (s : tRFC_CB) : bool :=
  bool_decide (ids s !! k = Some (Some m, d)) &&
  bool_decide (port_find_mcb_dlci_port m d s = Some k) &&
  forallb (fun '(m', hs) => forallb (fun '(i, h) =>
    (h =? 0) || negb (Nat.eqb (Z.to_nat (h - 1)) k) || (Nat.eqb m' m && Nat.eqb i (Z.to_nat d)))
    (imap pair hs)) (handles_of s) &&
  forallb (fun '(j, i) => negb (bool_decide (i = (Some m, d))) || Nat.eqb j k) (imap pair (ids s)) &&
  forallb (fun i => bool_decide (fst i = None) || negb (snd i =? 0)) (ids s) &&
  negb (peer_rx_disabled s) && (0 <? d).

Lemma forallb_imap {A B} (g : nat -> A -> B) (f : B -> bool) (l : list A) i x :
  forallb f (imap g l) = true -> l !! i = Some x -> f (g i x) = true.
Proof.
  rewrite forallb_forall. intros H L. apply H, list_elem_of_In, list_elem_of_lookup. exists i.
  by rewrite list_lookup_imap, L.
Qed.

Lemma wf_check_sound k m d s : wf_check k m d s = true -> Wf k m d s.
Proof.
  unfold wf_check. rewrite !andb_true_iff, !bool_decide_eq_true. intros [[[[[[I F] O] U] C] E] D].
  apply Z.ltb_lt in D. constructor; try done.
  - intros m' d'. unfold port_find_mcb_dlci_port. case_match; [done|].
    destruct (mcbs s !! m') as [b|] eqn:B; [|done]. cbn [mbind option_bind].
    destruct (port_handles b !! Z.to_nat d') as [h|] eqn:L; [|done]. cbn [mbind option_bind].
    destruct (Z.eqb_spec h 0) as [|N]; [done|]. intros [= K].
    assert (forallb (fun '(i, h) => (h =? 0) || negb (Nat.eqb (Z.to_nat (h - 1)) k) ||
      (Nat.eqb m' m && Nat.eqb i (Z.to_nat d))) (imap pair (port_handles b)) = true) as X.
    { unfold handles_of in O. exact (forallb_imap _ _ _ m' b O B). }
    apply (forallb_imap _ _ _ _ _ X) in L. rewrite K, Nat.eqb_refl in L.
    destruct (Z.eqb_spec h 0); [done|]. cbn [orb negb] in L. apply andb_true_iff in L as [L1 L2].
    apply Nat.eqb_eq in L1, L2. split; [done|]. lia.
  - intros j L. apply (forallb_imap _ _ _ _ _ U) in L. rewrite bool_decide_true in L by done.
    by apply Nat.eqb_eq in L.
  - intros j m' d' L. rewrite forallb_forall in C. apply list_elem_of_lookup_2, list_elem_of_In, C in L.
    cbn [fst snd] in L. rewrite bool_decide_false in L by done. by destruct (Z.eqb_spec d' 0).
  - by destruct (peer_rx_disabled s).
Qed.

(** The outputs so far are of the past. *)
Definition forget (s : tRFC_CB) : tRFC_CB :=
  {| tables := tables s; peer_rx_disabled := peer_rx_disabled s; ports := ports s; mcbs := mcbs s; out := [] |}.

(** The end of the channel at a device, with port 1 on multiplexer 0. *)
Definition side (after_msc : bool) (congests : list Output -> bool) : Side :=
  {| s_port := 1; s_mux := 0; s_congests := congests; s_callback := calm; s_after_msc := after_msc;
     s_mtu := 1685; s_credits := 9; s_start := 7 |}.

Definition mux_check (b : tRFC_MCB) : bool :=
  bool_decide (mcb_flow b = PORT_FC_CREDIT /\ peer_ready b = true /\ mcb_congested b = false /\ mcb_cmd_q b = []).

#[local] Instance DataCallback_eq_dec : EqDecision DataCallback.
Proof. solve_decision. Defined.

Definition port_check (p : tPORT) : bool :=
  bool_decide (in_use p = true /\ port_state p = PORT_CONNECTION_STATE_OPENED /\ sm_state p = RFC_STATE_OPENED /\
    data_callback p = no_data_callback /\ Z.land (port_ctrl p) setup_bits = setup_bits /\
    peer_mtu p = 1685 /\ credit_rx_max p = 9 /\ 0 <= credit_rx_low p /\ 9 <= rx_buf_critical p /\
    credit_tx p = 7 /\ credit_rx p = 7 /\
    queue (tx p) = [] /\ queue_size (tx p) = 0 /\ peer_fc (tx p) = false /\
    queue (rx p) = [] /\ queue_size (rx p) = 0 /\ user_fc (rx p) = false).

(** What the management callback of port 1 was called with. *)
Definition told (v : Node) : list tPORT_RESULT :=
  omap (fun o => match o with MgmtCallback 1 r => Some r | _ => None end) (out (block v)).

Definition side_check (d : Z) (s : tRFC_CB) : bool :=
  wf_check 1 0 d (forget s) && from_option mux_check false (mcbs s !! 0%nat) &&
  from_option port_check false (ports s !! 1%nat).

Lemma side_check_opened after_msc (congests : bool -> list Output -> bool) d s x :
  side_check d s = true -> Opened d (fun x => side after_msc (congests x)) x (forget s).
Proof.
  unfold side_check. rewrite !andb_true_iff. intros [[W M] P].
  constructor; [by apply wf_check_sound|done| |]; cbn [s_mux s_port side mcbs ports forget].
  - destruct (mcbs s !! 0%nat) as [b|]; [|done]. exists b. split; [done|]. by apply bool_decide_eq_true in M.
  - destruct (ports s !! 1%nat) as [p|]; [|done]. exists p. split; [done|]. by apply bool_decide_eq_true in P.
Qed.

(** No connection is left: every multiplexer is free; the client has no port; the server
    listens again, on its port. *)
Definition all_free (v : Node) : Prop :=
  Forall (fun b => mcb_state b = RFC_MX_STATE_IDLE) (mcbs (block v)).
Definition no_port (v : Node) : Prop := Forall (fun p => in_use p = false) (ports (block v)).
Definition listens (d : Z) (v : Node) : Prop :=
  exists p, ports (block v) !! 1%nat = Some p /\ in_use p = true /\ is_server p = true /\
    port_dlci p = d /\ p_mcb p = None /\ port_state p = PORT_CONNECTION_STATE_OPENING /\
    sm_state p = RFC_STATE_CLOSED.

Definition listens_check (d : Z) (v : Node) : bool :=
  match ports (block v) !! 1%nat with
  | Some p => bool_decide (in_use p = true /\ is_server p = true /\ port_dlci p = d /\ p_mcb p = None /\
      port_state p = PORT_CONNECTION_STATE_OPENING /\ sm_state p = RFC_STATE_CLOSED)
  | None => false
  end.

#[local] Instance tPORT_RESULT_eq_dec : EqDecision tPORT_RESULT.
Proof. solve_decision. Defined.

(** How a run ends. *)
Definition end_check (d : Z) (passed : bool) (n : Net) : bool :=
  if passed then
    bool_decide (told (client n) = [PORT_SUCCESS] /\ told (server n) = [PORT_SUCCESS]) &&
    side_check d (block (client n)) && side_check d (block (server n))
  else
    match told (client n) with [r] => negb (bool_decide (r = PORT_SUCCESS)) | _ => false end &&
    bool_decide (told (server n) = [] /\
      Forall (fun b => mcb_state b = RFC_MX_STATE_IDLE) (mcbs (block (client n))) /\
      Forall (fun b => mcb_state b = RFC_MX_STATE_IDLE) (mcbs (block (server n))) /\
      Forall (fun p => in_use p = false) (ports (block (client n)))) &&
    listens_check d (server n).

(** Twenty is fuel enough: the longest run has 18 moves. *)
Lemma call_explored fix_start fix_collision after_msc scn :
  1 <= scn <= RFCOMM_MAX_SCN ->
  explore fix_start fix_collision after_msc (end_check (2 * scn)) 20 true
    (call fix_start fix_collision after_msc scn) = true.
Proof.
  intros R. assert (forallb (fun scn => explore fix_start fix_collision after_msc (end_check (2 * scn)) 20 true
    (call fix_start fix_collision after_msc scn)) (seqZ 1 30) = true)
    as H by (destruct fix_start, fix_collision, after_msc; vm_compute; reflexivity).
  rewrite forallb_forall in H. apply H, list_elem_of_In, elem_of_seqZ. unfold RFCOMM_MAX_SCN in R. lia.
Qed.

Lemma not_quiet_moves fix_start fix_collision after_msc n : quiet n = false ->
  exists mv n', net_step fix_start fix_collision after_msc mv n = Some n'.
Proof.
  unfold quiet, idle. intros Q.
  destruct (from_l2cap (client n)) eqn:E1; [|exists (Deliver false); eexists; cbn [net_step]; unfold on_net, take_input; by rewrite E1].
  destruct (from_l2cap (server n)) eqn:E2; [|exists (Deliver true); eexists; cbn [net_step]; unfold on_net, take_input; by rewrite E2].
  destruct (checks (client n)) eqn:E3; [|exists (Check false true); eexists; cbn [net_step]; unfold on_net, complete_check; by rewrite E3].
  destruct (checks (server n)) eqn:E4; [done|exists (Check true true); eexists; cbn [net_step]; unfold on_net, complete_check; by rewrite E4].
Qed.

(** The two devices, with nothing written or read. *)
Definition opened_world (n : Net) : World := fun x =>
  {| cb := forget (block (if x then server n else client n)); written := []; got := []; arrived := 0 |}.

Lemma side_limits after_msc (congests : bool -> list Output -> bool) x : Limits (fun x => side after_msc (congests x)) x.
Proof. constructor; by_decide. Qed.

(** C3: a client connects to a server on another device, with the default parameters, on
    any channel number, with any value of the flags, while L2CAP is not congested and no
    timer expires.  Whatever the order in which L2CAP and the security managers of
    the two devices act and whatever the checks say, the exchange of frames, octet by
    octet, ends after less than 20 moves.  If each check has passed, both
    applications are told of the success, once, and in every run of C4 from then on the
    octets that the one writes are those that the other has read, then those in its
    receive queue, in the frames under way and in the transmit queue.  If a check has
    failed, the client is told of a failure, once, and its port is free, the server
    is told nothing and listens again, and no multiplexer is left. *)
Theorem rfcomm_connection_carries_data (fix_start fix_collision after_msc : bool) (scn : Z)
    (l : list Move) (n : Net) :
  1 <= scn <= RFCOMM_MAX_SCN ->
  net_run fix_start fix_collision after_msc l (call fix_start fix_collision after_msc scn) = Some n ->
  (length l < 20)%nat /\
  if negb (quiet n) then exists mv n', net_step fix_start fix_collision after_msc mv n = Some n'
  else if forallb passes l then
    told (client n) = [PORT_SUCCESS] /\ told (server n) = [PORT_SUCCESS] /\
    forall (congests : bool -> list Output -> bool) l' x,
      let sides x := side after_msc (congests x) in
      possible_run (2 * scn) sides (opened_world n) l' ->
      let w := run (2 * scn) sides (opened_world n) l' in
      written (w x) = got (w (negb x)) ++ concat (rx_queue sides (negb x) w) ++
        data (in_flight (2 * scn) sides (negb x) w) ++ concat (tx_queue sides x w)
  else
    (exists r, told (client n) = [r] /\ r <> PORT_SUCCESS) /\ told (server n) = [] /\
    all_free (client n) /\ all_free (server n) /\ no_port (client n) /\ listens (2 * scn) (server n).
Proof.
  intros R H. destruct (explore_sound _ _ _ _ _ _ _ (call_explored fix_start fix_collision after_msc scn R) l n H)
    as [L G]. split; [done|]. destruct (quiet n) eqn:Q; cbn [negb]; [|by apply not_quiet_moves].
  specialize (G eq_refl). cbn [andb] in G. unfold end_check in G. destruct (forallb passes l).
  - rewrite !andb_true_iff, bool_decide_eq_true in G. destruct G as [[[T1 T2] A] B]. do 2 (split; [done|]).
    intros congests l' x F. set (sides := fun x => side after_msc (congests x)) in *.
    assert (forall x, Limits sides x) as Lim by (intros y; apply side_limits).
    apply (good_stream (2 * scn) sides), (run_good (2 * scn) sides Lim); [apply (start_good (2 * scn) sides Lim)|done].
    intros y. split; [|done]. destruct y; by apply (side_check_opened after_msc congests).
  - rewrite !andb_true_iff, bool_decide_eq_true in G. destruct G as [[T1 (T2 & F1 & F2 & P1)] Ls].
    split; [|split; [done|split; [done|split; [done|split; [done|]]]]].
    + destruct (told (client n)) as [|r [|]]; try done. exists r. split; [done|].
      by apply negb_true_iff, bool_decide_eq_false in T1.
    + unfold listens_check in Ls. destruct (ports (block (server n)) !! 1%nat) as [p|] eqn:P; [|done].
      exists p. split; [done|]. by apply bool_decide_eq_true in Ls.
Qed.

(** A run: the server is configured first, and both checks pass. *)
Definition sample_moves : list Move :=
  [Deliver true; Deliver true; Deliver false; Deliver false; Deliver true; Deliver false; Deliver true;
   Deliver false; Check false true; Deliver true; Check true true; Deliver false; Deliver true;
   Deliver false; Deliver false; Deliver true].

Lemma rfcomm_connection_carries_data_witness :
  exists n, net_run true true false sample_moves (call true true false 5) = Some n /\ quiet n = true /\
    told (client n) = [PORT_SUCCESS] /\ told (server n) = [PORT_SUCCESS].
Proof.
  destruct (net_run true true false sample_moves (call true true false 5)) as [n|] eqn:E.
  - exists n. split; [reflexivity|].
    assert (quiet n = true) as Q by (revert E; vm_compute; intros [= <-]; reflexivity).
    destruct (rfcomm_connection_carries_data true true false 5 sample_moves n) as [_ H];
      [by_decide|exact E|]. rewrite Q in H. change (forallb passes sample_moves) with true in H.
    cbn [negb] in H. destruct H as (A & B & _). split; [exact Q|]. split; [exact A|exact B].
  - exfalso. revert E. vm_compute. discriminate.
Defined.
