(* ===== verification/RfcommFsmRuns.v ===== *)
(** * RFCOMM: runs of the state machines

    Concrete runs of one device: a connection that is accepted, which shows that the
    hypotheses of the theorem on security checks can hold, and runs in which the
    state machines do something else than they mean to. *)

From stdpp Require Import base list option.
From Stdlib Require Import ZArith.
From S2P Require Import Prelude.
From S2P Require Import RfcommFrames.
From S2P Require Import RfcommMessages.
From S2P Require Import RfcommPortState.
From S2P Require Import RfcommPort.
From S2P Require Import RfcommFsm.
From S2P Require Import RfcommPortTrace.
From S2P Require Import RfcommFsmSafety.
From S2P Require Import RfcommFsmConnection.

Open Scope Z_scope.

(** ** A device and its peer

    L2CAP gives the channel 0x40 to a connection that the device asks for; the peer is
    0xB. *)

Definition peer : Z := 0xB.

(** The frame [f] of a peer that is the initiator, or not. *)
Definition frame (c : Z) (initiator : bool) (f : Frame) : Input :=
  BufDataInd c (buffer (wire
    {| is_initiator := initiator; flow := PORT_FC_CREDIT; l2cap_congested := false; cmd_q := []; written := [] |} f)).

Definition listen (scn : Z) : Input := CreateConnection 0x1101 scn true 0 kAny true 0 no_cfg.
Definition dial (scn addr : Z) : Input := CreateConnection 0x1101 scn false 0 addr true 0 no_cfg.
Definition signals : tPORT_CTRL := {| modem_signal := 11; break_signal := 0; fc := false |}.

(** The peer [addr] connects on [c] and starts the multiplexer. *)
Definition called (addr c : Z) : list Input :=
  [ConnectInd addr c; ConfigCnf c (Some L2CAP_MTU_SIZE); frame c true (Sabme 0)].
(** It asks for the channel [d]; the check of port [k] passes. *)
Definition asks (c d : Z) : list Input := [frame c true (Mx (Pn d 667 RFCOMM_PN_CONV_LAYER_CBFC_I 7) true); frame c true (Sabme d)].
Definition opens (c d : Z) (k : nat) : list Input :=
  asks c d ++ [SecComplete k true; frame c true (Mx (Msc d signals) true); frame c true (Mx (Msc d signals) false)].

Definition device_run (fix_start fix_collision : bool) (l : list Input) (s : tRFC_CB) : tRFC_CB :=
  fold_left (fun s i => device_step fix_start fix_collision false i s) l s.
Definition after (fix_start fix_collision : bool) (l : list Input) : tRFC_CB :=
  device_run fix_start fix_collision l RFCOMM_Init.

(** The results that the application of port [k] was told of. *)
Definition results (k : nat) (s : tRFC_CB) : list tPORT_RESULT :=
  omap (fun o => match o with MgmtCallback j r => if decide (j = k) then Some r else None | _ => None end) (out s).
Definition is_crash (o : Output) : bool := match o with Crash => true | _ => false end.
Definition state_of (k : nat) (s : tRFC_CB) : option tRFC_PORT_STATE := sm_state <$> ports s !! k.
Definition mux_state (m : nat) (s : tRFC_CB) : option tRFC_MX_STATE := mcb_state <$> mcbs s !! m.
Definition sent_by (m : nat) (s : tRFC_CB) : list Frame :=
  omap (fun o => match o with Sent m' f => if decide (m' = m) then Some f else None | _ => None end) (out s).

Lemma no_crash o : existsb is_crash o = false -> Crash ∉ o.
Proof.
  intros H C. apply list_elem_of_In in C. assert (existsb is_crash o = true) as E; [|congruence].
  apply existsb_exists. by exists Crash.
Qed.

(** ** A channel is accepted *)

Definition accepted : list Input := [listen 1] ++ called peer 0x41 ++ opens 0x41 2 1.

Lemma rfcomm_security_before_open_witness :
  exists l1 j l2, accepted = l1 ++ SecComplete j true :: l2 /\
    Waited calm calm false (fun _ => 0) (fun _ => channel false) (fun _ => 0) (fun _ => no_rpn) true true j l1 /\
    (j = 1%nat \/ answers j 1 (after true true l1)) /\
    forall l', l' `prefix_of` l2 -> up (sm 1 (after true true (l1 ++ SecComplete j true :: l'))).
Proof.
  apply (rfcomm_security_before_open calm calm false (fun _ => 0) (fun _ => channel false) (fun _ => 0) (fun _ => no_rpn)
    true true accepted 1).
  - apply no_crash. vm_compute. reflexivity.
  - vm_compute. reflexivity.
Defined.

(** ** Runs that go wrong *)

(** Both devices connect at the same time and the own request times out.  The device takes
    the request of the peer, but as [is_initiator] is cleared before the directions are
    swapped it remains the initiator, its channel is not moved, and after the configuration
    it sends a SABME instead of waiting for the one of the peer. *)
Theorem acceptor_stays_initiator (fix_start : bool) :
  let s1 := after fix_start false [dial 1 peer; ConnectInd peer 0x41; MxTimeout 0] in
  let s2 := device_run fix_start false [ConfigCnf 0x41 (Some L2CAP_MTU_SIZE)] s1 in
  (lcid ∘ link <$> mcbs s1 !! 0%nat) = Some 0x41 /\ (mux_initiator ∘ link <$> mcbs s1 !! 0%nat) = Some true /\
  (port_dlci <$> ports s1 !! 1%nat) = Some 2 /\
  mux_state 0 s2 = Some RFC_MX_STATE_SABME_WAIT_UA /\ sent_by 0 s2 = [Sabme 0].
Proof. destruct fix_start; vm_compute; done. Qed.

(** The same collision with [rfcomm_fix_mux_collision_handling]: when the connection of the
    peer is not configured in time, the outgoing connection, which L2CAP has confirmed,
    is to be used again.  The multiplexer was cleared by then: the port is closed, and the
    connection is not taken up. *)
Theorem cached_connection_not_used (fix_start : bool) :
  let s1 := after fix_start true [dial 1 peer; ConnectInd peer 0x41; ConnectCnf 0x40 0] in
  let s2 := device_run fix_start true [MxTimeout 0] s1 in
  (collision_outgoing_lcid ∘ link <$> mcbs s1 !! 0%nat) = Some 0x40 /\
  results 1 s2 = [PORT_START_FAILED] /\ mcbs s2 !! 0%nat = Some (zero_mcb kEmpty false).
Proof. destruct fix_start; vm_compute; done. Qed.

(** A channel with data that was not read is closed by the peer; when the time for reading
    is over, all channels of the multiplexer are closed, the other ones too. *)
Theorem unread_data_closes_all (fix_start fix_collision : bool) :
  let s1 := after fix_start fix_collision ([listen 1; listen 2] ++ called peer 0x41 ++ opens 0x41 2 1 ++ opens 0x41 4 2) in
  let s2 := device_run fix_start fix_collision [frame 0x41 true (Uih 2 0 [1; 2; 3]); frame 0x41 true (Disc 2)] s1 in
  let s3 := device_run fix_start fix_collision [PortTimeout 1] s2 in
  state_of 2 s2 = Some RFC_STATE_OPENED /\ results 2 s2 = [PORT_SUCCESS] /\
  state_of 2 s3 = Some RFC_STATE_CLOSED /\ results 2 s3 = [PORT_SUCCESS; PORT_PEER_TIMEOUT].
Proof. destruct fix_start, fix_collision; vm_compute; done. Qed.

(** Channel 61 does not keep its multiplexer: it is released while the port of the channel
    waits for its security check, and the completion of the check follows a null pointer. *)
Theorem last_channel_crashes (fix_start fix_collision : bool) :
  let s1 := after fix_start fix_collision ([listen 1] ++ called peer 0x41 ++ opens 0x41 2 1 ++
    [dial 30 peer; frame 0x41 true (Mx (Pn 61 667 RFCOMM_PN_CONV_LAYER_CBFC_R 7) false)]) in
  let s2 := device_run fix_start fix_collision [frame 0x41 true (Disc 2); MxTimeout 0; frame 0x41 true (Ua 0)] s1 in
  state_of 2 s2 = Some RFC_STATE_ORIG_WAIT_SEC_CHECK /\ mux_state 0 s2 = Some RFC_MX_STATE_IDLE /\
  existsb is_crash (out s2) = false /\
  existsb is_crash (out (device_run fix_start fix_collision [SecComplete 2 true] s2)) = true.
Proof. destruct fix_start, fix_collision; vm_compute; done. Qed.

Definition security_requests (s : tRFC_CB) : list (nat * Z) :=
  omap (fun o => match o with SecRequest k addr _ _ => Some (k, addr) | _ => None end) (out s).
Definition security_aborts (s : tRFC_CB) : list Z :=
  omap (fun o => match o with SecAbort addr => Some addr | _ => None end) (out s).

(** A device disconnects while its check is under way.  The request is not aborted; the
    server listens again, another device asks for the channel, and the first answer, which
    is to the request for the first device, opens the channel for the second one. *)
Theorem check_of_other_device_opens (fix_start fix_collision : bool) :
  let s1 := after fix_start fix_collision ([listen 1] ++ called peer 0x41 ++ asks 0x41 2 ++ [DisconnectInd 0x41]) in
  let s2 := device_run fix_start fix_collision (called 0xC 0x42 ++ asks 0x42 2) s1 in
  let s3 := device_run fix_start fix_collision [SecComplete 1 true] s2 in
  security_requests s3 = [(1%nat, peer); (1%nat, 0xC)] /\ security_aborts s3 = [] /\
  state_of 1 s2 = Some RFC_STATE_TERM_WAIT_SEC_CHECK /\ state_of 1 s3 = Some RFC_STATE_OPENED /\
  results 1 s3 = [PORT_SUCCESS].
Proof. destruct fix_start, fix_collision; vm_compute; done. Qed.

(** While the server of a channel waits for its check, a client of the device takes over the
    channel; the check of the server opens the channel of the client. *)
Theorem check_of_other_port_opens (fix_start fix_collision : bool) :
  let s1 := after fix_start fix_collision ([listen 1; listen 5] ++ called peer 0x41 ++ opens 0x41 2 1 ++ asks 0x41 11) in
  let s2 := device_run fix_start fix_collision [dial 5 peer; frame 0x41 true (Sabme 11)] s1 in
  let s3 := device_run fix_start fix_collision [SecComplete 2 true] s2 in
  state_of 2 s1 = Some RFC_STATE_TERM_WAIT_SEC_CHECK /\ state_of 3 s2 = Some RFC_STATE_TERM_WAIT_SEC_CHECK /\
  state_of 2 s3 = Some RFC_STATE_TERM_WAIT_SEC_CHECK /\ state_of 3 s3 = Some RFC_STATE_OPENED /\
  results 2 s3 = [] /\ results 3 s3 = [PORT_SUCCESS].
Proof. destruct fix_start, fix_collision; vm_compute; done. Qed.

(** A request for the parameters of a channel that no port has is answered with what an
    earlier message has left in the frame. *)
Theorem stale_parameters_answered (r : rpn_pars) :
  let s := fold_left (fun s i => step calm calm false (fun _ => 0) true true (fun _ => 0x40) (fun _ => 0) (fun _ => r) i s)
    ([listen 1] ++ called peer 0x41 ++ [frame 0x41 true (Mx (RpnRequest 20) true)]) RFCOMM_Init in
  sent_by 0 s = [Ua 0; Mx (Rpn 20 (rfc_set_port_settings RfcommFsm.no_settings r) 0) false].
Proof. destruct r. vm_compute. reflexivity. Qed.

(** [PORT_IsCollisionDetected] is described as true while an incoming connection of the device
    is in progress; it is for outgoing ones only. *)
Theorem collision_detected_outgoing_only (fix_start fix_collision closed_port : bool) :
  PORT_IsCollisionDetected closed_port peer (after fix_start fix_collision ([listen 1] ++ called peer 0x41 ++ asks 0x41 2)) = false /\
  PORT_IsCollisionDetected closed_port peer (after fix_start fix_collision [dial 1 peer]) = true.
Proof. destruct fix_start, fix_collision, closed_port; vm_compute; done. Qed.

(** The configuration of the own connection fails.  The channel is to be disconnected, but the
    multiplexer, and with it the number of the channel, is cleared before. *)
Theorem failed_channel_not_disconnected (fix_start fix_collision : bool) :
  let s := after fix_start fix_collision [dial 1 peer; ConnectCnf 0x40 0; L2capError 0x40 L2CAP_CFG_FAILED_NO_REASON] in
  results 1 s = [PORT_START_FAILED] /\
  omap (fun o => match o with DisconnectReq c => Some c | _ => None end) (out s) = [0].
Proof. destruct fix_start, fix_collision; vm_compute; done. Qed.
