(* ===== verification/RfcommFsmRelease.v ===== *)
(** * RFCOMM: what is left of a multiplexer whose connection is lost

    When L2CAP reports that the channel of a multiplexer is disconnected, exactly the ports
    of that multiplexer are closed: a server listens again, a client is free, the
    applications are told, the multiplexer is free, and nothing is sent. *)

From stdpp Require Import base list option.
From Stdlib Require Import ZArith Lia.
From S2P Require Import Prelude.
From S2P Require Import RfcommFrames.
From S2P Require Import RfcommMessages.
From S2P Require Import RfcommPortState.
From S2P Require Import RfcommPort.
From S2P Require Import RfcommFsm.
From S2P Require Import RfcommFsmConnection.
From S2P Require Import RfcommFsmRuns.

Open Scope Z_scope.

(** ** What becomes of a port *)

Definition is_opening_server (p : tPORT) : bool :=
  bool_decide (port_state p = PORT_CONNECTION_STATE_OPENING) && is_server p.

(** A server that was not open yet keeps what it was created with; one that was open gets
    it back; a client is gone. *)
Definition closed_port (p : tPORT) : tPORT :=
  if is_opening_server p then
    set_port_dlci (Z.land (port_dlci p) 0xfe) (set_p_mcb None (set_sm_state RFC_STATE_CLOSED p))
  else if keep_port_handle (owner p) then listen_again (set_sm_state RFC_STATE_CLOSED p)
  else zero_port.

(** The results that applications were told of, with their ports. *)
Definition notified (o : list Output) : list (nat * tPORT_RESULT) :=
  omap (fun o => match o with MgmtCallback k r => Some (k, r) | _ => None end) o.
Definition sends (o : Output) : bool := match o with Sent _ _ => true | _ => false end.

(** The application of the port is told, unless it does not know of the connection. *)
Definition hears (k : nat) (r : tPORT_RESULT) (p : tPORT) : list (nat * tPORT_RESULT) :=
  if p_mgmt_callback p && negb (is_opening_server p) then [(k, r)] else [].

(** ** Changes to one port and its multiplexer *)

Section release.
Context (congests : list Output -> bool) (m : nat).

(** Port [k] is changed by [g], the applications are told of [ms]; multiplexer [m] stays
    idle, and nothing is sent. *)
Record Change (k : nat) (g : tPORT -> tPORT) (ms : list (nat * tPORT_RESULT)) (s s' : tRFC_CB) : Prop := {
  ch_ports : ports s' = alter g k (ports s);
  ch_tables : tables s' = tables s;
  ch_others : forall j, j <> m -> mcbs s' !! j = mcbs s !! j;
  ch_mux : (fun b => (mcb_state b, lcid (link b))) <$> mcbs s' !! m = (fun b => (mcb_state b, lcid (link b))) <$> mcbs s !! m;
  ch_out : exists o, out s' = out s ++ o /\ notified o = ms /\ existsb sends o = false;
}.

Lemma change_trans k g h ms ms' s1 s2 s3 :
  Change k g ms s1 s2 -> Change k h ms' s2 s3 -> Change k (h ∘ g) (ms ++ ms') s1 s3.
Proof.
  intros [P T O M (o & E & N & S)] [P' T' O' M' (o' & E' & N' & S')]. constructor.
  - by rewrite P', P, list_alter_alter_eq.
  - congruence.
  - intros j J. rewrite O', O; done.
  - congruence.
  - exists (o ++ o'). rewrite E', E, app_assoc. unfold notified in *. rewrite omap_app, existsb_app. by rewrite N, N', S, S'.
Qed.

Lemma alter_id {A} (l : list A) k : alter id k l = l.
Proof. revert k. induction l as [|x l IH]; intros [|k]; cbn; try done. f_equal. apply IH. Qed.

Lemma change_port k g s : Change k g [] s (with_port k g s).
Proof. constructor; try done. exists []. by rewrite app_nil_r. Qed.

Lemma change_emit k o s : sends o = false -> Change k id (notified [o]) s (emit o s).
Proof.
  intros S. constructor; try done; [cbn; by rewrite alter_id|]. exists [o]. do 2 (split; [done|]). cbn. by rewrite S.
Qed.

Lemma change_refl k s : Change k id [] s s.
Proof. constructor; try done; [by rewrite alter_id|]. exists []. by rewrite app_nil_r. Qed.

Lemma change_mcb k f s :
  (forall b, mcb_state (f b) = mcb_state b /\ lcid (link (f b)) = lcid (link b)) -> Change k id [] s (with_mcb m f s).
Proof.
  intros F. constructor; try done; cbn.
  - by rewrite alter_id.
  - intros j J. by rewrite list_lookup_alter_ne by done.
  - rewrite list_lookup_alter_eq. destruct (mcbs s !! m) as [b|]; [|done]. cbn. destruct (F b) as [-> ->]. done.
  - exists []. by rewrite app_nil_r.
Qed.

Definition idle_mux (s : tRFC_CB) : Prop := mcb_state <$> mcbs s !! m = Some RFC_MX_STATE_IDLE.

Lemma change_idle k g ms s s' : Change k g ms s s' -> idle_mux s -> idle_mux s'.
Proof.
  unfold idle_mux. intros [_ _ _ M _] I. destruct (mcbs s !! m), (mcbs s' !! m); try done. cbn in *. congruence.
Qed.

Lemma change_ext k g h ms ms' s s' :
  Change k g ms s s' -> (forall p, ports s !! k = Some p -> g p = h p) -> ms = ms' -> Change k h ms' s s'.
Proof. intros [P T O M Out] E <-. constructor; try done. rewrite P. by apply list_alter_ext. Qed.

Lemma change_lookup k g ms s s' p : Change k g ms s s' -> ports s !! k = Some p -> ports s' !! k = Some (g p).
Proof. intros [P _ _ _ _] L. by rewrite P, list_lookup_alter_eq, L. Qed.

Lemma clear_handle_change k d s : idle_mux s -> Change k id [] s (clear_handle congests m d s).
Proof.
  intros I. unfold clear_handle, rfc_check_mcb_active.
  assert (Change k id [] s (write_port_handle m d 0 s)) as C1
    by (unfold write_port_handle; case_match; [by apply change_mcb|by apply (change_emit k Crash)]).
  set (s1 := write_port_handle _ _ _ s) in *. pose proof (change_idle _ _ _ _ _ C1 I) as I1. unfold idle_mux in I1.
  destruct (mcbs s1 !! m) as [b|]; [|done]. cbv zeta.
  assert (Change k id [] s (with_mcb m (set_disc_initiator false) s1)) as C2.
  { eapply change_ext; [eapply change_trans; [exact C1|by apply (change_mcb k (set_disc_initiator false))]|done..]. }
  set (s2 := with_mcb m (set_disc_initiator false) s1) in *.
  case_match; [done|]. case_match.
  - unfold rfc_mx_sm_close_req. pose proof (change_idle _ _ _ _ _ C2 I) as I2. unfold idle_mux in I2.
    destruct (mcbs s2 !! m) as [b2|]; [|done]. injection I2 as ->. done.
  - eapply change_ext; [eapply change_trans; [exact C2|by apply change_emit]|done..].
Qed.

(** What is left of a port that is closed. *)
Definition released (p : tPORT) : tPORT := if keep_port_handle (owner p) then listen_again p else zero_port.

Lemma release_change k s p :
  ports s !! k = Some p -> sm_state p = RFC_STATE_CLOSED -> p_mcb p = Some m -> idle_mux s ->
  Change k released [] s (port_release_port congests k s).
Proof.
  intros P S M I. unfold port_release_port. cbv zeta.
  assert (Change k (set_port_state PORT_CONNECTION_STATE_CLOSED ∘ empty_queues) [] s
    (with_port k (set_port_state PORT_CONNECTION_STATE_CLOSED) (rfc_port_timer_stop k (with_port k empty_queues s)))) as C1.
  { eapply change_ext; [eapply change_trans; [eapply change_trans; [apply change_port|by apply (change_emit k (PortTimerStop k))]|apply change_port]|done..]. }
  set (s1 := with_port k (set_port_state _) _) in *.
  rewrite (change_lookup _ _ _ _ _ _ C1 P). rewrite decide_True by exact S.
  change (p_mcb ((set_port_state PORT_CONNECTION_STATE_CLOSED ∘ empty_queues) p)) with (p_mcb p).
  change (keep_port_handle (owner ((set_port_state PORT_CONNECTION_STATE_CLOSED ∘ empty_queues) p))) with (keep_port_handle (owner p)).
  rewrite M. set (s2 := rfc_port_timer_stop k _).
  assert (Change k (set_port_state PORT_CONNECTION_STATE_CLOSED ∘ empty_queues) [] s s2) as C2.
  { eapply change_ext; [eapply change_trans; [eapply change_trans; [exact C1|by apply clear_handle_change, (change_idle _ _ _ _ _ C1)]|
      by apply (change_emit k (PortTimerStop k))]|done..]. }
  destruct (keep_port_handle (owner p)) eqn:K;
    (eapply change_ext; [eapply change_trans; [exact C2|apply change_port]| |done]);
    intros q Q; unfold released; rewrite P in Q; injection Q as <-; rewrite K; [|done]. by destruct p.
Qed.

Lemma callback_change k e s : Change k id [] s (callback k e s).
Proof. unfold callback. repeat case_match; [by apply (change_emit k (Callback _ _))|apply change_refl..]. Qed.

Lemma mgmt_change k r s p : ports s !! k = Some p ->
  Change k id (if p_mgmt_callback p then [(k, r)] else []) s (mgmt_callback k r s).
Proof.
  intros P. unfold mgmt_callback. rewrite P. case_match; [by apply (change_emit k (MgmtCallback _ _))|apply change_refl].
Qed.

(** The signals do not matter for what is left. *)
Definition passing (g : tPORT -> tPORT) : Prop := forall q,
  p_mcb (g q) = p_mcb q /\ p_mgmt_callback (g q) = p_mgmt_callback q /\
  released (set_sm_state RFC_STATE_CLOSED (g q)) = released (set_sm_state RFC_STATE_CLOSED q).

Lemma drop_signals_change k p s : exists g, Change k g [] s (snd (drop_signals k p s)) /\ passing g.
Proof. eexists. split; [apply change_port|]. intros q. by destruct q. Qed.

(** The port is not one that waits for a connection. *)
Lemma known_closed_change k r s p :
  ports s !! k = Some p -> p_mcb p = Some m -> idle_mux s -> is_opening_server p = false ->
  Change k closed_port (hears k r p) s (port_rfc_closed congests k r s).
Proof.
  intros P M I O. unfold port_rfc_closed. rewrite P. unfold is_opening_server in O. rewrite O.
  set (es := if decide _ then _ else _).
  assert (exists g, Change k g [] s (snd es) /\ passing g) as (g & C1 & G).
  { subst es. destruct (decide (_ \/ _)); [|apply drop_signals_change]. exists id. split; [apply change_refl|done]. }
  destruct es as [e s1]. cbn [snd] in C1. destruct (G p) as (Gm & Gc & Gr).
  set (s2 := rfc_set_state _ _ _).
  assert (Change k (set_sm_state RFC_STATE_CLOSED ∘ g) (if p_mgmt_callback p then [(k, r)] else []) s s2) as C2.
  { pose proof (change_trans _ _ _ _ _ _ _ _ C1 (callback_change k e s1)) as C.
    pose proof (change_trans _ _ _ _ _ _ _ _ C (mgmt_change k r _ _ (change_lookup _ _ _ _ _ _ C P))) as C'.
    eapply change_ext; [exact (change_trans _ _ _ _ _ _ _ _ C' (change_port k (set_sm_state RFC_STATE_CLOSED) _))|done|].
    cbn. by rewrite Gc, app_nil_r. }
  assert (Change k released [] s2 (port_release_port congests k s2)) as C3.
  { eapply release_change; [exact (change_lookup _ _ _ _ _ _ C2 P)|done|cbn; congruence|exact (change_idle _ _ _ _ _ C2 I)]. }
  eapply change_ext; [exact (change_trans _ _ _ _ _ _ _ _ C2 C3)| |].
  - intros q Q. assert (q = p) as -> by congruence. cbn [compose]. rewrite Gr.
    unfold closed_port, is_opening_server. rewrite O. done.
  - unfold hears, is_opening_server. rewrite O. cbn. rewrite app_nil_r, andb_true_r. done.
Qed.

Lemma closed_change k r s p :
  ports s !! k = Some p -> p_mcb p = Some m -> idle_mux s ->
  Change k closed_port (hears k r p) s (port_rfc_closed congests k r s).
Proof.
  intros P M I. destruct (is_opening_server p) eqn:O; [|by apply known_closed_change].
  unfold port_rfc_closed. rewrite P. unfold is_opening_server in O. rewrite O, M. cbv zeta.
  assert (Change k (set_sm_state RFC_STATE_CLOSED) [] s (rfc_set_state RFC_STATE_CLOSED k (rfc_port_timer_stop k s))) as C1.
  { eapply change_ext; [eapply change_trans; [by apply (change_emit k (PortTimerStop k))|apply change_port]|done..]. }
  pose proof (change_trans _ _ _ _ _ _ _ _ C1 (clear_handle_change k (port_dlci p) _ (change_idle _ _ _ _ _ C1 I))) as C2.
  eapply change_ext; [eapply change_trans; [eapply change_trans; [exact C2|apply change_port]|apply change_port]| |].
  - intros q Q. assert (q = p) as -> by congruence. unfold closed_port, is_opening_server. by rewrite O.
  - unfold hears, is_opening_server. by rewrite O, andb_false_r.
Qed.

Lemma closed_port_mcb p : p_mcb (closed_port p) = None.
Proof. unfold closed_port. repeat case_match; try done. cbn. by case_match. Qed.

(** ** All ports of the multiplexer *)

Definition close_if (p : tPORT) : tPORT := if decide (p_mcb p = Some m) then closed_port p else p.

(** What the applications hear of the first [n] ports. *)
Definition heard (r : tPORT_RESULT) (s : tRFC_CB) (n : nat) : list (nat * tPORT_RESULT) :=
  flat_map (fun k => match ports s !! k with
                     | Some p => if decide (p_mcb p = Some m) then hears k r p else []
                     | None => []
                     end) (seq 0 n).

(** The first [n] ports of the multiplexer are closed. *)
Record Swept (r : tPORT_RESULT) (n : nat) (s s' : tRFC_CB) : Prop := {
  sw_ports : forall j, ports s' !! j = (if decide (j < n)%nat then close_if else id) <$> ports s !! j;
  sw_tables : tables s' = tables s;
  sw_others : forall j, j <> m -> mcbs s' !! j = mcbs s !! j;
  sw_mux : (fun b => (mcb_state b, lcid (link b))) <$> mcbs s' !! m = (fun b => (mcb_state b, lcid (link b))) <$> mcbs s !! m;
  sw_out : exists o, out s' = out s ++ o /\ notified o = heard r s n /\ existsb sends o = false;
}.

Lemma swept_ports_step r n s s' g :
  Swept r n s s' -> (forall p, ports s !! n = Some p -> g p = close_if p) ->
  forall j, alter g n (ports s') !! j = (if decide (j < S n)%nat then close_if else id) <$> ports s !! j.
Proof.
  intros W G j. destruct (decide (j = n)) as [-> | N].
  - rewrite list_lookup_alter_eq, (sw_ports _ _ _ _ W), decide_False by lia. rewrite decide_True by lia.
    destruct (ports s !! n) eqn:E; [|done]. cbn. by rewrite G.
  - rewrite list_lookup_alter_ne, (sw_ports _ _ _ _ W) by done.
    destruct (decide (j < n)%nat), (decide (j < S n)%nat); done || lia.
Qed.

Definition close_one (r : tPORT_RESULT) (s : tRFC_CB) (k : nat) : tRFC_CB :=
  match ports s !! k with
  | Some p => if decide (p_mcb p = Some m) then port_rfc_closed congests k r s else s
  | None => s
  end.

Lemma close_one_change r n s s' : Swept r n s s' -> idle_mux s -> exists g,
  Change n g (match ports s !! n with Some p => if decide (p_mcb p = Some m) then hears n r p else [] | None => [] end)
    s' (close_one r s' n) /\ forall p, ports s !! n = Some p -> g p = close_if p.
Proof.
  intros W I. unfold close_one.
  assert (idle_mux s') as I'.
  { pose proof (sw_mux _ _ _ _ W) as E. unfold idle_mux in *. destruct (mcbs s !! m), (mcbs s' !! m); try done.
    cbn in *. congruence. }
  pose proof (sw_ports _ _ _ _ W n) as P. rewrite decide_False in P by lia.
  destruct (ports s !! n) as [p|]; cbn in P; rewrite P; [|by exists id; split; [apply change_refl|]].
  case_decide as D.
  - exists closed_port. split; [by apply closed_change|]. intros q [= <-]. unfold close_if. by rewrite decide_True.
  - exists id. split; [apply change_refl|]. intros q [= <-]. unfold close_if. by rewrite decide_False.
Qed.

Lemma sweep r n s : idle_mux s -> Swept r n s (fold_left (close_one r) (seq 0 n) s).
Proof.
  intros I. induction n as [|n IH].
  { constructor; try done; [|by exists []; rewrite app_nil_r]. intros j. rewrite decide_False by lia.
    cbn [seq fold_left]. by destruct (ports s !! j). }
  rewrite seq_S, fold_left_app. cbn [fold_left plus]. set (s' := fold_left _ _ s) in *.
  destruct (close_one_change r n s s' IH I) as (g & [P T O M (o & E & N & S)] & G).
  destruct IH as [P0 T0 O0 M0 (o0 & E0 & N0 & S0)]. constructor.
  - rewrite P. apply (swept_ports_step r n s s' g); [|done]. constructor; try done. by exists o0.
  - congruence.
  - intros j J. rewrite O, O0; done.
  - congruence.
  - exists (o0 ++ o). rewrite E, E0, app_assoc. split; [done|]. unfold heard, notified in *.
    rewrite seq_S, flat_map_app, omap_app, N0, N, existsb_app, S0, S. cbn. by rewrite app_nil_r.
Qed.

Lemma for_ports_none f s : (forall k p, ports s !! k = Some p -> p_mcb p <> Some m) -> for_ports (Some m) f s = s.
Proof.
  intros H. unfold for_ports. generalize (seq 0 (length (ports s))). intros l. induction l as [|k l IH]; [done|].
  cbn [fold_left]. destruct (ports s !! k) as [p|] eqn:P; [|done]. by rewrite decide_False by by eapply H.
Qed.

(** The event [RFC_MX_EVENT_DISC_IND] after the state was set. *)
Lemma close_ind_swept s b : mcbs s !! m = Some b -> mcb_state b = RFC_MX_STATE_IDLE ->
  let s1 := for_ports (Some m) (fun k => port_rfc_closed congests k PORT_PEER_CONNECTION_FAILED) s in
  Swept PORT_PEER_CONNECTION_FAILED (length (ports s)) s s1 /\
  PORT_CloseInd congests m s = with_mcb m (fun _ => zero_mcb kEmpty false)
    (rfc_timer_stop m (rfc_save_lcid_mcb None (lcid (link b)) s1)).
Proof.
  intros B S s1. assert (Swept PORT_PEER_CONNECTION_FAILED (length (ports s)) s s1) as W.
  { apply sweep. unfold idle_mux. rewrite B. cbn. by rewrite S. }
  split; [done|]. unfold PORT_CloseInd, rfc_release_multiplexer_channel. fold s1.
  pose proof (sw_mux _ _ _ _ W) as M. rewrite B in M. destruct (mcbs s1 !! m) as [b1|]; [|done].
  cbn in M. injection M as _ ->. cbv zeta. rewrite for_ports_none; [done|].
  intros k p P. cbn in P. rewrite (sw_ports _ _ _ _ W) in P. destruct (ports s !! k) as [q|] eqn:Q; [|done].
  apply lookup_lt_Some in Q. rewrite decide_True in P by done. injection P as <-.
  unfold close_if. case_decide; [|done]. by rewrite closed_port_mcb.
Qed.
End release.

Section lost.
Context (congests : list Output -> bool) (fix_start fix_collision : bool).
Context (connect boot_time : list Output -> Z).

Lemma disconnect_closes c m b s :
  rfc_find_lcid_mcb c s = Some m -> mcbs s !! m = Some b -> mcb_state b <> RFC_MX_STATE_IDLE ->
  RFCOMM_DisconnectInd congests fix_start fix_collision connect boot_time c s = PORT_CloseInd congests m (mx_idle m s).
Proof.
  intros F B S. unfold RFCOMM_DisconnectInd. rewrite F. unfold rfc_mx_sm_execute. rewrite B.
  destruct (mcb_state b); try done; cbn [rfc_mx_sm_state_wait_conn_cnf rfc_mx_sm_state_wait_sabme];
    unfold rfc_mx_sm_state_wait_conn_cnf, rfc_mx_sm_state_wait_sabme; by rewrite ?B.
Qed.

Lemma find_lcid c m b s : rfc_find_lcid_mcb c s = Some m -> mcbs s !! m = Some b -> lcid (link b) = c.
Proof.
  unfold rfc_find_lcid_mcb. destruct (lcid_entry _ _) as [n|]; [|done]. cbn [mbind option_bind].
  destruct (mcbs s !! n) as [b'|] eqn:B'; [|done]. cbn [mbind option_bind].
  destruct (Z.eqb_spec (lcid (link b')) c); [|done]. intros [= ->]. congruence.
Qed.

(** C17: when L2CAP reports that the channel of a multiplexer is disconnected, each port of
    the multiplexer is closed, and no other port or multiplexer is changed; the
    multiplexer is free and the channel belongs to none; the applications of the closed
    ports, except for servers that were waiting, are told that the peer is gone, once
    each; and nothing is sent. *)
Theorem rfcomm_disconnect_releases (c : Z) (m : nat) (b : tRFC_MCB) (s : tRFC_CB) :
  rfc_find_lcid_mcb c s = Some m -> mcbs s !! m = Some b -> mcb_state b <> RFC_MX_STATE_IDLE ->
  let s' := RFCOMM_DisconnectInd congests fix_start fix_collision connect boot_time c s in
  ports s' = close_if m <$> ports s /\
  mcbs s' = <[m := zero_mcb kEmpty false]> (mcbs s) /\
  rfc_find_lcid_mcb c s' = None /\
  exists o, out s' = out s ++ o /\
    notified o = heard m PORT_PEER_CONNECTION_FAILED s (length (ports s)) /\ existsb sends o = false.
Proof.
  intros F B S. rewrite (disconnect_closes c m b s F B S). set (s0 := mx_idle m s).
  assert (mcbs s0 !! m = Some (set_mcb_state RFC_MX_STATE_IDLE b)) as B0 by (cbn; by rewrite list_lookup_alter_eq, B).
  destruct (close_ind_swept congests m s0 _ B0 eq_refl) as [W ->]. set (s1 := for_ports _ _ _) in *.
  cbn [lcid link set_mcb_state]. rewrite (find_lcid c m b s F B). destruct W as [P T O M (o & E & N & Q)].
  cbn [ports mcbs out tables with_mcb rfc_timer_stop emit rfc_save_lcid_mcb with_tables]. split; [|split; [|split]].
  - apply list_eq. intros j. rewrite P, list_lookup_fmap. destruct (ports s0 !! j) as [p|] eqn:Pj;
      change (ports s0 !! j) with (ports s !! j) in Pj; rewrite Pj; [|done].
    apply lookup_lt_Some in Pj. by rewrite decide_True.
  - apply list_eq. intros j. destruct (decide (j = m)) as [-> | J].
    + rewrite list_lookup_alter_eq, list_lookup_insert_eq by by eapply lookup_lt_Some.
      rewrite B0 in M. by destruct (mcbs s1 !! m).
    + rewrite list_lookup_alter_ne, list_lookup_insert_ne, O by done. cbn. by rewrite list_lookup_alter_ne.
  - unfold rfc_find_lcid_mcb. cbn [tables with_mcb rfc_timer_stop emit rfc_save_lcid_mcb with_tables rfc_lcid_mcb lcid_entry].
    by rewrite Z.eqb_refl.
  - exists (o ++ [MxTimerStop m]). rewrite E. split; [by rewrite <- app_assoc|]. unfold notified in *.
    rewrite omap_app, N, existsb_app, Q. cbn. by rewrite app_nil_r.
Qed.
End lost.

(** Two peers, with three servers and a client: port 1 is open, port 2 waits for its security
    check, port 3 is open with the other peer, and port 4 is of a client that is connecting. *)
Definition busy : tRFC_CB :=
  after true true ([listen 1; listen 2; listen 3] ++ called peer 0x41 ++ opens 0x41 2 1 ++ asks 0x41 4 ++
    called 0xC 0x42 ++ opens 0x42 6 3 ++ [dial 7 peer]).

Lemma rfcomm_disconnect_releases_witness :
  let s' := RFCOMM_DisconnectInd calm true true (fun _ => 0x40) (fun _ => 0) 0x41 busy in
  (ports s' = close_if 0 <$> ports busy /\ mcbs s' = <[0%nat := zero_mcb kEmpty false]> (mcbs busy) /\
   rfc_find_lcid_mcb 0x41 s' = None /\
   exists o, out s' = out busy ++ o /\
     notified o = heard 0 PORT_PEER_CONNECTION_FAILED busy (length (ports busy)) /\ existsb sends o = false) /\
  heard 0 PORT_PEER_CONNECTION_FAILED busy (length (ports busy)) =
    [(1%nat, PORT_PEER_CONNECTION_FAILED); (4%nat, PORT_PEER_CONNECTION_FAILED)] /\
  (state_of 1 busy, state_of 2 busy, state_of 3 busy, state_of 4 busy) =
    (Some RFC_STATE_OPENED, Some RFC_STATE_TERM_WAIT_SEC_CHECK, Some RFC_STATE_OPENED, Some RFC_STATE_CLOSED) /\
  (in_use <$> ports s' !! 1%nat, in_use <$> ports s' !! 2%nat, in_use <$> ports s' !! 3%nat, in_use <$> ports s' !! 4%nat) =
    (Some true, Some true, Some true, Some false) /\
  (state_of 1 s', state_of 2 s', state_of 3 s') =
    (Some RFC_STATE_CLOSED, Some RFC_STATE_CLOSED, Some RFC_STATE_OPENED).
Proof.
  split.
  - assert (exists b, mcbs busy !! 0%nat = Some b /\ mcb_state b = RFC_MX_STATE_CONNECTED) as (b & B & S)
      by (eexists; split; [vm_compute; reflexivity|reflexivity]).
    apply (rfcomm_disconnect_releases calm true true (fun _ => 0x40) (fun _ => 0) 0x41 0 b busy);
      [vm_compute; reflexivity|exact B|by rewrite S].
  - vm_compute. repeat split.
Defined.
